(* ===== verification/_CoqProject ===== *)
-Q . S2P
Prelude.v
Strings.v
Floats.v
FloatFacts.v
Json.v
Paths.v
BoundedQueue.v
RtspRecovery.v
WhipPolicy.v
DetectionSei.v
SeiSelector.v
Events.v
ConfigData.v
Logging.v
Application.v
TensorLayout.v
Preprocess.v
PreprocessCuda.v
YoloPostprocess.v
Annotator.v
YoloDetector.v
AlertRepository.v
Database.v
AlertSnapshots.v
AlertRules.v
Recording.v
RecordingModule.v
Diagnostics.v
Health.v
ApiState.v
Inference.v
Router.v
RouterFacts.v
StaticFiles.v
WebSocket.v
HttpServer.v
WebServer.v
Cli.v
WebRtcSession.v
GstPipeline.v
RtspSource.v
CaptureLoop.v
Encoder.v
EncoderThread.v
MediaFeed.v
WebRtcManager.v
WhipPublisher.v
Config.v
VideoModules.v
Modules.v
Runtime.v
Service.v
Driven.v
