(* ===== verification/Prelude.v ===== *)
(** * Verification of skai-edge-native

    skai-edge is the service of a camera device: it receives an RTSP stream,
    runs a YOLO detector on it, raises and stores alerts, records MP4 segments,
    serves a web API, and sends the encoded video to browsers (WHEP) and to one
    WHIP endpoint.  The source is C++17 under [src/] (implementation files in
    [src/src], headers in [src/include/skai]).  This library models the parts of
    it that decide something as executable Rocq definitions, keeps the source's
    names, and proves what makes each part correct.

    ** The program's parts and the files that model them

    Shared data and text: [Strings], [Floats], [FloatFacts], [Json] and [Paths]
    model what the source uses of [std::string], [float] and [double], JSON
    escaping and [std::filesystem::path].  [ConfigData] has the configuration
    structures and the GPS module; [Diagnostics] the records the modules report
    and the sampling of the machine's state ([Sampler], [metrics.cpp]);
    [Logging] is [logging.cpp] and TensorRT's log.

    Plumbing.  [BoundedQueue] is [core/bounded_queue.hpp]: [Queue] has one
    definition per member function, [Monitor] the protocol with the mutex and
    the condition variable.  [Events] is [events.cpp], the channel and the
    per-client inbox.  [Application] is [application.cpp]: the lifecycle calls
    run by one caller ([Lifecycle]) and by many ([Concurrent]).

    Video in.  [RtspRecovery] is [video/rtsp_recovery.hpp], the state machine
    that decides when to reconnect; [RtspSource] is [video/rtsp_source.cpp]: the
    source's state ([Source]), an attempt of the capture loop ([Capture]) and the gate
    between signal handlers and the end of a pipeline ([Gate]); [CaptureLoop] is the
    whole capture thread.  [GstPipeline] is
    [video/gstreamer_runtime.cpp], the owner of a GStreamer pipeline and its bus;
    [VideoModules] the modules around source, encoder and ICE.  [TensorLayout],
    [Preprocess] and [YoloPostprocess] are the files of the same names under
    [inference/], on binary32 and binary64; [PreprocessCuda] is the CUDA kernel,
    run by a grid of threads in any order, with the host code around it;
    [YoloDetector] the engine and the detector, with the device memory, streams
    and contexts they hold; [Annotator] is [video/annotator.cpp];
    [Inference] is [inference/yolo_inference_module.cpp], the worker between
    them and the rest of the program.

    Alerts.  [AlertRules] is [AlertManager::process], [AlertSnapshots] the
    files it writes and removes, on a disk that may lose power after any call,
    [AlertRepository] the SQL statements of [storage/alert_repository.cpp] over
    tables, with faults, [Database] opening and migrating the database, and the tool
    that makes an installation's first file.

    Recording.  [Recording] has the controller, the quota and the worker loop
    of [video/recording.cpp]; [RecordingModule] the module around them: segments,
    start, stop and the join of its thread.

    Video out.  [DetectionSei] and [SeiSelector] are [webrtc/detection_sei.cpp]:
    detections as SEI units and which of them go out with which unit.
    [WhipPolicy] is [webrtc/whip_policy.cpp].  [WebRtcSession] and
    [WebRtcManager] are [webrtc/webrtc_manager.cpp]: one viewer, and the manager
    with all its callers.  [WhipPublisher] is [webrtc/whip_publisher.cpp].
    [MediaFeed] is the loop both senders share, together with its producer.
    [Encoder] is [video/h264_encoder.cpp]: the two clocks ([Timeline]) and what the
    worker does with a frame ([Encoder]); [EncoderThread] has the worker in steps, with
    the sample handlers of GStreamer's threads in between.

    Control plane.  [Config] is [config.cpp], from the YAML tree to a validated
    configuration; [Cli] is [cli.cpp]; [Health] is [status.hpp] and [health.cpp];
    [ApiState] is [api_state.hpp]; [Router] is [web/router.cpp] and [RouterFacts]
    its properties; [StaticFiles] is [web/static_file_handler.cpp].  [WebSocket] is
    [web/websocket_session.cpp]; [HttpServer] and [WebServer] are
    [web/http_server.cpp], the connections with the signaling pool, and the list
    of clients with the module's life.

    The whole.  [Runtime] puts source, recorder, viewers and uplink together: who
    is subscribed to whom while calls are pending ([Graph]).  [Service] is
    [runtime.cpp] and [main.cpp]: the modules' order and their probes ([Service]),
    and what a process does from its arguments to its exit code ([Main]).  [Modules]
    has [LifecycleModule] as a type class, its contract as laws, and the service's
    modules as instances; [Driven] runs the application's calls on modules it only knows
    through the class, and builds the service's ([Assembly], the constructor of
    [Runtime]).

    ** How the code is represented

    A class is a record with its members (grouped where there are many); a
    member function is a function from record to record, with its result.  What
    a mutex protects is one step: where a call releases the mutex between two
    critical sections, the sections are separate definitions and the call is a
    sequence of steps that others may come between ([Application.Concurrent],
    [BoundedQueue.Monitor], [MediaFeed.Feed], [WebRtcManager.World],
    [Inference.Inference], [HttpServer.Signaling], [WebSocket.Client],
    [Runtime.Graph], [EncoderThread.EncoderThread]).  Code that
    throws returns a sum ([throws]), [inl] with the text of the exception.  An
    out-of-range access or conversion, undefined in C++, makes the computation
    [None].  Unsigned integers wrap where the source's do ([u8], [u32], [u64]);
    time points are nanoseconds.

    Code outside the repository is a parameter or an input: yaml-cpp's
    conversions and [inet_pton] (Config), the file system (StaticFiles,
    AlertSnapshots), SQLite's failures, GStreamer's answers (Recording,
    RecordingModule, RtspSource, Encoder, GstPipeline), CUDA's and TensorRT's
    (PreprocessCuda, YoloDetector), the kernel's files under /proc and /sys
    (Diagnostics), the sockets (WebSocket, HttpServer), OpenCV's drawing,
    libdatachannel's descriptions, states, packet layouts and tracks
    (WebRtcSession, MediaFeed, WhipPublisher), curl's deliveries, the printing
    of doubles (Router), the clock everywhere.

    Loops are structural where the source's loop walks a container.  Elsewhere
    they take fuel, and a theorem says that the fuel given is enough: the
    search of [SeiSelector.fit_boxes], the feedback loop of
    [WebRtcSession.Nack] (one more than the bytes of the message, since every
    round advances by at least one byte), the backoff loop of [RtspRecovery].
    The CUDA kernel's blend is a parameter, since a compiler may contract it to
    fused operations; the comparison with the CPU path assumes that it did not.

    ** What the theorems show

    - Refinement and concurrency: the queue refines a log with a moving head and
      loses no wake-up; an inbox strands no event; lifecycle calls by any number
      of threads complete; the WebRTC manager keeps its books and loses no
      session in any interleaving, and shutdown always completes.  The HTTP
      server delivers or withdraws every session it created, bounds its signaling
      jobs, knows exactly its open clients and ends; a WebSocket client gets every
      message in order, and nothing it was sent is stranded.
    - Threads: the capture thread ends with its pipeline released, backs off between
      attempts and hands out one stream over all its pipelines; the encoder's worker and
      sample handlers, step by step, mark every break of the stream and carry out a stop.
    - The whole program: the application drives any modules that keep the contract of
      their interface, never makes a call that does not return, and leaves all of them at
      rest; the service's modules keep that contract.  Subscriptions between source, recorder, viewers and uplink
      are consistent whatever calls are pending; the service releases what it
      started on every path out of [main]; the health it reports is that of its
      modules.
    - Resources: the detector frees on the GPU exactly what it allocated, on every
      failure path, and a detector that loaded can detect.
    - Frames: the inference worker shows every frame it took, in order, and
      publishes a result exactly when the detector was not switched meanwhile;
      the RTSP source numbers frames and units without gaps and marks the first
      unit of every pipeline; the encoder accounts for every frame, marks every
      break and keeps one timeline; nothing is drawn outside a picture.
    - What is written or sent can be decoded: the recorder, a WebRTC viewer and
      the WHIP uplink, each for every interleaving with the queue's producer.
      The provisos are stated, and theorems show that they are needed.
    - Durability: alert snapshots and the database agree after a crash at any
      system call, and a restart completes an interrupted clean-up; a migration of
      the database happens entirely or not at all, and opening can be
      repeated after any failure.
    - Exactness: preprocessing, suppression, tensor layouts, the selection of
      detections, alert conditions, health, offers, retransmission and the
      command line are characterized by independent specifications; the CUDA
      kernel computes what the CPU code computes.
    - Round trips: SEI units, configuration documents, alerts in the database,
      query strings, tokens.
    - Safety of the control plane: stale inference results are refused, GET
      requests change nothing, only listed files are served, sessions created
      on a WHIP server are released.
    - Theorems that record defects of the code: a viewer that joins in the middle
      of a group of pictures, the drop counter read after a unit is taken, a
      trailing slash in the alert directory, a restart right after a recording
      failure, a quota that wraps, a token that outlives a failed initialization.

    ** Not modelled

    The computation of the network (TensorRT's own), the accessors by which the runtime
    shows its parts, and the third-party libraries.  Objects that modules share by pointer
    (queues, status board, API state) are modelled by their contents in each model that
    uses them; [Runtime] follows the sharing between the source and its consumers.  Of the modelled
    files: most of the lines the modules log (the logger itself is [Logging]) and
    the trigger of RTCP sender reports.

    This file holds the scopes, the wrap-around arithmetic, the error monad, the
    tactics [zarith], [bools] and [cases], and lemmas on lists and sorting that
    the other files share. *)

From stdpp Require Export base tactics option list numbers strings pretty gmap sorting.
From Stdlib Require Export ZArith Lia.

(** ** Scopes and automation *)

Declare Scope skai_scope.
Delimit Scope skai_scope with skai.
#[global] Open Scope Z_scope.

Create HintDb skai.
Create Rewrite HintDb wrap.
Create Rewrite HintDb strs.

(** ** Machine integers

    C++ unsigned arithmetic wraps; every wrapping operation of the source is
    written with one of these at the point where the source performs it. *)

Definition u8 (z : Z) : Z := z mod 256.
Definition u32 (z : Z) : Z := z mod 4294967296.
Definition u64 (z : Z) : Z := z mod 18446744073709551616.

(** [static_cast<std::int32_t>] of an unsigned value (two's complement). *)
Definition i32 (z : Z) : Z := (z + 2147483648) mod 4294967296 - 2147483648.

Abbreviation u8_max := 255 (only parsing).
Abbreviation u32_max := 4294967295 (only parsing).
Abbreviation u64_max := 18446744073709551615 (only parsing).
Abbreviation int_max := 2147483647 (only parsing).

Definition is_u32 (z : Z) : Prop := 0 <= z <= u32_max.
Definition is_u64 (z : Z) : Prop := 0 <= z <= u64_max.

(** Arithmetic with [/] and [mod] by constants. *)
Ltac zarith := unfold u8, u32, u64, i32, is_u32, is_u64 in *;
  Z.to_euclidean_division_equations; lia.

Lemma u32_range z : 0 <= u32 z <= u32_max.
Proof. zarith. Qed.

Lemma u64_range z : 0 <= u64 z <= u64_max.
Proof. zarith. Qed.

Lemma u32_small z : 0 <= z <= u32_max -> u32 z = z.
Proof. intros. unfold u32. apply Z.mod_small. lia. Qed.

Lemma u64_small z : 0 <= z <= u64_max -> u64 z = z.
Proof. intros. unfold u64. apply Z.mod_small. lia. Qed.

Lemma u64_add_l x y : u64 (u64 x + y) = u64 (x + y).
Proof. unfold u64. apply Zplus_mod_idemp_l. Qed.

Lemma u64_add_r x y : u64 (x + u64 y) = u64 (x + y).
Proof. unfold u64. apply Zplus_mod_idemp_r. Qed.

Lemma u32_add_l x y : u32 (u32 x + y) = u32 (x + y).
Proof. unfold u32. apply Zplus_mod_idemp_l. Qed.

Lemma u32_add_r x y : u32 (x + u32 y) = u32 (x + y).
Proof. unfold u32. apply Zplus_mod_idemp_r. Qed.

Lemma u32_sub_l x y : u32 (u32 x - y) = u32 (x - y).
Proof. unfold u32. apply Zminus_mod_idemp_l. Qed.

Lemma u32_sub_r x y : u32 (x - u32 y) = u32 (x - y).
Proof. unfold u32. apply Zminus_mod_idemp_r. Qed.

(** [i32] only depends on the value modulo 2^32. *)
Lemma i32_u32 z : i32 (u32 z) = i32 z.
Proof. unfold i32, u32. by rewrite Zplus_mod_idemp_l. Qed.

Lemma i32_sub_l x y : i32 (u32 x - y) = i32 (x - y).
Proof. by rewrite <- i32_u32, u32_sub_l, i32_u32. Qed.

Lemma i32_sub_r x y : i32 (x - u32 y) = i32 (x - y).
Proof. by rewrite <- i32_u32, u32_sub_r, i32_u32. Qed.

Lemma i32_small z : - 2147483648 <= z <= int_max -> i32 z = z.
Proof. intros. unfold i32. rewrite Z.mod_small; lia. Qed.

#[export] Hint Resolve u32_range u64_range : skai.
#[export] Hint Rewrite u64_add_l u64_add_r u32_add_l u32_add_r u32_sub_l u32_sub_r i32_u32 i32_sub_l i32_sub_r : wrap.

(** ** Booleans and the error monad of the code that throws *)

(** Split boolean connectives and comparisons in the hypotheses. *)
Ltac bools :=
  repeat match goal with
  | H : _ && _ = true |- _ => apply andb_prop in H; destruct H
  | H : _ || _ = false |- _ => apply orb_false_elim in H; destruct H
  | H : negb _ = true |- _ => apply negb_true_iff in H
  | H : negb _ = false |- _ => apply negb_false_iff in H
  | H : (_ =? _) = true |- _ => apply Z.eqb_eq in H
  | H : (_ =? _) = false |- _ => apply Z.eqb_neq in H
  | H : (_ <? _) = true |- _ => apply Z.ltb_lt in H
  | H : (_ <? _) = false |- _ => apply Z.ltb_ge in H
  | H : (_ <=? _) = true |- _ => apply Z.leb_le in H
  | H : (_ <=? _) = false |- _ => apply Z.leb_gt in H
  | H : bool_decide _ = true |- _ => apply bool_decide_eq_true in H
  | H : bool_decide _ = false |- _ => apply bool_decide_eq_false in H
  end.

(** Case on the scrutinee of every [if] and [match] of the goal. *)
Ltac cases := repeat (case_match; simplify_eq/=).

(** A computation that may throw: [inl] carries the exception's [what()]. *)
Abbreviation throws A := (string + A)%type.

Definition throw {A} (what : string) : throws A := inl what.

Definition tbind {A B} (m : throws A) (k : A -> throws B) : throws B :=
  match m with inl e => inl e | inr a => k a end.

Notation "x <- m ;; k" := (tbind m (fun x => k))
  (at level 100, m at next level, right associativity) : skai_scope.
Notation "m ;;; k" := (tbind m (fun _ => k))
  (at level 100, right associativity) : skai_scope.

Lemma tbind_ok {A B} (m : throws A) (k : A -> throws B) b :
  tbind m k = inr b <-> exists a, m = inr a /\ k a = inr b.
Proof. destruct m; simpl; naive_solver. Qed.

Lemma tbind_err {A B} (m : throws A) (k : A -> throws B) e :
  tbind m k = inl e <-> m = inl e \/ exists a, m = inr a /\ k a = inl e.
Proof. destruct m; simpl; naive_solver. Qed.

(** ** Lists *)

Lemma tail_drop {A} n (l : list A) : tail (drop n l) = drop (S n) l.
Proof. revert n; induction l; intros [|n]; simpl; auto. Qed.

Lemma drop_snoc {A} n (l : list A) x :
  (n <= length l)%nat -> drop n (l ++ [x]) = drop n l ++ [x].
Proof. intros. by rewrite drop_app_le. Qed.

Lemma length_tail {A} (l : list A) : length (tail l) = (length l - 1)%nat.
Proof. destruct l; simpl; lia. Qed.

Lemma filter_perm {A} (P : A -> bool) (l k : list A) :
  l ≡ₚ k -> List.filter P l ≡ₚ List.filter P k.
Proof.
  induction 1 as [|x l k H IH|x y l|l k m H1 IH1 H2 IH2]; simpl; [done|by destruct (P x); rewrite IH| |].
  - destruct (P x), (P y); try done. apply Permutation_swap.
  - by rewrite IH1.
Qed.

Lemma filter_everything {A} (P : A -> Prop) `{!forall x, Decision (P x)} l : Forall P l -> filter P l = l.
Proof. induction 1 as [|x l Hx _ IH]; [done|]. by rewrite filter_cons_True, IH. Qed.

Lemma filter_none {A} (P : A -> bool) (l : list A) :
  (forall x, x ∈ l -> P x = false) -> List.filter P l = [].
Proof.
  induction l as [|x l IH]; intros H; simpl; [done|]. rewrite (H x) by set_solver.
  apply IH. intros. apply H. set_solver.
Qed.

Lemma sublist_Forall {A} (P : A -> Prop) (k l : list A) : k `sublist_of` l -> Forall P l -> Forall P k.
Proof. induction 1; rewrite ?Forall_cons; naive_solver. Qed.

Lemma sublist_sorted {A} (R : A -> A -> Prop) (k l : list A) :
  k `sublist_of` l -> StronglySorted R l -> StronglySorted R k.
Proof.
  induction 1 as [|x k l Hs IH|x k l Hs IH]; intros H;
    [constructor|inversion_clear H..]; [|auto].
  constructor; [auto|]. by eapply sublist_Forall.
Qed.

(** ** Stable sorting

    [std::stable_sort] with the strict order [lt]; also [std::sort] where the
    order is total, so that the result is unique. *)

Section StableSort.
Context {A : Type} (lt : A -> A -> bool).

Fixpoint sinsert (x : A) (l : list A) : list A :=
  match l with
  | [] => [x]
  | y :: ys => if lt y x then y :: sinsert x ys else x :: l
  end.

Definition stable_sort (l : list A) : list A := foldr sinsert [] l.

Lemma sinsert_perm x l : sinsert x l ≡ₚ x :: l.
Proof.
  induction l as [|y ys IH]; simpl; [done|]. destruct (lt y x); [|done].
  rewrite IH. apply Permutation_swap.
Qed.

Lemma stable_sort_perm l : stable_sort l ≡ₚ l.
Proof. induction l as [|x l IH]; simpl; [done|]. by rewrite sinsert_perm, IH. Qed.

Lemma stable_sort_length l : length (stable_sort l) = length l.
Proof. apply Permutation_length, stable_sort_perm. Qed.

Lemma stable_sort_Forall (P : A -> Prop) l : Forall P l -> Forall P (stable_sort l).
Proof. intros. by rewrite stable_sort_perm. Qed.

(** [before a b]: [a] may stand in front of [b]. *)
Definition before (a b : A) : Prop := lt b a = false.

Hypothesis lt_asym : forall a b, lt a b = true -> lt b a = false.
Hypothesis before_trans : forall a b c, before a b -> before b c -> before a c.

Lemma sinsert_sorted x l : StronglySorted before l -> StronglySorted before (sinsert x l).
Proof.
  induction 1 as [|y ys Hs IH Hy]; simpl; [repeat constructor|].
  destruct (lt y x) eqn:E.
  - constructor; [done|]. rewrite sinsert_perm. constructor; [by apply lt_asym|done].
  - constructor; [by constructor|]. constructor; [done|].
    eapply Forall_impl; [exact Hy|]. intros z Hz. by eapply before_trans.
Qed.

Lemma stable_sort_sorted l : StronglySorted before (stable_sort l).
Proof. induction l; simpl; [constructor|by apply sinsert_sorted]. Qed.

(** A list that is in order already is left alone. *)
Lemma sinsert_id x l : Forall (before x) l -> sinsert x l = x :: l.
Proof. destruct 1 as [|y ys H]; simpl; [done|]. unfold before in H. by rewrite H. Qed.

Lemma stable_sort_id l : StronglySorted before l -> stable_sort l = l.
Proof.
  induction 1 as [|x l Hs IH Hx]; simpl; [done|]. rewrite IH. by apply sinsert_id.
Qed.
End StableSort.

(** The same when the order behaves only on the elements of the list. *)
Section StableSortOn.
Context {A : Type} (lt : A -> A -> bool) (P : A -> Prop).
Hypothesis lt_asym : forall a b, P a -> P b -> lt a b = true -> lt b a = false.
Hypothesis before_trans : forall a b c, P a -> P b -> P c ->
  before lt a b -> before lt b c -> before lt a c.

Lemma sinsert_sorted_on x l : P x -> Forall P l ->
  StronglySorted (before lt) l -> StronglySorted (before lt) (sinsert lt x l).
Proof.
  intros Hx Hl. induction 1 as [|y ys Hs IH Hy]; simpl; [repeat constructor|].
  apply Forall_cons in Hl as [Py Pys]. destruct (lt y x) eqn:E.
  - constructor; [auto|]. rewrite sinsert_perm. constructor; [by apply lt_asym|done].
  - constructor; [by constructor|]. constructor; [done|].
    rewrite Forall_forall in Hy, Pys |- *. intros z Hz. eapply before_trans; [..|by apply Hy]; auto.
Qed.

Lemma stable_sort_sorted_on l : Forall P l -> StronglySorted (before lt) (stable_sort lt l).
Proof.
  induction 1; simpl; [constructor|]. apply sinsert_sorted_on; auto. by apply stable_sort_Forall.
Qed.
End StableSortOn.
