(* ===== verification/Strings.v ===== *)
(** * The parts of [std::string] the program uses

    A [std::string] is a Rocq [string] (a sequence of bytes); positions are
    [nat] and [npos] is [None].  Searching and slicing are defined on the list
    of characters so that the list lemmas apply. *)

From S2P Require Import Prelude.
From Stdlib Require Export Ascii.

#[global] Open Scope string_scope.
#[global] Open Scope list_scope.
#[global] Open Scope Z_scope.

Definition chars (s : string) : list ascii := String.list_ascii_of_string s.
Definition str (l : list ascii) : string := String.string_of_list_ascii l.

Definition str_length (s : string) : nat := length (chars s).
Definition str_take (n : nat) (s : string) : string := str (take n (chars s)).
Definition str_drop (n : nat) (s : string) : string := str (drop n (chars s)).

(** [substr(pos, count)]; [count = None] is [npos]. *)
Definition substr (s : string) (pos : nat) (count : option nat) : string :=
  match count with
  | Some n => str_take n (str_drop pos s)
  | None => str_drop pos s
  end.

(** [find_first_of(set, pos)] and [find(c, pos)]. *)
Definition find_if (P : ascii -> bool) (s : string) (pos : nat) : option nat :=
  (fun p => pos + p.1)%nat <$> list_find (fun c => P c = true) (drop pos (chars s)).

Definition find_char (c : ascii) (s : string) (pos : nat) : option nat :=
  find_if (Ascii.eqb c) s pos.

Definition in_set (set : string) (c : ascii) : bool := existsb (Ascii.eqb c) (chars set).
Definition find_first_of (set s : string) (pos : nat) : option nat :=
  find_if (in_set set) s pos.
Definition find_first_not_of (set s : string) (pos : nat) : option nat :=
  find_if (fun c => negb (in_set set c)) s pos.

(** [rfind(c)] / [find_last_of(c)]. *)
Definition rfind_char (c : ascii) (s : string) : option nat :=
  (fun p => length (chars s) - 1 - p.1)%nat <$>
    list_find (fun d => Ascii.eqb c d = true) (reverse (chars s)).

Definition front (s : string) : option ascii := head (chars s).
Definition char_at (s : string) (i : nat) : option ascii := chars s !! i.

(** [s.rfind(p, 0) == 0]. *)
Definition starts_with (p s : string) : bool :=
  bool_decide (take (length (chars p)) (chars s) = chars p).

Definition contains_char (c : ascii) (s : string) : bool :=
  bool_decide (is_Some (find_char c s 0)).

(** Byte values of a string. *)
Definition byte_of (c : ascii) : Z := Z.of_N (Ascii.N_of_ascii c).
Definition bytes (s : string) : list Z := byte_of <$> chars s.
Definition chr (z : Z) : ascii := Ascii.ascii_of_N (Z.to_N z).

(** ** Lemmas *)

Lemma str_chars s : str (chars s) = s.
Proof. apply String.string_of_list_ascii_of_string. Qed.

Lemma chars_str l : chars (str l) = l.
Proof. apply String.list_ascii_of_string_of_list_ascii. Qed.

Lemma chars_inj s t : chars s = chars t -> s = t.
Proof. intros H%(f_equal str). by rewrite !str_chars in H. Qed.

Lemma chars_app s t : chars (s +:+ t) = chars s ++ chars t.
Proof. induction s; simpl; [done|]. unfold chars in *. simpl. by f_equal. Qed.

Lemma str_app l k : str (l ++ k) = str l +:+ str k.
Proof. apply chars_inj. by rewrite chars_app, !chars_str. Qed.

Lemma str_app_assoc s t u : s +:+ (t +:+ u) = (s +:+ t) +:+ u.
Proof. apply chars_inj. by rewrite !chars_app, app_assoc. Qed.

Lemma chars_nil s : chars s = [] <-> s = "".
Proof. split; [destruct s; [done|discriminate]|by intros ->]. Qed.

Lemma starts_with_spec p s : starts_with p s = true <-> exists t, s = p +:+ t.
Proof.
  unfold starts_with. rewrite bool_decide_eq_true. split.
  - intros H. exists (str (drop (length (chars p)) (chars s))). apply chars_inj.
    rewrite chars_app, chars_str. rewrite <- H at 1. by rewrite take_drop.
  - intros [t ->]. by rewrite chars_app, take_app_length.
Qed.

Lemma chars_str_take n s : chars (str_take n s) = take n (chars s).
Proof. apply chars_str. Qed.

Lemma chars_str_drop n s : chars (str_drop n s) = drop n (chars s).
Proof. apply chars_str. Qed.

Lemma str_take_drop n s : str_take n s +:+ str_drop n s = s.
Proof. apply chars_inj. by rewrite chars_app, chars_str_take, chars_str_drop, take_drop. Qed.

Lemma find_if_Some P s pos i :
  find_if P s pos = Some i <->
  (pos <= i)%nat /\ (exists c, chars s !! i = Some c /\ P c = true) /\
  (forall j c, (pos <= j < i)%nat -> chars s !! j = Some c -> P c = false).
Proof.
  unfold find_if. rewrite fmap_Some. split.
  - intros ([k c] & H & ->). simpl. apply list_find_Some in H as (H1 & H2 & H3).
    rewrite lookup_drop in H1. split; [lia|]. split; [by eauto|].
    intros j d Hj Hd. destruct (P d) eqn:E; [|done]. exfalso.
    apply (H3 (j - pos)%nat d); [|lia|done].
    rewrite lookup_drop. by replace (pos + (j - pos))%nat with j by lia.
  - intros (Hp & (c & Hc & HP) & Hj). exists ((i - pos)%nat, c). simpl. split; [|lia].
    apply list_find_Some. rewrite lookup_drop.
    replace (pos + (i - pos))%nat with i by lia. split_and!; auto.
    intros j y Hy Hlt. rewrite lookup_drop in Hy.
    rewrite (Hj (pos + j)%nat y); [done|lia|done].
Qed.

Lemma find_if_None P s pos :
  find_if P s pos = None <->
  forall j c, (pos <= j)%nat -> chars s !! j = Some c -> P c = false.
Proof.
  unfold find_if. rewrite fmap_None, list_find_None, Forall_lookup. split.
  - intros H j c Hj Hc. apply not_true_is_false. apply (H (j - pos)%nat).
    rewrite lookup_drop. by replace (pos + (j - pos))%nat with j by lia.
  - intros H i c Hc. rewrite lookup_drop in Hc. rewrite (H (pos + i)%nat c); [done|lia|done].
Qed.

Lemma find_char_Some c s pos i :
  find_char c s pos = Some i <->
  (pos <= i)%nat /\ chars s !! i = Some c /\
  (forall j, (pos <= j < i)%nat -> chars s !! j <> Some c).
Proof.
  unfold find_char. rewrite find_if_Some. split.
  - intros (Hp & (d & Hd & E) & H). apply Ascii.eqb_eq in E as <-. split_and!; auto.
    intros j Hj Hc. specialize (H j c Hj Hc). by rewrite Ascii.eqb_refl in H.
  - intros (Hp & Hc & H). split_and!; auto; [exists c; by rewrite Ascii.eqb_refl|].
    intros j d Hj Hd. apply Ascii.eqb_neq. intros <-. by apply (H j).
Qed.

Lemma rfind_char_Some c s i :
  rfind_char c s = Some i <->
  chars s !! i = Some c /\ (forall j, (i < j)%nat -> chars s !! j <> Some c).
Proof.
  unfold rfind_char. rewrite fmap_Some. set (l := chars s). split.
  - intros ([k d] & H & ->). simpl. apply list_find_Some in H as (H1 & H2 & H3).
    apply Ascii.eqb_eq in H2 as <-. apply lookup_lt_Some in H1 as Hk.
    rewrite length_reverse in Hk. rewrite reverse_lookup in H1 by lia.
    replace (length l - S k)%nat with (length l - 1 - k)%nat in H1 by lia.
    split; [done|]. intros j Hj Hc. apply lookup_lt_Some in Hc as Hl.
    apply (H3 (length l - 1 - j)%nat c); [|lia|by rewrite Ascii.eqb_refl].
    rewrite reverse_lookup by lia. replace (length l - S (length l - 1 - j))%nat with j by lia. done.
  - intros (Hc & H). apply lookup_lt_Some in Hc as Hl.
    exists ((length l - 1 - i)%nat, c). simpl. split; [|lia]. apply list_find_Some.
    rewrite reverse_lookup by lia. replace (length l - S (length l - 1 - i))%nat with i by lia.
    split_and!; auto; [by rewrite Ascii.eqb_refl|].
    intros j d Hd Hlt E. apply Ascii.eqb_eq in E as <-. rewrite reverse_lookup in Hd by lia.
    apply (H (length l - S j)%nat); [lia|done].
Qed.

Lemma rfind_char_None c s : rfind_char c s = None <-> forall j, chars s !! j <> Some c.
Proof.
  unfold rfind_char. rewrite fmap_None, list_find_None, Forall_reverse, Forall_lookup. split.
  - intros H j Hc. apply (H j c Hc). by rewrite Ascii.eqb_refl.
  - intros H j d Hd E. apply Ascii.eqb_eq in E as <-. by apply (H j).
Qed.

Lemma contains_char_spec c s : contains_char c s = true <-> c ∈ chars s.
Proof.
  unfold contains_char. rewrite bool_decide_eq_true, list_elem_of_lookup. split.
  - intros [i Hi]. apply find_char_Some in Hi as (_ & Hi & _). by exists i.
  - intros [i Hi]. destruct (find_char c s 0) eqn:E; [by eexists|].
    unfold find_char in E. rewrite find_if_None in E.
    specialize (E i c ltac:(lia) Hi). by rewrite Ascii.eqb_refl in E.
Qed.

Lemma find_char_None c s pos :
  find_char c s pos = None <-> forall j, (pos <= j)%nat -> chars s !! j <> Some c.
Proof.
  unfold find_char. rewrite find_if_None. split.
  - intros H j Hj Hc. specialize (H j c Hj Hc). by rewrite Ascii.eqb_refl in H.
  - intros H j d Hj Hd. apply Ascii.eqb_neq. intros <-. by apply (H j).
Qed.

(** Searching and slicing behind a known prefix. *)
Lemma find_char_split c s pre mid post : chars s = pre ++ mid ++ c :: post -> c ∉ mid ->
  find_char c s (length pre) = Some (length pre + length mid)%nat.
Proof.
  intros E Hc. apply find_char_Some. rewrite E. split_and!; [lia| |].
  - rewrite lookup_app_r by lia. rewrite lookup_app_r by lia.
    by replace (_ - _ - _)%nat with 0%nat by lia.
  - intros j Hj Hl. rewrite lookup_app_r in Hl by lia. rewrite lookup_app_l in Hl by lia.
    apply Hc. by eapply list_elem_of_lookup_2.
Qed.

Lemma find_char_absent c s pre rest : chars s = pre ++ rest -> c ∉ rest -> find_char c s (length pre) = None.
Proof.
  intros E Hc. apply find_char_None. intros j Hj Hl. rewrite E, lookup_app_r in Hl by lia.
  apply Hc. by eapply list_elem_of_lookup_2.
Qed.

Lemma substr_split s pre mid post : chars s = pre ++ mid ++ post -> substr s (length pre) (Some (length mid)) = str mid.
Proof.
  intros E. unfold substr, str_take. f_equal. rewrite chars_str_drop, E, drop_app_length. by rewrite take_app_length.
Qed.

Lemma substr_rest s pre rest : chars s = pre ++ rest -> substr s (length pre) None = str rest.
Proof. intros E. unfold substr, str_drop. by rewrite E, drop_app_length. Qed.

Lemma byte_of_range c : 0 <= byte_of c <= 255.
Proof.
  unfold byte_of. pose proof (Ascii.N_ascii_bounded c). lia.
Qed.

Lemma chr_byte_of c : chr (byte_of c) = c.
Proof. unfold chr, byte_of. rewrite N2Z.id. apply Ascii.ascii_N_embedding. Qed.

Lemma byte_of_chr z : 0 <= z <= 255 -> byte_of (chr z) = z.
Proof. intros. unfold chr, byte_of. rewrite Ascii.N_ascii_embedding; lia. Qed.

Lemma bytes_app s t : bytes (s +:+ t) = bytes s ++ bytes t.
Proof. unfold bytes. by rewrite chars_app, fmap_app. Qed.

Lemma bytes_range s : Forall (fun b => 0 <= b <= 255) (bytes s).
Proof. apply Forall_fmap, Forall_true. intros c. apply byte_of_range. Qed.

#[export] Hint Rewrite chars_app chars_str chars_str_take chars_str_drop bytes_app : strs.

(** ** Decimal numbers *)

Definition digit (d : Z) : ascii := chr (48 + d).

Fixpoint dec_aux (fuel : nat) (n : Z) (acc : list ascii) : list ascii :=
  match fuel with
  | O => acc
  | S fuel =>
    let acc := digit (n mod 10) :: acc in
    if n <? 10 then acc else dec_aux fuel (n / 10) acc
  end.

(** Decimal digits of a natural number; one iteration per digit, and a number
    has at most one digit per bit. *)
Definition dec (n : Z) : list ascii := dec_aux (S (Z.to_nat (Z.log2 n))) n [].

(** [std::to_string] of an integer. *)
Definition to_string (z : Z) : string :=
  if z <? 0 then "-" +:+ str (dec (- z)) else str (dec z).

Definition digit_value (c : ascii) : option Z :=
  let v := byte_of c - 48 in if (0 <=? v) && (v <=? 9) then Some v else None.

Definition is_digit (c : ascii) : bool := bool_decide (is_Some (digit_value c)).

(** Value of a run of digits. *)
Fixpoint read_dec (l : list ascii) (acc : Z) : option Z :=
  match l with
  | [] => Some acc
  | c :: rest => match digit_value c with
                 | Some d => read_dec rest (acc * 10 + d)
                 | None => None
                 end
  end.

Lemma digit_value_digit d : 0 <= d <= 9 -> digit_value (digit d) = Some d.
Proof.
  intros. unfold digit_value, digit. rewrite byte_of_chr by lia.
  replace (48 + d - 48) with d by lia.
  rewrite (proj2 (Z.leb_le 0 d)), (proj2 (Z.leb_le d 9)) by lia. done.
Qed.

Lemma read_dec_app l k acc : read_dec (l ++ k) acc = read_dec l acc ≫= read_dec k.
Proof. revert acc; induction l as [|c l IH]; intros acc; simpl; [done|]. by case_match. Qed.

Lemma read_dec_nonneg l acc n : 0 <= acc -> read_dec l acc = Some n -> 0 <= n.
Proof.
  revert acc. induction l as [|c l IH]; intros acc Ha; simpl; [by intros [= <-]|].
  unfold digit_value. destruct ((0 <=? _) && _) eqn:E; [|done]. bools. apply IH. lia.
Qed.

Lemma dec_aux_read fuel n acc :
  0 <= n < 2 ^ Z.of_nat (S fuel) ->
  exists l, dec_aux (S fuel) n acc = l ++ acc /\ l <> [] /\
    Forall (fun c => is_digit c = true) l /\ read_dec l 0 = Some n /\
    (forall k : nat, (1 <= k)%nat -> n < 10 ^ Z.of_nat k -> (length l <= k)%nat).
Proof.
  assert (Hd : forall d, 0 <= d <= 9 -> is_digit (digit d) = true).
  { intros d Hd. unfold is_digit. rewrite digit_value_digit by done. done. }
  revert n acc; induction fuel as [|fuel IH]; intros n acc Hn.
  - exists [digit n]. change (2 ^ Z.of_nat 1) with 2 in Hn. cbn [dec_aux].
    rewrite Z.mod_small by lia. rewrite (proj2 (Z.ltb_lt _ _)) by lia. split_and!; try done.
    + constructor; [apply Hd; lia|constructor].
    + simpl. rewrite digit_value_digit by lia. done.
  - cbn [dec_aux]. destruct (n <? 10) eqn:E; bools.
    + exists [digit n]. rewrite Z.mod_small by lia. split_and!; try done.
      * constructor; [apply Hd; lia|constructor].
      * simpl. rewrite digit_value_digit by lia. done.
    + assert (Hm : 0 <= n mod 10 <= 9) by zarith.
      destruct (IH (n / 10) (digit (n mod 10) :: acc)) as (l & Hl & Hne & Hf & Hr & Hk).
      { rewrite (Nat2Z.inj_succ (S fuel)), Z.pow_succ_r in Hn by lia. zarith. }
      exists (l ++ [digit (n mod 10)]). split_and!.
      * rewrite <- app_assoc. exact Hl.
      * by destruct l.
      * apply Forall_app. split; [done|]. constructor; [by apply Hd|constructor].
      * rewrite read_dec_app, Hr. simpl. rewrite digit_value_digit by done. f_equal. zarith.
      * intros k Hk1 Hkn. rewrite length_app. simpl.
        destruct k as [|[|k]]; [lia|change (10 ^ Z.of_nat 1) with 10 in Hkn; lia|].
        assert (length l <= S k)%nat; [|lia]. apply Hk; [lia|].
        rewrite (Nat2Z.inj_succ (S k)), Z.pow_succ_r in Hkn by lia. zarith.
Qed.

Lemma dec_spec n :
  0 <= n -> dec n <> [] /\ Forall (fun c => is_digit c = true) (dec n) /\
  read_dec (dec n) 0 = Some n /\
  (forall k : nat, (1 <= k)%nat -> n < 10 ^ Z.of_nat k -> (length (dec n) <= k)%nat).
Proof.
  intros Hn. unfold dec.
  destruct (dec_aux_read (Z.to_nat (Z.log2 n)) n []) as (l & -> & ?).
  - split; [done|]. rewrite Nat2Z.inj_succ, Z2Nat.id by apply Z.log2_nonneg.
    destruct (decide (n = 0)) as [->|]; [done|]. apply Z.log2_spec. lia.
  - by rewrite app_nil_r.
Qed.
