(* ===== verification/Floats.v ===== *)
(** * IEEE 754 values as the program uses them

    [float] and [double] are [spec_float] values of the Standard Library, with
    the operations of its binary32 (precision 24) and binary64 (precision 53)
    instances, rounding to nearest even.  Conversions and the functions of
    [<cmath>] and [<algorithm>] used by the source are defined here, and the
    comparison is shown to be a total preorder on the values that are not NaN. *)

From S2P Require Import Prelude.
From Stdlib Require Export SpecFloat.

Abbreviation float32 := spec_float (only parsing).
Abbreviation float64 := spec_float (only parsing).

(** ** Conversions *)

Definition f64_of_Z (z : Z) : float64 := binary_normalize 53 1024 z 0 false.
Definition f32_of_Z (z : Z) : float32 := binary_normalize 24 128 z 0 false.

(** [static_cast<double>(float)] and [static_cast<float>(double)]. *)
Definition f64_of_f32 (x : float32) : float64 :=
  match x with
  | S754_finite s m e => binary_normalize 53 1024 (cond_Zopp s (Zpos m)) e s
  | _ => x
  end.
Definition f32_of_f64 (x : float64) : float32 :=
  match x with
  | S754_finite s m e => binary_normalize 24 128 (cond_Zopp s (Zpos m)) e s
  | _ => x
  end.

Definition f64_add := SFadd 53 1024.
Definition f64_sub := SFsub 53 1024.
Definition f64_mul := SFmul 53 1024.
Definition f64_div := SFdiv 53 1024.
Definition f32_add := SFadd 24 128.
Definition f32_sub := SFsub 24 128.
Definition f32_mul := SFmul 24 128.
Definition f32_div := SFdiv 24 128.

Definition f64_zero : float64 := S754_zero false.
Definition f64_one : float64 := f64_of_Z 1.
Definition f64_half : float64 := f64_div (f64_of_Z 1) (f64_of_Z 2).

(** ** Predicates and comparisons; [a > b] is [flt b a] *)

Definition isfinite (x : spec_float) : bool :=
  match x with S754_zero _ | S754_finite _ _ _ => true | _ => false end.
Definition is_nan (x : spec_float) : bool :=
  match x with S754_nan => true | _ => false end.

Definition flt (a b : spec_float) : bool := SFltb a b.
Definition fle (a b : spec_float) : bool := SFleb a b.
Definition feq (a b : spec_float) : bool := SFeqb a b.

(** [std::max], [std::min] and [std::clamp]. *)
Definition fmax (a b : spec_float) : spec_float := if flt a b then b else a.
Definition fmin (a b : spec_float) : spec_float := if flt b a then b else a.
Definition fclamp (v lo hi : spec_float) : spec_float :=
  if flt v lo then lo else if flt hi v then hi else v.

(** ** Rounding to integers

    The value of a finite number is [(-1)^s * m * 2^e].  [None]: not finite. *)

Definition abs_round (m : positive) (e : Z) : Z :=
  if 0 <=? e then Zpos m * 2 ^ e else (Zpos m + 2 ^ (- e - 1)) / 2 ^ (- e).
Definition abs_floor (m : positive) (e : Z) : Z :=
  if 0 <=? e then Zpos m * 2 ^ e else Zpos m / 2 ^ (- e).
Definition abs_ceil (m : positive) (e : Z) : Z :=
  if 0 <=? e then Zpos m * 2 ^ e else (Zpos m + 2 ^ (- e) - 1) / 2 ^ (- e).

(** Half away from zero, as [std::round] and [std::llround]. *)
Definition round_Z (x : spec_float) : option Z :=
  match x with
  | S754_zero _ => Some 0
  | S754_finite s m e => Some (cond_Zopp s (abs_round m e))
  | _ => None
  end.
Definition floor_Z (x : spec_float) : option Z :=
  match x with
  | S754_zero _ => Some 0
  | S754_finite false m e => Some (abs_floor m e)
  | S754_finite true m e => Some (- abs_ceil m e)
  | _ => None
  end.
Definition ceil_Z (x : spec_float) : option Z :=
  match x with
  | S754_zero _ => Some 0
  | S754_finite false m e => Some (abs_ceil m e)
  | S754_finite true m e => Some (- abs_floor m e)
  | _ => None
  end.

(** [std::round] of a double: the integer value, with the sign of a zero kept. *)
Definition f64_round (x : float64) : float64 :=
  match x with
  | S754_finite s m e => binary_normalize 53 1024 (cond_Zopp s (abs_round m e)) 0 s
  | _ => x
  end.

(** ** Order *)

(** [SFcompare] is the lexicographic comparison of this key. *)
Definition fkey (x : spec_float) : Z * Z * Z :=
  match x with
  | S754_nan => (3, 0, 0)
  | S754_infinity true => (-2, 0, 0)
  | S754_finite true m e => (-1, - e, - Zpos m)
  | S754_zero _ => (0, 0, 0)
  | S754_finite false m e => (1, e, Zpos m)
  | S754_infinity false => (2, 0, 0)
  end.

Definition klt (a b : Z * Z * Z) : Prop :=
  a.1.1 < b.1.1 \/ a.1.1 = b.1.1 /\ (a.1.2 < b.1.2 \/ a.1.2 = b.1.2 /\ a.2 < b.2).

(** Settle a comparison whose arguments are constructors. *)
Local Ltac settle :=
  split; [intros; discriminate || (split_and!; try done; lia)
         | intros (? & ? & ?); try done; lia].

Local Ltac compare_cases a b :=
  destruct a as [[]|[]| |[] m1 e1], b as [[]|[]| |[] m2 e2]; simpl; try settle;
  destruct (Z.compare_spec e1 e2); simpl; try settle;
  change (Pos.compare_cont Eq m1 m2) with (Pos.compare m1 m2);
  destruct (Pos.compare_spec m1 m2); simpl; settle.

Lemma flt_key a b :
  flt a b = true <-> is_nan a = false /\ is_nan b = false /\ klt (fkey a) (fkey b).
Proof. unfold flt, SFltb, SFcompare, klt. compare_cases a b. Qed.

Lemma fle_key a b :
  fle a b = true <-> is_nan a = false /\ is_nan b = false /\ ~ klt (fkey b) (fkey a).
Proof. unfold fle, SFleb, SFcompare, klt. compare_cases a b. Qed.

Lemma feq_key a b :
  feq a b = true <-> is_nan a = false /\ is_nan b = false /\ fkey a = fkey b.
Proof.
  unfold feq, SFeqb, SFcompare.
  destruct a as [[]|[]| |[] m1 e1], b as [[]|[]| |[] m2 e2]; simpl; try (by split; naive_solver);
  destruct (Z.compare_spec e1 e2); simpl; try (split; [done|intros (_ & _ & [=]); lia]);
  change (Pos.compare_cont Eq m1 m2) with (Pos.compare m1 m2);
  destruct (Pos.compare_spec m1 m2); simpl;
  (split; [intros; split_and!; try done; congruence || discriminate
          |intros (_ & _ & [=]); try done; lia]).
Qed.

(** Decide goals about the order of floating-point values. *)
Ltac forder :=
  repeat match goal with
  | H : flt _ _ = true |- _ => apply flt_key in H as (? & ? & ?)
  | H : fle _ _ = true |- _ => apply fle_key in H as (? & ? & ?)
  | H : flt _ _ = false |- _ => rewrite <- not_true_iff_false, flt_key in H
  | H : fle _ _ = false |- _ => rewrite <- not_true_iff_false, fle_key in H
  | |- flt _ _ = true => apply flt_key
  | |- fle _ _ = true => apply fle_key
  | |- flt _ _ = false => rewrite <- not_true_iff_false, flt_key
  | |- fle _ _ = false => rewrite <- not_true_iff_false, fle_key
  end;
  unfold klt in *; try tauto; intuition (try congruence; try lia).

Lemma flt_trans a b c : flt a b = true -> flt b c = true -> flt a c = true.
Proof. intros. forder. Qed.

Lemma fle_trans a b c : fle a b = true -> fle b c = true -> fle a c = true.
Proof. intros. forder. Qed.

Lemma flt_le a b : flt a b = true -> fle a b = true.
Proof. intros. forder. Qed.

Lemma flt_irrefl a : flt a a = false.
Proof. forder. Qed.

Lemma fle_refl a : is_nan a = false -> fle a a = true.
Proof. intros. forder. Qed.

Lemma flt_asym a b : flt a b = true -> flt b a = false.
Proof. intros. forder. Qed.

Lemma fle_not_lt a b :
  is_nan a = false -> is_nan b = false -> fle a b = negb (flt b a).
Proof.
  intros. destruct (flt b a) eqn:E; simpl; [forder|]. forder.
Qed.

Lemma fclamp_bounds v lo hi :
  is_nan v = false -> fle lo hi = true ->
  fle lo (fclamp v lo hi) = true /\ fle (fclamp v lo hi) hi = true.
Proof.
  intros Hv H. unfold fclamp. destruct (flt v lo) eqn:E1; [split; forder|].
  destruct (flt hi v) eqn:E2; split; forder.
Qed.

Lemma isfinite_not_nan x : isfinite x = true -> is_nan x = false.
Proof. by destruct x. Qed.
