(* ===== verification/FloatFacts.v ===== *)
(** * When a rounded operation is a number

    Rounding never produces a NaN, and it produces an infinity only from an
    exponent out of range.  From these: the sums, differences and products of
    finite doubles are never NaN, an integer of an [int] converts exactly, and
    the quotient of two positive [int]s is finite. *)

From S2P Require Import Prelude Floats.

Abbreviation round64 := (binary_round_aux 53 1024).

(** ** Shifting keeps the mantissa in range *)

Lemma iter_pos_inv {A} (P : A -> Prop) (f : A -> A) p x :
  (forall y, P y -> P (f y)) -> P x -> P (iter_pos f p x).
Proof. intros Hf. revert x; induction p; intros x Hx; simpl; auto. Qed.

Lemma shr_1_range k mrs : 0 <= shr_m mrs < k -> 0 <= shr_m (shr_1 mrs) < k.
Proof. destruct mrs as [[|[p|p|]|[p|p|]] r s]; simpl; lia. Qed.

Lemma shr_range k mrs e n : 0 <= shr_m mrs < k -> 0 <= shr_m (shr mrs e n).1 < k.
Proof.
  intros H. destruct n as [|p|p]; simpl; [done| |done].
  apply (iter_pos_inv (fun m => 0 <= shr_m m < k)); [apply shr_1_range|done].
Qed.

Lemma shr_record_of_loc_m m l : shr_m (shr_record_of_loc m l) = m.
Proof. by destruct l as [|[]]. Qed.

Lemma shr_fexp_range prec emax k m e l :
  0 <= m < k -> 0 <= shr_m (shr_fexp prec emax m e l).1 < k.
Proof. intros. apply shr_range. by rewrite shr_record_of_loc_m. Qed.

Lemma shr_fexp_exp prec emax m e l :
  (shr_fexp prec emax m e l).2 = Z.max e (fexp prec emax (Zdigits2 m + e)).
Proof.
  unfold shr_fexp, shr. destruct (_ - _) as [|p|p] eqn:E; simpl; lia.
Qed.

Lemma round_nearest_even_range m l : m <= round_nearest_even m l <= m + 1.
Proof. destruct l as [|[]]; simpl; try lia. destruct (Z.even m); lia. Qed.

Lemma digits2_bound m k : 0 <= k -> 0 <= m < 2 ^ k -> Zdigits2 m <= k.
Proof.
  destruct m as [|p|p]; simpl; [lia| |lia]. revert k.
  induction p as [p IH|p IH|]; intros k Hk Hm; simpl.
  1,2: assert (1 <= k) by (destruct (Z.eq_dec k 0); [subst; simpl in Hm; lia|lia]);
    specialize (IH (k - 1) ltac:(lia)); replace k with (Z.succ (k - 1)) in Hm by lia;
    rewrite Z.pow_succ_r in Hm by lia; lia.
  destruct (Z.eq_dec k 0); [subst; simpl in Hm; lia|lia].
Qed.

(** ** Rounding *)

Lemma round_not_nan prec emax s m e l :
  0 <= m -> is_nan (binary_round_aux prec emax s m e l) = false.
Proof.
  intros Hm. unfold binary_round_aux.
  pose proof (shr_fexp_range prec emax (m + 1) m e l ltac:(lia)) as H1.
  destruct (shr_fexp prec emax m e l) as [mrs e'] eqn:E1. simpl in H1.
  pose proof (round_nearest_even_range (shr_m mrs) (loc_of_shr_record mrs)) as Hr.
  set (m' := round_nearest_even _ _) in *.
  pose proof (shr_fexp_range prec emax (m' + 1) m' e' loc_Exact ltac:(lia)) as H2.
  destruct (shr_fexp prec emax m' e' loc_Exact) as [mrs' e'']. simpl in H2.
  destruct (shr_m mrs') as [|p|p]; [done| |lia]. by destruct (_ <=? _).
Qed.

Lemma round64_finite s m e l :
  0 <= m < 2 ^ 64 -> e <= 800 -> isfinite (round64 s m e l) = true.
Proof.
  intros Hm He. unfold binary_round_aux.
  pose proof (shr_fexp_range 53 1024 (2 ^ 64) m e l Hm) as H1.
  pose proof (shr_fexp_exp 53 1024 m e l) as X1.
  pose proof (digits2_bound m 64 ltac:(lia) Hm) as D1.
  destruct (shr_fexp 53 1024 m e l) as [mrs e']. simpl in H1, X1.
  pose proof (round_nearest_even_range (shr_m mrs) (loc_of_shr_record mrs)) as Hr.
  set (m' := round_nearest_even _ _) in *.
  pose proof (shr_fexp_range 53 1024 (m' + 1) m' e' loc_Exact ltac:(lia)) as H2.
  pose proof (shr_fexp_exp 53 1024 m' e' loc_Exact) as X2.
  pose proof (digits2_bound m' 65 ltac:(lia) ltac:(lia)) as D2.
  destruct (shr_fexp 53 1024 m' e' loc_Exact) as [mrs' e'']. simpl in H2, X2.
  unfold fexp, emin in X1, X2.
  destruct (shr_m mrs') as [|p|p]; [done| |lia].
  rewrite (proj2 (Z.leb_le e'' _)) by lia. done.
Qed.

(** Shifting divides the mantissa by a power of two. *)
Lemma shr_1_half mrs : 0 <= shr_m mrs -> shr_m (shr_1 mrs) = shr_m mrs / 2.
Proof.
  destruct mrs as [[|[p|p|]|p] r s]; simpl; try lia; intros _; by rewrite <- Z.div2_div.
Qed.

Lemma shr_lower k j mrs e n : 0 <= j <= k -> n <= k - j -> 2 ^ k <= shr_m mrs ->
  2 ^ j <= shr_m (shr mrs e n).1.
Proof.
  intros Hj Hn Hm.
  assert (2 ^ j <= 2 ^ k) by (apply Z.pow_le_mono_r; lia).
  destruct n as [|p|p]; simpl; [lia| |lia].
  assert (G : forall x i, 0 <= i -> 2 ^ (Zpos p + i) <= shr_m x ->
            2 ^ i <= shr_m (iter_pos shr_1 p x)).
  { clear. induction p as [p IH|p IH|]; intros x i Hi Hx; simpl.
    - apply IH; [done|]. apply IH; [lia|].
      assert (0 <= shr_m x) by (transitivity (2 ^ (Zpos p~1 + i)); [apply Z.pow_nonneg; lia|done]).
      rewrite shr_1_half by done. apply Z.div_le_lower_bound; [lia|].
      rewrite <- Z.pow_succ_r by lia. by replace (Z.succ (Zpos p + (Zpos p + i))) with (Zpos p~1 + i) by lia.
    - apply IH; [done|]. apply IH; [lia|]. by replace (Zpos p + (Zpos p + i)) with (Zpos p~0 + i) by lia.
    - assert (0 <= shr_m x) by (transitivity (2 ^ (1 + i)); [apply Z.pow_nonneg; lia|done]).
      rewrite shr_1_half by done. apply Z.div_le_lower_bound; [lia|].
      rewrite <- Z.pow_succ_r by lia. by replace (Z.succ i) with (1 + i) by lia. }
  transitivity (2 ^ (k - Zpos p)); [apply Z.pow_le_mono_r; lia|].
  apply G; [lia|]. by replace (Zpos p + (k - Zpos p)) with k by lia.
Qed.

(** A mantissa of at least 53 bits with a moderate exponent stays non-zero. *)
Lemma round64_finite_nonzero s m e l : 2 ^ 52 <= m < 2 ^ 64 -> -800 <= e <= 800 ->
  exists m' e', round64 s m e l = S754_finite s m' e'.
Proof.
  intros Hm He. pose proof (round64_finite s m e l ltac:(lia) ltac:(lia)) as Hfin.
  unfold binary_round_aux in *.
  pose proof (digits2_bound m 64 ltac:(lia) ltac:(lia)) as D1.
  assert (H1 : 2 ^ 40 <= shr_m (shr_fexp 53 1024 m e l).1).
  { apply (shr_lower 52); [lia|unfold fexp, emin; lia|rewrite shr_record_of_loc_m; lia]. }
  pose proof (shr_fexp_range 53 1024 (2 ^ 64) m e l ltac:(lia)) as R1.
  pose proof (shr_fexp_exp 53 1024 m e l) as X1.
  destruct (shr_fexp 53 1024 m e l) as [mrs e']. simpl in H1, X1, R1.
  pose proof (round_nearest_even_range (shr_m mrs) (loc_of_shr_record mrs)) as Hr.
  set (m' := round_nearest_even _ _) in *.
  pose proof (digits2_bound m' 65 ltac:(lia) ltac:(lia)) as D2.
  assert (H2 : 2 ^ 0 <= shr_m (shr_fexp 53 1024 m' e' loc_Exact).1).
  { apply (shr_lower 40); [lia|unfold fexp, emin in *; lia|rewrite shr_record_of_loc_m; lia]. }
  destruct (shr_fexp 53 1024 m' e' loc_Exact) as [mrs' e'']. simpl in H2, Hfin |- *.
  destruct (shr_m mrs') as [|p|p]; [lia| |lia].
  destruct (e'' <=? _); [eauto|done].
Qed.

Lemma binary_round_not_nan prec emax s m e : is_nan (binary_round prec emax s m e) = false.
Proof. unfold binary_round. destruct (shl_align _ _ _). by apply round_not_nan. Qed.

Lemma binary_normalize_not_nan prec emax m e s : is_nan (binary_normalize prec emax m e s) = false.
Proof. destruct m; simpl; [done|apply binary_round_not_nan..]. Qed.

(** ** Operations on finite doubles *)

Lemma f64_add_not_nan a b : isfinite a = true -> isfinite b = true -> is_nan (f64_add a b) = false.
Proof.
  destruct a as [[]|[]| |[]], b as [[]|[]| |[]]; intros; try done; apply binary_normalize_not_nan.
Qed.

Lemma f64_sub_not_nan a b : isfinite a = true -> isfinite b = true -> is_nan (f64_sub a b) = false.
Proof.
  destruct a as [[]|[]| |[]], b as [[]|[]| |[]]; intros; try done; apply binary_normalize_not_nan.
Qed.

(** Also when the first factor overflowed, provided the second is not zero. *)
Lemma f64_mul_not_nan a b : is_nan a = false -> isfinite b = true -> feq b f64_zero = false ->
  is_nan (f64_mul a b) = false.
Proof.
  destruct a as [[]|[]| |[]], b as [[]|[]| |[]]; intros; try done; by apply round_not_nan.
Qed.

Lemma f32_of_f64_not_nan a : is_nan a = false -> is_nan (f32_of_f64 a) = false.
Proof. destruct a; intros; try done. apply binary_normalize_not_nan. Qed.

(** ** Integers *)

Lemma digits2_iter m n : digits2_pos (Pos.iter xO m n) = (digits2_pos m + n)%positive.
Proof.
  induction n as [|n IH] using Pos.peano_ind; simpl; [lia|].
  rewrite Pos.iter_succ. simpl. rewrite IH. lia.
Qed.

Lemma round64_canonical s m e :
  fexp 53 1024 (Zpos (digits2_pos m) + e) = e -> e <= 971 ->
  round64 s (Zpos m) e loc_Exact = S754_finite s m e.
Proof.
  intros Hf He. unfold binary_round_aux, shr_fexp. simpl Zdigits2. rewrite Hf, Z.sub_diag. simpl.
  rewrite Hf, Z.sub_diag. simpl. by rewrite (proj2 (Z.leb_le e _)) by lia.
Qed.

(** An integer of up to 53 bits converts exactly, to a 53-bit mantissa. *)
Lemma f64_of_Z_exact p : Zpos (digits2_pos p) <= 53 ->
  exists m, f64_of_Z (Zpos p) = S754_finite false m (Zpos (digits2_pos p) - 53) /\
    Zpos (digits2_pos m) = 53.
Proof.
  intros Hd. unfold f64_of_Z. simpl. unfold binary_round, shl_align, fexp, emin.
  replace (Z.max _ _ - 0) with (Zpos (digits2_pos p) - 53) by lia.
  replace (Z.max _ _) with (Zpos (digits2_pos p) - 53) by lia.
  destruct (Zpos (digits2_pos p) - 53) as [|q|q] eqn:E; [|lia|].
  - exists p. split; [|lia]. apply round64_canonical; [unfold fexp, emin; lia|lia].
  - exists (Pos.iter xO p q). assert (Zpos (digits2_pos (Pos.iter xO p q)) = 53).
    { rewrite digits2_iter. lia. }
    split; [|done]. apply round64_canonical; [|lia]. rewrite H. unfold fexp, emin. lia.
Qed.

Lemma digits2_lower p : 2 ^ (Zpos (digits2_pos p) - 1) <= Zpos p < 2 ^ Zpos (digits2_pos p).
Proof.
  induction p as [p IH|p IH|]; simpl digits2_pos; [| |simpl; lia].
  all: rewrite Pos2Z.inj_succ, Z.pow_succ_r by lia;
    replace (Z.succ (Zpos (digits2_pos p)) - 1) with (Z.succ (Zpos (digits2_pos p) - 1)) by lia;
    rewrite Z.pow_succ_r by lia; lia.
Qed.

Lemma int_digits z : 0 < z <= int_max -> exists p, z = Zpos p /\ 1 <= Zpos (digits2_pos p) <= 31.
Proof.
  intros Hz. destruct z as [|p|p]; try lia. exists p. split; [done|].
  pose proof (digits2_bound (Zpos p) 31 ltac:(lia) ltac:(lia)) as D. simpl in D. lia.
Qed.

Lemma f64_of_int_finite z : 0 <= z <= int_max -> isfinite (f64_of_Z z) = true.
Proof.
  intros Hz. destruct (Z.eq_dec z 0) as [->|]; [done|].
  destruct (int_digits z ltac:(lia)) as (p & -> & Hd).
  destruct (f64_of_Z_exact p) as (m & -> & _); [lia|done].
Qed.

Lemma f64_of_int_nonneg z : 0 <= z <= int_max -> fle f64_zero (f64_of_Z z) = true.
Proof.
  intros Hz. destruct (Z.eq_dec z 0) as [->|]; [done|].
  destruct (int_digits z ltac:(lia)) as (p & -> & Hd).
  destruct (f64_of_Z_exact p) as (m & -> & _); [lia|done].
Qed.

(** The ratio of two positive [int]s is a finite, positive double. *)
Lemma int_ratio_finite a b : 0 < a <= int_max -> 0 < b <= int_max ->
  exists m e, f64_div (f64_of_Z a) (f64_of_Z b) = S754_finite false m e.
Proof.
  intros Ha Hb.
  destruct (int_digits a Ha) as (p & -> & Hp), (int_digits b Hb) as (q & -> & Hq).
  destruct (f64_of_Z_exact p) as (m1 & -> & D1); [lia|].
  destruct (f64_of_Z_exact q) as (m2 & -> & D2); [lia|].
  set (e1 := Zpos (digits2_pos p) - 53) in *. set (e2 := Zpos (digits2_pos q) - 53) in *.
  unfold f64_div, SFdiv, SFdiv_core_binary. simpl Zdigits2. rewrite D1, D2.
  assert (He : Z.min (fexp 53 1024 (53 + e1 - (53 + e2))) (e1 - e2) = e1 - e2 - 53)
    by (unfold fexp, emin; lia).
  rewrite He. replace (e1 - e2 - (e1 - e2 - 53)) with 53 by lia.
  pose proof (digits2_lower m1) as L1. pose proof (digits2_lower m2) as L2.
  rewrite D1 in L1. rewrite D2 in L2.
  rewrite Z.shiftl_mul_pow2 by lia.
  pose proof (Z_div_mod (Zpos m1 * 2 ^ 53) (Zpos m2) ltac:(lia)) as Hdm.
  destruct (Z.div_eucl (Zpos m1 * 2 ^ 53) (Zpos m2)) as [z r]. destruct Hdm as [Hdm Hr].
  apply round64_finite_nonzero; [|lia].
  change (2 ^ 64) with (2 ^ 55 * 2 ^ 9) in *. change (53 - 1) with 52 in *.
  change (2 ^ 53) with (2 * 2 ^ 52) in *. change (2 ^ 55) with (8 * 2 ^ 52).
  split; nia.
Qed.
