(* ===== verification/Json.v ===== *)
(** * JSON text

    The string escaping the program repeats in several files, and a reader for
    JSON string literals (RFC 8259, restricted to the escapes that encode one
    byte) against which the escaping is proved. *)

From S2P Require Import Prelude Strings.

Definition quote : ascii := Eval compute in chr 34.
Definition backslash : ascii := "\"%char.

(** A fragment of JSON text, written with ['] for the double quote. *)
Definition js (s : string) : string :=
  str ((fun c => if Ascii.eqb c "'" then quote else c) <$> chars s).

(** [json_string] of [src/events.cpp]; [src/alerts/alert_manager.cpp] and
    [src/web/router.cpp] have the same function. *)
Definition json_escape (c : ascii) : list ascii :=
  if Ascii.eqb c quote || Ascii.eqb c backslash then [backslash; c]
  else if byte_of c =? 10 then [backslash; "n"%char]
  else if byte_of c =? 13 then [backslash; "r"%char]
  else if byte_of c =? 9 then [backslash; "t"%char]
  else if 32 <=? byte_of c then [c]
  else [].

Definition json_string (value : string) : string :=
  str (quote :: (chars value ≫= json_escape) ++ [quote]).

(** Lower-case hexadecimal digit. *)
Definition hex_digit (v : Z) : ascii := if v <? 10 then chr (48 + v) else chr (87 + v).

(** The escaping of [append_string] in [src/webrtc/detection_sei.cpp]. *)
Definition sei_escape (c : ascii) : list ascii :=
  if Ascii.eqb c quote || Ascii.eqb c backslash then [backslash; c]
  else if byte_of c <? 32 then
    [backslash; "u"%char; "0"%char; "0"%char; hex_digit (byte_of c / 16); hex_digit (byte_of c mod 16)]
  else [c].

(** ** Reader *)

Definition hex_value (c : ascii) : option Z :=
  let v := byte_of c in
  if (48 <=? v) && (v <=? 57) then Some (v - 48)
  else if (97 <=? v) && (v <=? 102) then Some (v - 87)
  else if (65 <=? v) && (v <=? 70) then Some (v - 55)
  else None.

(** The characters of a literal after the opening quote, and what follows it. *)
Fixpoint read_chars (l : list ascii) : option (list ascii * list ascii) :=
  match l with
  | [] => None
  | c :: rest =>
    if Ascii.eqb c quote then Some ([], rest)
    else if Ascii.eqb c backslash then
      match rest with
      | [] => None
      | e :: rest' =>
        let continue := fun d => (fun p => (d :: p.1, p.2)) <$> read_chars rest' in
        if Ascii.eqb e quote || Ascii.eqb e backslash then continue e
        else if Ascii.eqb e "n" then continue (chr 10)
        else if Ascii.eqb e "r" then continue (chr 13)
        else if Ascii.eqb e "t" then continue (chr 9)
        else if Ascii.eqb e "u" then
          match rest' with
          | z1 :: z2 :: h1 :: h0 :: rest'' =>
            if Ascii.eqb z1 "0" && Ascii.eqb z2 "0" then
              match hex_value h1, hex_value h0 with
              | Some a, Some b =>
                (fun p => (chr (16 * a + b) :: p.1, p.2)) <$> read_chars rest''
              | _, _ => None
              end
            else None
          | _ => None
          end
        else None
      end
    else if byte_of c <? 32 then None
    else (fun p => (c :: p.1, p.2)) <$> read_chars rest
  end.

(** Bytes that survive [json_string]: it drops the control characters that have
    no short escape. *)
Definition printable (c : ascii) : bool :=
  (32 <=? byte_of c) || (byte_of c =? 10) || (byte_of c =? 13) || (byte_of c =? 9).

(** ** Lemmas *)

Lemma read_json_escape c k :
  read_chars (json_escape c ++ k) =
  if printable c then (fun p => (c :: p.1, p.2)) <$> read_chars k else read_chars k.
Proof. destruct c as [[] [] [] [] [] [] [] []]; reflexivity. Qed.

Lemma read_sei_escape c k :
  read_chars (sei_escape c ++ k) = (fun p => (c :: p.1, p.2)) <$> read_chars k.
Proof. destruct c as [[] [] [] [] [] [] [] []]; reflexivity. Qed.

Lemma read_json_body l k :
  read_chars ((l ≫= json_escape) ++ quote :: k) = Some (base.filter (fun c => printable c = true) l, k).
Proof.
  induction l as [|c l IH]; [done|]. rewrite bind_cons, <- app_assoc, read_json_escape, IH.
  rewrite filter_cons. destruct (printable c); [rewrite decide_True|rewrite decide_False]; done.
Qed.

Lemma read_sei_body l k : read_chars ((l ≫= sei_escape) ++ quote :: k) = Some (l, k).
Proof.
  induction l as [|c l IH]; [done|]. by rewrite bind_cons, <- app_assoc, read_sei_escape, IH.
Qed.

Lemma sei_escape_printable c : Forall (fun d => 32 <= byte_of d) (sei_escape c).
Proof. destruct c as [[] [] [] [] [] [] [] []]; repeat constructor; vm_compute; discriminate. Qed.

(** Escaping loses nothing but unprintable control characters: the text [json_string] produces is
    one JSON string literal whose value is the input without the control bytes other than tab,
    newline and carriage return, whatever follows it in the document. *)
Theorem json_string_reads_back (value rest : string) :
  exists body, chars (json_string value +:+ rest) = quote :: body /\
  read_chars body = Some (base.filter (fun c => printable c = true) (chars value), chars rest).
Proof.
  exists ((chars value ≫= json_escape) ++ quote :: chars rest). unfold json_string.
  autorewrite with strs. simpl. rewrite <- app_assoc. split; [done|]. apply read_json_body.
Qed.
