(* ===== verification/Paths.v ===== *)
(** * [std::filesystem::path]

    A path is a string; its elements, lexical normal form and the parts of a
    file name are those of the standard's generic format on POSIX.  An absolute
    path is represented by its elements after the root directory; a trailing
    empty element stands for a trailing separator, as iteration of a path
    gives it.  Symbolic links are not resolved here. *)

From S2P Require Import Prelude Strings.

Module Path.

Definition slash : ascii := "/".
Definition dot : ascii := ".".

(** Split at every separator. *)
Fixpoint split_at (c : ascii) (l acc : list ascii) : list (list ascii) :=
  match l with
  | [] => [reverse acc]
  | x :: rest => if Ascii.eqb x c then reverse acc :: split_at c rest [] else split_at c rest (x :: acc)
  end.

Definition names (p : string) : list string :=
  List.filter (fun n => negb (bool_decide (n = ""))) (str <$> split_at slash (chars p) []).

Definition is_absolute (p : string) : bool := bool_decide (front p = Some slash).
Definition ends_with_slash (p : string) : bool := bool_decide (last (chars p) = Some slash).

(** [lexically_normal] of the elements of an absolute path. *)
Definition normal_step (acc : list string) (n : string) : list string :=
  if bool_decide (n = ".") then acc
  else if bool_decide (n = "..") then take (length acc - 1) acc
  else acc ++ [n].
Definition normal_names (ns : list string) : list string := foldl normal_step [] ns.

Definition from_cwd (cwd : list string) (p : string) : list string :=
  (if is_absolute p then [] else cwd) ++ names p.

(** A path that normalizes to one with a trailing separator. *)
Definition ends_dir (p : string) : bool :=
  ends_with_slash p || bool_decide (last (names p) = Some ".") || bool_decide (last (names p) = Some "..").

(** [absolute(p).lexically_normal()] *)
Definition absolute_normal (cwd : list string) (p : string) : list string :=
  let n := normal_names (from_cwd cwd p) in
  n ++ (if ends_dir p && negb (bool_decide (n = [])) then [""] else []).

(** The file a path names (without following links). *)
Definition resolve (cwd : list string) (p : string) : list string := normal_names (from_cwd cwd p).

(** [p / q] for a relative [q]. *)
Definition join (p q : string) : string :=
  if bool_decide (p = "") || ends_with_slash p then p +:+ q else p +:+ "/" +:+ q.

(** ** File names *)

Definition dot_position (n : string) : option nat :=
  if bool_decide (n = ".") || bool_decide (n = "..") then None
  else match rfind_char dot n with Some (S i) => Some (S i) | _ => None end.

Definition extension (n : string) : string :=
  match dot_position n with Some i => str_drop i n | None => "" end.
Definition stem (n : string) : string :=
  match dot_position n with Some i => str_take i n | None => n end.

(** [std::mismatch] reaches the end of the first range. *)
Fixpoint is_prefix (root path : list string) : bool :=
  match root, path with
  | [], _ => true
  | r :: root, p :: path => bool_decide (r = p) && is_prefix root path
  | _ :: _, [] => false
  end.

Lemma is_prefix_spec root path : is_prefix root path = true <-> root `prefix_of` path.
Proof.
  revert path; induction root as [|r root IH]; intros path; simpl.
  { split; [|done]. intros _. apply prefix_nil. }
  destruct path as [|p path]; [split; [done|intros [? [=]]]|].
  rewrite andb_true_iff, bool_decide_eq_true, IH. split.
  - intros [-> H]. by apply prefix_cons.
  - intros H. split; [by apply prefix_cons_inv_1 in H|by apply prefix_cons_inv_2 in H].
Qed.

(** A name whose last dot starts the suffix [e]. *)
Definition plain (n : string) : Prop := n <> "" /\ dot ∉ chars n /\ slash ∉ chars n.

Lemma dot_position_app (n e : string) : n <> "" -> dot ∉ chars e ->
  dot_position (n +:+ "." +:+ e) = if bool_decide (n +:+ "." +:+ e = "..") then None else Some (str_length n).
Proof.
  intros Hn He. unfold dot_position.
  destruct n as [|c n']; [done|]. set (n := String c n') in *.
  rewrite (bool_decide_false (n +:+ "." +:+ e = ".")).
  2:{ intros H%(f_equal chars). rewrite !chars_app in H. unfold n in H. simpl in H.
      injection H as _ H. by destruct (chars n'). }
  cbn [orb]. case_bool_decide as H2; [done|].
  assert (Hr : rfind_char dot (n +:+ "." +:+ e) = Some (str_length n)).
  { apply rfind_char_Some. rewrite !chars_app. unfold str_length.
    split; [by rewrite lookup_app_r, Nat.sub_diag by lia|].
    intros j Hj Hd. rewrite lookup_app_r in Hd by lia.
    destruct (j - length (chars n))%nat as [|k] eqn:Ek; [lia|]. simpl in Hd.
    apply He. by eapply list_elem_of_lookup_2. }
  rewrite Hr. unfold str_length, n. simpl. done.
Qed.

Lemma str_take_app (n e : string) : str_take (str_length n) (n +:+ e) = n.
Proof.
  apply chars_inj. rewrite chars_str_take, chars_app. unfold str_length. by rewrite take_app_length.
Qed.
Lemma str_drop_app (n e : string) : str_drop (str_length n) (n +:+ e) = e.
Proof.
  apply chars_inj. rewrite chars_str_drop, chars_app. unfold str_length. by rewrite drop_app_length.
Qed.

Lemma ext_app (n e : string) : n <> "" -> e <> "" -> dot ∉ chars e ->
  extension (n +:+ "." +:+ e) = "." +:+ e /\ stem (n +:+ "." +:+ e) = n.
Proof.
  intros Hn He Hd. unfold extension, stem. rewrite dot_position_app by done.
  rewrite bool_decide_false; [by rewrite str_drop_app, str_take_app|].
  intros H%(f_equal chars). rewrite !chars_app in H. destruct n as [|c n]; [done|]. simpl in H.
  injection H as -> H. destruct n; simpl in H; [|by destruct n].
  injection H as H. apply He. by apply chars_nil.
Qed.

(** ** Joining a directory and a file name *)

Lemma split_at_app c l k acc : split_at c (l ++ c :: k) acc = split_at c l acc ++ split_at c k [].
Proof.
  revert acc; induction l as [|x l IH]; intros acc; simpl; [by rewrite Ascii.eqb_refl|].
  destruct (Ascii.eqb x c); by rewrite IH.
Qed.

Lemma split_at_none c l acc : c ∉ l -> split_at c l acc = [reverse acc ++ l].
Proof.
  revert acc; induction l as [|x l IH]; intros acc H; simpl; [by rewrite app_nil_r|].
  rewrite (proj2 (Ascii.eqb_neq x c)) by set_solver. rewrite IH by set_solver.
  by rewrite reverse_cons, <- app_assoc.
Qed.

Definition file_name (q : string) : Prop := q <> "" /\ q <> "." /\ q <> ".." /\ slash ∉ chars q.

Lemma names_join p q : p <> "" -> file_name q -> names (join p q) = names p ++ [q].
Proof.
  intros Hp (Hq & _ & _ & Hs). unfold join. rewrite bool_decide_false by done. cbn [orb].
  assert (Hn : List.filter (fun n => negb (bool_decide (n = ""))) (str <$> [chars q]) = [q]).
  { simpl. rewrite str_chars, bool_decide_false by done. done. }
  unfold names, ends_with_slash. case_bool_decide as E.
  - apply last_Some in E as [l E]. rewrite chars_app, E, <- app_assoc. cbn [app].
    rewrite !split_at_app, (split_at_none _ (chars q)) by done. cbn [reverse app].
    rewrite !fmap_app, !List.filter_app. simpl split_at. cbn [fmap list_fmap]. simpl.
    rewrite app_nil_r. f_equal. exact Hn.
  - rewrite !chars_app. change (chars "/") with [slash]. cbn [app].
    rewrite split_at_app, (split_at_none _ (chars q)) by done. cbn [reverse app].
    rewrite fmap_app, List.filter_app. f_equal. exact Hn.
Qed.

Lemma join_head p q : p <> "" -> front (join p q) = front p.
Proof.
  intros Hp. unfold join, front. destruct p as [|x p]; [done|]. by destruct (_ || _).
Qed.

Lemma join_nonempty p q : p <> "" -> join p q <> "".
Proof. intros Hp. unfold join. destruct p as [|x p]; [done|]. by destruct (_ || _). Qed.

Lemma join_last p q x : q <> "" -> last (chars q) = Some x -> last (chars (join p q)) = Some x.
Proof.
  intros Hq Hx. unfold join. destruct (_ || _); rewrite !chars_app, ?app_assoc; by rewrite last_app, Hx.
Qed.

(** The file [p / q], for a plain file name [q]. *)
Lemma absolute_normal_join c p q : p <> "" -> file_name q ->
  absolute_normal c (join p q) = resolve c p ++ [q].
Proof.
  intros Hp Hq. assert (Hj := names_join p q Hp Hq). destruct Hq as (Hq & Hq1 & Hq2 & Hs).
  unfold absolute_normal, resolve, from_cwd, is_absolute. rewrite join_head by done.
  assert (He : ends_dir (join p q) = false).
  { unfold ends_dir, ends_with_slash. rewrite Hj, last_snoc.
    rewrite !(bool_decide_false (Some q = _)) by congruence. rewrite !orb_false_r.
    apply bool_decide_eq_false. intros E.
    destruct (last (chars q)) as [x|] eqn:El; [|by apply last_None, chars_nil in El].
    rewrite (join_last p q x Hq El) in E. injection E as ->. apply Hs.
    apply last_Some in El as [l ->]. set_solver. }
  rewrite He, Hj. cbn [andb]. rewrite app_nil_r, app_assoc. unfold normal_names.
  rewrite foldl_app. cbn [foldl]. unfold normal_step at 1. by rewrite !bool_decide_false by done.
Qed.
End Path.
