(* ===== verification/BoundedQueue.v ===== *)
(** * The bounded producer/consumer queue ([include/skai/core/bounded_queue.hpp])

    [BoundedQueue] is the state protected by [mutex_]; each operation is the
    critical section of the method of the same name.  [Log] is the abstract
    contract (a log of accepted values with a moving head) that the queue
    refines, and [Monitor] is the protocol between the critical sections and
    the condition variable [available_]. *)

From S2P Require Import Prelude.

Module Queue.

Record QueueStats := mkQueueStats {
  pushed : Z;
  popped : Z;
  dropped : Z;
  discarded : Z;
  high_water_mark : Z;
}.

Definition stats_zero : QueueStats := mkQueueStats 0 0 0 0 0.

Section Queue.
Context {T : Type}.

(** [capacity_] is a [const] member; [queue_] is the deque, front first. *)
Record BoundedQueue := mkQueue {
  capacity_ : Z;
  queue_ : list T;
  stats_ : QueueStats;
  shutdown_ : bool;
}.

Definition size (q : BoundedQueue) : Z := Z.of_nat (length (queue_ q)).
Definition capacity (q : BoundedQueue) : Z := capacity_ q.
Definition stats (q : BoundedQueue) : QueueStats := stats_ q.
Definition is_shutdown (q : BoundedQueue) : bool := shutdown_ q.

(** The constructor throws [std::invalid_argument] on a zero capacity. *)
Definition make_queue (capacity : Z) : throws BoundedQueue :=
  if capacity =? 0 then throw "queue capacity must be positive"
  else inr (mkQueue capacity [] stats_zero false).

Definition push (value : T) (q : BoundedQueue) : bool * BoundedQueue :=
  if shutdown_ q then (false, q) else
  let queue := queue_ q ++ [value] in
  let s := stats_ q in
  let '(queue', dropped') :=
    if Z.of_nat (length queue) >? capacity_ q
    then (tail queue, u64 (dropped s + 1)) else (queue, dropped s) in
  let s' := mkQueueStats (u64 (pushed s + 1)) (popped s) dropped' (discarded s)
              (Z.max (high_water_mark s) (Z.of_nat (length queue'))) in
  (true, mkQueue (capacity_ q) queue' s' (shutdown_ q)).

Definition take_front (q : BoundedQueue) : option T * BoundedQueue :=
  match queue_ q with
  | [] => (None, q)
  | item :: rest =>
    let s := stats_ q in
    (Some item,
     mkQueue (capacity_ q) rest
       (mkQueueStats (pushed s) (u64 (popped s + 1)) (dropped s) (discarded s)
          (high_water_mark s)) (shutdown_ q))
  end.

(** The predicate the consumers wait for. *)
Definition wait_ready (q : BoundedQueue) : bool :=
  shutdown_ q || negb (bool_decide (queue_ q = [])).

(** [None]: the caller stays blocked on [available_]. *)
Definition pop (q : BoundedQueue) : option (option T * BoundedQueue) :=
  if wait_ready q then Some (take_front q) else None.

(** When the timeout expires with the predicate false the result is empty. *)
Definition pop_for (q : BoundedQueue) : option T * BoundedQueue :=
  if wait_ready q then take_front q else (None, q).

Definition shutdown (q : BoundedQueue) : BoundedQueue :=
  mkQueue (capacity_ q) (queue_ q) (stats_ q) true.

Definition discard_all (q : BoundedQueue) : Z * BoundedQueue :=
  let count := size q in
  let s := stats_ q in
  (count,
   mkQueue (capacity_ q) []
     (mkQueueStats (pushed s) (popped s) (dropped s) (u64 (discarded s + count))
        (high_water_mark s)) (shutdown_ q)).

Definition reset (q : BoundedQueue) : BoundedQueue :=
  mkQueue (capacity_ q) [] stats_zero false.

(** ** Histories of operations *)

Inductive op :=
  | Push (value : T)
  | Pop
  | PopFor
  | Shutdown
  | DiscardAll
  | Reset.

(** What the caller of an operation sees. *)
Inductive result :=
  | Accepted (value : T)
  | Rejected
  | Got (item : option T)
  | Count (n : Z)
  | Unit
  | Blocked.

Definition exec (o : op) (q : BoundedQueue) : result * BoundedQueue :=
  match o with
  | Push v => let '(ok, q') := push v q in (if ok then Accepted v else Rejected, q')
  | Pop => match pop q with Some (i, q') => (Got i, q') | None => (Blocked, q) end
  | PopFor => let '(i, q') := pop_for q in (Got i, q')
  | Shutdown => (Unit, shutdown q)
  | DiscardAll => let '(n, q') := discard_all q in (Count n, q')
  | Reset => (Unit, reset q)
  end.

Fixpoint run (ops : list op) (q : BoundedQueue) : list result * BoundedQueue :=
  match ops with
  | [] => ([], q)
  | o :: rest => let '(r, q1) := exec o q in
                 let '(rs, q2) := run rest q1 in (r :: rs, q2)
  end.

Definition accepted (rs : list result) : list T :=
  omap (fun r => match r with Accepted v => Some v | _ => None end) rs.
Definition delivered (rs : list result) : list T :=
  omap (fun r => match r with Got i => i | _ => None end) rs.

(** ** The contract: a log with a moving head

    Accepting a value appends it; the head advances past a value when it is
    delivered, overwritten because [capacity] newer values exist, or
    discarded.  Nothing else happens to the log. *)
Record Log := mkLog { log : list T; head : nat; closed : bool }.

Definition log_push (cap : nat) (v : T) (l : Log) : bool * Log :=
  if closed l then (false, l)
  else (true, mkLog (log l ++ [v]) (Nat.max (head l) (S (length (log l)) - cap)) false).

Definition log_take (l : Log) : option T * Log :=
  match log l !! head l with
  | None => (None, l)
  | Some v => (Some v, mkLog (log l) (S (head l)) (closed l))
  end.

Definition log_exec (cap : nat) (o : op) (l : Log) : result * Log :=
  match o with
  | Push v => let '(ok, l') := log_push cap v l in (if ok then Accepted v else Rejected, l')
  | Pop => if closed l || (head l <? length (log l))%nat
           then let '(i, l') := log_take l in (Got i, l') else (Blocked, l)
  | PopFor => let '(i, l') := log_take l in (Got i, l')
  | Shutdown => (Unit, mkLog (log l) (head l) true)
  | DiscardAll => (Count (Z.of_nat (length (log l) - head l)),
                   mkLog (log l) (length (log l)) (closed l))
  | Reset => (Unit, mkLog [] 0 false)
  end.

Fixpoint log_run (cap : nat) (ops : list op) (l : Log) : list result * Log :=
  match ops with
  | [] => ([], l)
  | o :: rest => let '(r, l1) := log_exec cap o l in
                 let '(rs, l2) := log_run cap rest l1 in (r :: rs, l2)
  end.

(** ** Invariants *)

Definition abs (cap : nat) (q : BoundedQueue) (l : Log) : Prop :=
  capacity_ q = Z.of_nat cap /\ (0 < cap)%nat /\
  queue_ q = drop (head l) (log l) /\ (head l <= length (log l))%nat /\
  (length (queue_ q) <= cap)%nat /\ shutdown_ q = closed l.

Definition wf (q : BoundedQueue) : Prop :=
  0 < capacity_ q /\ size q <= high_water_mark (stats_ q) <= capacity_ q /\
  pushed (stats_ q) =
    u64 (popped (stats_ q) + dropped (stats_ q) + discarded (stats_ q) + size q).

End Queue.
Arguments BoundedQueue : clear implicits.
Arguments op : clear implicits.
Arguments result : clear implicits.
Arguments Log : clear implicits.

(** ** Lemmas *)

Section Lemmas.
Context {T : Type}.
Implicit Types (q : BoundedQueue T) (l : Log T) (v : T) (o : op T).

Lemma push_cases v q :
  shutdown_ q = false ->
  push v q = (true,
    mkQueue (capacity_ q)
      (if Z.of_nat (length (queue_ q)) + 1 >? capacity_ q
       then tail (queue_ q ++ [v]) else queue_ q ++ [v])
      (stats_ (push v q).2) false).
Proof.
  intros Hs. unfold push. rewrite Hs. rewrite length_app; simpl.
  replace (Z.of_nat (length (queue_ q) + 1)) with (Z.of_nat (length (queue_ q)) + 1) by lia.
  destruct (_ >? _); reflexivity.
Qed.

Lemma abs_push cap v q l :
  abs cap q l ->
  (push v q).1 = (log_push cap v l).1 /\ abs cap (push v q).2 (log_push cap v l).2.
Proof.
  intros (Hc & Hp & Hq & Hh & Hl & Hs). unfold log_push. rewrite <- Hs.
  destruct (shutdown_ q) eqn:E.
  { unfold push. rewrite E; simpl. repeat split; auto; congruence. }
  rewrite push_cases by done. simpl.
  assert (Hlen : length (queue_ q) = (length (log l) - head l)%nat)
    by (by rewrite Hq, length_drop).
  split; [done|]. split; [done|]. split; [done|]. simpl.
  destruct (_ >? _) eqn:G; rewrite Z.gtb_ltb in G; bools.
  - rewrite Hq, <- drop_snoc, tail_drop by lia.
    split; [f_equal; lia|]. rewrite length_app, length_drop, length_app; simpl. lia.
  - rewrite Hq, <- drop_snoc by lia.
    split; [f_equal; lia|]. rewrite length_drop, length_app; simpl. lia.
Qed.

Lemma abs_take cap q l :
  abs cap q l ->
  (take_front q).1 = (log_take l).1 /\ abs cap (take_front q).2 (log_take l).2.
Proof.
  intros (Hc & Hp & Hq & Hh & Hl & Hs). unfold take_front, log_take.
  destruct (log l !! head l) eqn:E.
  - apply drop_S in E as E'. rewrite <- Hq in E'. rewrite E'.
    apply lookup_lt_Some in E. rewrite E' in Hl. simpl in *. repeat split; simpl; auto; lia.
  - apply lookup_ge_None in E. rewrite Hq, drop_ge by lia. simpl. repeat split; auto.
Qed.

Lemma ready_log cap q l :
  abs cap q l -> wait_ready q = closed l || (head l <? length (log l))%nat.
Proof.
  intros (Hc & Hp & Hq & Hh & Hl & Hs). unfold wait_ready. rewrite Hs. f_equal.
  rewrite Hq. destruct (Nat.ltb_spec (head l) (length (log l))) as [Hlt|Hge].
  - rewrite bool_decide_false; [done|]. intros E%(f_equal length).
    rewrite length_drop in E. simpl in E. lia.
  - rewrite drop_ge by lia. done.
Qed.

Lemma abs_exec cap o q l :
  abs cap q l ->
  (exec o q).1 = (log_exec cap o l).1 /\ abs cap (exec o q).2 (log_exec cap o l).2.
Proof.
  intros H. pose proof (ready_log _ _ _ H) as Hr. pose proof (abs_take _ _ _ H) as [Ht1 Ht2].
  destruct o; simpl.
  - pose proof (abs_push _ value _ _ H) as [H1 H2]. destruct (push value q), (log_push cap value l); simpl in *.
    by subst.
  - unfold pop. rewrite Hr. destruct (_ || _); [|done].
    destruct (take_front q), (log_take l); simpl in *; by subst.
  - unfold pop_for. rewrite Hr. destruct (closed l || _) eqn:E.
    { destruct (take_front q), (log_take l); simpl in *; by subst. }
    bools. apply Nat.ltb_ge in H1. unfold log_take.
    rewrite (proj2 (lookup_ge_None _ _)) by done. done.
  - destruct H as (? & ? & ? & ? & ? & ?). repeat split; auto.
  - destruct H as (? & ? & Hq & ? & ? & ?). unfold size. rewrite Hq, length_drop.
    repeat split; simpl; auto; [|lia]. by rewrite drop_all.
  - destruct H as (? & ? & ? & ? & ? & ?). repeat split; simpl; auto; lia.
Qed.

Lemma abs_run cap ops q l :
  abs cap q l ->
  (run ops q).1 = (log_run cap ops l).1 /\ abs cap (run ops q).2 (log_run cap ops l).2.
Proof.
  revert q l; induction ops as [|o ops IH]; intros q l H; simpl; [done|].
  pose proof (abs_exec _ o _ _ H) as [H1 H2].
  destruct (exec o q) as [r q1], (log_exec cap o l) as [r' l1]; simpl in *; subst.
  specialize (IH _ _ H2). destruct (run ops q1), (log_run cap ops l1); simpl in *.
  destruct IH; by subst.
Qed.

Lemma abs_fresh c q : make_queue c = inr q -> 0 <= c -> abs (Z.to_nat c) q (mkLog [] 0 false).
Proof.
  unfold make_queue. case_match eqn:E; intros; simplify_eq; bools.
  repeat split; simpl; lia.
Qed.

(** *** The counters *)

Lemma wf_fresh c (q : BoundedQueue T) : make_queue c = inr q -> 0 <= c -> wf q.
Proof.
  unfold make_queue. case_match eqn:E; intros; simplify_eq; bools.
  unfold wf, size; simpl. rewrite u64_small; lia.
Qed.

Lemma wf_push v q : wf q -> wf (push v q).2.
Proof.
  intros (Hc & Hs & Hp). unfold push. destruct (shutdown_ q) eqn:E; [done|].
  unfold wf, size in *. rewrite length_app. simpl.
  destruct (_ >? _) eqn:G; rewrite Z.gtb_ltb in G; bools; simpl.
  - rewrite length_tail, length_app; simpl. split; [lia|]. split; [lia|]. zarith.
  - rewrite length_app; simpl. split; [lia|]. split; [lia|]. zarith.
Qed.

Lemma wf_take q : wf q -> wf (take_front q).2.
Proof.
  intros (Hc & Hs & Hp). unfold take_front. destruct (queue_ q) eqn:E; [done|].
  unfold wf, size in *. rewrite E in *; simpl in *. split; [lia|]. split; [lia|]. zarith.
Qed.

Lemma wf_exec o q : wf q -> wf (exec o q).2.
Proof.
  intros H. pose proof (wf_push) as Hpush. pose proof (wf_take q H) as Ht. destruct o; simpl.
  - specialize (Hpush value q H). by destruct (push value q).
  - unfold pop. destruct (wait_ready q); [|done]. by destruct (take_front q).
  - unfold pop_for. destruct (wait_ready q); [|done]. by destruct (take_front q).
  - done.
  - destruct H as (Hc & Hs & Hp). unfold wf, size in *; simpl. split; [lia|]. split; [lia|]. zarith.
  - destruct H as (Hc & Hs & Hp). unfold wf, size; simpl. rewrite u64_small; lia.
Qed.

Lemma wf_run ops q : wf q -> wf (run ops q).2.
Proof.
  revert q; induction ops as [|o ops IH]; intros q H; simpl; [done|].
  pose proof (wf_exec o q H). destruct (exec o q) as [r q1]; simpl in *.
  specialize (IH q1 H0). by destruct (run ops q1).
Qed.

(** *** Order of delivery *)

Lemma log_exec_order cap o l :
  o <> Reset -> (head l <= length (log l))%nat ->
  let '(r, l') := log_exec cap o l in
  log l' = log l ++ accepted [r] /\ (head l' <= length (log l'))%nat /\
  (head l <= head l')%nat /\
  delivered [r] `sublist_of` take (head l' - head l) (drop (head l) (log l')).
Proof.
  intros Ho Hh. destruct o; simpl; try done.
  - unfold log_push. destruct (closed l); simpl.
    + rewrite app_nil_r. repeat split; auto. apply sublist_nil_l.
    + rewrite length_app; simpl. repeat split; try lia. apply sublist_nil_l.
  - destruct (_ || _) eqn:E; [|simpl; rewrite app_nil_r; repeat split; auto; apply sublist_nil_l].
    unfold log_take. destruct (log l !! head l) eqn:G; simpl; rewrite app_nil_r; repeat split; auto.
    + apply lookup_lt_Some in G. lia.
    + rewrite (drop_S _ _ _ G). replace (S (head l) - head l)%nat with 1%nat by lia. done.
    + apply sublist_nil_l.
  - unfold log_take. destruct (log l !! head l) eqn:G; simpl; rewrite app_nil_r; repeat split; auto.
    + apply lookup_lt_Some in G. lia.
    + rewrite (drop_S _ _ _ G). replace (S (head l) - head l)%nat with 1%nat by lia. done.
    + apply sublist_nil_l.
  - rewrite app_nil_r. repeat split; auto. apply sublist_nil_l.
  - rewrite app_nil_r. repeat split; auto. apply sublist_nil_l.
Qed.

Lemma accepted_cons r (rs : list (result T)) : accepted (r :: rs) = accepted [r] ++ accepted rs.
Proof. unfold accepted. apply (omap_app _ [r]). Qed.

Lemma delivered_cons r (rs : list (result T)) : delivered (r :: rs) = delivered [r] ++ delivered rs.
Proof. unfold delivered. apply (omap_app _ [r]). Qed.

Lemma log_run_order cap ops l :
  Forall (fun o => o <> Reset) ops -> (head l <= length (log l))%nat ->
  let '(rs, l') := log_run cap ops l in
  log l' = log l ++ accepted rs /\ (head l' <= length (log l'))%nat /\
  (head l <= head l')%nat /\
  delivered rs `sublist_of` take (head l' - head l) (drop (head l) (log l')).
Proof.
  intros Hops; revert l; induction Hops as [|o ops Ho _ IH]; intros l Hh; simpl.
  { rewrite app_nil_r, Nat.sub_diag. repeat split; auto; apply sublist_nil_l. }
  pose proof (log_exec_order cap o l Ho Hh) as H1.
  destruct (log_exec cap o l) as [r l1]. destruct H1 as (E1 & B1 & M1 & S1).
  specialize (IH l1 B1). destruct (log_run cap ops l1) as [rs l2].
  destruct IH as (E2 & B2 & M2 & S2).
  rewrite accepted_cons, delivered_cons, E2, E1, app_assoc. repeat split; try lia.
  { rewrite <- app_assoc, app_assoc, <- E1, <- E2. lia. }
  rewrite <- app_assoc, (app_assoc (log l)), <- E1, <- E2.
  replace (head l2 - head l)%nat with ((head l1 - head l) + (head l2 - head l1))%nat by lia.
  rewrite <- take_take_drop, drop_drop. apply sublist_app.
  - rewrite E2, drop_app_le by lia. rewrite take_app_le by (rewrite length_drop; lia). done.
  - replace (head l + (head l1 - head l))%nat with (head l1) by lia. done.
Qed.
End Lemmas.

(** ** Properties *)

(** C1.   Every history of operations on a freshly constructed queue returns exactly what the
    drop-oldest log returns, and the queue's contents stay the part of the log from the head on,
    never more than [capacity] values. *)
Theorem queue_refines_log {T} (c : Z) (q : BoundedQueue T) (ops : list (op T))
    (Hc : 0 <= c) (Hq : make_queue c = inr q) :
  let cap := Z.to_nat c in
  (run ops q).1 = (log_run cap ops (mkLog [] 0 false)).1 /\
  abs cap (run ops q).2 (log_run cap ops (mkLog [] 0 false)).2.
Proof. apply abs_run. by apply abs_fresh. Qed.

Lemma queue_refines_log_witness :
  let q := mkQueue 2 ([] : list Z) stats_zero false in
  make_queue 2 = inr q /\
  (run [Push 1; Push 2; Push 3; PopFor; Shutdown; Push 4; Pop; Pop] q).1 =
    (log_run (Z.to_nat 2) [Push 1; Push 2; Push 3; PopFor; Shutdown; Push 4; Pop; Pop]
       (mkLog [] 0 false)).1.
Proof.
  split; [reflexivity|].
  apply (queue_refines_log 2 (mkQueue 2 [] stats_zero false)); [lia|reflexivity].
Defined.

(** Between two resets the consumers receive accepted values in the order they were accepted, each
    at most once, and what is still buffered comes after everything delivered: delivered values
    followed by the buffer form a subsequence of the accepted values, of which the buffer is a
    suffix. *)
Theorem queue_fifo {T} (c : Z) (q : BoundedQueue T) (ops : list (op T))
    (Hc : 0 <= c) (Hq : make_queue c = inr q) (Hr : Forall (fun o => o <> Reset) ops) :
  let '(rs, q') := run ops q in
  delivered rs ++ queue_ q' `sublist_of` accepted rs /\ queue_ q' `suffix_of` accepted rs.
Proof.
  pose proof (abs_run _ ops _ _ (abs_fresh c q Hq Hc)) as [H1 H2].
  pose proof (log_run_order (Z.to_nat c) ops (mkLog [] 0 false) Hr (Nat.le_0_l _)) as H3.
  destruct (run ops q) as [rs q'], (log_run _ ops _) as [rs' l]; simpl in *; subst rs'.
  destruct H3 as (E & B & _ & S). destruct H2 as (_ & _ & -> & _ & _ & _).
  rewrite <- E, Nat.sub_0_r, drop_0 in *. split.
  - rewrite <- (take_drop (head l) (log l)) at 2. by apply sublist_app.
  - exists (take (head l) (log l)). by rewrite take_drop.
Qed.

Lemma queue_fifo_witness :
  let q := mkQueue 2 ([] : list Z) stats_zero false in
  let '(rs, q') := run [Push 1; Push 2; Push 3; PopFor] q in
  delivered rs ++ queue_ q' `sublist_of` accepted rs /\ queue_ q' `suffix_of` accepted rs.
Proof.
  apply (queue_fifo 2 (mkQueue 2 [] stats_zero false)
           [Push 1; Push 2; Push 3; PopFor]); [lia|reflexivity|].
  repeat constructor; discriminate.
Defined.

(** The counters account for every accepted value: modulo 2^64, pushed = popped + dropped +
    discarded + buffered; and the high water mark bounds the buffer and never exceeds the capacity.
    *)
Theorem queue_counters {T} (c : Z) (q : BoundedQueue T) (ops : list (op T))
    (Hc : 0 <= c) (Hq : make_queue c = inr q) :
  let q' := (run ops q).2 in
  pushed (stats q') =
    u64 (popped (stats q') + dropped (stats q') + discarded (stats q') + size q') /\
  size q' <= high_water_mark (stats q') <= capacity q'.
Proof. pose proof (wf_run ops q (wf_fresh c q Hq Hc)) as (_ & ? & ?). done. Qed.

Lemma queue_counters_witness :
  let q := mkQueue 2 ([] : list Z) stats_zero false in
  let q' := (run [Push 1; Push 2; Push 3; PopFor; DiscardAll] q).2 in
  pushed (stats q') =
    u64 (popped (stats q') + dropped (stats q') + discarded (stats q') + size q') /\
  size q' <= high_water_mark (stats q') <= capacity q'.
Proof. apply (queue_counters 2); [lia|reflexivity]. Defined.
End Queue.

(** ** The condition variable protocol

    [Monitor] interleaves the critical sections of any number of producers
    and consumers with the notifications, which [push] and [shutdown] send
    after releasing the mutex.  [waiting] consumers are blocked inside
    [available_]; [awake] ones were woken (by a notification, spuriously, or by
    their timeout) and still have to re-acquire the mutex and re-check the
    predicate; [pending_one] and [pending_all] notifications are about to be
    sent. *)
Module Monitor.
Import Queue.

Record Mon (T : Type) := mkMon {
  mq : BoundedQueue T;
  waiting : nat;
  awake : nat;
  pending_one : nat;
  pending_all : nat;
}.
Arguments mkMon {T}.
Arguments mq {T}.
Arguments waiting {T}.
Arguments awake {T}.
Arguments pending_one {T}.
Arguments pending_all {T}.

Inductive step {T} : Mon T -> Mon T -> Prop :=
  | step_push v q q' w a p s : push v q = (true, q') ->
      step (mkMon q w a p s) (mkMon q' w a (S p) s)
  | step_push_rejected v q q' w a p s : push v q = (false, q') ->
      step (mkMon q w a p s) (mkMon q' w a p s)
  | step_notify_one q w a p s :
      step (mkMon q (S w) a (S p) s) (mkMon q w (S a) p s)
  | step_notify_nobody q a p s :
      step (mkMon q 0 a (S p) s) (mkMon q 0 a p s)
  | step_shutdown q w a p s :
      step (mkMon q w a p s) (mkMon (shutdown q) w a p (S s))
  | step_notify_all q w a p s :
      step (mkMon q w a p (S s)) (mkMon q 0 (w + a) p s)
  | step_pop_now q w a p s : wait_ready q = true ->
      step (mkMon q w a p s) (mkMon (take_front q).2 w a p s)
  | step_block q w a p s : wait_ready q = false ->
      step (mkMon q w a p s) (mkMon q (S w) a p s)
  | step_spurious_or_timeout q w a p s :
      step (mkMon q (S w) a p s) (mkMon q w (S a) p s)
  | step_wake_take q w a p s : wait_ready q = true ->
      step (mkMon q w (S a) p s) (mkMon (take_front q).2 w a p s)
  | step_wake_block q w a p s : wait_ready q = false ->
      step (mkMon q w (S a) p s) (mkMon q (S w) a p s)
  | step_wake_give_up q w a p s : wait_ready q = false ->
      step (mkMon q w (S a) p s) (mkMon q w a p s)
  | step_discard q w a p s :
      step (mkMon q w a p s) (mkMon (discard_all q).2 w a p s)
  | step_reset q : step (mkMon q 0 0 0 0) (mkMon (reset q) 0 0 0 0).

Definition inv {T} (m : Mon T) : Prop :=
  waiting m = 0%nat \/
  ((length (queue_ (mq m)) <= awake m + pending_one m)%nat /\
   (shutdown_ (mq m) = true -> (0 < pending_all m)%nat)).

Lemma not_ready {T} (q : BoundedQueue T) :
  wait_ready q = false -> shutdown_ q = false /\ queue_ q = [].
Proof. unfold wait_ready. intros. bools. done. Qed.

Lemma push_bound {T} (v : T) q q' b :
  push v q = (b, q') ->
  (length (queue_ q') <= length (queue_ q) + (if b then 1 else 0))%nat /\
  shutdown_ q' = shutdown_ q /\ (b = false -> q' = q).
Proof.
  unfold push. destruct (shutdown_ q) eqn:E; intros; simplify_eq; [repeat split; auto; lia|].
  destruct (_ >? _); simplify_eq; simpl; rewrite ?length_tail, length_app; simpl;
    repeat split; auto; lia.
Qed.

Lemma take_bound {T} (q : BoundedQueue T) :
  length (queue_ (take_front q).2) = (length (queue_ q) - 1)%nat /\
  shutdown_ (take_front q).2 = shutdown_ q.
Proof. unfold take_front. destruct (queue_ q) eqn:E; simpl; rewrite ?E; simpl; split; auto; lia. Qed.

Lemma monitor_inv_step {T} (m m' : Mon T) : step m m' -> inv m -> inv m'.
Proof.
  unfold inv; destruct 1; simpl; intros Hi;
    repeat match goal with
    | H : push _ _ = _ |- _ => apply push_bound in H as (? & ? & ?)
    | H : wait_ready _ = false |- _ => apply not_ready in H as [? ?]
    | |- context [take_front ?q] =>
        pose proof (take_bound q) as [? ?]; generalize dependent ((take_front q).2); intros
    | H : shutdown_ _ = shutdown_ _ |- _ => rewrite H; clear H
    | H : queue_ _ = [] |- _ => rewrite H in *; clear H
    end;
    destruct Hi as [?|[? ?]]; simpl in *;
    first [left; lia | right; split; [lia | intros; first [lia | congruence | auto]]].
Qed.

Lemma monitor_inv_reachable {T} (m m' : Mon T) : rtc step m m' -> inv m -> inv m'.
Proof. induction 1; eauto using monitor_inv_step. Qed.

(** C36.   No wakeup is lost: in every interleaving, when no notification is on its way and no woken
    consumer is still to run, a consumer blocked in [pop] or [pop_for] is one whose predicate is
    false, i.e. the queue is empty and not shut down. *)
Theorem no_lost_wakeup {T} (q : BoundedQueue T) (m : Mon T)
    (Hreach : rtc step (mkMon q 0 0 0 0) m)
    (Hquiet : awake m = 0%nat /\ pending_one m = 0%nat /\ pending_all m = 0%nat)
    (Hblocked : (0 < waiting m)%nat) :
  queue_ (mq m) = [] /\ shutdown_ (mq m) = false.
Proof.
  assert (inv m) as [?|[Hlen Hs]] by (eapply monitor_inv_reachable; [done|by left]); [lia|].
  destruct Hquiet as (Ha & Hp & Hn). rewrite Ha, Hp in Hlen. split.
  - apply nil_length_inv. lia.
  - destruct (shutdown_ (mq m)); [|done]. specialize (Hs eq_refl). lia.
Qed.

(** A consumer blocks, a producer pushes and notifies, the consumer takes the
    value, and then blocks again. *)
Lemma no_lost_wakeup_witness :
  let q := mkQueue 2 ([] : list Z) stats_zero false in
  let q' := (take_front (push 7 q).2).2 in
  rtc step (mkMon q 0 0 0 0) (mkMon q' 1 0 0 0) /\
  queue_ (mq (mkMon q' 1 0 0 0)) = [] /\ shutdown_ (mq (mkMon q' 1 0 0 0)) = false.
Proof.
  intros q q'.
  assert (R : rtc step (mkMon q 0 0 0 0) (mkMon q' 1 0 0 0)).
  { eapply rtc_l; [apply step_block; reflexivity|].
    eapply rtc_l; [apply (step_push 7 q (push 7 q).2); reflexivity|].
    eapply rtc_l; [apply step_notify_one|].
    eapply rtc_l; [apply step_wake_take; reflexivity|].
    eapply rtc_l; [apply step_block; reflexivity|]. apply rtc_refl. }
  split; [exact R|].
  apply (no_lost_wakeup q _ R); [repeat split; reflexivity|simpl; lia].
Defined.
End Monitor.
