(* ===== verification/RtspRecovery.v ===== *)
(** * RTSP recovery policy ([include/skai/video/rtsp_recovery.hpp])

    The frame-freshness and retry state machine the GStreamer worker drives.
    Time points and durations of [steady_clock] are integers in nanoseconds;
    the three configured durations are integers in milliseconds, as in the
    source, and are converted where the source mixes them with time points. *)

From S2P Require Import Prelude.

Module Recovery.

Inductive SourceHealth :=
  | Stopped | Connecting | Connected | Degraded | Stalled | Reconnecting | Error.

#[export] Instance SourceHealth_eq : EqDecision SourceHealth.
Proof. solve_decision. Defined.

Definition ms (d : Z) : Z := d * 1000000.

Record RtspRecovery := mkRecovery {
  stall_timeout_ : Z;
  reconnect_delay_ : Z;
  max_reconnect_delay_ : Z;
  health_ : SourceHealth;
  last_frame_ : option Z;
  degraded_until_ : option Z;
  next_retry_ : Z;
  failure_streak_ : Z;
  reconnect_count_ : Z;
}.

Definition make_recovery (stall_timeout reconnect_delay max_reconnect_delay : Z) : RtspRecovery :=
  mkRecovery stall_timeout reconnect_delay max_reconnect_delay Stopped None None 0 0 0.

Definition begin (r : RtspRecovery) : RtspRecovery :=
  mkRecovery (stall_timeout_ r) (reconnect_delay_ r) (max_reconnect_delay_ r)
    Connecting None None (next_retry_ r) 0 0.

Definition frame (now : Z) (r : RtspRecovery) : RtspRecovery :=
  let health :=
    match degraded_until_ r with
    | Some until => if now <? until then Degraded else Connected
    | None => Connected
    end in
  mkRecovery (stall_timeout_ r) (reconnect_delay_ r) (max_reconnect_delay_ r)
    health (Some now) (degraded_until_ r) (next_retry_ r) 0 (reconnect_count_ r).

Definition streaming (h : SourceHealth) : bool :=
  match h with Connected | Degraded => true | _ => false end.

Definition packet_loss (now : Z) (r : RtspRecovery) : RtspRecovery :=
  if streaming (health_ r) then
    mkRecovery (stall_timeout_ r) (reconnect_delay_ r) (max_reconnect_delay_ r)
      Degraded (last_frame_ r) (Some (now + ms 1000)) (next_retry_ r)
      (failure_streak_ r) (reconnect_count_ r)
  else r.

Definition check_stall (now : Z) (r : RtspRecovery) : bool * RtspRecovery :=
  match last_frame_ r with
  | Some last =>
    if streaming (health_ r) && (ms (stall_timeout_ r) <=? now - last) then
      (true, mkRecovery (stall_timeout_ r) (reconnect_delay_ r) (max_reconnect_delay_ r)
               Stalled (last_frame_ r) (degraded_until_ r) (next_retry_ r)
               (failure_streak_ r) (reconnect_count_ r))
    else (false, r)
  | None => (false, r)
  end.

(** The loop of [fail]; the first argument counts the iterations left. *)
Fixpoint backoff_loop (attempts : nat) (delay max_delay : Z) : Z :=
  match attempts with
  | O => delay
  | S rest =>
    let delay' := Z.min (delay * 2) max_delay in
    if max_delay <=? delay' then delay' else backoff_loop rest delay' max_delay
  end.

Definition fail (now : Z) (r : RtspRecovery) : RtspRecovery :=
  let streak := u32 (failure_streak_ r + 1) in
  let delay := backoff_loop (Z.to_nat (streak - 1)) (reconnect_delay_ r)
                 (max_reconnect_delay_ r) in
  mkRecovery (stall_timeout_ r) (reconnect_delay_ r) (max_reconnect_delay_ r)
    Reconnecting (last_frame_ r) None (now + ms (Z.min delay (max_reconnect_delay_ r)))
    streak (reconnect_count_ r).

Definition retry_due (now : Z) (r : RtspRecovery) : bool :=
  bool_decide (health_ r = Reconnecting) && (next_retry_ r <=? now).

Definition retry (now : Z) (r : RtspRecovery) : RtspRecovery :=
  if negb (retry_due now r) then r else
  mkRecovery (stall_timeout_ r) (reconnect_delay_ r) (max_reconnect_delay_ r)
    Connecting (last_frame_ r) (degraded_until_ r) (next_retry_ r)
    (failure_streak_ r) (u64 (reconnect_count_ r + 1)).

Definition stop (r : RtspRecovery) : RtspRecovery :=
  mkRecovery (stall_timeout_ r) (reconnect_delay_ r) (max_reconnect_delay_ r)
    Stopped (last_frame_ r) (degraded_until_ r) (next_retry_ r)
    (failure_streak_ r) (reconnect_count_ r).

(** ** The machine the worker drives *)

Inductive call := Begin | Frame | PacketLoss | CheckStall | Fail | Retry | Stop.

#[export] Instance call_eq : EqDecision call.
Proof. solve_decision. Defined.

Definition apply_call (c : call) (now : Z) (r : RtspRecovery) : RtspRecovery :=
  match c with
  | Begin => begin r
  | Frame => frame now r
  | PacketLoss => packet_loss now r
  | CheckStall => (check_stall now r).2
  | Fail => fail now r
  | Retry => retry now r
  | Stop => stop r
  end.

(** Calls arrive with non-decreasing times; the ghost component is the time of
    the last [fail]. *)
Inductive reach (r0 : RtspRecovery) : Z -> option Z -> RtspRecovery -> Prop :=
  | reach_init t : reach r0 t None r0
  | reach_call t t' g c r : reach r0 t g r -> t <= t' ->
      reach r0 t' (if decide (c = Fail) then Some t' else g) (apply_call c t' r).

Definition valid_delays (r : RtspRecovery) : Prop :=
  1 <= reconnect_delay_ r <= max_reconnect_delay_ r.

Definition wf (g : option Z) (r : RtspRecovery) : Prop :=
  valid_delays r /\
  (streaming (health_ r) = true -> is_Some (last_frame_ r) /\ failure_streak_ r = 0) /\
  (health_ r = Degraded -> is_Some (degraded_until_ r)) /\
  (health_ r = Reconnecting -> exists t, g = Some t /\
     t + ms (reconnect_delay_ r) <= next_retry_ r <= t + ms (max_reconnect_delay_ r)).

(** ** Lemmas *)

Lemma backoff_loop_closed n d m :
  1 <= d <= m -> backoff_loop n d m = Z.min (d * 2 ^ Z.of_nat n) m.
Proof.
  revert d; induction n as [|n IH]; intros d H; simpl backoff_loop; [lia|].
  rewrite Nat2Z.inj_succ, Z.pow_succ_r by lia.
  assert (1 <= 2 ^ Z.of_nat n) by (apply Z.lt_pred_le, Z.pow_pos_nonneg; lia).
  destruct (m <=? _) eqn:E; bools; [nia|]. rewrite IH by lia. nia.
Qed.

Lemma backoff_loop_range n d m :
  1 <= d <= m -> d <= Z.min (backoff_loop n d m) m <= m.
Proof.
  intros. rewrite backoff_loop_closed by done.
  assert (1 <= 2 ^ Z.of_nat n) by (apply Z.lt_pred_le, Z.pow_pos_nonneg; lia). nia.
Qed.

Local Ltac wf_auto Hs :=
  split_and!; simpl; try lia; try done; eauto;
  intros; split; eauto; by apply Hs.

Lemma recovery_wf_call g c now r :
  wf g r -> wf (if decide (c = Fail) then Some now else g) (apply_call c now r).
Proof.
  intros (Hv & Hs & Hd & Hr). unfold valid_delays in Hv.
  destruct c; simpl; unfold wf, valid_delays, frame, packet_loss, check_stall, retry, fail;
    simpl.
  - wf_auto Hs.
  - destruct (degraded_until_ r) as [u|]; [destruct (now <? u)|]; wf_auto Hs.
  - destruct (streaming (health_ r)) eqn:E; wf_auto Hs.
  - assert (E : (check_stall now r).2 = r \/
      (check_stall now r).2 = mkRecovery (stall_timeout_ r) (reconnect_delay_ r)
        (max_reconnect_delay_ r) Stalled (last_frame_ r) (degraded_until_ r) (next_retry_ r)
        (failure_streak_ r) (reconnect_count_ r)).
    { unfold check_stall. repeat case_match; auto. }
    unfold check_stall in E. destruct E as [-> | ->]; wf_auto Hs.
  - pose proof (backoff_loop_range (Z.to_nat (u32 (failure_streak_ r + 1) - 1)) _ _ Hv).
    split_and!; simpl; try lia; try done. intros _. exists now. unfold ms. split; [done|lia].
  - destruct (negb _); wf_auto Hs.
  - wf_auto Hs.
Qed.

Lemma wf_reach r0 t g r : wf None r0 -> reach r0 t g r -> wf g r.
Proof. intros H0. induction 1; [done|]. by apply recovery_wf_call. Qed.

Lemma wf_make st rd mx : 1 <= rd <= mx -> wf None (make_recovery st rd mx).
Proof. intros. split_and!; simpl; try lia; done. Qed.

(** ** Properties *)

(** The [n]-th consecutive failure schedules the next attempt after [reconnect_delay * 2^(n-1)],
    capped at [max_reconnect_delay]: the loop with its early exit computes the capped doubling. *)
Theorem fail_backoff (now : Z) (r : RtspRecovery)
    (Hv : valid_delays r) (Hs : 0 <= failure_streak_ r < 4294967295) :
  failure_streak_ (fail now r) = failure_streak_ r + 1 /\
  next_retry_ (fail now r) =
    now + ms (Z.min (reconnect_delay_ r * 2 ^ failure_streak_ r) (max_reconnect_delay_ r)).
Proof.
  unfold fail; simpl. rewrite u32_small by lia. split; [done|].
  rewrite backoff_loop_closed by done. rewrite Z2Nat.id by lia.
  replace (failure_streak_ r + 1 - 1) with (failure_streak_ r) by lia. f_equal. f_equal. lia.
Qed.

Lemma fail_backoff_witness :
  let r := fail 7 (fail 5 (make_recovery 3000 500 1500)) in
  failure_streak_ (fail 9 r) = 2 + 1 /\ next_retry_ (fail 9 r) = 9 + ms 1500.
Proof.
  apply (fail_backoff 9 (fail 7 (fail 5 (make_recovery 3000 500 1500))));
    [unfold valid_delays; simpl; lia | vm_compute; split; discriminate || reflexivity].
Defined.

(** In every run with validated delays: a source that counts as streaming has a last frame and a
    cleared failure streak, a degraded one has a degradation deadline, and one waiting to reconnect
    waits at least [reconnect_delay] and at most [max_reconnect_delay] from its last failure. *)
Theorem recovery_invariant (st rd mx t : Z) (g : option Z) (r : RtspRecovery)
    (Hd : 1 <= rd <= mx) (Hr : reach (make_recovery st rd mx) t g r) : wf g r.
Proof. eapply wf_reach; [|done]. by apply wf_make. Qed.

Lemma recovery_invariant_witness :
  wf (Some 4) (apply_call Fail 4 (apply_call Frame 3 (make_recovery 3000 500 1500))).
Proof.
  apply (recovery_invariant 3000 500 1500 4); [lia|].
  apply (reach_call _ 3 4 None Fail); [|lia].
  apply (reach_call _ 0 3 None Frame); [|lia]. apply reach_init.
Defined.

(** Reconnection attempts are rate limited: along every run, a call that increments the reconnect
    counter comes at least [reconnect_delay] after the last failure, which exists. *)
Theorem reconnect_spacing (st rd mx t t' : Z) (g : option Z) (c : call) (r : RtspRecovery)
    (Hd : 1 <= rd <= mx) (Hr : reach (make_recovery st rd mx) t g r)
    (Hc : c <> Begin) (Hinc : reconnect_count_ (apply_call c t' r) <> reconnect_count_ r) :
  exists tf, g = Some tf /\ tf + ms (reconnect_delay_ r) <= t'.
Proof.
  pose proof (wf_reach _ _ _ _ (wf_make st rd mx Hd) Hr) as (_ & _ & _ & Hw).
  destruct c; simpl in Hinc; try done.
  - unfold packet_loss in Hinc. by destruct (streaming _).
  - unfold check_stall in Hinc. destruct (last_frame_ r); [|done]. by destruct (_ && _).
  - unfold retry in Hinc. destruct (retry_due t' r) eqn:E; [|done].
    unfold retry_due in E. bools. destruct (Hw H) as (tf & -> & ?). exists tf. split; [done|lia].
Qed.

Lemma reconnect_spacing_witness :
  let r := apply_call Fail 4 (make_recovery 3000 500 1500) in
  exists tf, Some 4 = Some tf /\ tf + ms (reconnect_delay_ r) <= 500000004.
Proof.
  apply (reconnect_spacing 3000 500 1500 4 500000004 (Some 4) Retry
           (apply_call Fail 4 (make_recovery 3000 500 1500))).
  - lia.
  - apply (reach_call _ 0 4 None Fail); [apply reach_init|lia].
  - discriminate.
  - vm_compute. discriminate.
Defined.

(** A silent stream is always recovered: once no frame has arrived for the stall timeout,
    [check_stall] reports the stall, and [fail] followed by a [retry] any time after the scheduled
    instant (at most [max_reconnect_delay] later) is connecting again with the attempt counted;
    before the timeout nothing changes. *)
Theorem stall_recovers (r : RtspRecovery) (last now : Z)
    (Hv : valid_delays r) (Hh : streaming (health_ r) = true) (Hl : last_frame_ r = Some last) :
  (now - last < ms (stall_timeout_ r) -> check_stall now r = (false, r)) /\
  (ms (stall_timeout_ r) <= now - last ->
   (check_stall now r).1 = true /\ health_ (check_stall now r).2 = Stalled /\
   forall now', now + ms (max_reconnect_delay_ r) <= now' ->
     let r' := retry now' (fail now (check_stall now r).2) in
     health_ r' = Connecting /\ reconnect_count_ r' = u64 (reconnect_count_ r + 1)).
Proof.
  unfold check_stall. rewrite Hl, Hh. simpl. split; intros H.
  { destruct (_ <=? _) eqn:E; bools; [lia|done]. }
  rewrite (proj2 (Z.leb_le _ _)) by done. simpl. split_and!; auto. intros now' H'.
  pose proof (backoff_loop_range (Z.to_nat (u32 (failure_streak_ r + 1) - 1)) _ _ Hv).
  unfold retry, retry_due, fail; simpl.
  rewrite (proj2 (Z.leb_le _ _)) by (unfold ms in *; lia). done.
Qed.

Lemma stall_recovers_witness :
  let r := frame 10 (begin (make_recovery 1 500 1500)) in
  (check_stall 1000010 r).1 = true /\ (check_stall 999999 r).1 = false.
Proof.
  pose proof (stall_recovers (frame 10 (begin (make_recovery 1 500 1500))) 10) as H.
  split.
  - apply (H 1000010); [unfold valid_delays; simpl; lia|reflexivity|reflexivity|vm_compute; discriminate].
  - rewrite (proj1 (H 999999 ltac:(unfold valid_delays; simpl; lia) eq_refl eq_refl));
      [reflexivity|vm_compute; reflexivity].
Defined.
End Recovery.
