(* ===== verification/WhipPolicy.v ===== *)
(** * WHIP publisher policy ([src/webrtc/whip_policy.hpp], [src/webrtc/whip_policy.cpp])

    [ResourceUrl] resolves the [Location] of a 201 response, [PeerState] is the
    state the libdatachannel callbacks share with the publisher thread, and
    [RtpClock] maps access-unit PTS to RTP timestamps on one SSRC.
    [h264_rtp_timestamp] is from [include/skai/video/encoded_access_unit.hpp]. *)

From S2P Require Import Prelude Strings.

(** ** Resource URL *)

Module ResourceUrl.

Definition authority_end (endpoint : string) : option nat := find_char "/" endpoint 8.

Definition origin (endpoint : string) : string := substr endpoint 0 (authority_end endpoint).

Definition whip_resource_url (endpoint location : string) : throws string :=
  let origin := origin endpoint in
  if bool_decide (location = "") then
    throw "WHIP 201 omitted Location; automatic retry stopped"
  else if bool_decide (front location = Some "/"%char) &&
          negb (bool_decide (char_at location 1 = Some "/"%char)) then
    inr (origin +:+ location)
  else if starts_with (origin +:+ "/") location then inr location
  else if negb (contains_char ":" location) &&
          negb (bool_decide (front location = Some "/"%char)) then
    let count := match rfind_char "/" endpoint with Some e => S e | None => 0%nat end in
    inr (substr endpoint 0 (Some count) +:+ location)
  else throw "WHIP Location has a different origin; automatic retry stopped".

Lemma front_cons location : front location = Some "/"%char -> exists t, location = "/" +:+ t.
Proof.
  unfold front. destruct location as [|c t]; [done|]. simpl. intros [= ->]. by exists t.
Qed.

Lemma take_past_slash endpoint i j :
  chars endpoint !! i = Some "/"%char -> (i <= j)%nat ->
  exists t, str_take (S j) endpoint = str_take i endpoint +:+ "/" +:+ t.
Proof.
  intros Hi Hj. exists (str (take (j - i) (drop (S i) (chars endpoint)))).
  apply chars_inj. autorewrite with strs.
  rewrite <- (take_take_drop (chars endpoint) i (S j - i)) at 1
    || replace (S j) with (i + (S j - i))%nat by lia; rewrite <- take_take_drop.
  f_equal. rewrite (drop_S _ _ _ Hi). by replace (S j - i)%nat with (S (j - i)) by lia.
Qed.

(** A resolved resource URL stays on the endpoint's origin: when the endpoint has a path, every URL
    returned is the origin followed by ["/"], whatever the server put in [Location]; a session whose
    [Location] points elsewhere is an error instead. *)
Theorem resource_url_same_origin (endpoint location url : string)
    (Hpath : is_Some (authority_end endpoint))
    (Hurl : whip_resource_url endpoint location = inr url) :
  exists rest, url = origin endpoint +:+ "/" +:+ rest.
Proof.
  destruct Hpath as [i Hi]. unfold whip_resource_url in Hurl.
  case_match; [done|]. case_match eqn:E1.
  { bools. apply front_cons in H0 as [t ->]. simplify_eq. by exists t. }
  case_match eqn:E2.
  { simplify_eq. apply starts_with_spec in E2 as [t ->]. exists t.
    by rewrite str_app_assoc. }
  case_match eqn:E3; [|done]. simplify_eq.
  pose proof Hi as Hi'. apply find_char_Some in Hi' as (_ & Hs & _).
  destruct (rfind_char "/" endpoint) as [j|] eqn:Hj.
  - apply rfind_char_Some in Hj as [_ Hlast].
    assert (i <= j)%nat by (destruct (decide (i <= j)%nat); [done|by destruct (Hlast i); [lia|]]).
    unfold origin, substr. rewrite Hi. unfold substr. simpl.
    destruct (take_past_slash endpoint i j Hs H0) as [t Ht].
    change (str_drop 0 endpoint) with (str (chars endpoint)). rewrite !str_chars, Ht.
    exists (t +:+ location). by rewrite !str_app_assoc.
  - exfalso. apply (proj1 (rfind_char_None _ _) Hj i Hs).
Qed.

Lemma resource_url_same_origin_witness :
  exists rest, "https://h.example/sfu/cam1/abc" = origin "https://h.example/sfu/whip" +:+ "/" +:+ rest.
Proof.
  apply (resource_url_same_origin "https://h.example/sfu/whip" "/sfu/cam1/abc").
  - vm_compute. by eexists.
  - reflexivity.
Defined.

(** An endpoint without a path escapes the same-origin rule: a relative [Location] (no [':'], not
    starting with ["/"]) is appended to the bare scheme, because the last ["/"] of the endpoint is
    the scheme's, so the resolved URL's authority is chosen by the server's response. *)
Theorem resource_url_pathless_escape (host location : string)
    (Hhost : contains_char "/" host = false) (Hne : location <> "")
    (Hcolon : contains_char ":" location = false)
    (Hrel : front location <> Some "/"%char) :
  whip_resource_url ("https://" +:+ host) location = inr ("https://" +:+ location).
Proof.
  set (e := "https://" +:+ host).
  assert (Hs : forall j, chars e !! j = Some "/"%char -> (j < 8)%nat).
  { intros j Hj. destruct (decide (j < 8)%nat); [done|]. exfalso.
    unfold e in Hj. rewrite chars_app, lookup_app_r in Hj by (simpl; lia).
    apply list_elem_of_lookup_2, contains_char_spec in Hj. by rewrite Hhost in Hj. }
  assert (Ha : authority_end e = None).
  { apply find_char_None. intros j Hj Hc. apply Hs in Hc. lia. }
  assert (Hr : rfind_char "/" e = Some 7%nat).
  { apply rfind_char_Some. split; [done|]. intros j Hj Hc. apply Hs in Hc. lia. }
  unfold whip_resource_url. rewrite bool_decide_false by done.
  rewrite (bool_decide_false (front location = _)) by done. rewrite Hcolon, Hr. simpl.
  destruct (starts_with _ _) eqn:E; [|done]. exfalso.
  apply starts_with_spec in E as [t ->]. unfold origin in Hcolon. rewrite Ha in Hcolon.
  apply not_true_iff_false in Hcolon. apply Hcolon, contains_char_spec.
  unfold substr. change (str_drop 0 e) with (str (chars e)). rewrite str_chars.
  unfold e. rewrite !chars_app. set_solver.
Qed.

Lemma resource_url_pathless_escape_witness :
  whip_resource_url ("https://" +:+ "cam.example") "evil.example/session" =
    inr ("https://" +:+ "evil.example/session").
Proof. apply resource_url_pathless_escape; [reflexivity|discriminate|reflexivity|discriminate]. Defined.
End ResourceUrl.

(** ** Peer state *)

Module PeerState.

Record WhipPeerState := mkPeerState {
  disconnected_at_ : option Z;
  gathered_ : bool;
  failed_ : bool;
}.

Definition peer_init : WhipPeerState := mkPeerState None false false.

Definition gathered (s : WhipPeerState) : WhipPeerState :=
  mkPeerState (disconnected_at_ s) true (failed_ s).

Definition connected (s : WhipPeerState) : WhipPeerState :=
  mkPeerState None (gathered_ s) (failed_ s).

Definition disconnected (now : Z) (s : WhipPeerState) : WhipPeerState :=
  match disconnected_at_ s with
  | None => mkPeerState (Some now) (gathered_ s) (failed_ s)
  | Some _ => s
  end.

Definition failed (s : WhipPeerState) : WhipPeerState :=
  mkPeerState (disconnected_at_ s) (gathered_ s) true.

Definition is_disconnected (s : WhipPeerState) : bool :=
  bool_decide (is_Some (disconnected_at_ s)).

Definition should_reconnect (now grace : Z) (s : WhipPeerState) : bool :=
  failed_ s ||
  match disconnected_at_ s with Some at_ => grace <=? now - at_ | None => false end.

(** One iteration of [wait_for_gathering] sees the peer state under the mutex,
    the stop flag, and reads the clock twice. *)
Record Observation := mkObservation {
  seen : WhipPeerState;
  stopping : bool;
  now_next : Z;
  now_check : Z;
}.

(** [None]: the observations ended while the caller was still waiting.  The
    return statement reads [stopping] again, hence [stopping_at_return]. *)
Fixpoint wait_for_gathering (deadline : Z) (stopping_at_return : bool)
    (obs : list Observation) : option bool :=
  match obs with
  | [] => None
  | o :: rest =>
    let result := Some (gathered_ (seen o) && negb (failed_ (seen o)) && negb stopping_at_return) in
    if negb (gathered_ (seen o)) && negb (failed_ (seen o)) && negb (stopping o) then
      let next_check := Z.min deadline (now_next o + 100000000) in
      if next_check <=? now_check o then result
      else wait_for_gathering deadline stopping_at_return rest
    else result
  end.

(** The callbacks, in the order they ran. *)
Inductive event := EGathered | EConnected | EDisconnected (at_ : Z) | EFailed.

Definition apply_event (s : WhipPeerState) (e : event) : WhipPeerState :=
  match e with
  | EGathered => gathered s
  | EConnected => connected s
  | EDisconnected t => disconnected t s
  | EFailed => failed s
  end.

(** The first disconnection since the last connection. *)
Fixpoint outage_start (events : list event) (start : option Z) : option Z :=
  match events with
  | [] => start
  | EConnected :: rest => outage_start rest None
  | EDisconnected t :: rest =>
    outage_start rest (match start with Some t0 => Some t0 | None => Some t end)
  | _ :: rest => outage_start rest start
  end.

Lemma fold_events events s :
  let s' := fold_left apply_event events s in
  disconnected_at_ s' = outage_start events (disconnected_at_ s) /\
  failed_ s' = failed_ s || existsb (fun e => match e with EFailed => true | _ => false end) events.
Proof.
  revert s; induction events as [|e rest IH]; intros s; simpl; [by rewrite orb_false_r|].
  destruct (IH (apply_event s e)) as [-> ->]. split.
  - f_equal. destruct e; simpl; auto. unfold disconnected.
    destruct (disconnected_at_ s) eqn:E; simpl; congruence.
  - destruct e; simpl; auto; [|by destruct (failed_ s)].
    unfold disconnected. by destruct (disconnected_at_ s).
Qed.

(** After any sequence of callbacks, the session is given up exactly when the peer failed, or it has
    been disconnected for [grace] since the first disconnection after the last time it was
    connected; repeated disconnect callbacks do not extend the grace period. *)
Theorem should_reconnect_spec (events : list event) (now grace : Z) :
  should_reconnect now grace (fold_left apply_event events peer_init) = true <->
  EFailed ∈ events \/ exists t, outage_start events None = Some t /\ grace <= now - t.
Proof.
  destruct (fold_events events peer_init) as [Hd Hf]. unfold should_reconnect.
  rewrite Hd, Hf; simpl. rewrite orb_true_iff, existsb_exists. split.
  - intros [(e & He & ?)|H]; [left; destruct e; try done; by apply list_elem_of_In|].
    destruct (outage_start events None) as [t|]; [|done]. bools. right. by exists t.
  - intros [H|(t & -> & ?)]; [left; exists EFailed; split; [by apply list_elem_of_In|done]|].
    right. by apply Z.leb_le.
Qed.

(** Waiting for ICE gathering always ends by the deadline: once the clock read in an iteration is
    past the deadline the call has returned, and it returns true only when gathering finished
    without failure. *)
Theorem wait_for_gathering_deadline (deadline : Z) (stop_ret : bool) (obs : list Observation)
    (Hpast : Exists (fun o => deadline <= now_check o) obs) :
  exists b, wait_for_gathering deadline stop_ret obs = Some b /\
  (b = true -> stop_ret = false /\
     Exists (fun o => gathered_ (seen o) = true /\ failed_ (seen o) = false) obs).
Proof.
  induction Hpast as [o rest Ho|o rest _ (b & IH & Hb)]; simpl.
  - destruct (gathered_ (seen o)) eqn:Eg, (failed_ (seen o)) eqn:Ef, (stopping o); simpl;
      rewrite ?(proj2 (Z.leb_le _ _)) by lia; eexists; (split; [done|]);
      destruct stop_ret; try done; intros _; (split; [done|]); by left.
  - destruct (gathered_ (seen o)) eqn:Eg, (failed_ (seen o)) eqn:Ef, (stopping o); simpl;
      try case_match; eexists; (split; [done|]);
      destruct stop_ret; try done; intros Hb'; try (split; [done|]; by left);
      destruct (Hb Hb') as [? ?]; (split; [done|]); by right.
Qed.

Lemma wait_for_gathering_deadline_witness :
  exists b, wait_for_gathering 100 false
    [mkObservation peer_init false 0 0; mkObservation (gathered peer_init) false 100 100] = Some b /\
  (b = true -> false = false /\
     Exists (fun o => gathered_ (seen o) = true /\ failed_ (seen o) = false)
       [mkObservation peer_init false 0 0; mkObservation (gathered peer_init) false 100 100]).
Proof.
  apply (wait_for_gathering_deadline 100 false
    [mkObservation peer_init false 0 0; mkObservation (gathered peer_init) false 100 100]).
  right. left. simpl. lia.
Defined.
End PeerState.

(** ** RTP clock *)

Module RtpClock.

Definition h264_rtp_timestamp (pts_ns : Z) : Z :=
  let seconds := pts_ns / 1000000000 in
  let remainder := pts_ns mod 1000000000 in
  u32 (u64 (u64 (seconds * 90000) + u64 (remainder * 90000) / 1000000000)).

Record WhipRtpClock := mkClock {
  start_ : Z;
  offset_ : Z;
  last_ : Z;
  frame_ticks_ : Z;
  last_pts_ticks_ : option Z;
  generation_ : Z;
  has_last_ : bool;
}.

Definition make_clock (start_timestamp : Z) : WhipRtpClock :=
  mkClock start_timestamp 0 0 3000 None 0 false.

Definition timestamp (generation : Z) (has_pts : bool) (pts_ns : Z) (c : WhipRtpClock)
    : Z * WhipRtpClock :=
  let last_pts_ticks :=
    if has_last_ c && negb (generation =? generation_ c) then None else last_pts_ticks_ c in
  let next := if has_last_ c then u32 (last_ c + frame_ticks_ c) else start_ c in
  if has_pts then
    let ticks := h264_rtp_timestamp pts_ns in
    let '(offset, frame_ticks) :=
      match last_pts_ticks with
      | None =>
        if has_last_ c then (u32 (next - ticks), frame_ticks_ c)
        else (offset_ c, frame_ticks_ c)
      | Some last =>
        let step := i32 (u32 (ticks - last)) in
        (offset_ c, if (0 <? step) && (step <=? 9000) then step else frame_ticks_ c)
      end in
    let next' := u32 (ticks + offset) in
    (next', mkClock (start_ c) offset next' frame_ticks (Some ticks) generation true)
  else
    (next, mkClock (start_ c) (offset_ c) next (frame_ticks_ c) last_pts_ticks generation true).

(** The stamps of a stream of units [(generation, has_pts, pts_ns)]. *)
Definition AccessUnit : Type := Z * bool * Z.

Fixpoint stamps (units : list AccessUnit) (c : WhipRtpClock) : list Z :=
  match units with
  | [] => []
  | (g, h, p) :: rest => let '(ts, c') := timestamp g h p c in ts :: stamps rest c'
  end.

(** [b] is ahead of [a] on the 32-bit circle. *)
Definition ahead (a b : Z) : Prop := 0 < i32 (b - a).

(** Consecutive elements are related. *)
Fixpoint chain {A} (R : A -> A -> Prop) (l : list A) : Prop :=
  match l with
  | x :: (y :: _) as rest => R x y /\ chain R rest
  | _ => True
  end.

(** Both units carry a PTS, and within one pipeline instance the PTS advances
    by less than half the RTP range. *)
Definition advancing (u v : AccessUnit) : Prop :=
  let '(g, h, p) := u in
  let '(g', h', p') := v in
  h = true /\ h' = true /\ (g' = g -> ahead (h264_rtp_timestamp p) (h264_rtp_timestamp p')).

(** State after a stamped unit [(g, true, p)]. *)
Definition synced (g p : Z) (c : WhipRtpClock) : Prop :=
  has_last_ c = true /\ generation_ c = g /\
  last_pts_ticks_ c = Some (h264_rtp_timestamp p) /\
  last_ c = u32 (h264_rtp_timestamp p + offset_ c) /\ 1 <= frame_ticks_ c <= 9000.

Lemma frame_ticks_range g h p c :
  1 <= frame_ticks_ c <= 9000 -> 1 <= frame_ticks_ (timestamp g h p c).2 <= 9000.
Proof.
  intros H. unfold timestamp.
  destruct h, (has_last_ c && negb (g =? generation_ c)), (last_pts_ticks_ c), (has_last_ c);
    simpl; auto; destruct (_ && _) eqn:E; simpl; bools; lia.
Qed.

Lemma synced_after g p c :
  1 <= frame_ticks_ c <= 9000 -> synced g p (timestamp g true p c).2.
Proof.
  intros H. pose proof (frame_ticks_range g true p c H) as Hf. unfold synced.
  unfold timestamp in *. destruct (match _ with Some _ => _ | None => _ end) as [o f].
  simpl in *. auto.
Qed.

Lemma timestamp_restart g h p c :
  has_last_ c = true -> g <> generation_ c \/ h = false \/ last_pts_ticks_ c = None ->
  (timestamp g h p c).1 = u32 (last_ c + frame_ticks_ c).
Proof.
  intros Hl H. unfold timestamp. rewrite Hl. simpl.
  assert (E : h = true -> (if negb (g =? generation_ c) then None else last_pts_ticks_ c) = None).
  { intros ->. destruct (g =? generation_ c) eqn:E; [|done]. bools. simpl. naive_solver. }
  destruct h; [|done]. rewrite E by done. simpl. autorewrite with wrap.
  f_equal. lia.
Qed.

Lemma timestamp_continues p' c g p :
  synced g p c ->
  (timestamp g true p' c).1 = u32 (h264_rtp_timestamp p' + offset_ c).
Proof.
  intros (Hl & Hg & Hp & _). unfold timestamp. rewrite Hl, Hg, Hp, Z.eqb_refl. done.
Qed.

Lemma stamp_ahead g p g' p' c :
  synced g p c -> advancing (g, true, p) (g', true, p') ->
  ahead (last_ c) (timestamp g' true p' c).1.
Proof.
  intros Hs (_ & _ & Ha). destruct (decide (g' = g)) as [->|Hne].
  - rewrite (timestamp_continues _ _ _ _ Hs). destruct Hs as (_ & _ & _ & -> & _).
    specialize (Ha eq_refl). unfold ahead in *.
    autorewrite with wrap.
    by replace (_ + _ - _) with (h264_rtp_timestamp p' - h264_rtp_timestamp p) by lia.
  - destruct Hs as (Hl & Hg & _ & _ & Hf). rewrite timestamp_restart by (auto; left; congruence).
    unfold ahead. autorewrite with wrap. rewrite i32_small; lia.
Qed.

Lemma stamp_is_last g h p c : last_ (timestamp g h p c).2 = (timestamp g h p c).1.
Proof.
  unfold timestamp. destruct h; [|done].
  by destruct (match _ with Some _ => _ | None => _ end).
Qed.

Lemma chain_ahead units g p c :
  synced g p c -> chain advancing ((g, true, p) :: units) ->
  chain ahead (last_ c :: stamps units c).
Proof.
  revert g p c; induction units as [|[[g' h'] p'] rest IH]; intros g p c Hs Hc; [done|].
  destruct Hc as [Ha Hc]. destruct h'; [|by destruct Ha as (_ & ? & _)].
  pose proof (stamp_ahead _ _ _ _ _ Hs Ha) as H1.
  assert (Hs' : synced g' p' (timestamp g' true p' c).2) by (apply synced_after, Hs).
  specialize (IH _ _ _ Hs' Hc). rewrite stamp_is_last in IH. cbn [stamps].
  destruct (timestamp g' true p' c) as [ts c']; simpl in *. by split.
Qed.

(** ** Properties *)

(** The nanosecond PTS is converted without intermediate overflow: the RTP timestamp is [floor(pts *
    90000 / 10^9)] modulo 2^32 for every 64-bit PTS. *)
Theorem h264_rtp_timestamp_exact (pts_ns : Z) (H : is_u64 pts_ns) :
  h264_rtp_timestamp pts_ns = u32 (pts_ns * 90000 / 1000000000).
Proof.
  unfold h264_rtp_timestamp, is_u64 in *.
  assert (0 <= pts_ns / 1000000000 <= 18446744073) by zarith.
  assert (0 <= pts_ns mod 1000000000 < 1000000000) by (apply Z.mod_pos_bound; lia).
  rewrite (u64_small (_ * 90000)) by lia. rewrite (u64_small (_ mod _ * 90000)) by lia.
  rewrite u64_small by zarith. f_equal. zarith.
Qed.

Lemma h264_rtp_timestamp_exact_witness :
  h264_rtp_timestamp 18446744073709551615 = u32 (18446744073709551615 * 90000 / 1000000000).
Proof. apply h264_rtp_timestamp_exact. unfold is_u64. lia. Defined.

(** RTP time only moves forward: for any stream of units with PTS that advance within each pipeline
    instance, and with arbitrary PTS restarts between instances, every stamp is ahead of the
    previous one on the 32-bit circle, for any start timestamp. *)
Theorem rtp_moves_forward (start : Z) (units : list AccessUnit)
    (Hu : chain advancing units) (Hp : Forall (fun u => u.1.2 = true) units) :
  chain ahead (stamps units (make_clock start)).
Proof.
  destruct units as [|[[g h] p] rest]; [done|].
  apply Forall_cons in Hp as [Hh _]. simpl in Hh. subst h.
  assert (Hs : synced g p (timestamp g true p (make_clock start)).2)
    by (apply synced_after; simpl; lia).
  pose proof (chain_ahead _ _ _ _ Hs Hu) as H. rewrite stamp_is_last in H.
  cbn [stamps]. by destruct (timestamp g true p (make_clock start)) as [ts c'].
Qed.

Lemma rtp_moves_forward_witness :
  chain ahead (stamps [(4, true, 520000000); (4, true, 560000000); (5, true, 100)] (make_clock 9)).
Proof.
  apply rtp_moves_forward; [|by repeat constructor].
  repeat split; vm_compute; try done; intros; discriminate.
Defined.

(** A restarted pipeline, or a unit without PTS, is stamped exactly one learned frame interval
    (between 1 and 9000 ticks) after the last sent stamp; within a pipeline the stamps differ
    exactly as the PTS do. *)
Theorem rtp_continuity (g p : Z) (c : WhipRtpClock) (Hs : synced g p c) :
  (forall g' h' p', g' <> g \/ h' = false ->
     (timestamp g' h' p' c).1 = u32 (last_ c + frame_ticks_ c)) /\
  (forall p', (timestamp g true p' c).1 =
     u32 (last_ c + (h264_rtp_timestamp p' - h264_rtp_timestamp p))) /\
  (forall g' h' p', 1 <= frame_ticks_ (timestamp g' h' p' c).2 <= 9000).
Proof.
  pose proof Hs as (Hl & Hg & _ & Hlast & Hf). split_and!; intros.
  - apply timestamp_restart; [done|]. rewrite Hg. tauto.
  - rewrite (timestamp_continues _ _ _ _ Hs), Hlast. autorewrite with wrap. f_equal. lia.
  - by apply frame_ticks_range.
Qed.

Lemma rtp_continuity_witness :
  let c := (timestamp 4 true 520000000 (make_clock 9)).2 in
  (timestamp 5 true 100 c).1 = u32 (last_ c + frame_ticks_ c).
Proof.
  apply (rtp_continuity 4 520000000 (timestamp 4 true 520000000 (make_clock 9)).2).
  - repeat split; vm_compute; discriminate.
  - left. discriminate.
Defined.

(** Inside one pipeline a PTS is not re-anchored after a unit without PTS: when the PTS advanced by
    less than the frame interval guessed for that unit, the next stamp goes backward. *)
Theorem rtp_missing_pts_steps_back (g p p' : Z) (c : WhipRtpClock) (Hs : synced g p c)
    (Hd : 0 <= h264_rtp_timestamp p' - h264_rtp_timestamp p < frame_ticks_ c) :
  let '(ts1, c1) := timestamp g false 0 c in
  let '(ts2, _) := timestamp g true p' c1 in
  i32 (ts2 - ts1) < 0.
Proof.
  destruct Hs as (Hl & Hg & Hp & Hlast & Hf). unfold timestamp at 1.
  rewrite Hl, Hg, Hp, Z.eqb_refl. simpl. unfold timestamp; simpl. rewrite Z.eqb_refl. simpl.
  rewrite Hlast, u32_add_l. autorewrite with wrap. rewrite i32_small; lia.
Qed.

Lemma rtp_missing_pts_steps_back_witness :
  let c := (timestamp 0 true 0 (make_clock 0)).2 in
  let '(ts1, c1) := timestamp 0 false 0 c in
  let '(ts2, _) := timestamp 0 true 33000000 c1 in
  i32 (ts2 - ts1) < 0.
Proof.
  apply (rtp_missing_pts_steps_back 0 0 33000000 (timestamp 0 true 0 (make_clock 0)).2).
  - repeat split; vm_compute; discriminate.
  - vm_compute. split; [discriminate|reflexivity].
Defined.
End RtpClock.
