(* ===== verification/DetectionSei.v ===== *)
(** * Detections as H.264 SEI ([include/skai/webrtc/detection_sei.hpp],
    [src/webrtc/detection_sei.cpp])

    [Codec] is the text and the NAL unit, [Insert] places it in an access unit.
    Bytes are integers from 0 to 255. *)

From S2P Require Import Prelude Strings Json Floats.

(** ** Text and NAL unit *)

Module Codec.

Record SeiBox := mkSeiBox {
  x : float64;
  y : float64;
  w : float64;
  h : float64;
  class_name : string;
  score : float64;
}.

Record SeiResult := mkSeiResult { dt : Z; boxes : list SeiBox }.

Definition kDetectionSeiUuid : list Z :=
  [0x19; 0x7c; 0x65; 0xee; 0xa1; 0x32; 0x4f; 0x53;
   0x85; 0xa0; 0x8a; 0xf9; 0xad; 0x15; 0x3c; 0x4b].

Definition round4 (value : float64) : float64 :=
  f64_div (f64_round (f64_mul value (f64_of_Z 10000))) (f64_of_Z 10000).

Definition clamp_unit (value : float64) : float64 :=
  if isfinite value then fclamp value f64_zero f64_one else f64_zero.

(** The value in units of 10^-4 that [append_number] prints. *)
Definition scaled (value : float64) : Z :=
  let value := if negb (isfinite value) || flt (f64_of_Z 1000000000) (SFabs value)
               then f64_zero else value in
  default 0 (round_Z (f64_mul value (f64_of_Z 10000))).

(** The loop that strips trailing zeros of the fraction. *)
Fixpoint strip_zeros (fuel : nat) (fraction : Z) (digits : nat) : Z * nat :=
  match fuel with
  | O => (fraction, digits)
  | S fuel => if fraction mod 10 =? 0 then strip_zeros fuel (fraction / 10) (digits - 1)
              else (fraction, digits)
  end.

(** [".%0*lld"]. *)
Definition fraction_text (fraction : Z) (digits : nat) : list ascii :=
  let d := dec fraction in "."%char :: replicate (digits - length d) "0"%char ++ d.

(** The text of [scaled]; the fraction is below 10^4, so four iterations of the
    loop are enough. *)
Definition number_text (scaled : Z) : list ascii :=
  let sign := if scaled <? 0 then ["-"%char] else [] in
  let scaled := Z.abs scaled in
  let fraction := scaled mod 10000 in
  sign ++ dec (scaled / 10000) ++
  (if fraction =? 0 then []
   else let '(f, d) := strip_zeros 4 fraction 4 in fraction_text f d).

Definition append_number (out : string) (value : float64) : string :=
  out +:+ str (number_text (scaled value)).

Definition append_string (out value : string) : string :=
  out +:+ str (quote :: (chars value ≫= sei_escape) ++ [quote]).

Definition normalize_sei_box (x1 y1 x2 y2 : float32) (frame_width frame_height : Z)
    (class_name : string) (score : float32) : SeiBox :=
  let s := round4 (clamp_unit (f64_of_f32 score)) in
  if (frame_width <=? 0) || (frame_height <=? 0) then
    mkSeiBox f64_zero f64_zero f64_zero f64_zero class_name s
  else
    let left := clamp_unit (f64_div (f64_of_f32 x1) (f64_of_Z frame_width)) in
    let top := clamp_unit (f64_div (f64_of_f32 y1) (f64_of_Z frame_height)) in
    let right := clamp_unit (f64_div (f64_of_f32 x2) (f64_of_Z frame_width)) in
    let bottom := clamp_unit (f64_div (f64_of_f32 y2) (f64_of_Z frame_height)) in
    mkSeiBox (round4 left) (round4 top)
      (round4 (fmax f64_zero (f64_sub right left)))
      (round4 (fmax f64_zero (f64_sub bottom top))) class_name s.

Definition sei_dt_ticks (attach_pts_ns source_pts_ns : Z) : option Z :=
  if source_pts_ns >? attach_pts_ns then None
  else
    let elapsed := attach_pts_ns - source_pts_ns in
    Some (u32 (u64 (u64 (elapsed * 9) + 50000) / 100000)).

Definition box_json (b : SeiBox) (out : string) : string :=
  let out := out +:+ "[" in
  let out := append_number out (x b) +:+ "," in
  let out := append_number out (y b) +:+ "," in
  let out := append_number out (w b) +:+ "," in
  let out := append_number out (h b) +:+ "," in
  let out := append_string out (class_name b) +:+ "," in
  append_number out (score b) +:+ "]".

(** The two loops: an element is preceded by a comma except the first. *)
Fixpoint boxes_json (first : bool) (l : list SeiBox) (out : string) : string :=
  match l with
  | [] => out
  | b :: rest => boxes_json false rest (box_json b (if first then out else out +:+ ","))
  end.

Definition result_json (r : SeiResult) (out : string) : string :=
  let out := out +:+ (js "{'dt':" +:+ to_string (dt r) +:+ js ",'b':[") in
  boxes_json true (boxes r) out +:+ "]}".

Fixpoint results_json (first : bool) (l : list SeiResult) (out : string) : string :=
  match l with
  | [] => out
  | r :: rest => results_json false rest (result_json r (if first then out else out +:+ ","))
  end.

Definition detection_sei_json (results : list SeiResult) : string :=
  results_json true results (js "{'v':1,'r':[") +:+ "]}".

(** payloadSize: runs of 0xff; [fuel] is the size itself, one per iteration. *)
Fixpoint size_bytes (fuel : nat) (size : Z) : list Z :=
  match fuel with
  | O => [u8 size]
  | S fuel => if 255 <=? size then 255 :: size_bytes fuel (size - 255) else [u8 size]
  end.

Definition sei_rbsp (uuid : list Z) (payload : list Z) : list Z :=
  let size := Z.of_nat (length uuid + length payload) in
  5 :: size_bytes (Z.to_nat size) size ++ uuid ++ payload ++ [0x80].

(** The emulation prevention loop; [zeros] counts the zero bytes just written. *)
Fixpoint escape (zeros : nat) (rbsp : list Z) : list Z :=
  match rbsp with
  | [] => []
  | b :: rest =>
    let next := fun zeros => if b =? 0 then S zeros else 0%nat in
    if (2 <=? zeros)%nat && (b <=? 3) then 3 :: b :: escape (next 0%nat) rest
    else b :: escape (next zeros) rest
  end.

Definition encode_user_data_sei_nal (uuid : list Z) (payload : list Z) : list Z :=
  [0; 0; 0; 1; 0x06] ++ escape 0 (sei_rbsp uuid payload).

(** ** A decoder for the NAL unit (ITU-T H.264, 7.3.1, 7.3.2.3.1 and D.1.7) *)

Fixpoint unescape (zeros : nat) (l : list Z) : list Z :=
  match l with
  | [] => []
  | b :: rest =>
    if (2 <=? zeros)%nat && (b =? 3) then unescape 0 rest
    else b :: unescape (if b =? 0 then S zeros else 0%nat) rest
  end.

Fixpoint read_size (l : list Z) (acc : Z) : option (Z * list Z) :=
  match l with
  | [] => None
  | b :: rest => if b =? 255 then read_size rest (acc + 255) else Some (acc + b, rest)
  end.

(** UUID and payload of a user-data SEI NAL unit with a 4-byte start code. *)
Definition decode_user_data_sei_nal (nal : list Z) : option (list Z * list Z) :=
  match nal with
  | 0 :: 0 :: 0 :: 1 :: 6 :: ebsp =>
    match unescape 0 ebsp with
    | 5 :: l =>
      match read_size l 0 with
      | Some (size, body) =>
        if bool_decide (drop (Z.to_nat size) body = [0x80]) && (16 <=? size) then
          Some (take 16 body, take (Z.to_nat size - 16) (drop 16 body))
        else None
      | None => None
      end
    | _ => None
    end
  | _ => None
  end.

(** Reader of the number format, in units of 10^-4. *)
Fixpoint span (l : list ascii) : list ascii * list ascii :=
  match l with
  | [] => ([], [])
  | c :: rest => if is_digit c then let '(a, b) := span rest in (c :: a, b) else ([], l)
  end.

Definition read_fraction (l : list ascii) : option Z :=
  match l with
  | [] => Some 0
  | c :: rest =>
    if Ascii.eqb c "." && (length rest <=? 4)%nat then
      (fun v => v * 10 ^ Z.of_nat (4 - length rest)) <$> read_dec rest 0
    else None
  end.

Definition read_number (l : list ascii) : option Z :=
  let '(negative, l) := match l with
                        | c :: rest => if Ascii.eqb c "-" then (true, rest) else (false, l)
                        | [] => (false, l)
                        end in
  let '(ip, fp) := span l in
  match read_dec ip 0, read_fraction fp with
  | Some i, Some f => Some ((if negative : bool then -1 else 1) * (i * 10000 + f))
  | _, _ => None
  end.

(** ** Lemmas *)

Lemma unescape_escape z l : unescape z (escape z l) = l.
Proof.
  revert z; induction l as [|b l IH]; intros z; [done|]. cbn [escape].
  destruct (2 <=? z)%nat eqn:Ez; cbn [andb].
  - destruct (b <=? 3) eqn:Eb; cbn [unescape]; rewrite Ez; cbn -[unescape escape].
    + cbn [unescape]. simpl. by rewrite IH.
    + bools. rewrite (proj2 (Z.eqb_neq b 3)) by lia. by rewrite IH.
  - cbn [unescape]. rewrite Ez. cbn [andb]. by rewrite IH.
Qed.

(** After [z] zero bytes, no run [0 0 b] with [b <= 2] is completed. *)
Fixpoint emulation_free (z : nat) (l : list Z) : Prop :=
  match l with
  | [] => True
  | b :: rest => ((2 <= z)%nat -> 3 <= b) /\ emulation_free (if b =? 0 then S z else 0%nat) rest
  end.

Lemma escape_emulation_free z l : emulation_free z (escape z l).
Proof.
  revert z; induction l as [|b l IH]; intros z; [done|]. cbn [escape].
  destruct (2 <=? z)%nat eqn:Ez; cbn [andb].
  - destruct (b <=? 3) eqn:Eb; simpl; bools.
    + split_and!; [lia|lia|apply IH].
    + split; [lia|apply IH].
  - apply Nat.leb_gt in Ez. split; [lia|apply IH].
Qed.

Lemma emulation_free_triple z l i b :
  emulation_free z l -> l !! i = Some 0 -> l !! S i = Some 0 -> l !! S (S i) = Some b -> 3 <= b.
Proof.
  revert z i; induction l as [|c l IH]; intros z i H; [done|].
  destruct H as [_ H]. destruct i as [|i]; simpl; [|by apply IH with (1 := H)].
  intros [= ->] H1 H2. destruct l as [|d l]; [done|]. simpl in H1. injection H1 as ->.
  destruct l as [|e l]; [done|]. simpl in H2. injection H2 as ->.
  simpl in H. destruct H as (_ & H & _). apply H. lia.
Qed.

Lemma escape_no_zero z l :
  (z <= 1)%nat -> Forall (fun b => 1 <= b) l -> escape z l = l.
Proof.
  intros Hz H. revert z Hz. induction H as [|b l Hb _ IH]; intros z Hz; [done|]. cbn [escape].
  rewrite (proj2 (Nat.leb_gt 2 z)) by lia. simpl.
  rewrite (proj2 (Z.eqb_neq b 0)) by lia. by rewrite IH by lia.
Qed.

Lemma read_size_bytes fuel n rest acc :
  0 <= n <= Z.of_nat fuel -> read_size (size_bytes fuel n ++ rest) acc = Some (acc + n, rest).
Proof.
  assert (Hs : forall n acc, 0 <= n < 255 -> read_size ([u8 n] ++ rest) acc = Some (acc + n, rest)).
  { intros m a Hm. simpl. unfold u8. rewrite Z.mod_small by lia.
    by rewrite (proj2 (Z.eqb_neq m 255)) by lia. }
  revert n acc; induction fuel as [|fuel IH]; intros n acc H; cbn [size_bytes].
  { apply Hs. lia. }
  destruct (255 <=? n) eqn:E; bools; [|apply Hs; lia].
  simpl. rewrite IH by lia. f_equal. f_equal. lia.
Qed.

Lemma size_bytes_length fuel n :
  0 <= n <= Z.of_nat fuel -> Z.of_nat (length (size_bytes fuel n)) = n / 255 + 1.
Proof.
  revert n; induction fuel as [|fuel IH]; intros n H; cbn [size_bytes].
  { assert (n = 0) as -> by lia. done. }
  destruct (255 <=? n) eqn:E; bools; cbn [length].
  - rewrite Nat2Z.inj_succ, IH by lia. zarith.
  - rewrite Z.div_small by lia. done.
Qed.

(** *** The text *)

Definition clean (l : list ascii) : Prop := Forall (fun c => 32 <= byte_of c) l.

Lemma digit_clean c : is_digit c = true -> 32 <= byte_of c.
Proof.
  unfold is_digit, digit_value. intros H. bools. destruct H as [v Hv].
  destruct ((0 <=? byte_of c - 48) && (byte_of c - 48 <=? 9)) eqn:E; bools; [lia|done].
Qed.

Lemma dec_clean n : 0 <= n -> clean (dec n).
Proof.
  intros H. destruct (dec_spec n H) as (_ & Hd & _). unfold clean.
  eapply Forall_impl; [exact Hd|]. apply digit_clean.
Qed.

Lemma clean_app l k : clean (l ++ k) <-> clean l /\ clean k.
Proof. apply Forall_app. Qed.

Lemma clean_const l : forallb (fun c => 32 <=? byte_of c) l = true -> clean l.
Proof.
  unfold clean. induction l as [|c l IH]; simpl; intros H; [constructor|]. bools.
  constructor; auto.
Qed.

Lemma strip_zeros_nonneg fuel f d : 0 <= f -> 0 <= (strip_zeros fuel f d).1.
Proof.
  revert f d; induction fuel as [|fuel IH]; intros f d H; simpl; [done|].
  destruct (_ =? 0); [|done]. apply IH. zarith.
Qed.

Lemma number_text_clean n : clean (number_text n).
Proof.
  unfold number_text. apply clean_app. split; [destruct (n <? 0); by apply clean_const|].
  apply clean_app. split; [apply dec_clean; zarith|].
  destruct (_ =? 0); [by apply clean_const|].
  pose proof (strip_zeros_nonneg 4 (Z.abs n mod 10000) 4 ltac:(zarith)) as Hf.
  destruct (strip_zeros _ _ _) as [f d]. unfold fraction_text.
  apply (clean_app ["."%char]). split; [by apply clean_const|]. apply clean_app.
  split; [|by apply dec_clean]. apply Forall_replicate. vm_compute. discriminate.
Qed.

Lemma string_text_clean v : clean (quote :: (chars v ≫= sei_escape) ++ [quote]).
Proof.
  apply (clean_app [quote]). split; [by apply clean_const|]. apply clean_app.
  split; [|by apply clean_const]. apply Forall_bind, Forall_true. apply sei_escape_printable.
Qed.

Lemma to_string_clean z : clean (chars (to_string z)).
Proof.
  unfold to_string. destruct (z <? 0) eqn:E; bools; autorewrite with strs.
  - apply clean_app. split; [by apply clean_const|apply dec_clean; lia].
  - by apply dec_clean.
Qed.

(** The characters a box, and a result, add to the text. *)
Definition box_chars (b : SeiBox) : list ascii := chars (box_json b "").

Definition comma (first : bool) : list ascii := if first then [] else [","%char].

Fixpoint boxes_chars (first : bool) (l : list SeiBox) : list ascii :=
  match l with [] => [] | b :: rest => comma first ++ box_chars b ++ boxes_chars false rest end.

Definition result_chars (r : SeiResult) : list ascii :=
  chars (js "{'dt':") ++ chars (to_string (dt r)) ++ chars (js ",'b':[") ++
  boxes_chars true (boxes r) ++ chars "]}".

Fixpoint results_chars (first : bool) (l : list SeiResult) : list ascii :=
  match l with [] => [] | r :: rest => comma first ++ result_chars r ++ results_chars false rest end.

Lemma chars_box_json b out : chars (box_json b out) = chars out ++ box_chars b.
Proof.
  unfold box_chars, box_json, append_number, append_string.
  rewrite !chars_app, !chars_str, <- !app_assoc. reflexivity.
Qed.

Lemma chars_boxes_json first l out :
  chars (boxes_json first l out) = chars out ++ boxes_chars first l.
Proof.
  revert first out; induction l as [|b l IH]; intros first out;
    cbn [boxes_json boxes_chars]; [by rewrite app_nil_r|].
  rewrite IH, chars_box_json.
  destruct first; rewrite ?chars_app, <- !app_assoc; reflexivity.
Qed.

Lemma chars_result_json r out : chars (result_json r out) = chars out ++ result_chars r.
Proof.
  unfold result_json, result_chars.
  rewrite chars_app, chars_boxes_json, !chars_app, <- !app_assoc. reflexivity.
Qed.

Lemma chars_results_json first l out :
  chars (results_json first l out) = chars out ++ results_chars first l.
Proof.
  revert first out; induction l as [|r l IH]; intros first out;
    cbn [results_json results_chars]; [by rewrite app_nil_r|].
  rewrite IH, chars_result_json.
  destruct first; rewrite ?chars_app, <- !app_assoc; reflexivity.
Qed.

Lemma chars_sei_json l :
  chars (detection_sei_json l) = chars (js "{'v':1,'r':[") ++ results_chars true l ++ chars "]}".
Proof. unfold detection_sei_json. by rewrite chars_app, chars_results_json, <- app_assoc. Qed.

Lemma comma_clean first : clean (comma first).
Proof. destruct first; apply clean_const; reflexivity. Qed.

Ltac clean_auto :=
  repeat match goal with
  | |- clean (_ ++ _) => apply clean_app; split
  | |- clean (number_text _) => apply number_text_clean
  | |- clean (chars (to_string _)) => apply to_string_clean
  | |- clean (quote :: _ ++ [quote]) => apply string_text_clean
  | |- clean (comma _) => apply comma_clean
  | |- clean (chars (js _)) => apply clean_const; reflexivity
  | |- clean (chars (String _ _)) => apply clean_const; reflexivity
  | |- clean (chars "") => apply clean_const; reflexivity
  | |- clean [] => apply clean_const; reflexivity
  | |- clean [_] => apply clean_const; reflexivity
  end.

Lemma box_chars_clean b : clean (box_chars b).
Proof.
  unfold box_chars, box_json, append_number, append_string.
  rewrite !chars_app, !chars_str. clean_auto.
Qed.

Lemma boxes_chars_clean first l : clean (boxes_chars first l).
Proof.
  revert first; induction l as [|b l IH]; intros first; cbn [boxes_chars]; [constructor|].
  clean_auto; [apply box_chars_clean | apply IH].
Qed.

Lemma results_chars_clean first l : clean (results_chars first l).
Proof.
  revert first; induction l as [|r l IH]; intros first; cbn [results_chars]; [constructor|].
  unfold result_chars. clean_auto; [apply boxes_chars_clean | apply IH].
Qed.

Lemma sei_json_clean l : clean (chars (detection_sei_json l)).
Proof. rewrite chars_sei_json. clean_auto. apply results_chars_clean. Qed.

(** *** Reading numbers back *)

Lemma span_digits l k :
  Forall (fun c => is_digit c = true) l ->
  match k with [] => True | c :: _ => is_digit c = false end -> span (l ++ k) = (l, k).
Proof.
  intros Hl Hk. induction Hl as [|c l Hc _ IH]; simpl.
  - destruct k as [|c k]; simpl; [done|]. by rewrite Hk.
  - by rewrite Hc, IH.
Qed.

Definition fraction_reads (f : Z) : bool :=
  let '(g, d) := strip_zeros 4 f 4 in bool_decide (read_fraction (fraction_text g d) = Some f).

Lemma fraction_table : forallb fraction_reads (seqZ 1 9999) = true.
Proof. vm_compute. reflexivity. Qed.

Lemma fraction_reads_back f :
  1 <= f <= 9999 ->
  let '(g, d) := strip_zeros 4 f 4 in read_fraction (fraction_text g d) = Some f.
Proof.
  intros H. pose proof (proj1 (forallb_forall _ _) fraction_table f) as Ht.
  specialize (Ht ltac:(apply list_elem_of_In, elem_of_seqZ; lia)).
  unfold fraction_reads in Ht. destruct (strip_zeros 4 f 4). by bools.
Qed.

Lemma digit_not_minus c : is_digit c = true -> Ascii.eqb c "-" = false.
Proof. intros H. apply Ascii.eqb_neq. intros ->. discriminate H. Qed.

Lemma unsigned_reads_back a :
  0 <= a ->
  let fp := if a mod 10000 =? 0 then []
            else let '(f, d) := strip_zeros 4 (a mod 10000) 4 in fraction_text f d in
  span (dec (a / 10000) ++ fp) = (dec (a / 10000), fp) /\
  read_dec (dec (a / 10000)) 0 = Some (a / 10000) /\ read_fraction fp = Some (a mod 10000).
Proof.
  intros Ha fp. destruct (dec_spec (a / 10000) ltac:(zarith)) as (_ & Hd & Hr & _).
  assert (Hf : read_fraction fp = Some (a mod 10000) /\
               match fp with [] => True | c :: _ => is_digit c = false end).
  { unfold fp. destruct (_ =? 0) eqn:E; bools; [by rewrite E|].
    pose proof (fraction_reads_back (a mod 10000) ltac:(zarith)) as H.
    destruct (strip_zeros _ _ _) as [f d]. done. }
  destruct Hf as [Hf1 Hf2]. split_and!; auto. by apply span_digits.
Qed.

(** *** Size of the NAL unit *)

Lemma escape_size_bytes fuel n rest :
  0 <= n -> Forall (fun b => 1 <= b) rest ->
  escape 0 (size_bytes fuel n ++ rest) = size_bytes fuel n ++ rest.
Proof.
  intros Hn Hr. assert (Hlast : forall m, escape 0 (u8 m :: rest) = u8 m :: rest).
  { intros m. cbn [escape]. simpl. destruct (_ =? 0); rewrite escape_no_zero by (done || lia); done. }
  revert n Hn; induction fuel as [|fuel IH]; intros n Hn; cbn [size_bytes]; [apply Hlast|].
  destruct (255 <=? n) eqn:E; bools; [|apply Hlast].
  rewrite <- app_comm_cons. cbn [escape]. simpl. f_equal. apply IH. lia.
Qed.

Lemma nal_length payload :
  Forall (fun b => 1 <= b) payload ->
  let n := Z.of_nat (length payload) in
  Z.of_nat (length (encode_user_data_sei_nal kDetectionSeiUuid payload)) =
    n + 24 + (n + 16) / 255.
Proof.
  intros H n. unfold encode_user_data_sei_nal, sei_rbsp.
  set (size := Z.of_nat (length kDetectionSeiUuid + length payload)).
  assert (E : escape 0 (5 :: size_bytes (Z.to_nat size) size ++ kDetectionSeiUuid ++ payload ++ [128])
              = 5 :: size_bytes (Z.to_nat size) size ++ kDetectionSeiUuid ++ payload ++ [128]).
  { cbn [escape]. simpl ((2 <=? 0)%nat && _). cbn iota. change (5 =? 0) with false. cbn iota.
    f_equal. apply escape_size_bytes; [unfold size; lia|].
    repeat (apply Forall_app; split); auto; repeat constructor; lia. }
  rewrite E, !length_app. cbn [length]. rewrite !length_app, !Nat2Z.inj_add, !Nat2Z.inj_succ.
  rewrite !Nat2Z.inj_add, size_bytes_length by (unfold size; lia).
  replace size with (n + 16) by (unfold size, n, kDetectionSeiUuid; simpl; lia).
  unfold kDetectionSeiUuid. cbn [length]. unfold n. lia.
Qed.

Lemma clean_bytes s : clean (chars s) -> Forall (fun b => 1 <= b) (bytes s).
Proof. intros H. apply Forall_fmap. eapply Forall_impl; [exact H|]. simpl. lia. Qed.

Lemma sei_nal_triple uuid payload i b :
  encode_user_data_sei_nal uuid payload !! i = Some 0 ->
  encode_user_data_sei_nal uuid payload !! S i = Some 0 ->
  encode_user_data_sei_nal uuid payload !! S (S i) = Some b -> (2 <= i)%nat -> 3 <= b.
Proof.
  unfold encode_user_data_sei_nal. generalize (sei_rbsp uuid payload). intros r H0 H1 H2 Hi.
  destruct i as [|[|[|[|[|i]]]]]; try lia; simpl in H0, H1, H2; simplify_eq.
  eapply emulation_free_triple; [apply escape_emulation_free|exact H0|exact H1|exact H2].
Qed.

(** ** Properties *)

(** C30.   What a viewer extracts is what was sent: for every UUID and payload the H.264 user-data
    SEI syntax, read back with its emulation prevention bytes removed, yields the same UUID and
    payload. *)
Theorem sei_nal_roundtrip (uuid payload : list Z) (Hu : length uuid = 16%nat) :
  decode_user_data_sei_nal (encode_user_data_sei_nal uuid payload) = Some (uuid, payload).
Proof.
  unfold decode_user_data_sei_nal, encode_user_data_sei_nal. cbn [app].
  rewrite unescape_escape. unfold sei_rbsp.
  set (size := Z.of_nat (length uuid + length payload)).
  rewrite read_size_bytes by (unfold size; lia). rewrite Z.add_0_l.
  replace (Z.to_nat size) with (length (uuid ++ payload)) by (rewrite length_app; unfold size; lia).
  rewrite (app_assoc uuid), drop_app_length, bool_decide_true by done.
  rewrite (proj2 (Z.leb_le 16 size)) by (unfold size; lia). simpl.
  rewrite <- (app_assoc uuid), <- Hu, take_app_length, drop_app_length, length_app.
  replace (length uuid + length payload - length uuid)%nat with (length payload) by lia.
  by rewrite take_app_length.
Qed.

Lemma sei_nal_roundtrip_witness :
  decode_user_data_sei_nal (encode_user_data_sei_nal kDetectionSeiUuid [0; 0; 1; 0; 0; 0; 3]) =
    Some (kDetectionSeiUuid, [0; 0; 1; 0; 0; 0; 3]).
Proof. apply sei_nal_roundtrip. reflexivity. Defined.

(** The NAL unit contains no start code besides its own: after the first two positions no byte
    triple [00 00 b] with [b <= 2] occurs, for any payload. *)
Theorem sei_nal_no_start_code (uuid payload : list Z) (i : nat) (b : Z)
    (H0 : encode_user_data_sei_nal uuid payload !! i = Some 0)
    (H1 : encode_user_data_sei_nal uuid payload !! S i = Some 0)
    (H2 : encode_user_data_sei_nal uuid payload !! S (S i) = Some b)
    (Hi : (2 <= i)%nat) : 3 <= b.
Proof. exact (sei_nal_triple _ _ _ _ H0 H1 H2 Hi). Qed.

Lemma sei_nal_no_start_code_witness :
  let nal := encode_user_data_sei_nal kDetectionSeiUuid [0; 0; 1] in
  nal !! 23%nat = Some 0 /\ nal !! 24%nat = Some 0 /\ nal !! 25%nat = Some 3 /\ 3 <= 3.
Proof.
  split_and!; [reflexivity..|].
  apply (sei_nal_no_start_code kDetectionSeiUuid [0; 0; 1] 23); [reflexivity..|lia].
Defined.

(** Every printed coordinate or score reads back, in units of 10^-4, as the value that was rounded
    for printing, with any number of fraction digits stripped. *)
Theorem number_text_roundtrip (n : Z) : read_number (number_text n) = Some n.
Proof.
  unfold read_number, number_text.
  destruct (unsigned_reads_back (Z.abs n) ltac:(lia)) as (Hs & Hd & Hf).
  set (fp := if _ =? 0 then _ else _) in *.
  assert (Hn : exists c l, dec (Z.abs n / 10000) = c :: l /\ is_digit c = true).
  { destruct (dec_spec (Z.abs n / 10000) ltac:(zarith)) as (Hne & Hc & _).
    destruct (dec _) as [|c l]; [done|]. exists c, l. by inversion Hc. }
  destruct Hn as (c & l & Hcl & Hc). destruct (n <? 0) eqn:E; bools.
  - cbn [app]. change (Ascii.eqb "-" "-") with true. cbn iota beta.
    rewrite Hs, Hd, Hf. f_equal. zarith.
  - cbn [app]. pose proof Hs as Hs'. rewrite Hcl in Hs' |- *. rewrite <- app_comm_cons in *.
    rewrite (digit_not_minus c Hc). cbn iota beta.
    rewrite Hs', <- Hcl, Hd, Hf. f_equal. zarith.
Qed.

(** The time offset is the exactly rounded one: for a result older than the unit by less than 2^45
    ns (over nine hours), [dt] is elapsed * 90000 / 10^9 rounded half up, and no offset exists for a
    result newer than the unit. *)
Theorem sei_dt_ticks_rounds (attach source : Z)
    (H : 0 <= source) (Hle : source <= attach) (Hr : attach - source < 2 ^ 45) :
  exists d, sei_dt_ticks attach source = Some d /\
    2 * Z.abs (d * 1000000000 - (attach - source) * 90000) <= 1000000000 /\
    (attach - source <= 1000000000 -> d <= 90000).
Proof.
  unfold sei_dt_ticks. rewrite Z.gtb_ltb, (proj2 (Z.ltb_ge _ _)) by lia.
  change (2 ^ 45) with 35184372088832 in Hr.
  eexists. split; [done|]. set (e := attach - source) in *.
  rewrite (u64_small (e * 9)) by lia. rewrite u64_small by lia. rewrite u32_small by zarith.
  zarith.
Qed.

Lemma sei_dt_ticks_rounds_witness :
  exists d, sei_dt_ticks 520000000 480000000 = Some d /\
    2 * Z.abs (d * 1000000000 - (520000000 - 480000000) * 90000) <= 1000000000 /\
    (520000000 - 480000000 <= 1000000000 -> d <= 90000).
Proof. apply sei_dt_ticks_rounds; lia. Defined.
End Codec.

(** ** Placing the NAL unit in an access unit *)

Module Insert.
Import Codec.

Definition is_vcl (header : Z) : bool :=
  let type := Z.land header 0x1f in (1 <=? type) && (type <=? 5).

Definition byte_at (l : list Z) (i : nat) : Z := nth i l 0.

Definition start_code_at (l : list Z) (i : nat) : bool :=
  (byte_at l i =? 0) && (byte_at l (i + 1) =? 0) && (byte_at l (i + 2) =? 1).

(** The scanning loop from index [i]; the index grows every iteration, so
    [length access_unit] iterations are enough. *)
Fixpoint scan (fuel : nat) (access_unit : list Z) (i : nat) : option nat :=
  match fuel with
  | O => None
  | S fuel =>
    if (i + 3 <? length access_unit)%nat then
      if start_code_at access_unit i then
        if is_vcl (byte_at access_unit (i + 3)) then Some i
        else scan fuel access_unit (i + 3)
      else scan fuel access_unit (i + 1)
    else None
  end.

Definition insert_before_first_vcl (access_unit nal : list Z) : bool * list Z :=
  match scan (length access_unit) access_unit 0 with
  | Some i =>
    let at_ := if (0 <? i)%nat && (byte_at access_unit (i - 1) =? 0) then (i - 1)%nat else i in
    (true, take at_ access_unit ++ nal ++ drop at_ access_unit)
  | None => (false, access_unit)
  end.

(** A VCL NAL unit starts at [i]: start code, and a header of type 1 to 5. *)
Definition vcl_at (l : list Z) (i : nat) : Prop :=
  (i + 3 < length l)%nat /\ start_code_at l i = true /\ is_vcl (byte_at l (i + 3)) = true.

Definition first_vcl (l : list Z) (i : nat) : Prop :=
  vcl_at l i /\ forall j, (j < i)%nat -> ~ vcl_at l j.

Lemma start_code_spec l i :
  start_code_at l i = true <-> byte_at l i = 0 /\ byte_at l (i + 1) = 0 /\ byte_at l (i + 2) = 1.
Proof.
  unfold start_code_at. rewrite !andb_true_iff, !Z.eqb_eq. tauto.
Qed.

Lemma scan_spec fuel l i :
  (length l <= fuel + i)%nat ->
  match scan fuel l i with
  | Some k => (i <= k)%nat /\ vcl_at l k /\ forall j, (i <= j < k)%nat -> ~ vcl_at l j
  | None => forall j, (i <= j)%nat -> ~ vcl_at l j
  end.
Proof.
  revert i; induction fuel as [|fuel IH]; intros i Hf; cbn [scan].
  { intros j Hj (Hl & _). lia. }
  destruct (i + 3 <? length l)%nat eqn:Hl; [apply Nat.ltb_lt in Hl|apply Nat.ltb_ge in Hl];
    [|intros j Hj (? & _); lia].
  assert (Hnext : forall m, (i < m)%nat -> (forall j, (i <= j < m)%nat -> ~ vcl_at l j) ->
    match scan fuel l m with
    | Some k => (i <= k)%nat /\ vcl_at l k /\ forall j, (i <= j < k)%nat -> ~ vcl_at l j
    | None => forall j, (i <= j)%nat -> ~ vcl_at l j
    end).
  { intros m Hm Hskip. specialize (IH m ltac:(lia)). destruct (scan fuel l m) as [k|].
    - destruct IH as (? & ? & Hk). split_and!; [lia|done|]. intros j Hj.
      destruct (decide (j < m)%nat); [apply Hskip|apply Hk]; lia.
    - intros j Hj. destruct (decide (j < m)%nat); [apply Hskip; lia|apply IH; lia]. }
  destruct (start_code_at l i) eqn:Es.
  - destruct (is_vcl _) eqn:Ev; [split_and!; [lia|done|intros; lia]|].
    apply Hnext; [lia|]. intros j Hj (_ & Hs & Hv). apply start_code_spec in Es, Hs.
    assert (j = i \/ j = i + 1 \/ j = i + 2)%nat as [->|[->| ->]] by lia; [congruence| |];
      replace (i + 1 + 1)%nat with (i + 2)%nat in Hs by lia; lia.
  - apply Hnext; [lia|]. intros j Hj (_ & Hs & _). replace j with i in Hs by lia. congruence.
Qed.

Lemma scan_first l i : scan (length l) l 0 = Some i -> first_vcl l i.
Proof.
  intros E. pose proof (scan_spec (length l) l 0 ltac:(lia)) as H. rewrite E in H.
  destruct H as (_ & Hv & Hm). split; [done|]. intros j Hj. apply Hm. lia.
Qed.

Lemma insert_spec_lemma (au nal : list Z) :
  (exists i a, first_vcl au i /\
     (a = i \/ S a = i /\ byte_at au a = 0) /\
     insert_before_first_vcl au nal = (true, take a au ++ nal ++ drop a au)) \/
  ((forall i, ~ vcl_at au i) /\ insert_before_first_vcl au nal = (false, au)).
Proof.
  unfold insert_before_first_vcl. pose proof (scan_spec (length au) au 0 ltac:(lia)) as H.
  destruct (scan _ au 0) as [i|]; [left|right].
  - destruct H as (_ & Hv & Hm).
    exists i, (if (0 <? i)%nat && (byte_at au (i - 1) =? 0) then (i - 1)%nat else i).
    split_and!; auto.
    + split; [done|]. intros j Hj. apply Hm. lia.
    + destruct (0 <? i)%nat eqn:E; simpl; [|by left].
      apply Nat.ltb_lt in E. destruct (byte_at au (i - 1) =? 0) eqn:Eb; [right|by left].
      bools. split; [lia|done].
  - split; [|done]. intros i. apply H. lia.
Qed.

(** Skipping three bytes past a start code misses nothing: the scan finds exactly the first VCL NAL
    unit of the access unit; the SEI is inserted in front of it (before a 4-byte start code's
    leading zero), and a unit without a VCL NAL is returned unchanged. *)
Theorem insert_before_first_vcl_spec (au nal : list Z) :
  (exists i a, first_vcl au i /\
     (a = i \/ S a = i /\ byte_at au a = 0) /\
     insert_before_first_vcl au nal = (true, take a au ++ nal ++ drop a au)) \/
  ((forall i, ~ vcl_at au i) /\ insert_before_first_vcl au nal = (false, au)).
Proof. apply insert_spec_lemma. Qed.

Lemma byte_at_app_l l k i : (i < length l)%nat -> byte_at (l ++ k) i = byte_at l i.
Proof. apply app_nth1. Qed.

Lemma byte_at_app_r l k i : byte_at (l ++ k) (length l + i) = byte_at k i.
Proof. unfold byte_at. rewrite app_nth2 by lia. f_equal. lia. Qed.

Lemma byte_at_lookup l i : (i < length l)%nat -> l !! i = Some (byte_at l i).
Proof.
  intros H. unfold byte_at. rewrite nth_lookup. by destruct (lookup_lt_is_Some_2 l i H) as [b ->].
Qed.

Lemma escape_app z l k : exists z', escape z (l ++ k) = escape z l ++ escape z' k.
Proof.
  revert z; induction l as [|b l IH]; intros z; [by exists z|]. cbn [escape app].
  destruct (_ && _).
  - destruct (IH (if b =? 0 then 1%nat else 0%nat)) as [z' ->]. by exists z'.
  - destruct (IH (if b =? 0 then S z else 0%nat)) as [z' ->]. by exists z'.
Qed.

Lemma nal_last uuid payload :
  exists front, encode_user_data_sei_nal uuid payload = front ++ [0x80] /\ (5 <= length front)%nat.
Proof.
  unfold encode_user_data_sei_nal, sei_rbsp.
  set (size := Z.of_nat (length uuid + length payload)).
  destruct (escape_app 0 (5 :: size_bytes (Z.to_nat size) size ++ uuid ++ payload) [0x80]) as [z H].
  assert (Hz : escape z [0x80] = [0x80]).
  { cbn [escape]. change (128 <=? 3) with false. by rewrite andb_false_r. }
  rewrite Hz in H. replace ((5 :: size_bytes (Z.to_nat size) size ++ uuid ++ payload) ++ [128])
    with (5 :: size_bytes (Z.to_nat size) size ++ uuid ++ payload ++ [128]) in H
    by (simpl; by rewrite <- !app_assoc).
  rewrite H, app_assoc. eexists. split; [done|]. rewrite length_app. simpl. lia.
Qed.

(** Bytes of the encoded NAL unit: the 4-byte start code, the SEI header, no
    further start code, and a last byte that is not zero. *)
Lemma nal_bytes uuid payload :
  let nal := encode_user_data_sei_nal uuid payload in
  (5 < length nal)%nat /\
  byte_at nal 0 = 0 /\ byte_at nal 1 = 0 /\ byte_at nal 2 = 0 /\ byte_at nal 3 = 1 /\
  byte_at nal 4 = 6 /\ byte_at nal (length nal - 1) = 0x80 /\
  (forall k, (2 <= k)%nat -> (k + 2 < length nal)%nat -> start_code_at nal k = false).
Proof.
  intros nal. destruct (nal_last uuid payload) as (f & Hf & Hl).
  assert (Hlen : length nal = S (length f)) by (unfold nal; rewrite Hf, length_app; simpl; lia).
  split_and!; try done; [lia| |].
  - rewrite Hlen. unfold nal. rewrite Hf. replace (S (length f) - 1)%nat with (length f + 0)%nat by lia.
    by rewrite byte_at_app_r.
  - intros k Hk Hk2. apply not_true_is_false. intros Hs. apply start_code_spec in Hs as (H0 & H1 & H2).
    assert (3 <= byte_at nal (k + 2)); [|lia].
    assert (Hlook : forall j b, (j < length nal)%nat -> byte_at nal j = b -> nal !! j = Some b).
    { intros j b Hj <-. by apply byte_at_lookup. }
    assert (Hn := sei_nal_triple uuid payload k (byte_at nal (k + 2))).
    apply Hn; [apply Hlook; [lia|done] |apply Hlook; [lia|]|apply Hlook; [lia|]|done];
      [by rewrite <- H1; f_equal; lia|f_equal; lia].
Qed.

Section Seams.
Context (au nal : list Z) (i a : nat).
Hypothesis Hfirst : first_vcl au i.
Hypothesis Ha : a = i \/ S a = i /\ byte_at au a = 0.
Hypothesis Hnal : (5 < length nal)%nat /\
  byte_at nal 0 = 0 /\ byte_at nal 1 = 0 /\ byte_at nal 2 = 0 /\ byte_at nal 3 = 1 /\
  byte_at nal 4 = 6 /\ byte_at nal (length nal - 1) = 0x80 /\
  (forall k, (2 <= k)%nat -> (k + 2 < length nal)%nat -> start_code_at nal k = false).

Local Definition out := take a au ++ nal ++ drop a au.

Lemma seam_a : (a <= i /\ i + 3 < length au /\ length (take a au) = a)%nat.
Proof.
  destruct Hfirst as [(Hl & _) _]. assert (a <= i)%nat by (destruct Ha as [->|[<- _]]; lia).
  rewrite length_take. lia.
Qed.

Lemma out_left j : (j < a)%nat -> byte_at out j = byte_at au j.
Proof.
  intros Hj. pose proof seam_a. unfold out. rewrite byte_at_app_l by lia.
  rewrite <- (take_drop a au) at 2. by rewrite byte_at_app_l by lia.
Qed.

Lemma out_mid j : (j < length nal)%nat -> byte_at out (a + j) = byte_at nal j.
Proof.
  intros Hj. destruct seam_a as (_ & _ & Ht). unfold out.
  replace (a + j)%nat with (length (take a au) + j)%nat by lia.
  rewrite byte_at_app_r. by apply byte_at_app_l.
Qed.

Lemma out_right j : (a <= j)%nat -> byte_at out (length nal + j) = byte_at au j.
Proof.
  intros Hj. destruct seam_a as (_ & _ & Ht). unfold out.
  replace (length nal + j)%nat with (length (take a au) + (length nal + (j - a)))%nat by lia.
  rewrite byte_at_app_r, byte_at_app_r.
  transitivity (byte_at (take a au ++ drop a au) (length (take a au) + (j - a)));
    [by rewrite byte_at_app_r|]. rewrite take_drop. f_equal. lia.
Qed.

Lemma out_length : length out = (length nal + length au)%nat.
Proof. unfold out. rewrite !length_app, length_take, length_drop. pose proof seam_a. lia. Qed.

Lemma right_vcl j : (a <= j)%nat -> vcl_at out (length nal + j) <-> vcl_at au j.
Proof.
  intros Hj. unfold vcl_at. rewrite !start_code_spec, out_length.
  replace (length nal + j + 1)%nat with (length nal + (j + 1))%nat by lia.
  replace (length nal + j + 2)%nat with (length nal + (j + 2))%nat by lia.
  replace (length nal + j + 3)%nat with (length nal + (j + 3))%nat by lia.
  rewrite !out_right by lia. intuition lia.
Qed.

Lemma left_no_vcl j : (j < a)%nat -> ~ vcl_at out j.
Proof.
  intros Hj (_ & Hs & Hv). apply start_code_spec in Hs as (H0 & H1 & H2).
  destruct Hnal as (Hn & N0 & N1 & N2 & N3 & N4 & _). pose proof seam_a as (Hai & Hi & _).
  assert (forall k, (k < 5)%nat -> byte_at out (a + k) = byte_at nal k) as Hmid
    by (intros; apply out_mid; lia).
  destruct (decide (j + 3 < a)%nat) as [Hin|Hout].
  - rewrite !out_left in * by lia. apply (proj2 Hfirst j); [lia|].
    split; [lia|]. split; [by apply start_code_spec|done].
  - destruct (decide (j + 3 = a)%nat) as [E|]; [|destruct (decide (j + 2 = a)%nat) as [E|]].
    + rewrite E in Hv. specialize (Hmid 0%nat ltac:(lia)). rewrite Nat.add_0_r in Hmid.
      rewrite Hmid, N0 in Hv. discriminate.
    + rewrite E in H2. specialize (Hmid 0%nat ltac:(lia)). rewrite Nat.add_0_r in Hmid. congruence.
    + replace (j + 2)%nat with (a + 1)%nat in H2 by lia. rewrite Hmid, N1 in H2 by lia. discriminate.
Qed.

Lemma mid_no_vcl k : (k < length nal)%nat -> ~ vcl_at out (a + k).
Proof.
  intros Hk (_ & Hs & Hv). apply start_code_spec in Hs as (H0 & H1 & H2).
  destruct Hnal as (Hn & N0 & N1 & N2 & N3 & N4 & Nl & Nf).
  rewrite <- !Nat.add_assoc in H1, H2, Hv. rewrite out_mid in H0 by lia.
  destruct (decide (k + 2 < length nal)%nat) as [Hin|Hout].
  - rewrite !out_mid in H1, H2 by lia. destruct k as [|[|k]]; [simpl in *; congruence| |].
    + change (1 + 3)%nat with 4%nat in Hv. rewrite out_mid, N4 in Hv by lia. discriminate.
    + specialize (Nf (S (S k)) ltac:(lia) Hin). rewrite (proj2 (start_code_spec _ _)) in Nf; done.
  - destruct (decide (k = length nal - 1)%nat) as [->|]; [congruence|].
    replace (k + 1)%nat with (length nal - 1)%nat in H1 by lia. rewrite out_mid in H1 by lia. congruence.
Qed.
End Seams.

(** Insertion is transparent to the decoder: in the resulting access unit the first VCL NAL unit is
    the original one, moved by the length of the SEI; neither the SEI nor the bytes around it form
    another VCL NAL before it. *)
Theorem sei_precedes_first_vcl (au uuid payload : list Z) (i : nat) (Hi : first_vcl au i) :
  let nal := encode_user_data_sei_nal uuid payload in
  let '(ok, out) := insert_before_first_vcl au nal in
  ok = true /\ first_vcl out (length nal + i).
Proof.
  intros nal. destruct (insert_spec_lemma au nal) as [(i' & a & Hf & Ha & ->)|[Hno _]];
    [|by destruct (Hno i), Hi].
  assert (i' = i) as ->.
  { destruct Hi as [Hv Hm], Hf as [Hv' Hm'].
    destruct (lt_eq_lt_dec i i') as [[?| ->]|?]; [by destruct (Hm' i)|done|by destruct (Hm i')]. }
  pose proof (nal_bytes uuid payload) as Hn. fold nal in Hn. split; [done|].
  pose proof (seam_a au nal i a Hf Ha Hn) as (Hai & _). split.
  - apply (right_vcl au nal i a); auto. apply Hf.
  - intros j Hj. destruct (decide (j < a)%nat); [by apply (left_no_vcl au nal i a)|].
    destruct (decide (j < a + length nal)%nat).
    + replace j with (a + (j - a))%nat by lia. apply (mid_no_vcl au nal i a); auto; lia.
    + replace j with (length nal + (j - length nal))%nat by lia.
      rewrite (right_vcl au nal i a) by (auto; lia). apply Hf. lia.
Qed.

Lemma sei_precedes_first_vcl_witness :
  let au := [0; 0; 0; 1; 9; 16; 0; 0; 0; 1; 101; 7; 7] in
  let nal := encode_user_data_sei_nal kDetectionSeiUuid [1; 2] in
  let '(ok, out) := insert_before_first_vcl au nal in
  ok = true /\ first_vcl out (length nal + 7).
Proof.
  apply (sei_precedes_first_vcl [0; 0; 0; 1; 9; 16; 0; 0; 0; 1; 101; 7; 7] kDetectionSeiUuid [1; 2] 7).
  apply scan_first. reflexivity.
Defined.
End Insert.
