(* ===== verification/SeiSelector.v ===== *)
(** * Which detections ride on the next access unit ([SeiResultSelector] of
    [src/webrtc/detection_sei.cpp])

    The selector keeps the inference results that wait for an access unit and
    applies the emission rules when the publisher is about to send one.  The
    loops of [take_for] are separate definitions ([shed_oldest], [fit_boxes],
    [record_dt]) that [take_for] composes. *)

From S2P Require Import Prelude Strings Json Floats DetectionSei.

Module Selector.
Import Codec.

Record SeiSourceResult := mkSource {
  source_pts_ns : Z;
  source_generation : Z;
  source_boxes : list SeiBox;
}.

Record SeiUplinkStats := mkUplinkStats {
  sei_units : Z;
  results_attached : Z;
  results_dropped : Z;
  boxes_dropped : Z;
}.

Record SeiResultSelector := mkSelector {
  max_pending_ : Z;
  pending_ : list SeiSourceResult;
  recent_dt_ : list Z;
  next_dt_ : Z;
  stats_ : SeiUplinkStats;
}.

Definition kMaxDetectionSeiBytes : Z := 1024.
Definition kResultWindowNs : Z := 1000000000.
Definition kRecentDtSamples : Z := 4096.

Definition make_selector (max_pending : Z) : SeiResultSelector :=
  mkSelector max_pending [] [] 0 (mkUplinkStats 0 0 0 0).

Definition encode_results (results : list SeiResult) : list Z :=
  encode_user_data_sei_nal kDetectionSeiUuid (bytes (detection_sei_json results)).

Definition nal_size (results : list SeiResult) : Z := Z.of_nat (length (encode_results results)).

(** [std::tie(a.source_generation, a.source_pts_ns) < std::tie(b...)]. *)
Definition older (a b : SeiSourceResult) : bool :=
  (source_generation a <? source_generation b) ||
  ((source_generation a =? source_generation b) && (source_pts_ns a <? source_pts_ns b)).

(** [std::min_element]: index of the first smallest element. *)
Fixpoint min_from (best : SeiSourceResult) (at_ i : nat) (l : list SeiSourceResult) : nat :=
  match l with
  | [] => at_
  | r :: rest => if older r best then min_from r i (S i) rest else min_from best at_ (S i) rest
  end.

Definition min_element (l : list SeiSourceResult) : nat :=
  match l with [] => 0%nat | r :: rest => min_from r 0 1 rest end.

Definition add (result : SeiSourceResult) (s : SeiResultSelector) : SeiResultSelector :=
  let pending := pending_ s ++ [result] in
  if Z.of_nat (length pending) >? max_pending_ s then
    let st := stats_ s in
    mkSelector (max_pending_ s) (delete (min_element pending) pending) (recent_dt_ s) (next_dt_ s)
      (mkUplinkStats (sei_units st) (results_attached st) (u64 (results_dropped st + 1))
         (boxes_dropped st))
  else mkSelector (max_pending_ s) pending (recent_dt_ s) (next_dt_ s) (stats_ s).

(** What [take_for] does with a waiting result. *)
Inductive fate := Later | Drop | Due.

Definition fate_of (attach_pts_ns attach_generation : Z) (r : SeiSourceResult) : fate :=
  if source_generation r >? attach_generation then Later
  else if (source_generation r <? attach_generation) ||
          (source_pts_ns r >? attach_pts_ns) ||
          (attach_pts_ns - source_pts_ns r >? kResultWindowNs) then Drop
  else Due.

#[export] Instance fate_eq : EqDecision fate.
Proof. solve_decision. Defined.

Definition with_fate (p g : Z) (f : fate) (l : list SeiSourceResult) : list SeiSourceResult :=
  base.filter (fun r => fate_of p g r = f) l.

Definition earlier_pts (a b : SeiSourceResult) : bool := source_pts_ns a <? source_pts_ns b.

Definition to_result (attach_pts_ns : Z) (r : SeiSourceResult) : SeiResult :=
  mkSeiResult (default 0 (sei_dt_ticks attach_pts_ns (source_pts_ns r))) (source_boxes r).

(** The loop that erases the oldest results while the NAL unit is too large. *)
Fixpoint shed_oldest (results : list SeiResult) : list SeiResult :=
  match results with
  | _ :: (_ :: _) as rest =>
    if nal_size results >? kMaxDetectionSeiBytes then shed_oldest rest else results
  | _ => results
  end.

(** The binary search; it halves the gap, so the gap bounds its iterations. *)
Fixpoint fit_search (fuel : nat) (ok : nat -> bool) (fits too_many : nat) : nat :=
  match fuel with
  | O => fits
  | S fuel =>
    if (fits + 1 <? too_many)%nat then
      let count := ((fits + too_many) / 2)%nat in
      if ok count then fit_search fuel ok count too_many
      else fit_search fuel ok fits count
    else fits
  end.

Definition higher_score (a b : SeiBox) : bool := flt (score b) (score a).

(** The newest result alone is too large: keep its highest-score boxes. *)
Definition fit_boxes (r : SeiResult) : SeiResult * Z :=
  let sorted := stable_sort higher_score (boxes r) in
  let ok count := nal_size [mkSeiResult (dt r) (take count sorted)] <=? kMaxDetectionSeiBytes in
  let fits := fit_search (length sorted) ok 0 (length sorted) in
  (mkSeiResult (dt r) (take fits sorted), Z.of_nat (length sorted - fits)).

Definition record_dt (s : list Z * Z) (r : SeiResult) : list Z * Z :=
  let '(recent, next) := s in
  if Z.of_nat (length recent) <? kRecentDtSamples then (recent ++ [dt r], next)
  else (<[Z.to_nat next := dt r]> recent, (next + 1) mod kRecentDtSamples).

(** The results sent with the unit, and the boxes left out. *)
Definition select (attach_pts_ns attach_generation : Z) (pending : list SeiSourceResult)
    : list SeiResult * Z :=
  let due := with_fate attach_pts_ns attach_generation Due pending in
  let results := shed_oldest (to_result attach_pts_ns <$> stable_sort earlier_pts due) in
  if nal_size results >? kMaxDetectionSeiBytes then
    match results with
    | r :: _ => let '(r', n) := fit_boxes r in ([r'], n)
    | [] => (results, 0)
    end
  else (results, 0).

Definition take_for (attach_pts_ns attach_generation : Z) (s : SeiResultSelector)
    : list Z * SeiResultSelector :=
  let later := with_fate attach_pts_ns attach_generation Later (pending_ s) in
  let due := with_fate attach_pts_ns attach_generation Due (pending_ s) in
  let expired := with_fate attach_pts_ns attach_generation Drop (pending_ s) in
  let st := stats_ s in
  let dropped := u64 (results_dropped st + Z.of_nat (length expired)) in
  if bool_decide (due = []) then
    ([], mkSelector (max_pending_ s) later (recent_dt_ s) (next_dt_ s)
           (mkUplinkStats (sei_units st) (results_attached st) dropped (boxes_dropped st)))
  else
    let '(results, cut) := select attach_pts_ns attach_generation (pending_ s) in
    let shed := Z.of_nat (length due - length results) in
    let '(recent, next) := fold_left record_dt results (recent_dt_ s, next_dt_ s) in
    (encode_results results,
     mkSelector (max_pending_ s) later recent next
       (mkUplinkStats (u64 (sei_units st + 1))
          (u64 (results_attached st + Z.of_nat (length results)))
          (u64 (dropped + shed)) (u64 (boxes_dropped st + cut)))).

(** Nearest-rank percentile. *)
Definition dt_percentile (q : float64) (s : SeiResultSelector) : option Z :=
  match recent_dt_ s with
  | [] => None
  | recent =>
    let sorted := stable_sort Z.ltb recent in
    let rank := default 0 (ceil_Z (f64_mul (fclamp q f64_zero f64_one)
                                     (f64_of_Z (Z.of_nat (length sorted))))) in
    sorted !! Z.to_nat (Z.max rank 1 - 1)
  end.

(** ** Lemmas: partition and order *)

Lemma fate_total p g l :
  length l = (length (with_fate p g Later l) + length (with_fate p g Drop l) +
              length (with_fate p g Due l))%nat.
Proof.
  unfold with_fate. induction l as [|r l IH]; [done|]. rewrite !filter_cons. simpl.
  destruct (fate_of p g r); repeat case_decide; try done; simpl; lia.
Qed.

Lemma with_fate_elem p g f l r : r ∈ with_fate p g f l <-> fate_of p g r = f /\ r ∈ l.
Proof. unfold with_fate. by rewrite list_elem_of_filter. Qed.

Lemma due_spec p g r :
  fate_of p g r = Due <->
  source_generation r = g /\ source_pts_ns r <= p /\ p - source_pts_ns r <= kResultWindowNs.
Proof.
  unfold fate_of. rewrite !Z.gtb_ltb. split.
  - repeat case_match; intros; bools; try done. split_and!; lia.
  - intros (-> & ? & ?). rewrite Z.ltb_irrefl. simpl.
    rewrite !(proj2 (Z.ltb_ge _ _)) by lia. done.
Qed.

Lemma shed_suffix l : shed_oldest l `suffix_of` l /\ (l <> [] -> shed_oldest l <> []).
Proof.
  induction l as [|r [|r' rest] IH]; [done|done|]. cbn [shed_oldest].
  case_match; [|done]. destruct IH as [IH1 IH2]. split; [by apply suffix_cons_r|]. intros _. by apply IH2.
Qed.

Lemma shed_single l :
  l <> [] -> kMaxDetectionSeiBytes < nal_size (shed_oldest l) -> length (shed_oldest l) = 1%nat.
Proof.
  induction l as [|r [|r' rest] IH]; [done|done|]. cbn [shed_oldest]. intros _.
  case_match eqn:E; [by apply IH|]. rewrite Z.gtb_ltb in E. bools. lia.
Qed.

Lemma fit_search_spec fuel ok fits too_many :
  (too_many - fits <= fuel)%nat -> (fits = 0%nat \/ ok fits = true) ->
  (forall m n, (m <= n)%nat -> ok n = true -> ok m = true) ->
  (forall m, (too_many <= m)%nat -> ok m = false) ->
  let k := fit_search fuel ok fits too_many in
  (k = 0%nat \/ ok k = true) /\ (forall m, (k < m)%nat -> ok m = false).
Proof.
  revert fits too_many; induction fuel as [|fuel IH];
    intros fits too_many Hf Hok Hmono Hbig; cbn [fit_search].
  { split; [done|]. intros m Hm. apply Hbig. lia. }
  destruct (fits + 1 <? too_many)%nat eqn:E;
    [apply Nat.ltb_lt in E|apply Nat.ltb_ge in E; split; [done|intros m Hm; apply Hbig; lia]].
  assert (fits < (fits + too_many) / 2 < too_many)%nat as [H1 H2].
  { split; [apply Nat.div_le_lower_bound; lia|apply Nat.div_lt_upper_bound; lia]. }
  destruct (ok ((fits + too_many) / 2)%nat) eqn:Eok; apply IH; auto; try lia.
  intros m Hm. apply not_true_is_false. intros Hm'.
  by rewrite (Hmono _ m Hm Hm') in Eok.
Qed.

Lemma fit_search_le fuel ok f t : (f <= t)%nat -> (fit_search fuel ok f t <= t)%nat.
Proof.
  revert f t; induction fuel as [|fuel IH]; intros f t Hft; cbn [fit_search]; [done|].
  destruct (f + 1 <? t)%nat eqn:E; [apply Nat.ltb_lt in E|done].
  assert ((f + t) / 2 <= t)%nat by (apply Nat.Div0.div_le_upper_bound; lia).
  assert (f <= (f + t) / 2)%nat by (apply Nat.div_le_lower_bound; lia).
  destruct (ok _); [by apply IH|]. etrans; [by apply IH|done].
Qed.

(** ** Lemmas: sizes *)

Lemma encode_size results :
  nal_size results =
  let n := Z.of_nat (length (chars (detection_sei_json results))) in n + 24 + (n + 16) / 255.
Proof.
  unfold nal_size, encode_results.
  rewrite nal_length by apply clean_bytes, sei_json_clean. unfold bytes. by rewrite length_fmap.
Qed.

(** Length of the text of one result. *)
Definition text_length (d : Z) (l : list SeiBox) : nat :=
  length (chars (detection_sei_json [mkSeiResult d l])).

Lemma text_length_split d l :
  text_length d l = (text_length d [] + length (boxes_chars true l))%nat.
Proof.
  unfold text_length. rewrite !chars_sei_json. cbn [results_chars comma].
  unfold result_chars. cbn [dt boxes boxes_chars]. rewrite !length_app. simpl. lia.
Qed.

Lemma boxes_chars_app first l k :
  boxes_chars first (l ++ k) =
  boxes_chars first l ++ boxes_chars (first && bool_decide (l = [])) k.
Proof.
  revert first; induction l as [|b l IH]; intros first; cbn [boxes_chars app].
  - rewrite bool_decide_true by done. by rewrite andb_true_r.
  - rewrite IH, (bool_decide_false (b :: l = [])), andb_false_r by done. cbn [andb].
    by rewrite <- !app_assoc.
Qed.

Lemma text_length_mono d l k : (text_length d l <= text_length d (l ++ k))%nat.
Proof. rewrite !(text_length_split d (_ ++ _)), (text_length_split d l), boxes_chars_app, length_app. lia. Qed.

Lemma nal_size_mono d l k : nal_size [mkSeiResult d l] <= nal_size [mkSeiResult d (l ++ k)].
Proof.
  rewrite !encode_size. pose proof (text_length_mono d l k). unfold text_length in *. zarith.
Qed.

(** The size does not depend on the order of the boxes. *)
Lemma boxes_chars_perm first l k :
  l ≡ₚ k -> length (boxes_chars first l) = length (boxes_chars first k).
Proof.
  intros H. revert first. induction H as [|b l k _ IH|b c l|l k m _ IH1 _ IH2]; intros first.
  - done.
  - cbn [boxes_chars]. by rewrite !length_app, IH.
  - cbn [boxes_chars]. rewrite !length_app.
    destruct first; cbn [comma length]; lia.
  - by rewrite IH1, IH2.
Qed.

Lemma nal_size_perm r l : l ≡ₚ boxes r -> nal_size [mkSeiResult (dt r) l] = nal_size [r].
Proof.
  intros H. destruct r as [d bs]. simpl in *. rewrite !encode_size.
  change (length (chars (detection_sei_json [mkSeiResult d l]))) with (text_length d l).
  change (length (chars (detection_sei_json [mkSeiResult d bs]))) with (text_length d bs).
  by rewrite !(text_length_split d l), (text_length_split d bs), (boxes_chars_perm true l bs H).
Qed.

Lemma empty_result_size d : 0 <= d <= u32_max -> nal_size [mkSeiResult d []] <= 64.
Proof.
  intros Hd. rewrite encode_size, chars_sei_json. cbn [results_chars comma].
  unfold result_chars. cbn [dt boxes boxes_chars]. unfold to_string.
  rewrite (proj2 (Z.ltb_ge d 0)) by lia. rewrite !length_app, chars_str.
  destruct (dec_spec d) as (_ & _ & _ & Hk); [lia|].
  specialize (Hk 10%nat ltac:(lia) ltac:(simpl; lia)).
  change (length (chars (js "{'v':1,'r':["))) with 12%nat.
  change (length (chars (js "{'dt':"))) with 6%nat.
  change (length (chars (js ",'b':["))) with 6%nat.
  change (length (chars "]}")) with 2%nat. simpl length.
  zarith.
Qed.

Lemma to_result_dt p r : 0 <= dt (to_result p r) <= u32_max.
Proof.
  unfold to_result, sei_dt_ticks. case_match; simpl; [lia|]. apply u32_range.
Qed.

(** [fit_boxes] keeps a prefix of the boxes by score: the longest that fits. *)
Lemma fit_boxes_spec r :
  0 <= dt r <= u32_max ->
  let sorted := stable_sort higher_score (boxes r) in
  let '(r', cut) := fit_boxes r in
  exists k, r' = mkSeiResult (dt r) (take k sorted) /\ (k <= length sorted)%nat /\
    cut = Z.of_nat (length sorted - k) /\ nal_size [r'] <= kMaxDetectionSeiBytes /\
    (kMaxDetectionSeiBytes < nal_size [mkSeiResult (dt r) sorted] ->
     forall m, (k < m)%nat -> kMaxDetectionSeiBytes < nal_size [mkSeiResult (dt r) (take m sorted)]).
Proof.
  intros Hd sorted. unfold fit_boxes. fold sorted.
  set (ok := fun count => nal_size [mkSeiResult (dt r) (take count sorted)] <=? kMaxDetectionSeiBytes).
  set (k := fit_search (length sorted) ok 0 (length sorted)).
  assert (Hk : (k <= length sorted)%nat) by (apply fit_search_le; lia).
  assert (Hmono : forall m n, (m <= n)%nat -> ok n = true -> ok m = true).
  { unfold ok. intros m n Hmn Hn. bools. apply Z.leb_le.
    rewrite <- (take_drop m (take n sorted)), take_take, Nat.min_l in Hn by done.
    pose proof (nal_size_mono (dt r) (take m sorted) (drop m (take n sorted))). lia. }
  assert (Hzero : nal_size [mkSeiResult (dt r) (take 0 sorted)] <= kMaxDetectionSeiBytes).
  { etrans; [exact (empty_result_size (dt r) Hd)|]. unfold kMaxDetectionSeiBytes. lia. }
  destruct (decide (nal_size [mkSeiResult (dt r) sorted] <= kMaxDetectionSeiBytes)) as [Hall|Hbig].
  - assert (Hok : forall n, ok n = true).
    { intros n. unfold ok. apply Z.leb_le.
      pose proof (nal_size_mono (dt r) (take n sorted) (drop n sorted)) as Hn.
      rewrite take_drop in Hn. lia. }
    exists k. split_and!; auto; [|lia]. specialize (Hok k). unfold ok in Hok. by bools.
  - destruct (fit_search_spec (length sorted) ok 0 (length sorted)) as [Hok Hrest]; auto; [lia| |].
    { intros m Hm. unfold ok. rewrite take_ge by done. apply Z.leb_gt. lia. }
    fold k in Hok, Hrest. exists k. split_and!; auto.
    + destruct Hok as [->|Hok]; [done|]. unfold ok in Hok. by bools.
    + intros _ m Hm. specialize (Hrest m Hm). unfold ok in Hrest. by bools.
Qed.

(** ** Lemmas: what is sent *)

Lemma dt_due p g r :
  fate_of p g r = Due ->
  dt (to_result p r) = ((p - source_pts_ns r) * 9 + 50000) / 100000.
Proof.
  intros (_ & H1 & H2)%due_spec. unfold kResultWindowNs in H2.
  unfold to_result, sei_dt_ticks. rewrite Z.gtb_ltb, (proj2 (Z.ltb_ge _ _)) by lia. simpl.
  rewrite (u64_small (_ * 9)), u64_small by lia. rewrite u32_small; zarith.
Qed.

Definition in_order (a b : SeiResult) : Prop := dt b <= dt a.

Lemma due_in_order p g l :
  Forall (fun r => fate_of p g r = Due) l ->
  StronglySorted in_order (to_result p <$> stable_sort earlier_pts l).
Proof.
  intros Hl.
  assert (Hs : StronglySorted (before earlier_pts) (stable_sort earlier_pts l)).
  { apply stable_sort_sorted; unfold before, earlier_pts; intros; bools; apply Z.ltb_ge; lia. }
  apply (stable_sort_Forall earlier_pts) in Hl. revert Hl.
  induction Hs as [|r l' Hs IH Hr]; intros Hl; [constructor|].
  apply Forall_cons in Hl as [Hd Hl]. rewrite fmap_cons. constructor; [by apply IH|].
  apply Forall_fmap. apply Forall_forall. intros r' Hr'. unfold in_order.
  rewrite Forall_forall in Hr, Hl. cbn [compose]. specialize (Hr r' Hr'). specialize (Hl r' Hr').
  unfold before, earlier_pts in Hr. bools. rewrite !(dt_due p g) by done. zarith.
Qed.

Lemma suffix_sorted {A} (R : A -> A -> Prop) l k :
  l `suffix_of` k -> StronglySorted R k -> StronglySorted R l.
Proof.
  intros [p ->]. induction p as [|x p IH]; [done|]. simpl. inversion 1. auto.
Qed.

Lemma due_results p g pending :
  let due := with_fate p g Due pending in
  let results := to_result p <$> stable_sort earlier_pts due in
  length results = length due /\
  Forall (fun r => exists src, src ∈ pending /\ fate_of p g src = Due /\ dt r = dt (to_result p src))
    results.
Proof.
  intros due results. unfold results. rewrite length_fmap, stable_sort_length. split; [done|].
  apply Forall_fmap, stable_sort_Forall, Forall_forall. intros src Hsrc.
  apply with_fate_elem in Hsrc as [? ?]. by exists src.
Qed.

Lemma select_spec p g pending :
  with_fate p g Due pending <> [] ->
  let '(results, cut) := select p g pending in
  nal_size results <= kMaxDetectionSeiBytes /\ results <> [] /\
  (length results <= length (with_fate p g Due pending))%nat /\
  StronglySorted in_order results /\
  Forall (fun r => exists src, src ∈ pending /\ fate_of p g src = Due /\ dt r = dt (to_result p src))
    results.
Proof.
  intros Hne. unfold select. pose proof (due_results p g pending) as [Hlen Hsrc].
  set (due := with_fate p g Due pending) in *.
  set (all := to_result p <$> stable_sort earlier_pts due) in *.
  assert (Hall : all <> []).
  { intros E. rewrite E in Hlen. destruct due; [done|discriminate Hlen]. }
  assert (Hsort : StronglySorted in_order all).
  { apply (due_in_order p g). unfold due. apply Forall_forall. intros r. rewrite with_fate_elem. tauto. }
  destruct (shed_suffix all) as [Hsuf Hshed]. specialize (Hshed Hall).
  assert (Hsrc' : Forall (fun r => exists src, src ∈ pending /\ fate_of p g src = Due /\
                            dt r = dt (to_result p src)) (shed_oldest all)).
  { destruct Hsuf as [k Hk]. rewrite Hk in Hsrc. by apply Forall_app in Hsrc as [_ ?]. }
  pose proof (suffix_length _ _ Hsuf) as Hle. rewrite Hlen in Hle.
  pose proof (suffix_sorted _ _ _ Hsuf Hsort) as Hsort'.
  destruct (_ >? _) eqn:E; rewrite Z.gtb_ltb in E; bools; [|by split_and!].
  pose proof (shed_single all Hall E) as Hone.
  destruct (shed_oldest all) as [|r [|r' l]] eqn:Es; try discriminate Hone.
  apply Forall_cons in Hsrc' as [(src & Hin & Hf & Hd) _].
  pose proof (fit_boxes_spec r) as Hfit. rewrite Hd in Hfit. specialize (Hfit (to_result_dt p src)).
  destruct (fit_boxes r) as [r0 n]. destruct Hfit as (k & -> & _ & _ & Hsz & _).
  split_and!; [exact Hsz|done|exact Hle|repeat constructor|].
  constructor; [by exists src|constructor].
Qed.

(** ** Histories *)

Inductive call := Add (r : SeiSourceResult) | TakeFor (attach_pts_ns attach_generation : Z).

Definition apply_call (s : SeiResultSelector) (c : call) : SeiResultSelector :=
  match c with Add r => add r s | TakeFor p g => (take_for p g s).2 end.

Definition adds (cs : list call) : Z :=
  Z.of_nat (length (List.filter (fun c => match c with Add _ => true | _ => false end) cs)).

Lemma delete_length (l : list SeiSourceResult) i :
  (i < length l)%nat -> length (delete i l) = (length l - 1)%nat.
Proof. intros H. rewrite length_delete by (by apply lookup_lt_is_Some). lia. Qed.

Lemma min_from_spec best at_ i l (all : list SeiSourceResult) :
  all !! at_ = Some best -> drop i all = l -> (at_ < i)%nat ->
  (forall j r, (j < i)%nat -> all !! j = Some r -> older r best = false) ->
  exists m, all !! min_from best at_ i l = Some m /\ forall r, r ∈ all -> older r m = false.
Proof.
  revert best at_ i; induction l as [|r l IH]; intros best at_ i Hb Hd Hlt Hmin; simpl.
  { exists best. split; [done|]. intros r [j Hj]%list_elem_of_lookup.
    apply (Hmin j); [|done]. apply lookup_lt_Some in Hj as ?.
    apply (f_equal length) in Hd. rewrite length_drop in Hd. simpl in Hd. lia. }
  assert (Hr : all !! i = Some r).
  { rewrite <- (Nat.add_0_r i), <- lookup_drop, Hd. done. }
  assert (Hd' : drop (S i) all = l).
  { rewrite (drop_S _ _ _ Hr) in Hd. by injection Hd. }
  destruct (older r best) eqn:E; apply IH; auto; try lia.
  - intros j r' Hj Hr'. destruct (decide (j = i)) as [->|].
    + simplify_eq. unfold older. rewrite !Z.ltb_irrefl, andb_false_r. done.
    + specialize (Hmin j r' ltac:(lia) Hr'). unfold older in *.
      destruct (source_generation r' <? source_generation r) eqn:?;
      destruct (source_generation r' =? source_generation r) eqn:?;
      destruct (source_pts_ns r' <? source_pts_ns r) eqn:?; simpl; try done; exfalso;
      apply orb_true_iff in E; rewrite andb_true_iff in E; apply orb_false_iff in Hmin;
      rewrite andb_false_iff in Hmin; bools; lia.
  - intros j r' Hj Hr'. destruct (decide (j = i)) as [->|]; [by simplify_eq|].
    apply (Hmin j); [lia|done].
Qed.

Lemma min_element_spec l :
  l <> [] -> exists m, l !! min_element l = Some m /\ forall r, r ∈ l -> older r m = false.
Proof.
  destruct l as [|r l]; [done|]. intros _. apply (min_from_spec r 0 1 l (r :: l)); auto.
  intros [|j] r' Hj Hr'; [|lia]. simplify_eq/=. unfold older.
  by rewrite !Z.ltb_irrefl, andb_false_r.
Qed.

Lemma add_pending r s :
  length (pending_ (add r s)) = 
    (if Z.of_nat (length (pending_ s)) + 1 >? max_pending_ s
     then length (pending_ s) else S (length (pending_ s))) /\
  max_pending_ (add r s) = max_pending_ s.
Proof.
  unfold add. rewrite length_app. simpl.
  replace (Z.of_nat (length (pending_ s) + 1)) with (Z.of_nat (length (pending_ s)) + 1) by lia.
  destruct (_ >? _); simpl; [|rewrite length_app; simpl; split; [lia|done]].
  destruct (min_element_spec (pending_ s ++ [r])) as (m & Hm & _); [by destruct (pending_ s)|].
  apply lookup_lt_Some in Hm. rewrite delete_length, length_app by done. simpl. split; [lia|done].
Qed.

Lemma take_pending p g s :
  pending_ (take_for p g s).2 = with_fate p g Later (pending_ s) /\
  max_pending_ (take_for p g s).2 = max_pending_ s.
Proof.
  unfold take_for. case_bool_decide; [done|]. destruct (select _ _ _) as [rs cut].
  by destruct (fold_left _ _ _).
Qed.

Definition balanced (n : Z) (s : SeiResultSelector) : Prop :=
  u64 (results_attached (stats_ s) + results_dropped (stats_ s) + Z.of_nat (length (pending_ s)))
  = u64 n.

Lemma balanced_add r n s : balanced n s -> balanced (n + 1) (add r s).
Proof.
  unfold balanced. destruct (add_pending r s) as [Hl _]. rewrite Hl. clear Hl. unfold add.
  rewrite length_app. simpl.
  replace (Z.of_nat (length (pending_ s) + 1)) with (Z.of_nat (length (pending_ s)) + 1) by lia.
  destruct (_ >? _); simpl; intros; zarith.
Qed.

Lemma balanced_take p g n s : balanced n s -> balanced n (take_for p g s).2.
Proof.
  unfold balanced. destruct (take_pending p g s) as [Hl _]. rewrite Hl. clear Hl.
  pose proof (fate_total p g (pending_ s)) as Ht. unfold take_for.
  case_bool_decide as Hd.
  - simpl. rewrite Hd in Ht. simpl in Ht. intros; zarith.
  - pose proof (select_spec p g (pending_ s) Hd) as Hsel.
    destruct (select p g (pending_ s)) as [rs cut]. destruct Hsel as (_ & _ & Hlen & _).
    destruct (fold_left record_dt rs _). simpl. intros; zarith.
Qed.

Lemma history_inv cs n s :
  balanced n s -> 0 <= max_pending_ s -> Z.of_nat (length (pending_ s)) <= max_pending_ s ->
  let s' := fold_left apply_call cs s in
  balanced (n + adds cs) s' /\ max_pending_ s' = max_pending_ s /\
  Z.of_nat (length (pending_ s')) <= max_pending_ s.
Proof.
  revert n s; induction cs as [|c cs IH]; intros n s Hb Hm Hl; cbn [fold_left].
  { unfold adds. simpl. by rewrite Z.add_0_r. }
  destruct c as [r|p g]; cbn [apply_call].
  - destruct (add_pending r s) as [Hlen Hmax].
    destruct (IH (n + 1) (add r s)) as (H1 & H2 & H3).
    + by apply balanced_add.
    + lia.
    + rewrite Hlen, Hmax. destruct (_ >? _) eqn:E; rewrite Z.gtb_ltb in E; bools; lia.
    + rewrite Hmax in *. split_and!; auto. unfold adds in *. cbn [List.filter length].
      rewrite Nat2Z.inj_succ. by rewrite <- Z.add_1_l, Z.add_assoc.
  - destruct (take_pending p g s) as [Hlen Hmax].
    destruct (IH n (take_for p g s).2) as (H1 & H2 & H3).
    + by apply balanced_take.
    + lia.
    + rewrite Hlen, Hmax. pose proof (fate_total p g (pending_ s)). lia.
    + rewrite Hmax in *. by split_and!.
Qed.

(** ** Properties *)

(** The SEI attached to any access unit is at most 1024 bytes, in every state of the selector,
    however many and however large the waiting results. *)
Theorem take_for_size (attach_pts_ns attach_generation : Z) (s : SeiResultSelector) :
  Z.of_nat (length (take_for attach_pts_ns attach_generation s).1) <= kMaxDetectionSeiBytes.
Proof.
  unfold take_for. case_bool_decide as Hd; [simpl; unfold kMaxDetectionSeiBytes; lia|].
  pose proof (select_spec attach_pts_ns attach_generation (pending_ s) Hd) as H.
  destruct (select _ _ _) as [rs cut]. destruct (fold_left _ _ _). exact (proj1 H).
Qed.

(** The emission rules hold for every unit: the results sent come from waiting results of the unit's
    own pipeline, not newer than the unit and at most one second older, ordered oldest first; what
    stays pending belongs to later pipelines only; and nothing is sent exactly when nothing is due.
    *)
Theorem take_for_rules (p g : Z) (s : SeiResultSelector) :
  let due := with_fate p g Due (pending_ s) in
  let '(nal, s') := take_for p g s in
  pending_ s' = base.filter (fun r => g < source_generation r) (pending_ s) /\
  (due = [] -> nal = []) /\
  (due <> [] -> exists results,
     nal = encode_results results /\ results <> [] /\ StronglySorted in_order results /\
     Forall (fun r => exists src, src ∈ pending_ s /\ source_generation src = g /\
               source_pts_ns src <= p <= source_pts_ns src + kResultWindowNs /\
               sei_dt_ticks p (source_pts_ns src) = Some (dt r)) results).
Proof.
  intros due.
  assert (Hlater : with_fate p g Later (pending_ s) =
                   base.filter (fun r => g < source_generation r) (pending_ s)).
  { unfold with_fate. apply list_filter_iff. intros r. unfold fate_of. rewrite Z.gtb_ltb.
    destruct (g <? source_generation r) eqn:E; bools; [done|]. split; [|lia].
    by destruct (_ || _). }
  destruct (take_pending p g s) as [Hp _]. rewrite Hlater in Hp.
  unfold take_for in *. fold due in Hp |- *. case_bool_decide as Hd.
  { split_and!; [exact Hp|done|done]. }
  pose proof (select_spec p g (pending_ s) Hd) as H.
  destruct (select p g (pending_ s)) as [rs cut]. destruct H as (_ & Hne & _ & Hs & Hf).
  destruct (fold_left record_dt rs _). split_and!; [exact Hp|done|]. intros _. exists rs.
  split_and!; auto. eapply Forall_impl; [exact Hf|]. intros r (src & Hin & Hdue & Hdt).
  apply due_spec in Hdue as (Hg & H1 & H2). exists src. split_and!; auto; [lia|].
  rewrite Hdt. unfold to_result, sei_dt_ticks.
  by rewrite Z.gtb_ltb, (proj2 (Z.ltb_ge _ _)) by lia.
Qed.

(** Every result is accounted for: along any history of a fresh selector, results added = attached +
    dropped + still pending (modulo 2^64), and no more than [max_pending] ever wait. *)
Theorem selector_accounting (max_pending : Z) (cs : list call) (Hm : 0 <= max_pending) :
  let s := fold_left apply_call cs (make_selector max_pending) in
  u64 (results_attached (stats_ s) + results_dropped (stats_ s) + Z.of_nat (length (pending_ s)))
    = u64 (adds cs) /\
  Z.of_nat (length (pending_ s)) <= max_pending.
Proof.
  destruct (history_inv cs 0 (make_selector max_pending)) as (H1 & _ & H3); auto. done.
Qed.

Lemma selector_accounting_witness :
  let s := fold_left apply_call
    [Add (mkSource 10 0 []); Add (mkSource 20 0 []); TakeFor 15 0; Add (mkSource 5 1 [])]
    (make_selector 64) in
  u64 (results_attached (stats_ s) + results_dropped (stats_ s) + Z.of_nat (length (pending_ s)))
    = u64 (adds [Add (mkSource 10 0 []); Add (mkSource 20 0 []); TakeFor 15 0; Add (mkSource 5 1 [])]) /\
  Z.of_nat (length (pending_ s)) <= 64.
Proof. apply (selector_accounting 64). lia. Defined.


End Selector.
