(* ===== verification/Events.v ===== *)
(** * Event channel ([include/skai/events.hpp], [src/events.cpp])

    [Channel] fans an event out to its subscribers and remembers the last
    system errors; [EventQueue] and [EventInbox] are the bounded buffers of one
    WebSocket client.  A subscriber is a value of a type the client chooses,
    and a publication returns the calls it makes, in the order of the map.
    The wall clock is the [now_ms] argument (milliseconds since the epoch). *)

From S2P Require Import Prelude Strings Json.

(** ** UTC timestamps ([gmtime_r], [put_time] and the millisecond suffix) *)

Module Timestamp.

(** Days since 1970-01-01 to year, month and day of the Gregorian calendar. *)
Definition civil_from_days (days : Z) : Z * Z * Z :=
  let z := days + 719468 in
  let era := z / 146097 in
  let doe := z mod 146097 in
  let yoe := (doe - doe / 1460 + doe / 36524 - doe / 146096) / 365 in
  let doy := doe - (365 * yoe + yoe / 4 - yoe / 100) in
  let mp := (5 * doy + 2) / 153 in
  let d := doy - (153 * mp + 2) / 5 + 1 in
  let m := if mp <? 10 then mp + 3 else mp - 9 in
  (yoe + era * 400 + (if m <=? 2 then 1 else 0), m, d).

Definition pad (width : nat) (n : Z) : string :=
  let d := dec n in str (replicate (width - length d) "0"%char ++ d).

Definition utc_date (seconds : Z) : string :=
  let '(y, m, d) := civil_from_days (seconds / 86400) in
  pad 4 y +:+ "-" +:+ pad 2 m +:+ "-" +:+ pad 2 d.

(** [put_time(&utc, "%Y-%m-%dT%H:%M:%S") << '.' << setw(3) << ms << 'Z'] *)
Definition timestamp (now_ms : Z) : string :=
  let seconds := now_ms / 1000 in
  let sod := seconds mod 86400 in
  utc_date seconds +:+ "T" +:+ pad 2 (sod / 3600) +:+ ":" +:+ pad 2 (sod / 60 mod 60) +:+ ":" +:+
  pad 2 (sod mod 60) +:+ "." +:+ pad 3 (now_ms mod 1000) +:+ "Z".

Example timestamp_epoch : timestamp 0 = "1970-01-01T00:00:00.000Z".
Proof. reflexivity. Qed.

Example timestamp_leap : timestamp 1709210096007 = "2024-02-29T12:34:56.007Z".
Proof. reflexivity. Qed.
End Timestamp.

(** ** The channel *)

Module Channel.
Import Timestamp.

Inductive EventType := Status | Detection | Gps | Alert | Recording | SystemError.

#[export] Instance EventType_eq : EqDecision EventType.
Proof. solve_decision. Defined.

Definition event_type_name (type : EventType) : string :=
  match type with
  | Status => "status"
  | Detection => "detection"
  | Gps => "gps"
  | Alert => "alert"
  | Recording => "recording"
  | SystemError => "system_error"
  end.

Definition make_event_json (now_ms : Z) (type : EventType) (data_json : string) : string :=
  js "{'type':'" +:+ event_type_name type +:+ js "','timestamp':'" +:+ timestamp now_ms +:+
  js "','data':" +:+ data_json +:+ "}" +:+ str [chr 10].

Definition make_system_error_data (module message : string) : string :=
  js "{'module':" +:+ json_string module +:+ js ",'message':" +:+ json_string message +:+ "}".

Section Subscribers.
Context {S : Type}.

Record EventChannel := mkChannel {
  next_id_ : Z;
  subscribers_ : gmap Z S;
  recent_errors_ : list string;
}.

Definition make_channel : EventChannel := mkChannel 1 ∅ [].

Definition subscribe (subscriber : S) (c : EventChannel) : Z * EventChannel :=
  let id := next_id_ c in
  (** [emplace] keeps an existing entry. *)
  let subs := match subscribers_ c !! id with
              | Some _ => subscribers_ c
              | None => <[id := subscriber]> (subscribers_ c)
              end in
  (id, mkChannel (u64 (id + 1)) subs (recent_errors_ c)).

Definition unsubscribe (id : Z) (c : EventChannel) : EventChannel :=
  mkChannel (next_id_ c) (delete id (subscribers_ c)) (recent_errors_ c).

Definition publish (now_ms : Z) (type : EventType) (data_json : string) (c : EventChannel)
    : list (S * string) * EventChannel :=
  let event := make_event_json now_ms type data_json in
  let errors :=
    if bool_decide (type = SystemError) then
      (if (length (recent_errors_ c) =? 10)%nat then tail (recent_errors_ c) else recent_errors_ c)
        ++ [event]
    else recent_errors_ c in
  ((fun s => (s.2, event)) <$> map_to_list (subscribers_ c),
   mkChannel (next_id_ c) (subscribers_ c) errors).

Definition recent_errors (c : EventChannel) : list string := recent_errors_ c.

(** Calls on the channel. *)
Inductive call :=
  | Subscribe (s : S)
  | Unsubscribe (id : Z)
  | Publish (now_ms : Z) (type : EventType) (data : string).

Definition apply_call (c : EventChannel) (k : call) : EventChannel :=
  match k with
  | Subscribe s => (subscribe s c).2
  | Unsubscribe id => unsubscribe id c
  | Publish t ty d => (publish t ty d c).2
  end.

(** The system error events of a history, oldest first. *)
Definition errors_of (ks : list call) : list string :=
  omap (fun k => match k with
                 | Publish t SystemError d => Some (make_event_json t SystemError d)
                 | _ => None
                 end) ks.

Definition last_n {A} (n : nat) (l : list A) : list A := drop (length l - n) l.

Lemma last_n_snoc {A} n (l : list A) x :
  (0 < n)%nat ->
  last_n n (l ++ [x]) =
  (if (length (last_n n l) =? n)%nat then tail (last_n n l) else last_n n l) ++ [x].
Proof.
  intros Hn. unfold last_n. rewrite length_app, length_drop. simpl.
  destruct (decide (length l < n)%nat) as [Hl|Hl].
  - replace (length l - n)%nat with 0%nat by lia. rewrite (proj2 (Nat.eqb_neq _ _)) by lia.
    by replace (length l + 1 - n)%nat with 0%nat by lia.
  - rewrite (proj2 (Nat.eqb_eq _ _)) by lia. rewrite tail_drop, <- drop_snoc by lia. f_equal. lia.
Qed.

Lemma errors_fold ks c es :
  recent_errors_ c = last_n 10 es ->
  recent_errors_ (fold_left apply_call ks c) = last_n 10 (es ++ errors_of ks).
Proof.
  revert c es; induction ks as [|k ks IH]; intros c es H; cbn [fold_left].
  { unfold errors_of. simpl. by rewrite app_nil_r. }
  assert (Hk : recent_errors_ (apply_call c k) = last_n 10 (es ++ errors_of [k])).
  { destruct k as [s|id|t ty d]; simpl; rewrite ?app_nil_r; auto.
    destruct ty; simpl; rewrite ?app_nil_r; auto. rewrite last_n_snoc by lia. by rewrite H. }
  rewrite (IH _ _ Hk). f_equal. rewrite <- app_assoc. f_equal. symmetry. apply (omap_app _ [k]).
Qed.

(** No identifier has been handed out twice as long as fewer than 2^64 - 1
    subscriptions were made. *)
Lemma subscribe_fresh_aux ks c :
  (forall id, is_Some (subscribers_ c !! id) -> 1 <= id < next_id_ c) ->
  1 <= next_id_ c -> next_id_ c + Z.of_nat (length ks) < u64_max ->
  let c' := fold_left apply_call ks c in
  (forall id, is_Some (subscribers_ c' !! id) -> 1 <= id < next_id_ c') /\
  next_id_ c <= next_id_ c' <= next_id_ c + Z.of_nat (length ks).
Proof.
  revert c; induction ks as [|k ks IH]; intros c Hi H1 H2; cbn [fold_left].
  { split; [done|]. simpl. lia. }
  cbn [length] in H2.
  assert (Hn : next_id_ (apply_call c k) = next_id_ c \/ next_id_ (apply_call c k) = next_id_ c + 1).
  { destruct k; simpl; auto. right. rewrite u64_small; lia. }
  destruct (IH (apply_call c k)) as [Ha Hb]; [|lia|lia|].
  - destruct k as [s|id'|t ty d]; simpl; [|intros id [v Hv]%lookup_delete_is_Some; apply Hi; eauto|done].
    rewrite u64_small by lia. intros id Hid. destruct (subscribers_ c !! next_id_ c) eqn:E.
    + specialize (Hi id Hid). lia.
    + apply lookup_insert_is_Some in Hid as [<-|[_ Hid]]; [lia|]. specialize (Hi id Hid). lia.
  - split; [done|]. cbn [length]. lia.
Qed.
End Subscribers.
Arguments EventChannel : clear implicits.
Arguments call : clear implicits.

(** ** Properties *)

(** The error log is the last ten: after any history of calls the channel remembers exactly the ten
    most recent system error events, oldest first. *)
Theorem recent_errors_last_ten {S} (ks : list (call S)) :
  recent_errors (fold_left apply_call ks make_channel) = last_n 10 (errors_of ks).
Proof. by apply (errors_fold ks make_channel []). Qed.

(** A new subscription always takes effect under an identifier nobody holds, for any history of
    fewer than 2^64 - 2 calls. *)
Theorem subscribe_fresh {S} (ks : list (call S)) (s : S)
    (Hn : Z.of_nat (length ks) < u64_max - 1) :
  let c := fold_left apply_call ks make_channel in
  let '(id, c') := subscribe s c in
  subscribers_ c !! id = None /\ subscribers_ c' = <[id := s]> (subscribers_ c).
Proof.
  destruct (subscribe_fresh_aux ks (make_channel (S := S))) as [Ha Hb]; simpl; try lia.
  { intros id [v Hv]. discriminate Hv. }
  unfold subscribe. set (c := fold_left _ _ _) in *.
  assert (E : subscribers_ c !! next_id_ c = None).
  { apply eq_None_not_Some. intros H. specialize (Ha _ H). lia. }
  by rewrite E.
Qed.

Lemma subscribe_fresh_witness :
  let c := fold_left apply_call [Subscribe 7; Unsubscribe 1; Subscribe 8] make_channel in
  let '(id, c') := subscribe 9 c in
  subscribers_ c !! id = None /\ subscribers_ c' = <[id := 9]> (subscribers_ c).
Proof. apply (subscribe_fresh [Subscribe 7; Unsubscribe 1; Subscribe 8] 9). simpl. lia. Defined.
End Channel.

(** ** The buffers of a WebSocket client *)

Module Inbox.

Record EventQueue := mkEventQueue {
  capacity_ : Z;
  dropped_ : Z;
  events_ : list string;
}.

Definition make_event_queue (capacity : Z) : throws EventQueue :=
  if capacity =? 0 then throw "event queue capacity must be positive"
  else inr (mkEventQueue capacity 0 []).

Definition queue_push (event : string) (q : EventQueue) : EventQueue :=
  if Z.of_nat (length (events_ q)) =? capacity_ q then
    mkEventQueue (capacity_ q) (u64 (dropped_ q + 1)) (tail (events_ q) ++ [event])
  else mkEventQueue (capacity_ q) (dropped_ q) (events_ q ++ [event]).

Definition queue_pop (q : EventQueue) : option string * EventQueue :=
  match events_ q with
  | [] => (None, q)
  | event :: rest => (Some event, mkEventQueue (capacity_ q) (dropped_ q) rest)
  end.

Record EventInbox := mkInbox { events : EventQueue; drain_scheduled_ : bool }.

Definition make_inbox (capacity : Z) : throws EventInbox :=
  tbind (make_event_queue capacity) (fun q => inr (mkInbox q false)).

Definition push (event : string) (i : EventInbox) : bool * EventInbox :=
  let q := queue_push event (events i) in
  if drain_scheduled_ i then (false, mkInbox q true) else (true, mkInbox q true).

(** The loop of [drain]: one event per iteration until the queue is empty. *)
Fixpoint pop_all (fuel : nat) (q : EventQueue) : list string * EventQueue :=
  match fuel with
  | O => ([], q)
  | S fuel =>
    match queue_pop q with
    | (None, q') => ([], q')
    | (Some e, q') => let '(es, q'') := pop_all fuel q' in (e :: es, q'')
    end
  end.

Definition drain (i : EventInbox) : list string * EventInbox :=
  let '(es, q) := pop_all (S (length (events_ (events i)))) (events i) in (es, mkInbox q false).

Definition dropped (i : EventInbox) : Z := dropped_ (events i).

(** Calls by the producers and by the event loop. *)
Inductive call := Push (event : string) | Drain.

(** [true]: the producer must schedule a drain. *)
Definition apply_call (c : call) (i : EventInbox) : bool * EventInbox :=
  match c with Push e => push e i | Drain => (false, (drain i).2) end.

Fixpoint run (cs : list call) (i : EventInbox) : list bool * EventInbox :=
  match cs with
  | [] => ([], i)
  | c :: rest => let '(b, i1) := apply_call c i in let '(bs, i2) := run rest i1 in (b :: bs, i2)
  end.

(** Drains scheduled minus drains run. *)
Fixpoint outstanding (cs : list call) (bs : list bool) : Z :=
  match cs, bs with
  | c :: cs, b :: bs =>
    (if b then 1 else 0) - (match c with Drain => 1 | Push _ => 0 end) + outstanding cs bs
  | _, _ => 0
  end.

Lemma pop_all_spec fuel q :
  (length (events_ q) < fuel)%nat ->
  pop_all fuel q = (events_ q, mkEventQueue (capacity_ q) (dropped_ q) []).
Proof.
  revert q; induction fuel as [|fuel IH]; intros [c d es] H; simpl in *; [lia|].
  destruct es as [|e es]; [done|]. simpl in *. rewrite IH by (simpl; lia). done.
Qed.

Lemma drain_spec i :
  drain i = (events_ (events i),
             mkInbox (mkEventQueue (capacity_ (events i)) (dropped_ (events i)) []) false).
Proof. unfold drain. by rewrite pop_all_spec by lia. Qed.

Definition wf (i : EventInbox) : Prop :=
  0 < capacity_ (events i) /\ Z.of_nat (length (events_ (events i))) <= capacity_ (events i) /\
  (events_ (events i) <> [] -> drain_scheduled_ i = true).

Lemma inbox_wf_call c i : wf i -> wf (apply_call c i).2.
Proof.
  intros (Hc & Hl & Hs). destruct c; simpl; [|rewrite drain_spec; repeat split; simpl; try done; lia].
  unfold push, queue_push. destruct (_ =? _) eqn:E, (drain_scheduled_ i); bools; repeat split; simpl;
    try done; rewrite length_app, ?length_tail; simpl; lia.
Qed.

Lemma wf_inbox_run cs i : wf i -> wf (run cs i).2.
Proof.
  revert i; induction cs as [|c cs IH]; intros i H; simpl; [done|].
  apply (inbox_wf_call c) in H. destruct (apply_call c i) as [b i1]. specialize (IH i1 H).
  by destruct (run cs i1).
Qed.

(** An event is never stranded: in every reachable state a non-empty inbox has a drain scheduled,
    the buffer never exceeds its capacity, and a drain hands over everything buffered, in order, and
    empties it. *)
Theorem inbox_no_stranded_event (capacity : Z) (i0 : EventInbox) (cs : list call)
    (Hc : 0 <= capacity) (Hi : make_inbox capacity = inr i0) :
  let i := (run cs i0).2 in
  (events_ (events i) <> [] -> drain_scheduled_ i = true) /\
  Z.of_nat (length (events_ (events i))) <= capacity_ (events i) /\
  (drain i).1 = events_ (events i) /\ events_ (events (drain i).2) = [].
Proof.
  unfold make_inbox, make_event_queue in Hi. destruct (_ =? 0) eqn:E; bools; simplify_eq/=.
  set (i0 := mkInbox _ _). assert (H0 : wf i0) by (repeat split; simpl; try done; lia).
  destruct (wf_inbox_run cs i0 H0) as (H1 & H2 & H3). rewrite drain_spec. done.
Qed.

Lemma inbox_no_stranded_event_witness :
  let i := (run [Push "a"; Drain; Push "b"; Push "c"; Push "d"]
              (mkInbox (mkEventQueue 2 0 []) false)).2 in
  (events_ (events i) <> [] -> drain_scheduled_ i = true) /\
  Z.of_nat (length (events_ (events i))) <= capacity_ (events i) /\
  (drain i).1 = events_ (events i) /\ events_ (events (drain i).2) = [].
Proof.
  apply (inbox_no_stranded_event 2 (mkInbox (mkEventQueue 2 0 []) false)); [lia|reflexivity].
Defined.

(** One drain at a time: when drains run only if they were scheduled (at every prefix of the history
    the outstanding count is not negative), at most one scheduled drain is outstanding, and exactly
    when [drain_scheduled_]. *)
Theorem inbox_single_drain (cs : list call) (i : EventInbox) (n : Z)
    (Hn : n = (if drain_scheduled_ i then 1 else 0))
    (Hlegal : forall k, 0 <= n + outstanding (take k cs) (take k (run cs i).1)) :
  n + outstanding cs (run cs i).1 = (if drain_scheduled_ (run cs i).2 then 1 else 0).
Proof.
  revert i n Hn Hlegal; induction cs as [|c cs IH]; intros i n Hn Hlegal; simpl; [lia|].
  assert (Hk : forall k, 0 <= n + outstanding (take (S k) (c :: cs)) (take (S k) (run (c :: cs) i).1))
    by (intros; apply Hlegal).
  simpl in Hk. destruct c as [e|]; simpl in *.
  - unfold push in *. destruct (drain_scheduled_ i) eqn:E; simpl in *.
    + specialize (IH (mkInbox (queue_push e (events i)) true) 1 eq_refl).
      destruct (run cs _) as [bs i2]. simpl in *. rewrite <- IH; [lia|]. intros k. specialize (Hk k). lia.
    + specialize (IH (mkInbox (queue_push e (events i)) true) 1 eq_refl).
      destruct (run cs _) as [bs i2]. simpl in *. rewrite <- IH; [lia|]. intros k. specialize (Hk k). lia.
  - rewrite drain_spec in *. simpl in *.
    specialize (IH (mkInbox (mkEventQueue (capacity_ (events i)) (dropped_ (events i)) []) false) 0 eq_refl).
    destruct (run cs _) as [bs i2]. simpl in *.
    pose proof (Hk 0%nat) as H0. rewrite !take_0 in H0. simpl in H0.
    destruct (drain_scheduled_ i); subst n; [|lia].
    rewrite <- IH; [lia|]. intros k. specialize (Hk k). lia.
Qed.

Lemma inbox_single_drain_witness :
  let i := mkInbox (mkEventQueue 2 0 []) false in
  0 + outstanding [Push "a"; Push "b"; Drain] (run [Push "a"; Push "b"; Drain] i).1 =
  (if drain_scheduled_ (run [Push "a"; Push "b"; Drain] i).2 then 1 else 0).
Proof.
  apply (inbox_single_drain [Push "a"; Push "b"; Drain] (mkInbox (mkEventQueue 2 0 []) false) 0);
    [reflexivity|].
  intros [|[|[|[|k]]]]; vm_compute; discriminate.
Defined.
End Inbox.
