(* ===== verification/ConfigData.v ===== *)
(** * Configuration data and GPS ([include/skai/config.hpp], [include/skai/gps], [src/gps])

    The configuration structures with their defaults, one record per [struct],
    and the GPS source, state and module, which only depend on them.  Double
    literals are quotients of integers that binary64 holds exactly, so the
    division rounds to the literal's value. *)

From S2P Require Import Prelude Strings Floats.

(** A double literal [n / 10^d]. *)
Definition lit (n d : Z) : float64 := f64_div (f64_of_Z n) (f64_of_Z (10 ^ d)).

Inductive LogLevel := Trace | Debug | Info | Warning | Error.

#[export] Instance LogLevel_eq : EqDecision LogLevel.
Proof. solve_decision. Defined.

Module Cfg.

Record VideoConfig := mkVideo {
  rtsp_url : string;
  username : string;
  password : string;
  transport : string;
  latency_ms : Z;
  reconnect_delay_ms : Z;
  max_reconnect_delay_ms : Z;
  stall_timeout_ms : Z;
  first_frame_timeout_ms : Z;
}.

Record DetectorConfig := mkDetector {
  engine : string;
  det_confidence : float64;
  nms : float64;
  annotate : bool;
}.

Record WebConfig := mkWeb {
  bind : string;
  port : Z;
  root : string;
}.

Record RecordingConfig := mkRecording {
  rec_enabled : bool;
  directory : string;
  segment_seconds : Z;
  max_storage_mb : Z;
  min_free_space_mb : Z;
}.

Record StorageConfig := mkStorage {
  database_path : string;
  alert_directory : string;
}.

Record AlertRoi := mkRoi {
  roi_x1 : float64;
  roi_y1 : float64;
  roi_x2 : float64;
  roi_y2 : float64;
}.

Record AlertRuleConfig := mkRule {
  rule_class : string;
  rule_confidence : float64;
  consecutive_frames : Z;
  cooldown_seconds : Z;
  rule_roi : option AlertRoi;
}.

Record GpsConfig := mkGps {
  gps_enabled : bool;
  gps_source : string;
  latitude : float64;
  longitude : float64;
  altitude_m : float64;
}.

Record WebrtcConfig := mkWebrtc {
  rtc_enabled : bool;
  max_peers : Z;
  connection_timeout_ms : Z;
  media_queue_capacity : Z;
  host_interfaces : list string;
  ice_log_verbosity : Z;
}.

Record WhipConfig := mkWhip {
  whip_enabled : bool;
  url : string;
}.

Record Config := mkConfig {
  video : VideoConfig;
  detector : DetectorConfig;
  web : WebConfig;
  recording : RecordingConfig;
  storage : StorageConfig;
  alerts : list AlertRuleConfig;
  gps : GpsConfig;
  webrtc : WebrtcConfig;
  whip : WhipConfig;
  logging : LogLevel;
}.

(** ** Defaults *)

Definition default_video : VideoConfig :=
  mkVideo "rtsp://127.0.0.1/stream" "" "" "tcp" 100 1000 10000 3000 15000.
Definition default_detector : DetectorConfig :=
  mkDetector "models/yolo11s.engine" (lit 35 2) (lit 45 2) true.
(** The web root of a build that does not define [SKAI_DEFAULT_WEB_ROOT]. *)
Definition default_web : WebConfig := mkWeb "0.0.0.0" 8080 "web".
Definition default_recording : RecordingConfig := mkRecording true "recordings" 60 1024 100.
Definition default_storage : StorageConfig :=
  mkStorage "/var/lib/skai-edge/skai-edge.db" "/var/lib/skai-edge/alerts".
Definition default_rule : AlertRuleConfig := mkRule "" (lit 7 1) 1 10 None.
Definition default_gps : GpsConfig :=
  mkGps true "fixed" (lit 25033964 6) (lit 121564468 6) (lit 10 0).
Definition default_webrtc : WebrtcConfig := mkWebrtc true 2 15000 8 ["eth0"; "wlan0"] 1.
Definition default_whip : WhipConfig := mkWhip false "".
Definition default_config : Config :=
  mkConfig default_video default_detector default_web default_recording default_storage []
    default_gps default_webrtc default_whip Info.
End Cfg.

(** ** GPS *)

Module Gps.
Import Cfg.

Record GpsFix := mkFix {
  valid : bool;
  source : string;
  fix_latitude : float64;
  fix_longitude : float64;
  fix_altitude_m : float64;
  hdop : float64;
  satellites_visible : Z;
  satellites_used : Z;
}.

(** [GpsSource::latest] *)
Definition source_latest (config : GpsConfig) : option GpsFix :=
  if negb (gps_enabled config) || negb (bool_decide (gps_source config = "fixed")) then None
  else Some (mkFix true "fixed" (latitude config) (longitude config) (altitude_m config) (lit 9 1) 12 10).

(** [GpsModule]: its source and the shared [GpsState]. *)
Record GpsModule := mkModule {
  source_ : option GpsConfig;
  latest_ : option GpsFix;
}.

Definition make_module : GpsModule := mkModule None None.
Definition update (fix_ : option GpsFix) (m : GpsModule) : GpsModule := mkModule (source_ m) fix_.
Definition clear (m : GpsModule) : GpsModule := mkModule (source_ m) None.
Definition latest (m : GpsModule) : option GpsFix := latest_ m.

Definition initialize (config : GpsConfig) (m : GpsModule) : bool * GpsModule :=
  match source_ m with
  | Some _ => (false, m)
  | None => (true, update (source_latest config) (mkModule (Some config) (latest_ m)))
  end.
Definition start (m : GpsModule) : bool := bool_decide (source_ m <> None).
Definition wait (m : GpsModule) : GpsModule := mkModule None (latest_ (clear m)).

(** A fix is published only between [initialize] and [wait], and is the
    configured position. *)
Lemma module_cycle config m : source_ m = None ->
  let '(ok, m1) := initialize config m in
  ok = true /\ start m1 = true /\ latest m1 = source_latest config /\
  initialize config m1 = (false, m1) /\ wait m1 = make_module.
Proof. intros E. unfold initialize. rewrite E. done. Qed.
End Gps.
