(* ===== verification/Logging.v ===== *)
(** * The logger ([src/logging.cpp], [include/skai/logging.hpp])

    Lines of text with the time, the level, the module and the escaped message.
    Errors also go to a sink, once the mutex is released. *)

From S2P Require Import Prelude Strings Json Paths ConfigData Events.

Module Logging.

Definition newline : ascii := chr 10.

(** [escape], for one character. *)
Definition escape_char (c : ascii) : list ascii :=
  if Ascii.eqb c backslash then [backslash; backslash]
  else if Ascii.eqb c quote then [backslash; quote]
  else if Ascii.eqb c newline then [backslash; "n"%char]
  else if Ascii.eqb c (chr 13) then [backslash; "r"%char]
  else if Ascii.eqb c (chr 9) then [backslash; "t"%char]
  else [c].
Definition escape (value : string) : list ascii := chars value ≫= escape_char.

Definition log_level_name (level : LogLevel) : string :=
  match level with
  | Trace => "trace"
  | Debug => "debug"
  | Info => "info"
  | Warning => "warning"
  | Error => "error"
  end.

(** The order of the enumeration. *)
Definition rank (level : LogLevel) : Z :=
  match level with Trace => 0 | Debug => 1 | Info => 2 | Warning => 3 | Error => 4 end.

(** [output_] is what was written so far. *)
Record Logger := mkLogger {
  output_ : list ascii;
  minimum_level_ : LogLevel;
  error_sink_ : bool;
}.

Definition make_logger : Logger := mkLogger [] Info false.
Definition set_minimum_level (level : LogLevel) (l : Logger) : Logger := mkLogger (output_ l) level (error_sink_ l).
Definition set_error_sink (sink : bool) (l : Logger) : Logger := mkLogger (output_ l) (minimum_level_ l) sink.

(** One line, without its end. *)
Definition line (now_ms : Z) (level : LogLevel) (module message : string) : list ascii :=
  chars (js "timestamp='") ++ chars (Timestamp.timestamp now_ms) ++ chars (js "' level=") ++ chars (log_level_name level) ++
  chars " module=" ++ chars module ++ chars (js " message='") ++ escape message ++ [quote].

(** The call of the error sink, if there is one; what it throws is ignored. *)
Definition log (now_ms : Z) (level : LogLevel) (module message : string) (l : Logger) : option (string * string) * Logger :=
  if rank level <? rank (minimum_level_ l) then (None, l)
  else (if bool_decide (level = Error) && error_sink_ l then Some (module, message) else None,
        mkLogger (output_ l ++ line now_ms level module message ++ [newline]) (minimum_level_ l) (error_sink_ l)).

(** [main]'s sink: every logged error becomes an event. *)
Definition publish_error {S} (now_ms : Z) (error : string * string) (c : @Channel.EventChannel S)
    : list (S * string) * @Channel.EventChannel S :=
  Channel.publish now_ms Channel.SystemError (Channel.make_system_error_data error.1 error.2) c.

(** ** Reading a log *)

(** An escaped text up to the closing quote. *)
Fixpoint read_escaped (l : list ascii) : option (list ascii) :=
  match l with
  | [] => None
  | c :: rest =>
    if Ascii.eqb c quote then Some []
    else if Ascii.eqb c backslash then
      match rest with
      | [] => None
      | e :: rest => cons (if Ascii.eqb e "n" then newline else if Ascii.eqb e "r" then chr 13
                           else if Ascii.eqb e "t" then chr 9 else e) <$> read_escaped rest
      end
    else cons c <$> read_escaped rest
  end.

Fixpoint after_quote (l : list ascii) : list ascii :=
  match l with [] => [] | c :: rest => if Ascii.eqb c quote then rest else after_quote rest end.

(** The message of a line: what follows the third quote. *)
Definition message_of (l : list ascii) : option string := str <$> read_escaped (after_quote (after_quote (after_quote l))).

(** The lines of a text that ends with one. *)
Definition lines (text : list ascii) : list (list ascii) := removelast (Path.split_at newline text []).

(** Characters that do not end a line or a text. *)
Definition plain (l : list ascii) : Prop := Forall (fun c => c <> newline /\ c <> quote) l.

#[export] Instance plain_dec l : Decision (plain l).
Proof. unfold plain. apply _. Defined.

Lemma escape_no_newline value : newline ∉ escape value.
Proof.
  unfold escape. rewrite list_elem_of_bind. intros (c & Hc & _). revert Hc. destruct c as [[] [] [] [] [] [] [] []]; vm_compute; set_solver.
Qed.

Lemma read_escape value : read_escaped (escape value ++ [quote]) = Some (chars value).
Proof.
  unfold escape. induction (chars value) as [|c l IH]; [done|]. rewrite bind_cons, <- app_assoc. revert IH. generalize ((l ≫= escape_char) ++ [quote]).
  intros k IH. destruct c as [[] [] [] [] [] [] [] []]; cbn; by rewrite IH.
Qed.

Lemma after_plain l k : plain l -> after_quote (l ++ quote :: k) = k.
Proof.
  induction 1 as [|c l [_ Hc] _ IH]; [done|]. cbn [app after_quote]. destruct (Ascii.eqb_spec c quote); [done|]. exact IH.
Qed.

Lemma plain_app a b : plain (a ++ b) <-> plain a /\ plain b.
Proof. apply Forall_app. Qed.

Lemma digit_plain d : 0 <= d <= 9 -> digit d <> newline /\ digit d <> quote.
Proof.
  intros H. assert (Hd : d = 0 \/ d = 1 \/ d = 2 \/ d = 3 \/ d = 4 \/ d = 5 \/ d = 6 \/ d = 7 \/ d = 8 \/ d = 9) by lia.
  by repeat (destruct Hd as [->|Hd]; [done|]); subst.
Qed.

Lemma dec_plain n : plain (dec n).
Proof.
  unfold dec. assert (H : forall fuel m acc, plain acc -> plain (dec_aux fuel m acc)); [|by apply H; constructor].
  induction fuel as [|fuel IH]; intros m acc Ha; [done|]. cbn [dec_aux]. pose proof (Z.mod_pos_bound m 10 ltac:(lia)).
  assert (plain (digit (m mod 10) :: acc)) by (constructor; [apply digit_plain; lia|done]). destruct (m <? 10); [done|by apply IH].
Qed.

Lemma pad_plain w n : plain (chars (Timestamp.pad w n)).
Proof.
  unfold Timestamp.pad. rewrite chars_str. apply plain_app. split; [|apply dec_plain]. apply Forall_replicate. by vm_compute.
Qed.

Lemma timestamp_plain now_ms : plain (chars (Timestamp.timestamp now_ms)).
Proof.
  unfold Timestamp.timestamp, Timestamp.utc_date. destruct (Timestamp.civil_from_days _) as [[y m] d].
  rewrite !chars_app, !plain_app. split_and!; try apply pad_plain; by apply (bool_decide_unpack _); vm_compute.
Qed.

(** ** The log of any calls *)

Record Call := mkCall { now_ms : Z; level : LogLevel; module : string; message : string }.

Fixpoint log_all (calls : list Call) (l : Logger) : list (string * string) * Logger :=
  match calls with
  | [] => ([], l)
  | c :: rest =>
    let '(e, l) := log (now_ms c) (level c) (module c) (message c) l in
    let '(es, l) := log_all rest l in (option_list e ++ es, l)
  end.

(** The calls at or above the minimum level. *)
Definition passing (minimum : LogLevel) (calls : list Call) : list Call := filter (fun c => rank minimum <= rank (level c)) calls.
Definition line_of (c : Call) : list ascii := line (now_ms c) (level c) (module c) (message c).

Lemma level_plain v : plain (chars (log_level_name v)).
Proof. destruct v; by apply (bool_decide_unpack _); vm_compute. Qed.

Lemma line_no_newline c : plain (chars (module c)) -> newline ∉ line_of c.
Proof.
  intros H. unfold line_of, line. rewrite !not_elem_of_app.
  assert (Hp : forall k, plain k -> newline ∉ k) by (intros k Hk Hn; unfold plain in Hk; rewrite Forall_forall in Hk; by destruct (Hk _ Hn)).
  split_and!; try (apply Hp; (apply timestamp_plain || apply level_plain || done)); try apply escape_no_newline;
    by apply (bool_decide_unpack _); vm_compute.
Qed.

Lemma line_message c : plain (chars (module c)) -> message_of (line_of c) = Some (message c).
Proof.
  intros H. unfold message_of, line_of, line.
  set (head := chars (js "timestamp='")). assert (E : head = removelast head ++ [quote]) by done. rewrite E, <- app_assoc. cbn [app].
  rewrite after_plain by (by apply (bool_decide_unpack _); vm_compute). clear head E.
  change (chars (js "' level=")) with (quote :: chars " level="). rewrite <- app_comm_cons, after_plain by apply timestamp_plain.
  set (text := chars (js " message='")). assert (E : text = removelast text ++ [quote]) by done. rewrite E. clear E.
  rewrite <- (app_assoc _ [quote]), !(assoc_L (++)). cbn [app]. rewrite <- !(assoc_L (++)).
  rewrite (assoc_L (++) (chars " level=")), (assoc_L (++) _ (chars " module=")), (assoc_L (++) _ (chars (module c))), (assoc_L (++) _ (removelast text)).
  cbn [app]. rewrite after_plain.
  - by rewrite read_escape; cbn; rewrite str_chars.
  - rewrite !plain_app. split_and!; try done; try apply level_plain; by apply (bool_decide_unpack _); vm_compute.
Qed.

Lemma log_all_spec calls : forall l, let '(es, l') := log_all calls l in
  output_ l' = output_ l ++ (passing (minimum_level_ l) calls ≫= fun c => line_of c ++ [newline]) /\
  es = (if error_sink_ l then (fun c => (module c, message c)) <$> filter (fun c => level c = Error) calls else []).
Proof.
  induction calls as [|c calls IH]; intros l; [cbn; rewrite app_nil_r; by destruct (error_sink_ l)|]. cbn [log_all].
  unfold log. unfold passing. rewrite filter_cons. destruct (Z.ltb_spec (rank (level c)) (rank (minimum_level_ l))).
  - rewrite decide_False by lia. pose proof (IH l) as H1. destruct (log_all calls l) as [es l']. destruct H1 as [-> ->]. split; [done|].
    cbn [option_list app]. rewrite filter_cons, decide_False; [done|]. intros E. rewrite E in H. destruct (minimum_level_ l); cbn in H; lia.
  - rewrite decide_True by lia. set (l1 := mkLogger _ _ _). pose proof (IH l1) as H1. destruct (log_all calls l1) as [es l'].
    destruct H1 as [-> ->]. rewrite bind_cons. cbn [l1 output_ minimum_level_ error_sink_]. rewrite <- !app_assoc. split; [done|]. rewrite filter_cons.
    destruct (decide (level c = Error)) as [E|E]; [rewrite bool_decide_true by done|rewrite bool_decide_false by done]; by destruct (error_sink_ l).
Qed.

Lemma lines_spec cs : Forall (fun c => plain (chars (module c))) cs -> lines (cs ≫= fun c => line_of c ++ [newline]) = line_of <$> cs.
Proof.
  intros H. unfold lines. assert (E : Path.split_at newline (cs ≫= fun c => line_of c ++ [newline]) [] = (line_of <$> cs) ++ [[]]).
  { induction H as [|c cs Hc _ IH]; [done|]. rewrite bind_cons, <- app_assoc. cbn [app]. rewrite Path.split_at_app, IH.
    by rewrite Path.split_at_none by (by apply line_no_newline). }
  rewrite E. apply removelast_last.
Qed.

(** A log can be read back: whatever the messages contain, the text has exactly one line for each
    call at or above the minimum level, in order, and the message of every line is recovered from
    it; and the error sink got exactly the errors. (Modules are names without quotes and line ends:
    they are not escaped.) *)
Theorem log_reads_back calls l (Ho : output_ l = []) (Hm : Forall (fun c => plain (chars (module c))) calls) :
  let '(es, l') := log_all calls l in
  message_of <$> lines (output_ l') = Some <$> (message <$> passing (minimum_level_ l) calls) /\
  es = (if error_sink_ l then (fun c => (module c, message c)) <$> filter (fun c => level c = Error) calls else []).
Proof.
  pose proof (log_all_spec calls l) as H. destruct (log_all calls l) as [es l']. destruct H as [H1 H2]. split; [|done].
  assert (Hp : Forall (fun c => plain (chars (module c))) (passing (minimum_level_ l) calls)).
  { rewrite Forall_forall in Hm |- *. intros c [_ Hc]%list_elem_of_filter. by apply Hm. }
  rewrite H1, Ho. cbn [app]. rewrite lines_spec by done. rewrite <- !list_fmap_compose. apply list_fmap_ext.
  intros i c Hc. cbn. apply line_message. rewrite Forall_forall in Hp. apply Hp. by eapply list_elem_of_lookup_2.
Qed.

Definition sample_calls : list Call :=
  [mkCall 0 Info "core" "ready"; mkCall 7 Debug "ice" "quiet"; mkCall 9 Error "video" (js "'camera'" +:+ str [newline] +:+ "lost")].

Lemma log_reads_back_witness :
  let '(es, l') := log_all sample_calls (set_error_sink true make_logger) in
  message_of <$> lines (output_ l') = [Some "ready"; Some (js "'camera'" +:+ str [newline] +:+ "lost")] /\
  fst <$> es = ["video"].
Proof.
  pose proof (log_reads_back sample_calls (set_error_sink true make_logger) eq_refl) as H.
  destruct (log_all sample_calls _) as [es l']. destruct H as [H1 H2]; [by apply (bool_decide_unpack _); vm_compute|].
  rewrite H1, H2. split; by vm_compute.
Defined.
End Logging.

(** ** TensorRT's log ([src/inference/tensorrt_logger.cpp]) *)

Module TensorRt.
Import Logging.

Inductive Severity := kINTERNAL_ERROR | kERROR | kWARNING | kINFO | kVERBOSE.

(** The logger is shared with the rest of the program. *)
Record TensorRtLogger := mkTensorRt { logger_ : Logger; last_error_ : string }.

Definition make (l : Logger) : TensorRtLogger := mkTensorRt l "".

Definition is_error (severity : Severity) : bool :=
  match severity with kINTERNAL_ERROR | kERROR => true | _ => false end.

Definition level_of (severity : Severity) : LogLevel :=
  if is_error severity then Error
  else match severity with kWARNING => Warning | kINFO => Info | _ => Debug end.

(** A message may be a null pointer. *)
Definition log (now_ms : Z) (severity : Severity) (message : option string) (t : TensorRtLogger)
    : option (string * string) * TensorRtLogger :=
  let last := if is_error severity then default "unknown TensorRT error" message else last_error_ t in
  let '(e, l) := Logging.log now_ms (level_of severity) "tensorrt" (default "unknown TensorRT message" message) (logger_ t) in
  (e, mkTensorRt l last).

Definition last_error (t : TensorRtLogger) : string := last_error_ t.

Record Message := mkMessage { at_ms : Z; severity : Severity; text : option string }.

Fixpoint messages (ms : list Message) (t : TensorRtLogger) : list (string * string) * TensorRtLogger :=
  match ms with
  | [] => ([], t)
  | m :: rest =>
    let '(e, t) := log (at_ms m) (severity m) (text m) t in
    let '(es, t) := messages rest t in (option_list e ++ es, t)
  end.

Definition call_of (m : Message) : Call :=
  mkCall (at_ms m) (level_of (severity m)) "tensorrt" (default "unknown TensorRT message" (text m)).

Definition error_text (m : Message) : option string :=
  if is_error (severity m) then Some (default "unknown TensorRT error" (text m)) else None.

(** TensorRT's messages are lines of the program's log like any others, and the reason reported when
    a TensorRT call fails is the last error among them, whatever is filtered from the log. *)
Theorem tensorrt_messages_logged ms : forall t,
  let '(es, t') := messages ms t in
  (es, logger_ t') = log_all (call_of <$> ms) (logger_ t) /\
  last_error t' = default (last_error t) (last (omap error_text ms)).
Proof.
  induction ms as [|m ms IH]; intros t; [done|]. cbn [messages fmap list_fmap]. unfold log at 1.
  destruct (Logging.log _ _ _ _ _) as [e l] eqn:E. set (t1 := mkTensorRt l _). specialize (IH t1).
  destruct (messages ms t1) as [es t']. destruct IH as [H1 H2]. cbn [log_all call_of now_ms level module message]. rewrite E.
  cbn [t1 logger_] in H1. rewrite <- H1. split; [done|]. rewrite H2. cbn [omap list_omap]. unfold last_error, t1, error_text at 2.
  cbn [last_error_]. destruct (is_error (severity m)); [|done]. rewrite last_cons. by destruct (last _).
Qed.
End TensorRt.
