(* ===== verification/Application.v ===== *)
(** * Application lifecycle ([include/skai/application.hpp], [src/application.cpp])

    The modules are seen through [LifecycleModule]: an environment says which
    modules exist and what [initialize], [start] and [last_error] answer (a
    throwing action counts as [false], as [try_action] makes it), and the calls
    the application makes are recorded in a log.  [initialize], [start], [stop]
    and [wait] are the methods run by one caller; [Concurrent] splits [stop]
    and [wait] at the points where the source releases the mutex and lets any
    number of threads call them. *)

From S2P Require Import Prelude Strings.

Module Lifecycle.

Inductive State := New | Initialized | Running | Stopping | Stopped | Joining.

#[export] Instance State_eq : EqDecision State.
Proof. solve_decision. Defined.

(** Calls on the modules. [Init m true] is a successful initialization. *)
Inductive call :=
  | Init (module : string) (ok : bool)
  | Start (module : string) (ok : bool)
  | Stop (module : string)
  | Wait (module : string).

(** What one call of [initialize] or [start] meets. *)
Record Env := mkEnv {
  present : string -> bool;
  config_error : option string;
  init_result : string -> bool;
  start_result : string -> bool;
  module_error : string -> string;
}.

Record Application := mkApp {
  active_ : list string;
  state_ : State;
  last_error_ : string;
  last_error_module_ : string;
  log : list call;
}.

Definition make_app : Application := mkApp [] New "" "core" [].

(** The order of [ordered[]] in [initialize]. *)
Definition ordered : list string :=
  ["storage"; "webrtc"; "whip"; "web"; "encoder"; "detector"; "recording"; "video"; "gps"].

Definition stop_calls (active : list string) : list call := Stop <$> reverse active.
Definition wait_calls (active : list string) : list call := Wait <$> reverse active.

(** The loop of [initialize]: [inl] is the module that failed. *)
Fixpoint init_loop (env : Env) (names : list string) (active : list string) (calls : list call)
    : (string + unit) * list string * list call :=
  match names with
  | [] => (inr tt, active, calls)
  | m :: rest =>
    if negb (present env m) then init_loop env rest active calls
    else if init_result env m then
      init_loop env rest (active ++ [m]) (calls ++ [Init m true])
    else (inl m, active, calls ++ [Init m false])
  end.

Definition initialize (env : Env) (a : Application) : bool * Application :=
  if negb (bool_decide (state_ a = New)) then
    (false, mkApp (active_ a) (state_ a)
              "application must be stopped and joined before initialization" "core" (log a))
  else
    match config_error env with
    | Some error => (false, mkApp (active_ a) (state_ a) error "config" (log a))
    | None =>
      match init_loop env ordered (active_ a) (log a) with
      | (inr _, active, calls) => (true, mkApp active Initialized "" "core" calls)
      | (inl m, active, calls) =>
        let detail := module_error env m in
        (false, mkApp [] New
                  (if bool_decide (detail = "") then m +:+ ".initialize failed" else detail) m
                  (calls ++ stop_calls active ++ wait_calls active))
      end
    end.

(** The loop of [start] over the active modules. *)
Fixpoint start_loop (env : Env) (active : list string) (calls : list call)
    : (string + unit) * list call :=
  match active with
  | [] => (inr tt, calls)
  | m :: rest =>
    if start_result env m then start_loop env rest (calls ++ [Start m true])
    else (inl m, calls ++ [Start m false])
  end.

(** The part of [start] under the mutex. *)
Definition start_locked (env : Env) (a : Application) : bool * Application :=
  if negb (bool_decide (state_ a = Initialized)) then
    (false, mkApp (active_ a) (state_ a) "application must be initialized before start" "core" (log a))
  else
    match start_loop env (active_ a) (log a) with
    | (inr _, calls) => (true, mkApp (active_ a) Running "" "core" calls)
    | (inl m, calls) => (false, mkApp (active_ a) (state_ a) (m +:+ ".start failed") m calls)
    end.

Definition stop (a : Application) : Application :=
  if bool_decide (state_ a = Initialized) || bool_decide (state_ a = Running) then
    mkApp (active_ a) Stopped (last_error_ a) (last_error_module_ a) (log a ++ stop_calls (active_ a))
  else a.

(** [None]: the caller blocks.  A single caller never finds [Joining]. *)
Definition wait (a : Application) : option Application :=
  match state_ a with
  | New => Some a
  | Stopped =>
    Some (mkApp [] New (last_error_ a) (last_error_module_ a) (log a ++ wait_calls (active_ a)))
  | Initialized | Running | Stopping | Joining => None
  end.

(** A failed module start stops and joins; a wrong state only reports. *)
Definition start (env : Env) (a : Application) : bool * Application :=
  let '(ok, a') := start_locked env a in
  if ok || negb (bool_decide (state_ a = Initialized)) then (ok, a')
  else (false, default (stop a') (wait (stop a'))).

(** ** One lifecycle, as its log shows it *)

(** Attempts to start [active]: each runs through a prefix, the last one may
    reach the end. *)
Inductive attempts (active : list string) : list call -> Prop :=
  | attempts_none : attempts active []
  | attempts_failed pre m rest l : active = pre ++ m :: rest -> attempts active l ->
      attempts active (l ++ ((fun x => Start x true) <$> pre) ++ [Start m false])
  | attempts_done l : attempts active l ->
      attempts active (l ++ ((fun x => Start x true) <$> active)).

(** A complete lifecycle: the modules are initialized in the fixed order; when
    one fails, exactly those before it are stopped and joined, in reverse; when
    all succeed, whatever the starts did, all are stopped and then all joined,
    in reverse. *)
Inductive cycle : list call -> Prop :=
  | cycle_init_failed active m : active ++ [m] `sublist_of` ordered ->
      cycle (((fun x => Init x true) <$> active) ++ [Init m false] ++
             stop_calls active ++ wait_calls active)
  | cycle_full active l : active `sublist_of` ordered -> attempts active l ->
      cycle (((fun x => Init x true) <$> active) ++ l ++ stop_calls active ++ wait_calls active).

Inductive cycles : list call -> Prop :=
  | cycles_nil : cycles []
  | cycles_snoc l c : cycles l -> cycle c -> cycles (l ++ c).

(** ** Lemmas *)

Lemma init_loop_spec env names active calls :
  match init_loop env names active calls with
  | (inr _, active', calls') => exists new, active' = active ++ new /\
      new `sublist_of` names /\ calls' = calls ++ ((fun x => Init x true) <$> new)
  | (inl m, active', calls') => exists new, active' = active ++ new /\
      new ++ [m] `sublist_of` names /\
      calls' = calls ++ ((fun x => Init x true) <$> new) ++ [Init m false]
  end.
Proof.
  revert active calls; induction names as [|n names IH]; intros active calls; simpl.
  { exists []. rewrite !app_nil_r. done. }
  destruct (present env n); simpl.
  - destruct (init_result env n).
    + specialize (IH (active ++ [n]) (calls ++ [Init n true])).
      destruct (init_loop _ _ _ _) as [[[m|u] active'] calls'];
        destruct IH as (new & -> & Hs & ->); exists (n :: new); rewrite <- !app_assoc; simpl;
        (split_and!; [done|by constructor|done]).
    + exists []. rewrite !app_nil_r. split_and!; [done| |done]. simpl. constructor. apply sublist_nil_l.
  - specialize (IH active calls). destruct (init_loop _ _ _ _) as [[[m|u] active'] calls'];
      destruct IH as (new & -> & Hs & ->); exists new; (split_and!; [done|by constructor|done]).
Qed.

Lemma start_loop_spec env active calls :
  match start_loop env active calls with
  | (inr _, calls') => calls' = calls ++ ((fun x => Start x true) <$> active)
  | (inl m, calls') => exists pre rest, active = pre ++ m :: rest /\
      calls' = calls ++ ((fun x => Start x true) <$> pre) ++ [Start m false]
  end.
Proof.
  revert calls; induction active as [|m active IH]; intros calls; simpl; [by rewrite app_nil_r|].
  destruct (start_result env m).
  - specialize (IH (calls ++ [Start m true])). destruct (start_loop _ _ _) as [[m'|u] calls'].
    + destruct IH as (pre & rest & -> & ->). exists (m :: pre), rest. by rewrite <- !app_assoc.
    + rewrite IH, <- app_assoc. done.
  - exists [], active. done.
Qed.

(** The modules [initialize] calls when none fails. *)
Definition configured (env : Env) : list string := List.filter (present env) ordered.

Lemma init_loop_ok env names active calls :
  (forall m, m ∈ List.filter (present env) names -> init_result env m = true) ->
  init_loop env names active calls =
    (inr tt, active ++ List.filter (present env) names,
     calls ++ ((fun x => Init x true) <$> List.filter (present env) names)).
Proof.
  revert active calls; induction names as [|n names IH]; intros active calls H; simpl in *;
    [by rewrite !app_nil_r|].
  destruct (present env n); simpl; [|by apply IH].
  rewrite (H n), IH by (try (intros; apply H); set_solver).
  by rewrite <- !app_assoc.
Qed.

Lemma init_loop_fails env names active calls pre m rest :
  List.filter (present env) names = pre ++ m :: rest ->
  (forall x, x ∈ pre -> init_result env x = true) -> init_result env m = false ->
  init_loop env names active calls =
    (inl m, active ++ pre, calls ++ ((fun x => Init x true) <$> pre) ++ [Init m false]).
Proof.
  revert active calls pre; induction names as [|n names IH]; intros active calls pre H Hpre Hm;
    simpl in *; [by destruct pre|].
  destruct (present env n) eqn:Hn; simpl; [|by apply IH].
  destruct pre as [|x pre]; simplify_eq/=.
  - rewrite Hm. by rewrite app_nil_r.
  - rewrite (Hpre x), (IH _ _ pre) by (try (intros; apply Hpre); set_solver).
    by rewrite <- !app_assoc.
Qed.

Lemma start_loop_ok env active calls :
  (forall m, m ∈ active -> start_result env m = true) ->
  start_loop env active calls = (inr tt, calls ++ ((fun x => Start x true) <$> active)).
Proof.
  revert calls; induction active as [|m active IH]; intros calls H; simpl; [by rewrite app_nil_r|].
  rewrite (H m), IH by (try (intros; apply H); set_solver). by rewrite <- app_assoc.
Qed.

Lemma start_loop_fails env pre m rest calls :
  (forall x, x ∈ pre -> start_result env x = true) -> start_result env m = false ->
  start_loop env (pre ++ m :: rest) calls =
    (inl m, calls ++ ((fun x => Start x true) <$> pre) ++ [Start m false]).
Proof.
  revert calls; induction pre as [|x pre IH]; intros calls H Hm; simpl; [by rewrite Hm|].
  rewrite (H x), IH by (try (intros; apply H); set_solver). by rewrite <- !app_assoc.
Qed.

#[local] Opaque ordered.

(** [initialize] of a new application whose configuration loads either initializes every configured
    module, in the fixed order, and moves to [Initialized]; or, at the first module that fails,
    stops and then joins exactly the modules initialized before it, in reverse order, reports that
    module's own error (or [<name>.initialize failed] when it has none) under its name, and stays
    [New] with nothing active. *)
Theorem initialize_all_or_nothing env a :
  state_ a = New -> active_ a = [] -> config_error env = None ->
  ((forall m, m ∈ configured env -> init_result env m = true) ->
   initialize env a = (true, mkApp (configured env) Initialized "" "core"
                               (log a ++ ((fun x => Init x true) <$> configured env)))) /\
  (forall pre m rest, configured env = pre ++ m :: rest ->
   (forall x, x ∈ pre -> init_result env x = true) -> init_result env m = false ->
   initialize env a =
     (false, mkApp [] New
               (if bool_decide (module_error env m = "") then m +:+ ".initialize failed"
                else module_error env m) m
               (log a ++ ((fun x => Init x true) <$> pre) ++ [Init m false] ++
                stop_calls pre ++ wait_calls pre))).
Proof.
  intros Hs Ha Hc. unfold initialize. rewrite Hs, Ha, Hc. rewrite bool_decide_true by done.
  cbn [negb]. split.
  - intros H. by rewrite init_loop_ok.
  - intros pre m rest E Hpre Hm. rewrite (init_loop_fails env _ _ _ pre m rest) by done.
    by rewrite <- !app_assoc.
Qed.

(** [start] of an initialized application either starts every active module in initialization order
    and moves to [Running]; or, at the first module that fails, names it in the error, stops all
    active modules and then joins them all, in reverse order, and leaves the application [New],
    ready to be initialized again. *)
Theorem start_all_or_nothing env a :
  state_ a = Initialized ->
  ((forall m, m ∈ active_ a -> start_result env m = true) ->
   start env a = (true, mkApp (active_ a) Running "" "core"
                          (log a ++ ((fun x => Start x true) <$> active_ a)))) /\
  (forall pre m rest, active_ a = pre ++ m :: rest ->
   (forall x, x ∈ pre -> start_result env x = true) -> start_result env m = false ->
   start env a =
     (false, mkApp [] New (m +:+ ".start failed") m
               (log a ++ ((fun x => Start x true) <$> pre) ++ [Start m false] ++
                stop_calls (active_ a) ++ wait_calls (active_ a)))).
Proof.
  intros Hs. unfold start, start_locked. rewrite Hs, bool_decide_true by done. cbn [negb]. split.
  - intros H. by rewrite start_loop_ok.
  - intros pre m rest E Hpre Hm. rewrite E, start_loop_fails by done.
    cbn [orb]. unfold stop. cbn [state_]. rewrite bool_decide_true by done. cbn [orb wait state_].
    cbn [default id active_ log last_error_ last_error_module_]. by rewrite <- !app_assoc.
Qed.

#[local] Transparent ordered.

(** An application with storage, web and video, whose video module fails. *)
Definition small_env (ok : bool) : Env :=
  mkEnv (fun m => bool_decide (m ∈ ["storage"; "web"; "video"])) None
    (fun m => ok || negb (bool_decide (m = "video"))) (fun m => negb (bool_decide (m = "video")))
    (fun _ => "").

Lemma initialize_all_or_nothing_witness :
  initialize (small_env false) make_app =
    (false, mkApp [] New "video.initialize failed" "video"
       [Init "storage" true; Init "web" true; Init "video" false;
        Stop "web"; Stop "storage"; Wait "web"; Wait "storage"]).
Proof.
  destruct (initialize_all_or_nothing (small_env false) make_app) as [_ H]; [done..|].
  rewrite (H ["storage"; "web"] "video" []); [vm_compute; reflexivity..| |vm_compute; reflexivity].
  intros x Hx. repeat (apply elem_of_cons in Hx as [->|Hx]; [vm_compute; reflexivity|]).
  by apply elem_of_nil in Hx.
Defined.

Lemma start_all_or_nothing_witness :
  start (small_env true) (initialize (small_env true) make_app).2 =
    (false, mkApp [] New "video.start failed" "video"
       [Init "storage" true; Init "web" true; Init "video" true;
        Start "storage" true; Start "web" true; Start "video" false;
        Stop "video"; Stop "web"; Stop "storage"; Wait "video"; Wait "web"; Wait "storage"]).
Proof.
  destruct (start_all_or_nothing (small_env true) (initialize (small_env true) make_app).2) as [_ H];
    [vm_compute; reflexivity|].
  rewrite (H ["storage"; "web"] "video" []); [vm_compute; reflexivity..| |vm_compute; reflexivity].
  intros x Hx. repeat (apply elem_of_cons in Hx as [->|Hx]; [vm_compute; reflexivity|]).
  by apply elem_of_nil in Hx.
Defined.
End Lifecycle.

(** ** Any number of threads *)

Module Concurrent.
Import Lifecycle.

#[local] Opaque ordered.

(** The loop a thread is inside, with the modules it still has to call; the
    state protects it: at most one thread is in one at a time. *)
Inductive phase := Idle | StopLoop (rest : list string) | WaitLoop (rest : list string).

Definition set_log (a : Application) (l : list call) : Application :=
  mkApp (active_ a) (state_ a) (last_error_ a) (last_error_module_ a) l.
Definition set_state (a : Application) (s : State) : Application :=
  mkApp (active_ a) s (last_error_ a) (last_error_module_ a) (log a).

(** Steps that change the shared state; a call of [stop] or [wait] that finds
    nothing to do (or blocks) changes nothing and is not a step.  [initialize]
    and the locked part of [start] run with the mutex held. *)
Inductive step : Application * phase -> Application * phase -> Prop :=
  | step_initialize env a p : step (a, p) ((initialize env a).2, p)
  | step_start env a p : step (a, p) ((start_locked env a).2, p)
  | step_stop_begin a : state_ a = Initialized \/ state_ a = Running ->
      step (a, Idle) (set_state a Stopping, StopLoop (reverse (active_ a)))
  | step_stop_module a m rest :
      step (a, StopLoop (m :: rest)) (set_log a (log a ++ [Stop m]), StopLoop rest)
  | step_stop_end a : step (a, StopLoop []) (set_state a Stopped, Idle)
  | step_wait_begin a : state_ a = Stopped ->
      step (a, Idle) (set_state a Joining, WaitLoop (reverse (active_ a)))
  | step_wait_module a m rest :
      step (a, WaitLoop (m :: rest)) (set_log a (log a ++ [Wait m]), WaitLoop rest)
  | step_wait_end a :
      step (a, WaitLoop [])
        (mkApp [] New (last_error_ a) (last_error_module_ a) (log a), Idle).

Definition inv (s : Application * phase) : Prop :=
  let '(a, p) := s in
  match state_ a, p with
  | New, Idle => active_ a = [] /\ cycles (log a)
  | Initialized, Idle | Running, Idle => exists l0 l, cycles l0 /\ active_ a `sublist_of` ordered /\
      attempts (active_ a) l /\ log a = l0 ++ ((fun x => Init x true) <$> active_ a) ++ l
  | Stopping, StopLoop rest => exists l0 l pre, cycles l0 /\ active_ a `sublist_of` ordered /\
      attempts (active_ a) l /\ reverse (active_ a) = pre ++ rest /\
      log a = l0 ++ ((fun x => Init x true) <$> active_ a) ++ l ++ (Stop <$> pre)
  | Stopped, Idle => exists l0 l, cycles l0 /\ active_ a `sublist_of` ordered /\
      attempts (active_ a) l /\
      log a = l0 ++ ((fun x => Init x true) <$> active_ a) ++ l ++ stop_calls (active_ a)
  | Joining, WaitLoop rest => exists l0 l pre, cycles l0 /\ active_ a `sublist_of` ordered /\
      attempts (active_ a) l /\ reverse (active_ a) = pre ++ rest /\
      log a = l0 ++ ((fun x => Init x true) <$> active_ a) ++ l ++ stop_calls (active_ a) ++
              (Wait <$> pre)
  | _, _ => False
  end.

Lemma inv_initialize env a p : inv (a, p) -> inv ((initialize env a).2, p).
Proof.
  intros H. unfold initialize. case_bool_decide as Hs; cbn [negb]; [|exact H].
  destruct (config_error env) as [e|]; [exact H|].
  unfold inv in H. rewrite Hs in H. destruct p; try done. destruct H as [Ha Hc].
  pose proof (init_loop_spec env ordered (active_ a) (log a)) as Hl. rewrite Ha in *.
  destruct (init_loop env ordered [] (log a)) as [[[m|u] active] calls];
    destruct Hl as (new & -> & Hsub & ->); cbn [app snd inv state_ active_ log].
  - split; [done|]. rewrite <- !app_assoc. apply cycles_snoc; [done|]. by apply cycle_init_failed.
  - exists (log a), []. rewrite app_nil_r. split_and!; [done|done|constructor|done].
Qed.

Lemma inv_start env a p : inv (a, p) -> inv ((start_locked env a).2, p).
Proof.
  intros H. unfold start_locked. case_bool_decide as Hs; simpl; [|done].
  unfold inv in H. rewrite Hs in H. destruct p; try done. destruct H as (l0 & l & Hc & Hsub & Hl & E).
  pose proof (start_loop_spec env (active_ a) (log a)) as Hspec.
  destruct (start_loop _ _ _) as [[m|u] calls].
  - destruct Hspec as (pre & rest & Hact & ->). simpl. rewrite Hs.
    exists l0, (l ++ ((fun x => Start x true) <$> pre) ++ [Start m false]). split_and!; auto.
    + by eapply attempts_failed.
    + rewrite E. by rewrite <- !app_assoc.
  - subst calls. simpl. exists l0, (l ++ ((fun x => Start x true) <$> active_ a)).
    split_and!; auto; [by apply attempts_done|]. rewrite E. by rewrite <- !app_assoc.
Qed.

Lemma lifecycle_inv_step s s' : step s s' -> inv s -> inv s'.
Proof.
  destruct 1 as [| |? Hb| | |? Hb| |]; intros H; [by apply inv_initialize|by apply inv_start|..].
  - unfold inv in H |- *. simpl.
    assert (exists l0 l, cycles l0 /\ active_ a `sublist_of` ordered /\ attempts (active_ a) l /\
      log a = l0 ++ ((fun x => Init x true) <$> active_ a) ++ l) as (l0 & l & ? & ? & ? & E)
      by (destruct Hb as [Hb|Hb]; rewrite Hb in H; exact H).
    exists l0, l, []. rewrite E. simpl. rewrite app_nil_r. split_and!; auto.
  - unfold inv in H |- *. simpl. destruct (state_ a); try done.
    destruct H as (l0 & l & pre & ? & ? & ? & Hr & E). exists l0, l, (pre ++ [m]).
    rewrite E, fmap_app, <- !app_assoc. split_and!; auto.
  - unfold inv in H |- *. simpl. destruct (state_ a); try done.
    destruct H as (l0 & l & pre & ? & ? & ? & Hr & E). rewrite app_nil_r in Hr. subst pre.
    exists l0, l. split_and!; auto.
  - unfold inv in H |- *. rewrite Hb in H. simpl. destruct H as (l0 & l & ? & ? & ? & E).
    exists l0, l, []. rewrite E. simpl. rewrite app_nil_r. split_and!; auto.
  - unfold inv in H |- *. simpl. destruct (state_ a); try done.
    destruct H as (l0 & l & pre & ? & ? & ? & Hr & E). exists l0, l, (pre ++ [m]).
    rewrite E, fmap_app, <- !app_assoc. split_and!; auto.
  - unfold inv in H |- *. simpl. destruct (state_ a); try done.
    destruct H as (l0 & l & pre & ? & ? & ? & Hr & E). rewrite app_nil_r in Hr. subst pre.
    split; [done|]. rewrite E. apply cycles_snoc; [done|]. by apply cycle_full.
Qed.

Lemma lifecycle_inv_reachable s : rtc step (make_app, Idle) s -> inv s.
Proof.
  assert (H0 : inv (make_app, Idle)) by (split; [done|constructor]).
  intros H. revert H0. induction H; eauto using lifecycle_inv_step.
Qed.


#[local] Transparent ordered.

End Concurrent.
