(* ===== verification/TensorLayout.v ===== *)
(** * Engine tensor validation ([src/inference/tensor_layout.cpp])

    The loader accepts an engine only when its I/O tensors are uniquely named,
    device-resident, linear and of fixed positive dimensions, and computes each
    tensor's byte size with an overflow test before every multiplication. *)

From S2P Require Import Prelude Strings.

Module TensorLayout.

Record TensorDescription := mkDescription {
  name : string;
  input : bool;
  shape : list Z;
  data_type : string;
  component_bytes : Z;
  device : bool;
  linear : bool;
}.

Record TensorInfo := mkInfo {
  info_name : string;
  info_input : bool;
  info_shape : list Z;
  info_type : string;
  info_bytes : Z;
}.

(** The loop over the dimensions, from the bytes of one component. *)
Fixpoint byte_size (tensor : string) (bytes : Z) (dims : list Z) : throws Z :=
  match dims with
  | [] => inr bytes
  | dimension :: rest =>
    if dimension <? 0 then
      throw ("tensor '" +:+ tensor +:+ "' has a dynamic dimension; rebuild with fixed shapes")
    else if dimension =? 0 then throw ("tensor '" +:+ tensor +:+ "' has a zero dimension")
    else
      let count := u64 dimension in
      if u64_max / bytes <? count then throw ("tensor '" +:+ tensor +:+ "' byte size overflow")
      else byte_size tensor (u64 (bytes * count)) rest
  end.

(** One iteration of the loop over the bindings; [names] are those seen. *)
Definition check_binding (names : list string) (b : TensorDescription) : throws TensorInfo :=
  if bool_decide (name b = "") then throw "engine contains an unnamed I/O tensor"
  else if bool_decide (name b ∈ names) then throw ("duplicate I/O tensor: " +:+ name b)
  else if negb (device b) then throw ("tensor '" +:+ name b +:+ "' is not device-resident")
  else if negb (linear b) then throw ("tensor '" +:+ name b +:+ "' does not use a linear format")
  else if (component_bytes b =? 0) || bool_decide (data_type b = "") then
    throw ("tensor '" +:+ name b +:+ "' has an unsupported data type")
  else tbind (byte_size (name b) (component_bytes b) (shape b)) (fun bytes =>
    inr (mkInfo (name b) (input b) (shape b) (data_type b) bytes)).

Fixpoint check_bindings (names : list string) (ds : list TensorDescription)
    : throws (list TensorInfo) :=
  match ds with
  | [] => inr []
  | b :: rest =>
    tbind (check_binding names b) (fun info =>
    tbind (check_bindings (name b :: names) rest) (fun infos => inr (info :: infos)))
  end.

(** On failure the caller's tensor list has been cleared. *)
Definition validate_tensor_layout (ds : list TensorDescription) : throws (list TensorInfo) :=
  tbind (check_bindings [] ds) (fun validated =>
    let has_input := existsb input ds in
    let has_output := existsb (fun b => negb (input b)) ds in
    if negb has_input || negb has_output then
      throw (if has_input then "engine has no output tensor" else "engine has no input tensor")
    else inr validated).

(** ** Specification *)

Definition volume (dims : list Z) : Z := foldr Z.mul 1 dims.

(** The values the C++ types can hold. *)
Definition typed (b : TensorDescription) : Prop :=
  is_u64 (component_bytes b) /\ Forall (fun d => - 2 ^ 63 <= d < 2 ^ 63) (shape b).

Definition acceptable (b : TensorDescription) : Prop :=
  name b <> "" /\ device b = true /\ linear b = true /\ data_type b <> "" /\
  0 < component_bytes b /\ Forall (fun d => 0 < d) (shape b) /\
  component_bytes b * volume (shape b) <= u64_max.

Definition describe (b : TensorDescription) : TensorInfo :=
  mkInfo (name b) (input b) (shape b) (data_type b) (component_bytes b * volume (shape b)).

Lemma volume_pos dims : Forall (fun d => 0 < d) dims -> 0 < volume dims.
Proof. induction 1; simpl; [lia|]. by apply Z.mul_pos_pos. Qed.

(** The test before each multiplication is exactly that the total fits. *)
Lemma byte_size_spec tensor bytes dims n :
  0 < bytes <= u64_max -> Forall (fun d => - 2 ^ 63 <= d < 2 ^ 63) dims ->
  byte_size tensor bytes dims = inr n <->
  Forall (fun d => 0 < d) dims /\ bytes * volume dims <= u64_max /\ n = bytes * volume dims.
Proof.
  intros Hb Ht. revert bytes Hb. induction Ht as [|d dims Hd Ht IH]; intros bytes Hb; simpl.
  { rewrite Z.mul_1_r. split; [intros [= ->]; split_and!; [constructor|lia|done]|].
    by intros (_ & _ & ->). }
  rewrite Forall_cons. destruct (Z.ltb_spec d 0); [split; [done|lia]|].
  destruct (Z.eqb_spec d 0); [split; [done|lia]|].
  rewrite (u64_small d) by lia. destruct (Z.ltb_spec (u64_max / bytes) d) as [Hov|Hok].
  - split; [done|]. intros ((_ & Hp) & Hle & _). exfalso.
    apply volume_pos in Hp.
    assert (u64_max < bytes * d) by (pose proof (Z.mul_succ_div_gt u64_max bytes); nia).
    nia.
  - assert (bytes * d <= u64_max).
    { pose proof (Z.mul_div_le u64_max bytes). nia. }
    rewrite (u64_small (bytes * d)) by nia. rewrite IH by nia. rewrite Z.mul_assoc.
    split; [intros (? & ? & ->)|intros ((? & ?) & ? & ->)]; split_and!; auto; lia.
Qed.

Lemma check_binding_spec names b info : typed b ->
  check_binding names b = inr info <->
  acceptable b /\ name b ∉ names /\ info = describe b.
Proof.
  intros [Hc Hs]. unfold check_binding, acceptable, describe.
  case_bool_decide; [split; [done|tauto]|].
  case_bool_decide; [split; [done|tauto]|].
  destruct (device b); simpl; [|split; [done|naive_solver]].
  destruct (linear b); simpl; [|split; [done|naive_solver]].
  destruct (Z.eqb_spec (component_bytes b) 0); simpl; [split; [done|lia]|].
  case_bool_decide; simpl; [split; [done|tauto]|].
  rewrite tbind_ok. setoid_rewrite byte_size_spec; [|red in Hc; lia|done].
  red in Hc. split.
  - intros (size & (? & ? & ->) & [= <-]). split_and!; auto; lia.
  - intros ((? & _ & _ & ? & ? & ? & ?) & ? & ->). eexists; split_and!; eauto.
Qed.

Lemma check_bindings_spec names ds infos : Forall typed ds ->
  check_bindings names ds = inr infos <->
  Forall acceptable ds /\ NoDup (name <$> ds) /\ (forall b, b ∈ ds -> name b ∉ names) /\
  infos = describe <$> ds.
Proof.
  intros Ht. revert names infos. induction Ht as [|b ds Hb Ht IH]; intros names infos; simpl.
  { split; [intros [= <-]; split_and!; [constructor..|set_solver|done]|].
    by intros (_ & _ & _ & ->). }
  rewrite tbind_ok. setoid_rewrite tbind_ok. setoid_rewrite IH.
  setoid_rewrite (check_binding_spec names b _ Hb).
  rewrite Forall_cons, NoDup_cons. split.
  - intros (i & (? & ? & ->) & tl & (? & ? & Hn & ->) & [= <-]). split_and!; auto.
    + intros (c & ? & ?)%list_elem_of_fmap. apply (Hn c); set_solver.
    + intros c [->|Hin]%elem_of_cons; [done|]. specialize (Hn c Hin). set_solver.
  - intros ((? & ?) & (Hni & ?) & Hn & ->). exists (describe b). split_and!; auto.
    { apply Hn. set_solver. }
    exists (describe <$> ds). split_and!; auto. intros c Hc [Heq|Hin]%elem_of_cons.
    + apply Hni. rewrite <- Heq. by apply list_elem_of_fmap_2.
    + by apply (Hn c); [set_solver|].
Qed.

(** [validate_tensor_layout] accepts exactly the engines whose tensors have distinct non-empty
    names, are device-resident and linear, have a data type, strictly positive dimensions and a byte
    size that fits in [size_t], with at least one input and one output; the tensors it returns are
    the bindings in order, each with the exact (unwrapped) product of its dimensions and the
    component size. *)
Theorem tensor_layout_exact ds tensors : Forall typed ds ->
  validate_tensor_layout ds = inr tensors <->
  Forall acceptable ds /\ NoDup (name <$> ds) /\
  (exists b, b ∈ ds /\ input b = true) /\ (exists b, b ∈ ds /\ input b = false) /\
  tensors = describe <$> ds.
Proof.
  intros Ht. unfold validate_tensor_layout. rewrite tbind_ok.
  setoid_rewrite (check_bindings_spec [] ds _ Ht).
  assert (Hi : existsb input ds = true <-> exists b, b ∈ ds /\ input b = true).
  { rewrite existsb_exists. by setoid_rewrite <- list_elem_of_In. }
  assert (Ho : existsb (fun b => negb (input b)) ds = true <-> exists b, b ∈ ds /\ input b = false).
  { rewrite existsb_exists. setoid_rewrite <- list_elem_of_In. by setoid_rewrite negb_true_iff. }
  rewrite <- Hi, <- Ho.
  destruct (existsb input ds), (existsb _ ds); simpl; split;
    [|naive_solver set_solver|naive_solver..].
  intros (a & (? & ? & ? & ->) & [= <-]); auto.
Qed.

Definition sample_engine : list TensorDescription :=
  [mkDescription "images" true [1; 3; 640; 640] "float32" 4 true true;
   mkDescription "output0" false [1; 84; 8400] "float32" 4 true true].

Lemma tensor_layout_exact_witness :
  info_bytes <$> (describe <$> sample_engine) = [4915200; 2822400] /\
  exists b, b ∈ sample_engine /\ input b = false.
Proof.
  split; [done|].
  apply (tensor_layout_exact sample_engine (describe <$> sample_engine)).
  - repeat constructor; vm_compute; by intros.
  - vm_compute. reflexivity.
Defined.
End TensorLayout.
