(* ===== verification/Preprocess.v ===== *)
(** * Letterbox preprocessing ([src/inference/preprocess.cpp])

    The input image is a buffer of bytes with the dimensions the caller claims.
    A read or write outside a buffer and a conversion of a floating-point value
    that does not fit in [int] are undefined in C++; here they make the
    computation return [None], so that a theorem that gives a result also says
    that neither happens.  An error the source reports is an [inl]. *)

From S2P Require Import Prelude Strings Floats.
From Stdlib Require Import ZifyBool.

Module Preprocess.

Record BgrImageView := mkImage {
  data : option (list Z);      (* [None]: null pointer *)
  bytes : Z;
  width : Z;
  height : Z;
  stride : Z;
}.

Record PreprocessPlan := mkPlan {
  source_width : Z;
  source_height : Z;
  plan_width : Z;
  plan_height : Z;
  resized_width : Z;
  resized_height : Z;
  pad_left : Z;
  pad_top : Z;
  scale : float32;
}.

(** ** [int] arithmetic and conversions *)

Definition in_int (z : Z) : bool := (- 2147483648 <=? z) && (z <=? int_max).

Definition int_of (z : option Z) : option Z :=
  match z with Some z => if in_int z then Some z else None | None => None end.

Definition int_add (a b : Z) : option Z := int_of (Some (a + b)).

Definition clampZ (v lo hi : Z) : Z := if v <? lo then lo else if hi <? v then hi else v.

(** ** Reading the image *)

Definition validate_image (image : BgrImageView) : throws unit :=
  if bool_decide (data image = None) || (width image <=? 0) || (height image <=? 0) ||
     (int_max / 3 <? width image) then
    throw "BGR image must have non-null data and positive dimensions"
  else
    let row_bytes := u64 (width image * 3) in
    if (stride image <? 0) || (stride image <? row_bytes) then
      throw "BGR image stride is shorter than a packed row"
    else
      let rows_before_last := u64 (height image - 1) in
      if ((u64_max - row_bytes) / stride image <? rows_before_last) ||
         (bytes image <? u64 (rows_before_last * stride image + row_bytes)) then
        throw "BGR image buffer is shorter than its dimensions and stride"
      else inr tt.

Definition pixel (image : BgrImageView) (x y channel : Z) : option float32 :=
  d ← data image;
  f32_of_Z <$> d !! Z.to_nat (u64 (u64 y * stride image + u64 x * 3 + channel)).

Definition f32_one : float32 := f32_of_Z 1.

(** [a * (1 - w) + b * w] in single precision. *)
Definition blend (a b w : float32) : float32 :=
  f32_add (f32_mul a (f32_sub f32_one w)) (f32_mul b w).

Definition sample_channel (image : BgrImageView) (x y : float32) (channel : Z) : option float32 :=
  x_floor ← int_of (floor_Z x);
  y_floor ← int_of (floor_Z y);
  x_next ← int_add x_floor 1;
  y_next ← int_add y_floor 1;
  let wx := f32_sub x (f32_of_Z x_floor) in
  let wy := f32_sub y (f32_of_Z y_floor) in
  let x0 := clampZ x_floor 0 (width image - 1) in
  let x1 := clampZ x_next 0 (width image - 1) in
  let y0 := clampZ y_floor 0 (height image - 1) in
  let y1 := clampZ y_next 0 (height image - 1) in
  p00 ← pixel image x0 y0 channel;
  p10 ← pixel image x1 y0 channel;
  p01 ← pixel image x0 y1 channel;
  p11 ← pixel image x1 y1 channel;
  Some (blend (blend p00 p10 wx) (blend p01 p11 wx) wy).

(** ** The plan *)

Definition make_preprocess_plan (image : BgrImageView) (target_width target_height : Z)
    : option (throws PreprocessPlan) :=
  match validate_image image with
  | inl e => Some (inl e)
  | inr _ =>
    if (target_width <=? 0) || (target_height <=? 0) then
      Some (throw "preprocessing target dimensions must be positive")
    else
      let ratio := fmin (f64_div (f64_of_Z target_width) (f64_of_Z (width image)))
                        (f64_div (f64_of_Z target_height) (f64_of_Z (height image))) in
      rw ← int_of (round_Z (f64_mul (f64_of_Z (width image)) ratio));
      rh ← int_of (round_Z (f64_mul (f64_of_Z (height image)) ratio));
      let resized_w := clampZ rw 1 target_width in
      let resized_h := clampZ rh 1 target_height in
      Some (inr (mkPlan (width image) (height image) target_width target_height resized_w resized_h
             (Z.quot (target_width - resized_w) 2) (Z.quot (target_height - resized_h) 2)
             (f32_of_f64 ratio)))
  end.

(** ** The CPU path *)

(** [for (int i = lo; i < lo + n; ++i) body] *)
Fixpoint for_range {S} (lo : Z) (n : nat) (body : Z -> S -> option S) (s : S) : option S :=
  match n with
  | O => Some s
  | Datatypes.S n => s' ← body lo s; for_range (lo + 1) n body s'
  end.

Definition write (out : list float32) (i : Z) (v : float32) : option (list float32) :=
  if (0 <=? i) && (i <? Z.of_nat (length out)) then Some (<[Z.to_nat i := v]> out) else None.

Definition f32_half : float32 := f32_div f32_one (f32_of_Z 2).
Definition f32_255 : float32 := f32_of_Z 255.
Definition pad_value : float32 := f32_div (f32_of_Z 114) f32_255.

(** The source coordinate of a target row or column. *)
Definition source_coord (i pad source resized : Z) : float32 :=
  f32_sub (f32_div (f32_mul (f32_add (f32_of_Z (i - pad)) f32_half) (f32_of_Z source))
                   (f32_of_Z resized)) f32_half.
Definition source_y (plan : PreprocessPlan) (y : Z) : float32 :=
  source_coord y (pad_top plan) (source_height plan) (resized_height plan).
Definition source_x (plan : PreprocessPlan) (x : Z) : float32 :=
  source_coord x (pad_left plan) (source_width plan) (resized_width plan).

(** The value written for one channel of one target pixel. *)
Definition resampled (image : BgrImageView) (plan : PreprocessPlan) (channel y x : Z)
    : option float32 :=
  v ← sample_channel image (source_x plan x) (source_y plan y) channel; Some (f32_div v f32_255).

(** The body of the inner loop. *)
Definition write_pixel (image : BgrImageView) (plan : PreprocessPlan) (plane y x : Z)
    (out : list float32) : option (list float32) :=
  let offset := u64 (u64 y * plan_width plan + x) in
  red ← resampled image plan 2 y x;
  out ← write out offset red;
  green ← resampled image plan 1 y x;
  out ← write out (u64 (plane + offset)) green;
  blue ← resampled image plan 0 y x;
  write out (u64 (plane * 2 + offset)) blue.

Definition fill (image : BgrImageView) (plan : PreprocessPlan) (plane : Z) (out : list float32)
    : option (list float32) :=
  for_range (pad_top plan) (Z.to_nat (resized_height plan)) (fun y =>
    for_range (pad_left plan) (Z.to_nat (resized_width plan)) (write_pixel image plan plane y)) out.

Definition mismatch {A} : option (throws A) :=
  Some (throw "preprocessing plan does not match the BGR image").

Definition preprocess_cpu (image : BgrImageView) (plan : PreprocessPlan)
    : option (throws (list float32)) :=
  match validate_image image with
  | inl e => Some (inl e)
  | inr _ =>
    if negb (width image =? source_width plan) || negb (height image =? source_height plan) ||
       (plan_width plan <=? 0) || (plan_height plan <=? 0) || fle (scale plan) (S754_zero false) ||
       (resized_width plan <=? 0) || (resized_height plan <=? 0) ||
       (pad_left plan <? 0) || (pad_top plan <? 0) then mismatch
    else
      right ← int_add (pad_left plan) (resized_width plan);
      if plan_width plan <? right then mismatch
      else
        bottom ← int_add (pad_top plan) (resized_height plan);
        if plan_height plan <? bottom then mismatch
        else if u64_max / plan_width plan / 3 <? plan_height plan then
          Some (throw "preprocessing tensor size overflow")
        else
          let plane := u64 (plan_width plan * plan_height plan) in
          out ← fill image plan plane (replicate (Z.to_nat (u64 (plane * 3))) pad_value);
          Some (inr out)
  end.

(** ** Specification *)

(** The values the C++ types can hold, and a buffer as long as it claims. *)
Definition honest (image : BgrImageView) : Prop :=
  in_int (width image) = true /\ in_int (height image) = true /\ in_int (stride image) = true /\
  0 <= bytes image <= u64_max /\
  match data image with Some d => bytes image <= Z.of_nat (length d) | None => True end.

Definition plan_fits (image : BgrImageView) (plan : PreprocessPlan) : Prop :=
  width image = source_width plan /\ height image = source_height plan /\
  1 <= resized_width plan /\ 1 <= resized_height plan /\ 0 <= pad_left plan /\ 0 <= pad_top plan /\
  pad_left plan + resized_width plan <= plan_width plan /\
  pad_top plan + resized_height plan <= plan_height plan.

(** A coordinate whose floor, and the next integer, are [int] values. *)
Definition coord_ok (x : float32) : bool :=
  match floor_Z x with
  | Some z => (- 2147483648 <=? z) && (z <? int_max)
  | None => false
  end.

Definition in_content (plan : PreprocessPlan) (y x : Z) : bool :=
  (pad_top plan <=? y) && (y <? pad_top plan + resized_height plan) &&
  (pad_left plan <=? x) && (x <? pad_left plan + resized_width plan).

(** ** Lemmas *)

Lemma for_range_total {S} (P : Z -> S -> Prop) lo n body s :
  P lo s ->
  (forall i s, lo <= i < lo + Z.of_nat n -> P i s -> exists s', body i s = Some s' /\ P (i + 1) s') ->
  exists s', for_range lo n body s = Some s' /\ P (lo + Z.of_nat n) s'.
Proof.
  revert lo s; induction n as [|n IH]; intros lo s H0 Hstep; simpl.
  { exists s. by rewrite Z.add_0_r. }
  destruct (Hstep lo s) as (s1 & -> & H1); [lia|done|]. simpl.
  destruct (IH (lo + 1) s1) as (s' & -> & H'); [done|intros; apply Hstep; [lia|done]|].
  exists s'. split; [done|]. by replace (lo + Z.of_nat (Datatypes.S n)) with (lo + 1 + Z.of_nat n) by lia.
Qed.

Lemma clampZ_range v lo hi : lo <= hi -> lo <= clampZ v lo hi <= hi.
Proof. intros. unfold clampZ. destruct (Z.ltb_spec v lo); [lia|]. destruct (Z.ltb_spec hi v); lia. Qed.

(** What validation of an honest image gives. *)
Lemma validate_image_ok image : honest image -> validate_image image = inr tt ->
  exists d, data image = Some d /\ 0 < width image /\ 0 < height image /\
    width image * 3 <= stride image /\
    (height image - 1) * stride image + width image * 3 <= Z.of_nat (length d) /\
    (height image - 1) * stride image + width image * 3 <= u64_max.
Proof.
  unfold honest, validate_image, in_int. intros (Hw & Hh & Hs & Hb & Hd) H.
  destruct (data image) as [d|]; [|done]. rewrite bool_decide_false in H by done.
  destruct (_ || _) eqn:E1 in H; [done|]. destruct (_ || _) eqn:E2 in H; [done|].
  destruct (_ || _) eqn:E3 in H; [done|]. bools.
  assert (width image * 3 <= int_max) by (pose proof (Z.mul_div_le int_max 3); lia).
  rewrite ?(u64_small (width image * 3)), ?(u64_small (height image - 1)) in * by lia. exists d.
  assert ((height image - 1) * stride image <= u64_max - width image * 3).
  { pose proof (Z.mul_div_le (u64_max - width image * 3) (stride image)). nia. }
  rewrite u64_small in * by nia.
  split_and!; auto; lia.
Qed.

Lemma pixel_in_bounds image x y channel :
  honest image -> validate_image image = inr tt ->
  0 <= x < width image -> 0 <= y < height image -> 0 <= channel < 3 ->
  is_Some (pixel image x y channel).
Proof.
  intros Hh Hv Hx Hy Hc.
  destruct (validate_image_ok image Hh Hv) as (d & Hd & Hw & Hht & Hst & Hlen & Hmax).
  assert (Hin : 0 <= y * stride image + x * 3 + channel <
                (height image - 1) * stride image + width image * 3) by nia.
  unfold pixel. rewrite Hd. cbn [mbind option_bind].
  assert (0 <= y <= u64_max /\ 0 <= x <= u64_max) by nia.
  rewrite (u64_small y), (u64_small x), u64_small by lia.
  apply fmap_is_Some, lookup_lt_is_Some. lia.
Qed.

Lemma int_of_small z : - 2147483648 <= z <= int_max -> int_of (Some z) = Some z.
Proof. intros. unfold int_of, in_int. rewrite !(proj2 (Z.leb_le _ _)) by lia. done. Qed.

(** Sampling a validated image reads only bytes of its buffer. *)
Lemma sample_in_bounds image x y channel :
  honest image -> validate_image image = inr tt -> coord_ok x = true -> coord_ok y = true ->
  0 <= channel < 3 -> is_Some (sample_channel image x y channel).
Proof.
  intros Hh Hv Hx Hy Hc.
  destruct (validate_image_ok image Hh Hv) as (d & _ & Hw & Hht & _).
  unfold sample_channel, coord_ok in *.
  destruct (floor_Z x) as [xf|], (floor_Z y) as [yf|]; try done. bools. unfold int_add.
  rewrite !int_of_small by lia. cbn [mbind option_bind].
  rewrite !int_of_small by lia. cbn [mbind option_bind].
  pose proof (fun v => clampZ_range v 0 (width image - 1) ltac:(lia)) as Cw.
  pose proof (fun v => clampZ_range v 0 (height image - 1) ltac:(lia)) as Ch.
  assert (P : forall u v, is_Some (pixel image (clampZ u 0 (width image - 1))
                                     (clampZ v 0 (height image - 1)) channel)).
  { intros u v. specialize (Cw u). specialize (Ch v). apply pixel_in_bounds; auto; lia. }
  destruct (P xf yf) as [p1 ->], (P (xf + 1) yf) as [p2 ->], (P xf (yf + 1)) as [p3 ->],
    (P (xf + 1) (yf + 1)) as [p4 ->]. eauto.
Qed.

Lemma write_ok out i v : 0 <= i < Z.of_nat (length out) ->
  write out i v = Some (<[Z.to_nat i := v]> out).
Proof. intros. unfold write. by rewrite (proj2 (Z.leb_le _ _)), (proj2 (Z.ltb_lt _ _)) by lia. Qed.

(** ** The tensor while it is being filled *)

Section Fill.
Context (image : BgrImageView) (plan : PreprocessPlan).
Let W := plan_width plan.
Let H := plan_height plan.
Let plane := W * H.

Context (HW : 0 < W) (HH : 0 < H) (Hmax : 3 * plane <= u64_max).

Definition index (c y x : Z) : Z := c * plane + y * W + x.

(** The content of the tensor when the pixels of [V] have been written. *)
Definition filled (V : Z -> Z -> bool) (out : list float32) : Prop :=
  Z.of_nat (length out) = 3 * plane /\
  forall c y x, 0 <= c < 3 -> 0 <= y < H -> 0 <= x < W ->
    out !! Z.to_nat (index c y x) =
      if V y x then resampled image plan (2 - c) y x else Some pad_value.

Lemma index_range c y x : 0 <= c < 3 -> 0 <= y < H -> 0 <= x < W -> 0 <= index c y x < 3 * plane.
Proof. intros. unfold index. assert (y * W + x < plane) by (unfold plane; nia). nia. Qed.

Lemma index_inj c y x c' y' x' :
  0 <= c < 3 -> 0 <= y < H -> 0 <= x < W -> 0 <= c' < 3 -> 0 <= y' < H -> 0 <= x' < W ->
  index c y x = index c' y' x' -> c = c' /\ y = y' /\ x = x'.
Proof.
  intros Hc Hy Hx Hc' Hy' Hx'. unfold index. intros E.
  assert (0 <= y * W + x < plane) by (unfold plane; nia).
  assert (0 <= y' * W + x' < plane) by (unfold plane; nia).
  assert (c = c') by nia. subst c'. assert (y = y') by nia. subst y'. lia.
Qed.

Lemma filled_ext V V' out : (forall y x, 0 <= y < H -> 0 <= x < W -> V y x = V' y x) ->
  filled V out -> filled V' out.
Proof. intros E [Hl Hf]. split; [done|]. intros. by rewrite <- E, Hf. Qed.

(** Writing the three channels of one pixel. *)
Lemma write_pixel_filled V out y x :
  (forall c, 0 <= c < 3 -> is_Some (resampled image plan c y x)) ->
  0 <= y < H -> 0 <= x < W -> filled V out ->
  exists out', write_pixel image plan plane y x out = Some out' /\
    filled (fun y' x' => V y' x' || ((y' =? y) && (x' =? x))) out'.
Proof.
  intros Hs Hy Hx [Hl Hf]. unfold write_pixel. fold W.
  assert (Hlt : y * W + x < plane) by (unfold plane; nia).
  destruct (Hs 2) as [r Er]; [lia|]. destruct (Hs 1) as [g Eg]; [lia|]. destruct (Hs 0) as [b Eb]; [lia|].
  rewrite (u64_small y), (u64_small (y * W + x)) by nia.
  rewrite (u64_small (plane + _)), (u64_small (plane * 2 + _)) by nia.
  rewrite Er, Eg, Eb. cbn [mbind option_bind].
  rewrite write_ok by nia. cbn [mbind option_bind].
  rewrite write_ok by (rewrite length_insert; nia). cbn [mbind option_bind].
  rewrite write_ok by (rewrite !length_insert; nia).
  eexists; split; [done|]. split; [by rewrite !length_insert|].
  intros c y' x' Hc Hy' Hx'.
  pose proof (index_range c y' x' Hc Hy' Hx') as Hr.
  replace (plane * 2 + (y * W + x)) with (index 2 y x) by (unfold index; lia).
  replace (plane + (y * W + x)) with (index 1 y x) by (unfold index; lia).
  replace (y * W + x) with (index 0 y x) by (unfold index; lia).
  assert (D : forall k, 0 <= k < 3 -> (k, y, x) <> (c, y', x') ->
            Z.to_nat (index k y x) <> Z.to_nat (index c y' x')).
  { intros k Hk Hne E. apply Hne.
    pose proof (index_range k y x Hk Hy Hx).
    destruct (index_inj k y x c y' x') as (-> & -> & ->); auto; lia. }
  destruct (decide ((y', x') = (y, x))) as [[= -> ->]|Hne].
  - rewrite !Z.eqb_refl, orb_true_r. cbn [andb].
    assert (c = 0 \/ c = 1 \/ c = 2) as [-> | [-> | ->]] by lia;
      repeat (rewrite list_lookup_insert_ne by (apply D; [lia|congruence]));
      rewrite list_lookup_insert_eq by (rewrite ?length_insert; lia); symmetry; [exact Er|exact Eg|exact Eb].
  - repeat (rewrite list_lookup_insert_ne by (apply D; [lia|congruence])).
    rewrite Hf by done. destruct (Z.eqb_spec y' y), (Z.eqb_spec x' x); simplify_eq; by rewrite orb_false_r.
Qed.
End Fill.

Lemma resampled_ok image plan y x c :
  honest image -> validate_image image = inr tt ->
  coord_ok (source_y plan y) = true -> coord_ok (source_x plan x) = true -> 0 <= c < 3 ->
  is_Some (resampled image plan c y x).
Proof.
  intros. unfold resampled.
  destruct (sample_in_bounds image (source_x plan x) (source_y plan y) c) as [v ->]; eauto.
Qed.

Definition coords_ok (plan : PreprocessPlan) : Prop :=
  (forall y, pad_top plan <= y < pad_top plan + resized_height plan ->
     coord_ok (source_y plan y) = true) /\
  (forall x, pad_left plan <= x < pad_left plan + resized_width plan ->
     coord_ok (source_x plan x) = true).

Lemma fill_filled image plan :
  honest image -> validate_image image = inr tt -> plan_fits image plan -> coords_ok plan ->
  3 * (plan_width plan * plan_height plan) <= u64_max ->
  exists out, fill image plan (plan_width plan * plan_height plan)
      (replicate (Z.to_nat (plan_width plan * plan_height plan * 3)) pad_value) = Some out /\
    filled image plan (in_content plan) out.
Proof.
  intros Hh Hv (_ & _ & Hrw & Hrh & Hpl & Hpt & Hw & Hht) [Cy Cx] Hmax. unfold fill.
  set (V := fun i j y x => in_content plan y x && ((y <? i) || ((y =? i) && (x <? j)))).
  assert (Hpix : forall i s, pad_top plan <= i < pad_top plan + Z.of_nat (Z.to_nat (resized_height plan)) ->
    filled image plan (V i (pad_left plan)) s ->
    exists s', for_range (pad_left plan) (Z.to_nat (resized_width plan))
        (write_pixel image plan (plan_width plan * plan_height plan) i) s = Some s' /\
      filled image plan (V (i + 1) (pad_left plan)) s').
  { intros i s Hi Hs.
    destruct (for_range_total (fun j s => filled image plan (V i j) s) (pad_left plan)
      (Z.to_nat (resized_width plan)) (write_pixel image plan (plan_width plan * plan_height plan) i) s)
      as (s' & -> & Hs'); [done| |].
    - intros j s1 Hj Hs1.
      destruct (write_pixel_filled image plan ltac:(lia) ltac:(lia) Hmax (V i j) s1 i j)
        as (s2 & -> & Hs2); [|lia|lia|done|].
      { intros c Hc. apply resampled_ok; auto; [apply Cy|apply Cx]; lia. }
      eexists; split; [done|]. eapply filled_ext; [|exact Hs2].
      intros y x Hy Hx. unfold V, in_content. simpl. lia.
    - eexists; split; [done|]. eapply filled_ext; [|exact Hs'].
      intros y x Hy Hx. unfold V, in_content. lia. }
  destruct (for_range_total (fun i s => filled image plan (V i (pad_left plan)) s) (pad_top plan)
    (Z.to_nat (resized_height plan)) (fun y => for_range (pad_left plan) (Z.to_nat (resized_width plan))
      (write_pixel image plan (plan_width plan * plan_height plan) y))
    (replicate (Z.to_nat (plan_width plan * plan_height plan * 3)) pad_value)) as (s' & -> & Hs');
    [|exact Hpix|].
  - split; [rewrite length_replicate; nia|]. intros c y x Hc Hy Hx.
    pose proof (index_range plan ltac:(lia) ltac:(lia) Hmax c y x Hc Hy Hx).
    replace (V _ _ y x) with false by (unfold V, in_content; lia). apply lookup_replicate_2. lia.
  - eexists; split; [done|]. eapply filled_ext; [|exact Hs'].
    intros y x Hy Hx. unfold V, in_content. lia.
Qed.

Lemma cpu_filled image plan :
  honest image -> validate_image image = inr tt -> plan_fits image plan -> coords_ok plan ->
  in_int (plan_width plan) = true -> in_int (plan_height plan) = true ->
  fle (scale plan) (S754_zero false) = false ->
  3 * (plan_width plan * plan_height plan) <= u64_max ->
  exists out, preprocess_cpu image plan = Some (inr out) /\ filled image plan (in_content plan) out.
Proof.
  intros Hh Hv Hf Hc Hiw Hih Hs Hmax.
  destruct (fill_filled image plan Hh Hv Hf Hc Hmax) as (out & Eout & Hout).
  destruct Hf as (Ew & Eh & Hrw & Hrh & Hpl & Hpt & Hw & Hht).
  exists out. split; [|done].
  unfold in_int in *. unfold preprocess_cpu. rewrite Hv, Ew, Eh, !Z.eqb_refl, Hs.
  rewrite !(proj2 (Z.leb_gt _ 0)), !(proj2 (Z.ltb_ge _ 0)) by lia. cbn [negb orb].
  unfold int_add. rewrite !int_of_small by lia. cbn [mbind option_bind].
  rewrite (proj2 (Z.ltb_ge (plan_width plan) _)) by lia.
  rewrite (proj2 (Z.ltb_ge (plan_height plan) _)) by lia.
  rewrite (proj2 (Z.ltb_ge _ (plan_height plan))).
  2:{ rewrite Z.div_div by lia. apply Z.div_le_lower_bound; nia. }
  rewrite (u64_small (_ * plan_height plan)), u64_small by nia. by rewrite Eout.
Qed.


(** A plan of [make_preprocess_plan] always fits the image it was made for and the target it was
    asked for: the resized content has at least one pixel in each direction, lies inside the target,
    is centred up to one pixel, and the plan records the image's own dimensions. *)
Theorem make_preprocess_plan_fits image target_width target_height plan :
  make_preprocess_plan image target_width target_height = Some (inr plan) ->
  plan_fits image plan /\ plan_width plan = target_width /\ plan_height plan = target_height /\
  0 <= target_width - resized_width plan - 2 * pad_left plan <= 1 /\
  0 <= target_height - resized_height plan - 2 * pad_top plan <= 1.
Proof.
  unfold make_preprocess_plan. destruct (validate_image image); [done|].
  destruct (_ || _) eqn:E; [done|]. bools. intros Hb.
  apply bind_Some in Hb as (rw & _ & Hb). apply bind_Some in Hb as (rh & _ & [= <-]).
  pose proof (clampZ_range rw 1 target_width ltac:(lia)).
  pose proof (clampZ_range rh 1 target_height ltac:(lia)).
  unfold plan_fits; simpl. rewrite !Z.quot_div_nonneg by lia.
  split_and!; zarith.
Qed.

(** A 4x2 image in rows of 16 bytes, letterboxed into 4x4. *)
Definition sample_image : BgrImageView := mkImage (Some (Z.of_nat <$> seq 0 28)) 28 4 2 16.
Definition sample_plan : PreprocessPlan := mkPlan 4 2 4 4 4 2 0 1 (f32_of_Z 1).

Lemma make_preprocess_plan_fits_witness : plan_fits sample_image sample_plan.
Proof.
  apply (make_preprocess_plan_fits sample_image 4 4 sample_plan). vm_compute. reflexivity.
Defined.

Lemma sample_honest : honest sample_image.
Proof. vm_compute. split_and!; try done; by intros. Qed.
Lemma sample_fits : plan_fits sample_image sample_plan.
Proof. vm_compute. split_and!; try done; by intros. Qed.
Lemma sample_coords : coords_ok sample_plan.
Proof.
  split; intros i Hi; simpl in Hi.
  - assert (i = 1 \/ i = 2) as [-> | ->] by lia; vm_compute; reflexivity.
  - assert (i = 0 \/ i = 1 \/ i = 2 \/ i = 3) as [-> | [-> | [-> | ->]]] by lia; vm_compute; reflexivity.
Qed.

End Preprocess.
