(* ===== verification/PreprocessCuda.v ===== *)
(** * The CUDA preprocessing kernel ([src/inference/preprocess_cuda.cu])

    The device part of the preprocessor: the copy of the frame into the staging buffer,
    the launch grid, and what each thread writes.  A thread reads only the staging buffer,
    so a launch is the writes of all threads in some order. *)

From S2P Require Import Prelude Strings Floats Preprocess.

Module Cuda.
Import Preprocess.

(** [cudaMemcpy2DAsync] with the same pitch on both sides: [width] bytes of each row. *)
Definition memcpy2d (pitch width height : nat) (src dst : list Z) : list Z :=
  imap (fun i v => if ((i mod pitch <? width) && (i / pitch <? height))%nat then default v (src !! i) else v) dst.

(** Blocks of 16 by 16 threads, enough of them to cover the target. *)
Definition block : Z := 16.
Definition blocks (size : Z) : Z := u32 (size + block - 1) / block.

Record thread := mkThread { block_x : Z; block_y : Z; thread_x : Z; thread_y : Z }.

Definition threads (plan : PreprocessPlan) : list thread :=
  bx ← seqZ 0 (blocks (plan_width plan)); by_ ← seqZ 0 (blocks (plan_height plan));
  tx ← seqZ 0 block; ty ← seqZ 0 block; [mkThread bx by_ tx ty].

Definition channel_at (source : list Z) (stride x y channel : Z) : option float32 :=
  f32_of_Z <$> source !! Z.to_nat (u64 (u64 y * stride + u64 x * 3 + channel)).

Section Kernel.
(** How the compiler rounds [a * (1 - w) + b * w]: it may contract the sum. *)
Context (mix : float32 -> float32 -> float32 -> float32).

Definition bilinear_channel (source : list Z) (stride source_width source_height : Z) (sx sy : float32) (channel : Z)
    : option float32 :=
  floor_x ← int_of (floor_Z sx);
  floor_y ← int_of (floor_Z sy);
  next_x ← int_add floor_x 1;
  next_y ← int_add floor_y 1;
  let wx := f32_sub sx (f32_of_Z floor_x) in
  let wy := f32_sub sy (f32_of_Z floor_y) in
  let x0 := Z.max 0 (Z.min floor_x (source_width - 1)) in
  let x1 := Z.max 0 (Z.min next_x (source_width - 1)) in
  let y0 := Z.max 0 (Z.min floor_y (source_height - 1)) in
  let y1 := Z.max 0 (Z.min next_y (source_height - 1)) in
  p00 ← channel_at source stride x0 y0 channel;
  p10 ← channel_at source stride x1 y0 channel;
  p01 ← channel_at source stride x0 y1 channel;
  p11 ← channel_at source stride x1 y1 channel;
  Some (mix (mix p00 p10 wx) (mix p01 p11 wx) wy).

(** The writes of one thread: where and what. *)
Definition preprocess_kernel (source : list Z) (stride : Z) (plan : PreprocessPlan) (t : thread) : option (list (Z * float32)) :=
  let x := i32 (u32 (block_x t * block + thread_x t)) in
  let y := i32 (u32 (block_y t * block + thread_y t)) in
  if (plan_width plan <=? x) || (plan_height plan <=? y) then Some []
  else
    let plane := u64 (plan_width plan * plan_height plan) in
    let offset := u64 (u64 y * plan_width plan + x) in
    right ← int_add (pad_left plan) (resized_width plan);
    bottom ← int_add (pad_top plan) (resized_height plan);
    if (x <? pad_left plan) || (right <=? x) || (y <? pad_top plan) || (bottom <=? y) then
      Some [(offset, pad_value); (u64 (plane + offset), pad_value); (u64 (2 * plane + offset), pad_value)]
    else
      let sx := source_x plan x in
      let sy := source_y plan y in
      red ← bilinear_channel source stride (source_width plan) (source_height plan) sx sy 2;
      green ← bilinear_channel source stride (source_width plan) (source_height plan) sx sy 1;
      blue ← bilinear_channel source stride (source_width plan) (source_height plan) sx sy 0;
      Some [(offset, f32_div red f32_255); (u64 (plane + offset), f32_div green f32_255);
            (u64 (2 * plane + offset), f32_div blue f32_255)].

(** All writes of a launch; [None]: a thread reads outside the staging buffer. *)
Definition launch (source : list Z) (stride : Z) (plan : PreprocessPlan) : option (list (Z * float32)) :=
  mjoin <$> mapM (preprocess_kernel source stride plan) (threads plan).
End Kernel.

(** The writes reach memory one after the other; [None]: one is outside the tensor. *)
Fixpoint apply_writes (ws : list (Z * float32)) (out : list float32) : option (list float32) :=
  match ws with
  | [] => Some out
  | (i, v) :: rest => out ← write out i v; apply_writes rest out
  end.

(** ** Writes that agree with a tensor and cover it produce it *)

Lemma apply_writes_total ws : forall out,
  (forall i v, (i, v) ∈ ws -> 0 <= i < Z.of_nat (length out)) ->
  exists out', apply_writes ws out = Some out' /\ length out' = length out.
Proof.
  induction ws as [|[i v] ws IH]; intros out H; [by exists out|]. cbn [apply_writes].
  rewrite write_ok by (eapply H; by left). cbn [mbind option_bind].
  destruct (IH (<[Z.to_nat i := v]> out)) as (out' & E & Hl).
  - intros j w Hj. rewrite length_insert. eapply H. by right.
  - exists out'. split; [done|]. by rewrite Hl, length_insert.
Qed.

(** [done_]: the places that hold the right value already. *)
Lemma apply_writes_agrees (goal : list float32) ws : forall (good : Z -> Prop) out out',
  apply_writes ws out = Some out' -> (forall i v, (i, v) ∈ ws -> 0 <= i /\ goal !! Z.to_nat i = Some v) ->
  (forall i, 0 <= i -> good i -> out !! Z.to_nat i = goal !! Z.to_nat i) ->
  forall i, 0 <= i -> good i \/ i ∈ ws.*1 -> out' !! Z.to_nat i = goal !! Z.to_nat i.
Proof.
  induction ws as [|[j w] ws IH]; intros good out out' E Hw Hg i Hi Hgi; cbn [apply_writes] in E.
  { injection E as <-. destruct Hgi as [?|H]; [by apply Hg|by apply not_elem_of_nil in H]. }
  destruct (Hw j w) as [Hj Ej]; [by left|].
  apply bind_Some in E as (out1 & E1 & E). unfold write in E1. destruct (_ && _) eqn:Eb in E1; [|done]. bools.
  injection E1 as <-. apply (IH (fun k => good k \/ k = j) _ _ E); [| |done|].
  - intros k v Hk. apply Hw. by right.
  - intros k Hk [Gk| ->].
    + destruct (decide (k = j)) as [->|Hne].
      * rewrite list_lookup_insert_eq by lia. done.
      * rewrite list_lookup_insert_ne by lia. by apply Hg.
    + rewrite list_lookup_insert_eq by lia. done.
  - destruct Hgi as [?|Hin]; [by left; left|]. cbn in Hin. apply elem_of_cons in Hin as [->|?]; [left; by right|by right].
Qed.

Lemma writes_determine goal ws out : length goal = length out ->
  (forall i v, (i, v) ∈ ws -> 0 <= i /\ goal !! Z.to_nat i = Some v) ->
  (forall i, 0 <= i < Z.of_nat (length goal) -> i ∈ ws.*1) -> apply_writes ws out = Some goal.
Proof.
  intros Hl Hw Hc. destruct (apply_writes_total ws out) as (out' & E & Hl').
  { intros i v Hi. destruct (Hw i v Hi) as [? Hv]. apply lookup_lt_Some in Hv. lia. }
  rewrite E. f_equal. apply list_eq. intros k. destruct (decide (k < length goal)%nat) as [Hk|Hk].
  - pose proof (apply_writes_agrees goal ws (fun _ => False) out out' E Hw ltac:(done) (Z.of_nat k) ltac:(lia)) as H.
    rewrite !Nat2Z.id in H. apply H. right. apply Hc. lia.
  - rewrite !lookup_ge_None_2 by lia. done.
Qed.

(** ** Reading the staging buffer is reading the image *)

Lemma memcpy2d_lookup pitch w h src dst r b : (b < w)%nat -> (w <= pitch)%nat -> (r < h)%nat ->
  (r * pitch + b < length dst)%nat -> (r * pitch + b < length src)%nat ->
  memcpy2d pitch w h src dst !! (r * pitch + b)%nat = src !! (r * pitch + b)%nat.
Proof.
  intros Hb Hw Hr Hd Hs. unfold memcpy2d. rewrite list_lookup_imap.
  destruct (lookup_lt_is_Some_2 dst _ Hd) as [v ->]. destruct (lookup_lt_is_Some_2 src _ Hs) as [u Hu].
  cbn [fmap option_fmap option_map]. rewrite Hu.
  rewrite Nat.add_comm, Nat.Div0.mod_add, Nat.mod_small by lia. rewrite Nat.div_add, Nat.div_small by lia.
  rewrite (proj2 (Nat.ltb_lt b w)), (proj2 (Nat.ltb_lt (0 + r) h)) by lia. done.
Qed.

(** The staging buffer after the upload of an image. *)
Definition staged (image : BgrImageView) (old : list Z) : list Z :=
  memcpy2d (Z.to_nat (stride image)) (Z.to_nat (width image * 3)) (Z.to_nat (height image)) (default [] (data image)) old.

Definition room (image : BgrImageView) (old : list Z) : Prop := stride image * height image <= Z.of_nat (length old).

Lemma staged_pixel image old x y channel : honest image -> validate_image image = inr tt -> room image old ->
  0 <= x < width image -> 0 <= y < height image -> 0 <= channel < 3 ->
  channel_at (staged image old) (stride image) x y channel = pixel image x y channel.
Proof.
  intros Hh Hv Hr Hx Hy Hc. destruct (validate_image_ok image Hh Hv) as (d & Hd & Hw & Hht & Hst & Hlen & Hmax).
  unfold channel_at, pixel, staged, room in *. rewrite Hd. cbn [default from_option id mbind option_bind]. f_equal.
  assert (Hb : 0 <= y * stride image /\ y * stride image <= (height image - 1) * stride image) by (split; nia).
  assert (Hs : 0 <= stride image) by lia.
  assert (Hyx : 0 <= y <= u64_max /\ 0 <= x <= u64_max) by nia.
  rewrite (u64_small y), (u64_small x), u64_small by lia.
  set (i := y * stride image + x * 3 + channel) in *. set (k := (Z.to_nat y * Z.to_nat (stride image) + Z.to_nat (x * 3 + channel))%nat).
  assert (Hi : Z.of_nat k = i) by (unfold k, i; rewrite Nat2Z.inj_add, Nat2Z.inj_mul, !Z2Nat.id by lia; lia).
  replace (Z.to_nat i) with k by lia. apply memcpy2d_lookup; lia || (apply Nat2Z.inj_lt; fold k; lia).
Qed.

Lemma clamp_max_min v n : 0 <= n -> Z.max 0 (Z.min v n) = clampZ v 0 n.
Proof. intros. unfold clampZ. destruct (Z.ltb_spec v 0); [lia|]. destruct (Z.ltb_spec n v); lia. Qed.

Section Equivalence.
Context (mix : float32 -> float32 -> float32 -> float32) (image : BgrImageView) (plan : PreprocessPlan) (old : list Z).
(** Each operation is rounded, as on the host. *)
Context (Hm : forall a b w, mix a b w = blend a b w).
Context (Hh : honest image) (Hv : validate_image image = inr tt) (Hr : room image old) (Hf : plan_fits image plan)
  (Hc : coords_ok plan) (Hw : plan_width plan + 15 <= int_max) (Hht : plan_height plan + 15 <= int_max)
  (Hmax : 3 * (plan_width plan * plan_height plan) <= u64_max).

Lemma bilinear_samples x y channel : coord_ok x = true -> coord_ok y = true -> 0 <= channel < 3 ->
  bilinear_channel mix (staged image old) (stride image) (width image) (height image) x y channel =
    sample_channel image x y channel.
Proof.
  intros Hx Hy Hch. destruct (validate_image_ok image Hh Hv) as (d & _ & Hw' & Hh' & _).
  unfold bilinear_channel, sample_channel, coord_ok in *.
  destruct (floor_Z x) as [xf|], (floor_Z y) as [yf|]; try done. bools. unfold int_add.
  rewrite !int_of_small by lia. cbn [mbind option_bind]. rewrite !int_of_small by lia. cbn [mbind option_bind].
  rewrite !clamp_max_min by lia.
  assert (P : forall u v, channel_at (staged image old) (stride image) (clampZ u 0 (width image - 1)) (clampZ v 0 (height image - 1)) channel =
    pixel image (clampZ u 0 (width image - 1)) (clampZ v 0 (height image - 1)) channel).
  { intros u v. pose proof (clampZ_range u 0 (width image - 1) ltac:(lia)). pose proof (clampZ_range v 0 (height image - 1) ltac:(lia)).
    apply staged_pixel; auto; lia. }
  rewrite !P. by destruct (pixel _ _ _ _), (pixel _ _ _ _), (pixel _ _ _ _), (pixel _ _ _ _); cbn; rewrite ?Hm.
Qed.

Definition position (t : thread) : Z * Z := (block_y t * block + thread_y t, block_x t * block + thread_x t).

Lemma blocks_bound n : 0 <= n <= int_max -> block * blocks n <= n + 15 /\ n <= block * blocks n.
Proof.
  intros H. unfold blocks, block. rewrite u32_small by lia. split; [|].
  - pose proof (Z.mul_div_le (n + 16 - 1) 16). lia.
  - pose proof (Z.mod_pos_bound (n + 16 - 1) 16). pose proof (Z.div_mod (n + 16 - 1) 16). lia.
Qed.

Lemma elem_threads t : t ∈ threads plan <-> 0 <= block_x t < blocks (plan_width plan) /\
  0 <= block_y t < blocks (plan_height plan) /\ 0 <= thread_x t < block /\ 0 <= thread_y t < block.
Proof.
  unfold threads. rewrite !list_elem_of_bind. setoid_rewrite list_elem_of_bind. setoid_rewrite list_elem_of_bind.
  setoid_rewrite list_elem_of_bind. setoid_rewrite elem_of_seqZ. setoid_rewrite list_elem_of_singleton. split.
  - intros (bx & (by_ & (tx & (ty & -> & ?) & ?) & ?) & ?). cbn. lia.
  - destruct t as [bx by_ tx ty]. cbn. intros (? & ? & ? & ?). exists bx. split; [|lia]. exists by_. split; [|lia].
    exists tx. split; [|lia]. exists ty. split; [done|lia].
Qed.

(** A thread is at its pixel. *)
Lemma thread_at t : t ∈ threads plan -> let '(y, x) := position t in 0 <= x <= int_max /\ 0 <= y <= int_max.
Proof.
  intros H%elem_threads. destruct Hf as (_ & _ & ? & ? & ? & ? & ? & ?). cbn.
  pose proof (blocks_bound (plan_width plan)). pose proof (blocks_bound (plan_height plan)). unfold block in *. nia.
Qed.

Lemma every_pixel y x : 0 <= y < plan_height plan -> 0 <= x < plan_width plan -> exists t, t ∈ threads plan /\ position t = (y, x).
Proof.
  intros Hy Hx. exists (mkThread (x / 16) (y / 16) (x mod 16) (y mod 16)). rewrite elem_threads. cbn. unfold position, block. cbn.
  pose proof (blocks_bound (plan_width plan) ltac:(lia)). pose proof (blocks_bound (plan_height plan) ltac:(lia)). unfold block in *.
  pose proof (Z.mod_pos_bound x 16). pose proof (Z.mod_pos_bound y 16).
  pose proof (Z.div_mod x 16). pose proof (Z.div_mod y 16). split_and!; try lia. f_equal; lia.
Qed.

(** What a thread writes is what the tensor of the host holds there. *)
Definition agrees (out : list float32) (t : thread) (ws : list (Z * float32)) : Prop :=
  (forall i v, (i, v) ∈ ws -> 0 <= i /\ out !! Z.to_nat i = Some v) /\
  (let '(y, x) := position t in y < plan_height plan -> x < plan_width plan ->
   forall c, 0 <= c < 3 -> index plan c y x ∈ ws.*1).

Lemma agrees_three out t y x v0 v1 v2 : position t = (y, x) -> 0 <= y < plan_height plan -> 0 <= x < plan_width plan ->
  (forall c v, (c, v) ∈ [(0, v0); (1, v1); (2, v2)] -> out !! Z.to_nat (index plan c y x) = Some v) ->
  agrees out t [(index plan 0 y x, v0); (index plan 1 y x, v1); (index plan 2 y x, v2)].
Proof.
  intros Hp Hy Hx Ho. split.
  - intros i v Hi. assert (exists c, 0 <= c < 3 /\ i = index plan c y x /\ (c, v) ∈ [(0, v0); (1, v1); (2, v2)]) as (c & H1 & -> & H2).
    { rewrite !elem_of_cons in Hi. destruct Hi as [[= -> ->]|[[= -> ->]|[[= -> ->]|H]]]; [exists 0|exists 1|exists 2|by apply not_elem_of_nil in H];
        (split_and!; [lia|lia|done|set_solver]). }
    split; [|by apply Ho]. apply index_range; lia.
  - rewrite Hp. intros _ _ c H. assert (c = 0 \/ c = 1 \/ c = 2) as [-> | [-> | ->]] by lia; cbn; set_solver.
Qed.

Lemma kernel_agrees out t : filled image plan (in_content plan) out -> t ∈ threads plan ->
  exists ws, preprocess_kernel mix (staged image old) (stride image) plan t = Some ws /\ agrees out t ws.
Proof.
  intros [Hl Ho] Ht. pose proof (thread_at t Ht) as Hxy. unfold preprocess_kernel. destruct (position t) as [y x] eqn:Ep.
  unfold position in Ep. injection Ep as Ey Ex. rewrite Ex, Ey.
  assert (E : forall z, 0 <= z <= int_max -> i32 (u32 z) = z) by (intros z Hz; unfold i32, u32; rewrite !Z.mod_small; rewrite ?Z.mod_small; lia).
  rewrite !E by lia. pose proof Hf as (Fw & Fh & Frw & Frh & Fpl & Fpt & Fw' & Fh').
  destruct (_ || _) eqn:Eo.
  { exists []. split; [done|]. split; [intros i v H; by apply not_elem_of_nil in H|]. unfold position. rewrite Ex, Ey. bools. lia. }
  bools. set (W := plan_width plan) in *. set (HH := plan_height plan) in *.
  assert (Hlt : y * W + x < W * HH) by nia.
  rewrite (u64_small (W * HH)), (u64_small y), (u64_small (y * W + x)) by nia.
  rewrite (u64_small (W * HH + _)), (u64_small (2 * (W * HH) + _)) by nia.
  unfold int_add. rewrite !int_of_small by lia. cbn [mbind option_bind].
  replace (y * W + x) with (index plan 0 y x) by (unfold index; fold W HH; lia).
  replace (W * HH + index plan 0 y x) with (index plan 1 y x) by (unfold index; fold W HH; lia).
  replace (2 * (W * HH) + index plan 0 y x) with (index plan 2 y x) by (unfold index; fold W HH; lia).
  assert (Hp : position t = (y, x)) by (unfold position; congruence).
  assert (Hcase : forall c, 0 <= c < 3 -> out !! Z.to_nat (index plan c y x) =
    if in_content plan y x then resampled image plan (2 - c) y x else Some pad_value) by (intros c Hc'; apply Ho; fold W HH; lia).
  destruct ((x <? pad_left plan) || _ || _ || _) eqn:Eb.
  - eexists. split; [done|]. apply agrees_three; [done|lia|lia|]. intros c v Hcv.
    assert (0 <= c < 3 /\ v = pad_value) as [Hc' ->] by (rewrite !elem_of_cons, elem_of_nil in Hcv; naive_solver lia).
    rewrite Hcase by done. replace (in_content plan y x) with false; [done|]. symmetry. unfold in_content. lia.
  - bools. destruct Hc as [Cy Cx]. assert (Ecy : coord_ok (source_y plan y) = true) by (apply Cy; lia).
    assert (Ecx : coord_ok (source_x plan x) = true) by (apply Cx; lia). rewrite <- Fw, <- Fh, !bilinear_samples by (done || lia).
    assert (Hin : in_content plan y x = true) by (unfold in_content; lia). rewrite Hin in Hcase.
    destruct (sample_in_bounds image (source_x plan x) (source_y plan y) 2 Hh Hv Ecx Ecy ltac:(lia)) as [v2 S2].
    destruct (sample_in_bounds image (source_x plan x) (source_y plan y) 1 Hh Hv Ecx Ecy ltac:(lia)) as [v1 S1].
    destruct (sample_in_bounds image (source_x plan x) (source_y plan y) 0 Hh Hv Ecx Ecy ltac:(lia)) as [v0 S0].
    rewrite S2, S1, S0. cbn [mbind option_bind]. eexists. split; [done|]. apply agrees_three; [done|lia|lia|].
    intros c v Hcv. rewrite !elem_of_cons, elem_of_nil in Hcv.
    destruct Hcv as [[= -> ->]|[[= -> ->]|[[= -> ->]|[]]]]; rewrite Hcase by lia; unfold resampled.
    + change (2 - 0) with 2. by rewrite S2.
    + change (2 - 1) with 1. by rewrite S1.
    + change (2 - 2) with 0. by rewrite S0.
Qed.

Lemma mapM_agrees out ts : (forall t, t ∈ ts -> exists ws, preprocess_kernel mix (staged image old) (stride image) plan t = Some ws /\ agrees out t ws) ->
  exists ls, mapM (preprocess_kernel mix (staged image old) (stride image) plan) ts = Some ls /\ Forall2 (agrees out) ts ls.
Proof.
  induction ts as [|t ts IH]; intros H; [exists []; by split|].
  destruct (H t) as (ws & E & A); [by left|]. destruct IH as (ls & El & Al); [intros u Hu; apply H; by right|].
  exists (ws :: ls). cbn [mapM]. rewrite E, El. split; [done|]. by constructor.
Qed.
End Equivalence.


End Cuda.
