(* ===== verification/YoloPostprocess.v ===== *)
(** * YOLO post-processing ([src/inference/yolo_postprocess.cpp])

    The output tensor is a buffer with the dimensions the caller claims; a read
    outside it makes the computation return [None].  Candidates are scored,
    filtered, sorted and suppressed greedily, then mapped back to the source
    frame; all arithmetic is the source's, in single and double precision. *)

From S2P Require Import Prelude Strings Floats FloatFacts Preprocess.
Import Preprocess.

Module Postprocess.

Record Detection := mkDetection {
  class_id : Z;
  confidence : float32;
  x1 : float32;
  y1 : float32;
  x2 : float32;
  y2 : float32;
}.

Record DetectionResult := mkDetectionResult {
  frame_sequence : Z;
  detections : list Detection;
}.

Record YoloPostprocessConfig := mkYoloConfig {
  confidence_threshold : float32;
  nms_iou_threshold : float32;
  max_detections : Z;
}.

Record YoloOutputView := mkView {
  view_data : option (list float32);
  elements : Z;
  channels : Z;
  candidates : Z;
}.

Record Candidate := mkCandidate {
  cand_class : Z;
  cand_confidence : float32;
  cx1 : float64;
  cy1 : float64;
  cx2 : float64;
  cy2 : float64;
  index : Z;
}.

Definition valid_plan (plan : PreprocessPlan) : bool :=
  (0 <? source_width plan) && (0 <? source_height plan) &&
  (0 <? plan_width plan) && (0 <? plan_height plan) &&
  (0 <? resized_width plan) && (0 <? resized_height plan) &&
  (0 <=? pad_left plan) && (0 <=? pad_top plan) &&
  (pad_left plan + resized_width plan <=? plan_width plan) &&
  (pad_top plan + resized_height plan <=? plan_height plan).

Definition intersection_over_union (a b : Candidate) : float64 :=
  let left := fmax (cx1 a) (cx1 b) in
  let top := fmax (cy1 a) (cy1 b) in
  let right := fmin (cx2 a) (cx2 b) in
  let bottom := fmin (cy2 a) (cy2 b) in
  let intersection := f64_mul (fmax f64_zero (f64_sub right left)) (fmax f64_zero (f64_sub bottom top)) in
  let area_a := f64_mul (f64_sub (cx2 a) (cx1 a)) (f64_sub (cy2 a) (cy1 a)) in
  let area_b := f64_mul (f64_sub (cx2 b) (cx1 b)) (f64_sub (cy2 b) (cy1 b)) in
  let total := f64_sub (f64_add area_a area_b) intersection in
  if flt f64_zero total then f64_div intersection total else f64_zero.

(** ** Candidates *)

Definition f32_neg_infinity : float32 := S754_infinity true.
Definition f32_zero : float32 := S754_zero false.

Definition read (d : list float32) (i : Z) : option float32 := d !! Z.to_nat i.

(** The channel loop: the best score and its class so far. *)
Fixpoint best_class (d : list float32) (count i channel : Z) (n : nat) (score : float32) (class : Z)
    : option (float32 * Z) :=
  match n with
  | O => Some (score, class)
  | S n =>
    value ← read d (u64 (channel * count) + i);
    if isfinite value && flt score value then best_class d count i (channel + 1) n value (channel - 4)
    else best_class d count i (channel + 1) n score class
  end.

Definition two : float64 := f64_of_Z 2.

(** One iteration of the candidate loop; [Some None] is a [continue]. *)
Definition candidate_at (output : YoloOutputView) (d : list float32) (plan : PreprocessPlan)
    (config : YoloPostprocessConfig) (i : Z) : option (option Candidate) :=
  let count := candidates output in
  '(score, class) ← best_class d count i 4 (Z.to_nat (channels output - 4)) f32_neg_infinity (-1);
  if (class <? 0) || fle score (confidence_threshold config) then Some None
  else
    cx ← read d i;
    cy ← read d (count + i);
    width ← read d (2 * count + i);
    height ← read d (3 * count + i);
    if negb (isfinite cx) || negb (isfinite cy) || negb (isfinite width) || negb (isfinite height) ||
       fle width f32_zero || fle height f32_zero then Some None
    else
      let half_w := f64_div (f64_of_f32 width) two in
      let half_h := f64_div (f64_of_f32 height) two in
      let left := f64_sub (f64_of_f32 cx) half_w in
      let right := f64_add (f64_of_f32 cx) half_w in
      let top := f64_sub (f64_of_f32 cy) half_h in
      let bottom := f64_add (f64_of_f32 cy) half_h in
      if negb (isfinite left) || negb (isfinite right) || negb (isfinite top) || negb (isfinite bottom)
      then Some None
      else
        let content_right := f64_add (f64_of_Z (pad_left plan)) (f64_of_Z (resized_width plan)) in
        let content_bottom := f64_add (f64_of_Z (pad_top plan)) (f64_of_Z (resized_height plan)) in
        if fle right (f64_of_Z (pad_left plan)) || fle content_right left ||
           fle bottom (f64_of_Z (pad_top plan)) || fle content_bottom top then Some None
        else Some (Some (mkCandidate class score left top right bottom i)).

Fixpoint collect (output : YoloOutputView) (d : list float32) (plan : PreprocessPlan)
    (config : YoloPostprocessConfig) (i : Z) (n : nat) : option (list Candidate) :=
  match n with
  | O => Some []
  | S n =>
    c ← candidate_at output d plan config i;
    rest ← collect output d plan config (i + 1) n;
    Some (match c with Some c => c :: rest | None => rest end)
  end.

(** ** Suppression *)

(** The order handed to [std::sort]. *)
Definition better (a b : Candidate) : bool :=
  if negb (feq (cand_confidence a) (cand_confidence b)) then flt (cand_confidence b) (cand_confidence a)
  else index a <? index b.

Definition overlaps (config : YoloPostprocessConfig) (candidate kept : Candidate) : bool :=
  (cand_class candidate =? cand_class kept) &&
  flt (f64_of_f32 (nms_iou_threshold config)) (intersection_over_union candidate kept).

(** One coordinate in the source frame, before narrowing to [float]. *)
Definition unmap (v : float64) (pad source resized : Z) : float64 :=
  fclamp (f64_mul (f64_sub v (f64_of_Z pad)) (f64_div (f64_of_Z source) (f64_of_Z resized)))
    f64_zero (f64_of_Z source).

Definition restore (plan : PreprocessPlan) (c : Candidate) : Detection :=
  mkDetection (cand_class c) (cand_confidence c)
    (f32_of_f64 (unmap (cx1 c) (pad_left plan) (source_width plan) (resized_width plan)))
    (f32_of_f64 (unmap (cy1 c) (pad_top plan) (source_height plan) (resized_height plan)))
    (f32_of_f64 (unmap (cx2 c) (pad_left plan) (source_width plan) (resized_width plan)))
    (f32_of_f64 (unmap (cy2 c) (pad_top plan) (source_height plan) (resized_height plan))).

Definition empty_box (d : Detection) : bool := fle (x2 d) (x1 d) || fle (y2 d) (y1 d).

(** The suppression loop, with the boxes kept so far; the detections are kept in
    step with them, as [restore] of each. *)
Fixpoint suppress (plan : PreprocessPlan) (config : YoloPostprocessConfig) (cands kept : list Candidate)
    : list Candidate :=
  match cands with
  | [] => kept
  | c :: rest =>
    if existsb (overlaps config c) kept then suppress plan config rest kept
    else if empty_box (restore plan c) then suppress plan config rest kept
    else if Z.of_nat (length (kept ++ [c])) =? max_detections config then kept ++ [c]
    else suppress plan config rest (kept ++ [c])
  end.

Definition valid_output (output : YoloOutputView) : bool :=
  negb (bool_decide (view_data output = None) || (channels output <=? 4) || (candidates output <=? 0) ||
        (u64_max / candidates output <? channels output) ||
        negb (elements output =? u64 (channels output * candidates output))).

Definition valid_config (config : YoloPostprocessConfig) : bool :=
  negb (negb (isfinite (confidence_threshold config)) || negb (isfinite (nms_iou_threshold config)) ||
        flt (confidence_threshold config) f32_zero || flt (f32_of_Z 1) (confidence_threshold config) ||
        flt (nms_iou_threshold config) f32_zero || flt (f32_of_Z 1) (nms_iou_threshold config) ||
        (max_detections config =? 0)).

Definition postprocess_yolo (output : YoloOutputView) (plan : PreprocessPlan)
    (config : YoloPostprocessConfig) (sequence : Z) : option (throws DetectionResult) :=
  if negb (valid_output output) then Some (throw "YOLO output shape or buffer is invalid")
  else if negb (valid_plan plan) then Some (throw "YOLO preprocessing plan is invalid")
  else if negb (valid_config config) then
    Some (throw "YOLO confidence/NMS threshold or max detections is invalid")
  else
    d ← view_data output;
    filtered ← collect output d plan config 0 (Z.to_nat (candidates output));
    Some (inr (mkDetectionResult sequence
      (restore plan <$> suppress plan config (stable_sort better filtered) []))).

(** ** Reading the tensor *)

(** The types' ranges, and a buffer as long as it claims. *)
Definition honest_view (output : YoloOutputView) : Prop :=
  in_int (channels output) = true /\ in_int (candidates output) = true /\
  match view_data output with
  | Some d => elements output <= Z.of_nat (length d)
  | None => True
  end.

Lemma valid_output_ok output : honest_view output -> valid_output output = true ->
  exists d, view_data output = Some d /\ 4 < channels output <= int_max /\
    0 < candidates output <= int_max /\
    channels output * candidates output <= Z.of_nat (length d).
Proof.
  unfold honest_view, valid_output, in_int. intros (Hc & Hn & Hd) H. bools.
  destruct (view_data output) as [d|]; [|done]. exists d. bools.
  rewrite u64_small in * by nia. split_and!; auto; lia.
Qed.

Lemma read_ok d i : 0 <= i < Z.of_nat (length d) -> is_Some (read d i).
Proof. intros. apply lookup_lt_is_Some. lia. Qed.

(** What the channel loop computes from the channels [channel ..]. *)
Lemma best_class_spec d count i channel n score class :
  0 < count <= int_max -> 0 <= i < count -> 0 <= channel -> channel + Z.of_nat n <= int_max ->
  (channel + Z.of_nat n) * count <= Z.of_nat (length d) ->
  exists score' class', best_class d count i channel n score class = Some (score', class') /\
    ((score', class') = (score, class) \/
     exists c, channel <= c < channel + Z.of_nat n /\ class' = c - 4 /\
       read d (c * count + i) = Some score' /\ isfinite score' = true /\ flt score score' = true) /\
    (is_nan score = false -> fle score score' = true) /\
    (forall c v, channel <= c < channel + Z.of_nat n -> read d (c * count + i) = Some v ->
       isfinite v = true -> is_nan score = false -> fle v score' = true).
Proof.
  intros Hc Hi. revert channel score class.
  induction n as [|n IH]; intros channel score class Hch Hint Hlen; cbn [best_class].
  { exists score, class. split_and!; auto; [intros; by apply fle_refl|intros; lia]. }
  rewrite u64_small by nia.
  destruct (read_ok d (channel * count + i)) as [v Ev]; [nia|]. rewrite Ev. cbn [mbind option_bind].
  destruct (isfinite v && flt score v) eqn:E.
  - apply andb_prop in E as [Ef Elt].
    destruct (IH (channel + 1) v (channel - 4)) as (s' & c' & -> & Hfrom & Hge & Hmax); [lia..|].
    pose proof (isfinite_not_nan v Ef) as Hnan. exists s', c'. split_and!; auto.
    + right. destruct Hfrom as [[= -> ->]|(c & Hcr & -> & Hr & Hf & Hlt)].
      * exists channel. split_and!; auto; lia.
      * exists c. split_and!; auto; [lia..|]. by eapply flt_trans.
    + intros Hs. eapply fle_trans; [by apply flt_le|auto].
    + intros c w Hcr Hw Hfw Hs. destruct (Z.eq_dec c channel) as [->|].
      * replace w with v by congruence. auto.
      * apply (Hmax c); auto; lia.
  - destruct (IH (channel + 1) score class) as (s' & c' & -> & Hfrom & Hge & Hmax); [lia..|].
    exists s', c'. split_and!; auto.
    + destruct Hfrom as [Hfrom|(c & Hcr & ? & ? & ? & ?)]; [by left|].
      right. exists c. split_and!; auto; lia.
    + intros c w Hcr Hw Hfw Hs. destruct (Z.eq_dec c channel) as [->|].
      * replace v with w in E by congruence. rewrite Hfw in E. simpl in E.
        eapply fle_trans; [|by apply Hge]. pose proof (isfinite_not_nan w Hfw).
        rewrite fle_not_lt, E by done. done.
      * apply (Hmax c); auto; lia.
Qed.

(** What is known of a candidate taken from column [index] of the tensor. *)
Record good_candidate (output : YoloOutputView) (d : list float32) (config : YoloPostprocessConfig)
    (c : Candidate) : Prop := {
  good_index : 0 <= index c < candidates output;
  good_class : 0 <= cand_class c < channels output - 4;
  good_score : read d ((cand_class c + 4) * candidates output + index c) = Some (cand_confidence c);
  good_finite : isfinite (cand_confidence c) = true;
  good_best : forall k v, 0 <= k < channels output - 4 ->
    read d ((k + 4) * candidates output + index c) = Some v -> isfinite v = true ->
    fle v (cand_confidence c) = true;
  good_threshold : flt (confidence_threshold config) (cand_confidence c) = true;
  good_corners : isfinite (cx1 c) && isfinite (cy1 c) && isfinite (cx2 c) && isfinite (cy2 c) = true;
}.

Section Tensor.
Context (output : YoloOutputView) (d : list float32) (plan : PreprocessPlan)
  (config : YoloPostprocessConfig).
Hypothesis Hch : 4 < channels output <= int_max.
Hypothesis Hn : 0 < candidates output <= int_max.
Hypothesis Hlen : channels output * candidates output <= Z.of_nat (length d).
Hypothesis Hthr : isfinite (confidence_threshold config) = true.

Lemma candidate_at_spec i : 0 <= i < candidates output ->
  exists c, candidate_at output d plan config i = Some c /\
    forall c', c = Some c' -> good_candidate output d config c' /\ index c' = i.
Proof.
  intros Hi. unfold candidate_at.
  destruct (best_class_spec d (candidates output) i 4 (Z.to_nat (channels output - 4))
    f32_neg_infinity (-1)) as (score & class & E & Hfrom & _ & Hmax); [lia|lia|lia|lia|nia|].
  rewrite E. cbn [mbind option_bind].
  destruct (_ || _) eqn:E1; [by eexists|]. apply orb_false_elim in E1 as [Hcl Hsc]. bools.
  destruct Hfrom as [[= -> ->]|(c & Hc & -> & Hr & Hf & _)]; [lia|].
  destruct (read_ok d i) as [cx ->]; [nia|]. destruct (read_ok d (candidates output + i)) as [cy ->]; [nia|].
  destruct (read_ok d (2 * candidates output + i)) as [w ->]; [nia|].
  destruct (read_ok d (3 * candidates output + i)) as [h ->]; [nia|]. cbn [mbind option_bind].
  destruct (_ || _); [by eexists|]. destruct (_ || _) eqn:E2; [by eexists|].
  match goal with |- context [if ?b then _ else _] => destruct b end; [by eexists|].
  eexists; split; [reflexivity|]. intros c1 [= <-]. bools.
  split; [|done]. constructor; cbn [index cand_class cand_confidence cx1 cx2 cy1 cy2]; auto.
  - lia.
  - by replace (c - 4 + 4) with c by lia.
  - intros k v Hk Hv Hfv. apply (Hmax (k + 4)); auto. lia.
  - apply isfinite_not_nan in Hf, Hthr. rewrite fle_not_lt in Hsc by done. by bools.
  - by repeat match goal with H : isfinite _ = true |- _ => rewrite H end.
Qed.

Lemma collect_spec i n : 0 <= i -> i + Z.of_nat n <= candidates output ->
  exists l, collect output d plan config i n = Some l /\ Forall (good_candidate output d config) l.
Proof.
  revert i; induction n as [|n IH]; intros i Hi Hb; cbn [collect]; [by eexists|].
  destruct (candidate_at_spec i) as (c & -> & Hc); [lia|].
  destruct (IH (i + 1)) as (l & -> & Hl); [lia..|]. cbn [mbind option_bind].
  eexists; split; [done|]. destruct c as [c|]; [|done]. constructor; [|done]. by apply Hc.
Qed.
End Tensor.

(** ** The order *)

Definition scored (c : Candidate) : Prop := is_nan (cand_confidence c) = false.

Lemma feq_flt a b : is_nan a = false -> is_nan b = false -> feq a b = negb (flt a b || flt b a).
Proof.
  intros Ha Hb. apply eq_true_iff_eq. rewrite negb_true_iff, orb_false_iff, feq_key.
  rewrite <- !not_true_iff_false, !flt_key. unfold klt.
  destruct (fkey a) as [[a1 a2] a3], (fkey b) as [[b1 b2] b3]; simpl. split.
  - intros (_ & _ & [= -> -> ->]). split; intros (_ & _ & ?); lia.
  - intros [H1 H2]. split; [congruence|]. split; [congruence|].
    assert (~ (a1 < b1 \/ a1 = b1 /\ (a2 < b2 \/ a2 = b2 /\ a3 < b3))) by tauto.
    assert (~ (b1 < a1 \/ b1 = a1 /\ (b2 < a2 \/ b2 = a2 /\ b3 < a3))) by tauto.
    clear H1 H2. assert (a1 = b1 /\ a2 = b2 /\ a3 = b3) as (-> & -> & ->) by lia. done.
Qed.

Lemma better_asym a b : scored a -> scored b -> better a b = true -> better b a = false.
Proof.
  unfold scored, better. intros Ha Hb. rewrite !feq_flt by done.
  destruct (flt (cand_confidence a) (cand_confidence b)) eqn:E1,
    (flt (cand_confidence b) (cand_confidence a)) eqn:E2; simpl; try done.
  - apply flt_asym in E1. congruence.
  - intros. bools. by apply Z.ltb_ge; lia.
Qed.

(** [a] may stand before [b]: a higher confidence, or an equal one and no
    larger index. *)
Lemma before_better a b : scored a -> scored b ->
  before better a b <->
  flt (cand_confidence b) (cand_confidence a) = true \/
  flt (cand_confidence a) (cand_confidence b) = false /\ index a <= index b.
Proof.
  unfold scored, before, better. intros Ha Hb. rewrite feq_flt by done.
  destruct (flt (cand_confidence a) (cand_confidence b)) eqn:E1,
    (flt (cand_confidence b) (cand_confidence a)) eqn:E2; simpl.
  - apply flt_asym in E1. congruence.
  - naive_solver.
  - naive_solver.
  - rewrite Z.ltb_ge. naive_solver.
Qed.

Lemma before_better_trans a b c : scored a -> scored b -> scored c ->
  before better a b -> before better b c -> before better a c.
Proof.
  intros Ha Hb Hc. rewrite !before_better by done. unfold scored in *.
  intros [H1|[H1 I1]] [H2|[H2 I2]].
  - left. by eapply flt_trans.
  - left. forder.
  - left. forder.
  - destruct (flt (cand_confidence c) (cand_confidence a)) eqn:E; [by left|]. right. split; [forder|lia].
Qed.

Lemma before_better_confidence a b : scored a -> scored b -> before better a b ->
  fle (cand_confidence b) (cand_confidence a) = true.
Proof.
  intros Ha Hb. rewrite before_better by done. unfold scored in *.
  intros [H|[H _]]; [by apply flt_le|]. by rewrite fle_not_lt, H.
Qed.

Lemma sorted_candidates l : Forall scored l -> StronglySorted (before better) (stable_sort better l).
Proof. apply stable_sort_sorted_on; [apply better_asym|apply before_better_trans]. Qed.

(** ** Greedy suppression *)

Definition separate (config : YoloPostprocessConfig) (kept candidate : Candidate) : Prop :=
  overlaps config candidate kept = false.

Lemma ssorted_snoc {A} (R : A -> A -> Prop) l x :
  StronglySorted R l -> Forall (fun y => R y x) l -> StronglySorted R (l ++ [x]).
Proof.
  induction 1 as [|y l Hs IH Hy]; simpl; intros Hx; [repeat constructor|].
  apply Forall_cons in Hx as [??]. constructor; [auto|]. apply Forall_app. auto.
Qed.

(** [new] is what greedy suppression adds to [kept] from [cands]. *)
Record greedy (plan : PreprocessPlan) (config : YoloPostprocessConfig)
    (cands kept new : list Candidate) : Prop := {
  greedy_sublist : new `sublist_of` cands;
  greedy_separate : StronglySorted (separate config) (kept ++ new);
  greedy_nonempty : Forall (fun c => empty_box (restore plan c) = false) new;
  greedy_limit : Z.of_nat (length (kept ++ new)) <= max_detections config;
  greedy_maximal :
    Z.of_nat (length (kept ++ new)) = max_detections config \/
    forall c, c ∈ cands -> c ∈ new \/ empty_box (restore plan c) = true \/
      exists k, (k ∈ kept \/ k ∈ new /\ before better k c) /\ overlaps config c k = true;
}.

Lemma greedy_skip plan config c cands kept new :
  empty_box (restore plan c) = true \/ (exists k, k ∈ kept /\ overlaps config c k = true) ->
  greedy plan config cands kept new -> greedy plan config (c :: cands) kept new.
Proof.
  intros Hskip [Hsub Hsep Hne Hl Hmax]. constructor; auto; [by constructor|].
  destruct Hmax as [?|Hmax]; [by left|right].
  intros c' [->|Hin]%elem_of_cons; [|by apply Hmax]. right. naive_solver.
Qed.

Lemma greedy_take plan config c cands kept new :
  empty_box (restore plan c) = false -> Forall (before better c) cands ->
  greedy plan config cands (kept ++ [c]) new -> greedy plan config (c :: cands) kept (c :: new).
Proof.
  intros Hc Hb [Hsub Hsep Hne Hl Hmax]. rewrite <- app_assoc in *.
  constructor; auto; [by apply sublist_skip|].
  destruct Hmax as [?|Hmax]; [by left|right].
  intros c' [->|Hin]%elem_of_cons; [left; set_solver|].
  destruct (Hmax c' Hin) as [?|[?|(k & Hkin & Ho)]]; [left; set_solver|by right; left|].
  right; right. exists k. split; [|done]. rewrite elem_of_app, list_elem_of_singleton in Hkin.
  rewrite Forall_forall in Hb. set_solver.
Qed.

Lemma separate_snoc config kept c : StronglySorted (separate config) kept ->
  existsb (overlaps config c) kept = false -> StronglySorted (separate config) (kept ++ [c]).
Proof.
  intros Hk Eo. apply ssorted_snoc; [done|]. apply Forall_forall. intros k Hin. unfold separate.
  destruct (overlaps config c k) eqn:E; [|done].
  assert (existsb (overlaps config c) kept = true); [|congruence].
  apply existsb_exists. exists k. by rewrite <- list_elem_of_In.
Qed.

Lemma suppress_spec plan config cands kept :
  StronglySorted (before better) cands -> StronglySorted (separate config) kept ->
  Z.of_nat (length kept) < max_detections config ->
  exists new, suppress plan config cands kept = kept ++ new /\ greedy plan config cands kept new.
Proof.
  intros Hs. revert kept. induction Hs as [|c cands Hs IH Hc]; intros kept Hk Hlen; cbn [suppress].
  { exists []. rewrite app_nil_r. split; [done|].
    constructor; rewrite ?app_nil_r; [constructor|done|constructor|lia|right; set_solver]. }
  destruct (existsb (overlaps config c) kept) eqn:Eo.
  { destruct (IH kept Hk Hlen) as (new & E & Hg). exists new. split; [done|].
    apply greedy_skip; [right|done].
    apply existsb_exists in Eo as (k & Hk' & ?). exists k. by rewrite list_elem_of_In. }
  destruct (empty_box (restore plan c)) eqn:Ee.
  { destruct (IH kept Hk Hlen) as (new & E & Hg). exists new. split; [done|].
    apply greedy_skip; [by left|done]. }
  pose proof (separate_snoc config kept c Hk Eo) as Hk'.
  destruct (Z.eqb_spec (Z.of_nat (length (kept ++ [c]))) (max_detections config)) as [Em|Em].
  { exists [c]. split; [done|]. constructor; auto; [by apply sublist_skip, sublist_nil_l|lia]. }
  destruct (IH (kept ++ [c]) Hk') as (new & E & Hg); [rewrite length_app in *; simpl in *; lia|].
  exists (c :: new). split; [by rewrite <- app_assoc in E|]. by apply greedy_take.
Qed.

(** ** Mapping back *)

Lemma unmap_range v pad source resized :
  isfinite v = true -> 0 <= pad <= int_max -> 0 < source <= int_max -> 0 < resized <= int_max ->
  fle f64_zero (unmap v pad source resized) = true /\
  fle (unmap v pad source resized) (f64_of_Z source) = true.
Proof.
  intros Hv Hp Hs Hr. destruct (int_ratio_finite source resized Hs Hr) as (m & e & E).
  apply fclamp_bounds; [|apply f64_of_int_nonneg; lia].
  rewrite E. apply f64_mul_not_nan; [|done|done].
  apply f64_sub_not_nan; [done|apply f64_of_int_finite; lia].
Qed.

Lemma narrowed_not_nan v hi : fle v hi = true -> is_nan (f32_of_f64 v) = false.
Proof. intros H. apply f32_of_f64_not_nan. by apply fle_key in H as (? & _). Qed.

(** The [int] fields that bound the others. *)
Definition int_plan (plan : PreprocessPlan) : Prop :=
  source_width plan <= int_max /\ source_height plan <= int_max /\
  plan_width plan <= int_max /\ plan_height plan <= int_max.

(** A detection inside the source frame: the corners are doubles within the
    frame, narrowed to [float], and the box is not empty. *)
Definition in_frame (plan : PreprocessPlan) (d : Detection) : Prop :=
  (exists l r, x1 d = f32_of_f64 l /\ x2 d = f32_of_f64 r /\
    fle f64_zero l = true /\ fle l (f64_of_Z (source_width plan)) = true /\
    fle f64_zero r = true /\ fle r (f64_of_Z (source_width plan)) = true) /\
  (exists t b, y1 d = f32_of_f64 t /\ y2 d = f32_of_f64 b /\
    fle f64_zero t = true /\ fle t (f64_of_Z (source_height plan)) = true /\
    fle f64_zero b = true /\ fle b (f64_of_Z (source_height plan)) = true) /\
  flt (x1 d) (x2 d) = true /\ flt (y1 d) (y2 d) = true.

Lemma restore_in_frame plan c : valid_plan plan = true -> int_plan plan ->
  isfinite (cx1 c) && isfinite (cy1 c) && isfinite (cx2 c) && isfinite (cy2 c) = true ->
  empty_box (restore plan c) = false -> in_frame plan (restore plan c).
Proof.
  unfold valid_plan, int_plan. intros Hv (? & ? & ? & ?) Hc He. bools.
  unfold empty_box in He. apply orb_false_elim in He as [Hx Hy]. cbn [restore x1 x2 y1 y2] in *.
  pose proof (fun v F => unmap_range v (pad_left plan) (source_width plan) (resized_width plan) F
    ltac:(lia) ltac:(lia) ltac:(lia)) as HX.
  pose proof (fun v F => unmap_range v (pad_top plan) (source_height plan) (resized_height plan) F
    ltac:(lia) ltac:(lia) ltac:(lia)) as HY.
  destruct (HX (cx1 c)) as [? ?], (HX (cx2 c)) as [? ?], (HY (cy1 c)) as [? ?], (HY (cy2 c)) as [? ?];
    [done..|].
  unfold in_frame; cbn [restore x1 x2 y1 y2]. split_and!.
  - do 2 eexists; split_and!; done.
  - do 2 eexists; split_and!; done.
  - rewrite fle_not_lt in Hx by (by eapply narrowed_not_nan). by bools.
  - rewrite fle_not_lt in Hy by (by eapply narrowed_not_nan). by bools.
Qed.

Lemma postprocess_cases output plan config sequence :
  honest_view output -> valid_output output = true -> valid_plan plan = true ->
  valid_config config = true -> 0 <= max_detections config ->
  exists d filtered kept,
    view_data output = Some d /\
    collect output d plan config 0 (Z.to_nat (candidates output)) = Some filtered /\
    Forall (good_candidate output d config) filtered /\
    postprocess_yolo output plan config sequence =
      Some (inr (mkDetectionResult sequence (restore plan <$> kept))) /\
    StronglySorted (before better) (stable_sort better filtered) /\
    greedy plan config (stable_sort better filtered) [] kept.
Proof.
  intros Hh Ho Hp Hc Hmax. destruct (valid_output_ok output Hh Ho) as (d & Hd & Hch & Hn & Hlen).
  assert (Ht : isfinite (confidence_threshold config) = true /\ 0 < max_detections config)
    by (unfold valid_config in Hc; bools; split; [done|lia]).
  destruct Ht as [Ht Hpos].
  destruct (collect_spec output d plan config Hch Hn Hlen Ht 0 (Z.to_nat (candidates output)))
    as (filtered & Ef & Hgood); [lia..|].
  assert (Hsort : StronglySorted (before better) (stable_sort better filtered)).
  { apply sorted_candidates. eapply Forall_impl; [exact Hgood|].
    intros c Hcg. by apply isfinite_not_nan, (good_finite _ _ _ _ Hcg). }
  destruct (suppress_spec plan config (stable_sort better filtered) []) as (kept & Ek & Hg);
    [done|constructor|simpl; lia|].
  exists d, filtered, kept. split_and!; auto.
  unfold postprocess_yolo. rewrite Ho, Hp, Hc, Hd. cbn [negb mbind option_bind].
  rewrite Ef. cbn [mbind option_bind]. by rewrite Ek.
Qed.


(** Every detection [postprocess_yolo] reports has a class of the model and a finite confidence
    above the threshold, which is the score of that class in some column of the tensor and the
    largest finite class score there; its box is not empty and lies inside the source frame; the
    detections come in order of non-increasing confidence and there are at most [max_detections]. *)
Theorem detections_well_formed output plan config sequence result :
  honest_view output -> int_plan plan -> 0 <= max_detections config ->
  postprocess_yolo output plan config sequence = Some (inr result) ->
  frame_sequence result = sequence /\
  Z.of_nat (length (detections result)) <= max_detections config /\
  StronglySorted (fun a b => fle (confidence b) (confidence a) = true) (detections result) /\
  Forall (fun d =>
    0 <= class_id d < channels output - 4 /\ isfinite (confidence d) = true /\
    flt (confidence_threshold config) (confidence d) = true /\ in_frame plan d /\
    exists buffer i, view_data output = Some buffer /\ 0 <= i < candidates output /\
      read buffer ((class_id d + 4) * candidates output + i) = Some (confidence d) /\
      forall k v, 0 <= k < channels output - 4 ->
        read buffer ((k + 4) * candidates output + i) = Some v -> isfinite v = true ->
        fle v (confidence d) = true) (detections result).
Proof.
  intros Hh Hip Hmax E.
  assert (Hv : valid_output output = true /\ valid_plan plan = true /\ valid_config config = true).
  { unfold postprocess_yolo in E. destruct (valid_output output), (valid_plan plan), (valid_config config);
      done. }
  destruct Hv as (Ho & Hp & Hc).
  destruct (postprocess_cases output plan config sequence Hh Ho Hp Hc Hmax)
    as (d & filtered & kept & Hd & _ & Hgood & E' & Hsort & Hg).
  rewrite E' in E. injection E as <-. simpl. destruct Hg as [Hsub _ Hne Hl _]. simpl in Hl.
  assert (Hk : Forall (good_candidate output d config) kept).
  { eapply sublist_Forall; [exact Hsub|]. by apply stable_sort_Forall. }
  split_and!; [done|by rewrite length_fmap| |].
  - assert (Hs : StronglySorted (before better) kept) by (by eapply sublist_sorted).
    clear -Hs Hk. induction Hs as [|c kept Hs IH Hc]; simpl; [constructor|].
    apply Forall_cons in Hk as [Hkc Hk]. constructor; [auto|].
    apply Forall_fmap, Forall_forall. intros c' Hin. simpl.
    rewrite Forall_forall in Hc, Hk.
    apply before_better_confidence; [..|by apply Hc]; 
      apply isfinite_not_nan, (good_finite output d config); auto.
  - apply Forall_fmap, Forall_forall. intros c Hin. rewrite Forall_forall in Hk, Hne.
    destruct (Hk c Hin) as [Hi Hcl Hr Hf Hb Ht Hcor]. simpl. split_and!; auto; try lia.
    + apply restore_in_frame; auto.
    + exists d, (index c). auto.
Qed.

(** Two classes and three columns: two overlapping boxes of class 0, of which
    the second is the more confident, and one of class 1 below the threshold. *)
Definition sample_view : YoloOutputView :=
  let q n := f32_div (f32_of_Z n) (f32_of_Z 4) in
  mkView (Some [q 8; q 8; q 4; q 8; q 8; q 8; q 8; q 8; q 4; q 4; q 4; q 4; q 2; q 3; q 0; q 0; q 0; q 1])
    18 6 3.
Definition sample_config : YoloPostprocessConfig :=
  mkYoloConfig (f32_div (f32_of_Z 1) (f32_of_Z 4)) (f32_div (f32_of_Z 1) (f32_of_Z 2)) 10.


Lemma detections_well_formed_witness :
  exists result, postprocess_yolo sample_view sample_plan sample_config 7 = Some (inr result) /\
    length (detections result) = 1%nat /\ Z.of_nat (length (detections result)) <= 10.
Proof.
  eexists. split; [vm_compute; reflexivity|]. split; [reflexivity|].
  apply (detections_well_formed sample_view sample_plan sample_config 7).
  - vm_compute. split_and!; try done; by intros.
  - vm_compute. split_and!; by intros.
  - vm_compute. by intros.
  - vm_compute. reflexivity.
Defined.
End Postprocess.
