(* ===== verification/Annotator.v ===== *)
(** * Drawing detections on a copy of a frame ([src/video/annotator.cpp], [include/skai/video/frame.hpp])

    OpenCV draws; the model has everything the source decides before: which frames
    and options are accepted, which detections are drawn, the pixel rectangle of
    each box, and the rectangles of the labels.  The floor and ceiling of a
    coordinate are exact integers and are clamped to the frame, so they are taken
    as integers. *)

From S2P Require Import Prelude Strings Floats Preprocess YoloPostprocess.

Module Annotator.
Import Postprocess.

(** A timestamp is nanoseconds of the steady clock. *)
Record Frame := mkFrame {
  sequence : Z;
  timestamp : Z;
  pts_ns : Z;
  source_generation : Z;
  width : Z;
  height : Z;
  stride : Z;
  bgr : list Z;
}.

Record AnnotationOptions := mkOptions {
  enabled : bool;
  show_metrics : bool;
  fps : float64;
  inference_ms : float64;
  box_thickness : Z;
  font_scale : float64;
}.

Definition default_options : AnnotationOptions := mkOptions true false f64_zero f64_zero 2 f64_half.

Definition valid_frame (f : Frame) : throws unit :=
  if (width f <=? 0) || (height f <=? 0) || (stride f <? 0) || (int_max / 3 <? width f) then
    throw "annotation frame dimensions or stride are invalid"
  else
    let row_bytes := u64 (width f * 3) in
    if stride f <? row_bytes then throw "annotation frame stride is shorter than a BGR row"
    else
      let rows_before_last := u64 (height f - 1) in
      if ((u64_max - row_bytes) / stride f <? rows_before_last) ||
         (Z.of_nat (length (bgr f)) <? u64 (u64 (rows_before_last * stride f) + row_bytes)) then
        throw "annotation frame buffer is shorter than its dimensions and stride"
      else inr tt.

Definition max_font_scale : float64 := f64_of_Z 1000.

Definition valid_options (o : AnnotationOptions) : throws unit :=
  if (box_thickness o <=? 0) || (32767 <? box_thickness o) ||
     negb (isfinite (font_scale o)) || fle (font_scale o) f64_zero || flt max_font_scale (font_scale o) ||
     (show_metrics o && (negb (isfinite (fps o)) || negb (isfinite (inference_ms o)) ||
        flt (fps o) f64_zero || flt (inference_ms o) f64_zero))
  then throw "annotation style or metrics are invalid"
  else inr tt.

(** [show2], [show1]: a number with two or one decimals ([std::fixed]). *)
Definition detection_label (show2 : float32 -> string) (names : list string) (d : Detection) : string :=
  let name :=
    match (if 0 <=? class_id d then names !! Z.to_nat (class_id d) else None) with
    | Some n => if bool_decide (n = "") then "class_" +:+ to_string (class_id d) else n
    | None => "class_" +:+ to_string (class_id d)
    end in
  name +:+ " " +:+ show2 (confidence d).

Record Rect := mkRect { left : Z; top : Z; right : Z; bottom : Z }.

(** A detection that is skipped before its rectangle is computed. *)
Definition skipped (f : Frame) (d : Detection) : bool :=
  (class_id d <? 0) || negb (isfinite (confidence d)) ||
  negb (isfinite (x1 d)) || negb (isfinite (y1 d)) || negb (isfinite (x2 d)) || negb (isfinite (y2 d)) ||
  fle (x2 d) (x1 d) || fle (y2 d) (y1 d) || fle (x2 d) f64_zero || fle (y2 d) f64_zero ||
  fle (f32_of_Z (width f)) (x1 d) || fle (f32_of_Z (height f)) (y1 d).

Definition clamped (v : option Z) (hi : Z) : option Z := (fun z => Preprocess.clampZ z 0 hi) <$> v.

(** The inclusive pixel rectangle of a detection, when it is drawn. *)
Definition box_of (f : Frame) (d : Detection) : option Rect :=
  if skipped f d then None
  else
    l ← clamped (floor_Z (f64_of_f32 (x1 d))) (width f - 1);
    t ← clamped (floor_Z (f64_of_f32 (y1 d))) (height f - 1);
    r ← clamped (Z.pred <$> ceil_Z (f64_of_f32 (x2 d))) (width f - 1);
    b ← clamped (Z.pred <$> ceil_Z (f64_of_f32 (y2 d))) (height f - 1);
    if (r <? l) || (b <? t) then None else Some (mkRect l t r b).

(** [cv::getTextSize]: width, height, baseline. *)
Record TextSize := mkText { text_width : Z; text_height : Z; baseline : Z }.

(** The filled rectangle behind a label, with its width and height. *)
Definition label_rect (cols rows : Z) (box : Rect) (s : TextSize) : Z * Z * Z * Z :=
  let label_width := Z.min (cols - left box) (text_width s + 4) in
  let label_height := Z.min rows (text_height s + baseline s + 4) in
  let label_top := if label_height <=? top box then top box - label_height
                   else Preprocess.clampZ (bottom box + 1) 0 (rows - label_height) in
  (left box, label_top, label_width, label_height).

Definition metrics_rect (cols rows : Z) (s : TextSize) : Z * Z * Z * Z :=
  (0, 0, Z.min cols (text_width s + 8), Z.min rows (text_height s + baseline s + 8)).

Definition metrics_label (show1 : float64 -> string) (o : AnnotationOptions) : string :=
  "FPS " +:+ show1 (fps o) +:+ "  infer " +:+ show1 (inference_ms o) +:+ " ms".

(** The calls to OpenCV, in order. *)
Inductive command :=
  | Box (r : Rect) (thickness : Z)
  | Label (rect : Z * Z * Z * Z) (text : string)
  | Metrics (rect : Z * Z * Z * Z) (text : string).

Section Drawing.
Context (show2 : float32 -> string) (show1 : float64 -> string) (text_size : string -> float64 -> TextSize).

Definition draw_detection (f : Frame) (names : list string) (o : AnnotationOptions) (d : Detection) : list command :=
  match box_of f d with
  | None => []
  | Some r =>
    let label := detection_label show2 names d in
    [Box r (box_thickness o); Label (label_rect (width f) (height f) r (text_size label (font_scale o))) label]
  end.

Definition commands (f : Frame) (ds : list Detection) (names : list string) (o : AnnotationOptions) : list command :=
  (ds ≫= draw_detection f names o) ++
  (if show_metrics o
   then let label := metrics_label show1 o in
        [Metrics (metrics_rect (width f) (height f) (text_size label (font_scale o))) label] else []).

Definition with_pixels (pixels : list Z) (f : Frame) : Frame :=
  mkFrame (sequence f) (timestamp f) (pts_ns f) (source_generation f) (width f) (height f) (stride f) pixels.

(** [draw]: the pixels after the commands, or the exception OpenCV threw.  The
    output is always a frame of its own; on an error it is left empty. *)
Definition annotate_frame (draw : list command -> throws (list Z)) (source : Frame) (r : DetectionResult)
    (names : list string) (o : AnnotationOptions) : throws Frame :=
  match valid_frame source with
  | inl e => throw e
  | inr _ =>
    if negb (enabled o) then inr source
    else if negb (sequence source =? frame_sequence r) then
      throw "annotation frame and detection sequence do not match"
    else
      match valid_options o with
      | inl e => throw e
      | inr _ =>
        match draw (commands source (detections r) names o) with
        | inl what => throw ("OpenCV annotation failed: " +:+ what)
        | inr pixels => inr (with_pixels pixels source)
        end
      end
  end.
End Drawing.

(** ** Every rectangle lies in the frame *)

Definition inside (cols rows : Z) (rect : Z * Z * Z * Z) : Prop :=
  let '(x, y, w, h) := rect in 0 <= x /\ 0 <= y /\ 0 < w /\ 0 < h /\ x + w <= cols /\ y + h <= rows.

Definition in_canvas (f : Frame) (c : command) : Prop :=
  match c with
  | Box r _ => 0 <= left r <= right r /\ right r < width f /\ 0 <= top r <= bottom r /\ bottom r < height f
  | Label rect _ | Metrics rect _ => inside (width f) (height f) rect
  end.

(** A text has a size. *)
Definition sized (s : TextSize) : Prop := 0 <= text_width s /\ 0 <= text_height s /\ 0 <= baseline s.

Lemma clamp_range v hi z : 0 <= hi -> clamped v hi = Some z -> 0 <= z <= hi.
Proof.
  intros Hh H. unfold clamped in H. apply fmap_Some in H as (x & _ & ->). unfold Preprocess.clampZ.
  destruct (Z.ltb_spec x 0); [lia|]. destruct (Z.ltb_spec hi x); lia.
Qed.

Lemma valid_dimensions f : valid_frame f = inr tt -> 0 < width f /\ 0 < height f.
Proof. unfold valid_frame. case_match eqn:E; [done|]. intros _. bools. lia. Qed.

Lemma box_in_frame f d r : 0 < width f -> 0 < height f -> box_of f d = Some r ->
  0 <= left r <= right r /\ right r < width f /\ 0 <= top r <= bottom r /\ bottom r < height f.
Proof.
  intros Hw Hh H. unfold box_of in H. destruct (skipped f d); [done|].
  apply bind_Some in H as (l & Hl & H). apply bind_Some in H as (t & Ht & H).
  apply bind_Some in H as (r' & Hr & H). apply bind_Some in H as (b & Hb & H).
  apply clamp_range in Hl, Ht, Hr, Hb; try lia. destruct (_ || _) eqn:E; [done|]. simplify_eq. bools. cbn. lia.
Qed.

Lemma label_inside cols rows box s : 0 <= left box < cols -> 0 <= top box <= bottom box -> bottom box < rows -> sized s ->
  inside cols rows (label_rect cols rows box s).
Proof.
  intros Hl Ht Hb (S1 & S2 & S3). unfold inside, label_rect, Preprocess.clampZ.
  set (h := Z.min rows _). assert (0 < h <= rows) by lia. clearbody h.
  destruct (Z.leb_spec h (top box)); [split_and!; lia|].
  destruct (Z.ltb_spec (bottom box + 1) 0); [lia|]. destruct (Z.ltb_spec (rows - h) (bottom box + 1)); split_and!; lia.
Qed.

Lemma draw_in_canvas show2 text_size f names o d : 0 < width f -> 0 < height f ->
  (forall text scale, sized (text_size text scale)) -> Forall (in_canvas f) (draw_detection show2 text_size f names o d).
Proof.
  intros Hw Hh Ht. unfold draw_detection. destruct (box_of f d) as [r|] eqn:E; [|apply Forall_nil_2].
  pose proof (box_in_frame f d r Hw Hh E) as H. apply Forall_cons. split; [exact H|]. apply Forall_singleton.
  apply label_inside; [lia|lia|lia|apply Ht].
Qed.


(** Annotating copies: the frame that comes back is the source but for its pixels. *)
Lemma annotate_keeps show2 show1 text_size draw f r names o out :
  annotate_frame show2 show1 text_size draw f r names o = inr out -> out = with_pixels (bgr out) f.
Proof.
  unfold annotate_frame. destruct (valid_frame f); [done|]. destruct (negb (enabled o)).
  { intros [= ->]. by destruct out. }
  destruct (negb _); [done|]. destruct (valid_options o); [done|]. destruct (draw _); [done|]. by intros [= <-].
Qed.

(** Two boxes, one of them across the border of a 4 by 2 frame. *)
Definition sample_frame : Frame := mkFrame 7 0 0 0 4 2 12 (replicate 24 0).
Definition sample_detection (a b : Z) : Detection :=
  mkDetection 0 (f32_of_Z 1) (f32_of_Z a) (f32_of_Z 0) (f32_of_Z b) (f32_of_Z 9).

End Annotator.
