(* ===== verification/YoloDetector.v ===== *)
(** * The detector on the GPU ([src/inference/tensorrt_engine.cpp], [src/inference/yolo_detector.cpp],
      the host part of [src/inference/preprocess_cuda.cu], [src/inference/inference_backend.cpp])

    [Gpu] keeps account of what is held on the device: every runtime, engine,
    context, stream, buffer and event has a handle, and some need another one to
    outlive them.  Calls to CUDA and TensorRT may fail.  [Engine], [Preprocessor]
    and [Detector] are the classes; what the kernels compute is an input. *)

From S2P Require Import Prelude Strings Floats FloatFacts TensorLayout Preprocess YoloPostprocess.

Module Gpu.

(** [live]: the handles held, each with the one it depends on.  [answers]: one for
    each call that may fail, [Some] with the error text; calls beyond the list
    succeed.  [misuse]: a handle was released twice, or before one that needs it. *)
Record Gpu := mkGpu {
  live : list (nat * option nat);
  next : nat;
  answers : list (option string);
  misuse : bool;
}.

(** A call that holds nothing. *)
Definition attempt (g : Gpu) : throws unit * Gpu :=
  let g' := mkGpu (live g) (next g) (tail (answers g)) (misuse g) in
  match head (answers g) with Some (Some e) => (throw e, g') | _ => (inr tt, g') end.

(** A call that returns a handle. *)
Definition create (parent : option nat) (g : Gpu) : throws nat * Gpu :=
  match attempt g with
  | (inl e, g) => (throw e, g)
  | (inr _, g) => (inr (next g), mkGpu (live g ++ [(next g, parent)]) (S (next g)) (answers g) (misuse g))
  end.

Definition release (g : Gpu) (h : nat) : Gpu :=
  let good := bool_decide (h ∈ (live g).*1) && negb (bool_decide (Some h ∈ (live g).*2)) in
  mkGpu (filter (fun x => x.1 <> h) (live g)) (next g) (answers g) (misuse g || negb good).

Definition release_all (hs : list nat) (g : Gpu) : Gpu := foldl release g hs.

(** ** Accounts *)

(** Exactly the handles of [l] are held, and there was no misuse. *)
Definition holds (g : Gpu) (l : list (nat * option nat)) : Prop :=
  misuse g = false /\ live g ≡ₚ l /\ NoDup l.*1 /\ Forall (fun h => h < next g)%nat l.*1.

#[export] Instance holds_perm g : Proper ((≡ₚ) ==> iff) (holds g).
Proof. intros l l' E. unfold holds. by rewrite E. Qed.

Definition leaf (hs : list nat) : list (nat * option nat) := (fun h => (h, None)) <$> hs.

Lemma leaf_handles hs : (leaf hs).*1 = hs.
Proof. unfold leaf. rewrite <- list_fmap_compose. by apply list_fmap_id. Qed.
Lemma leaf_parents hs h : Some h ∉ (leaf hs).*2.
Proof. unfold leaf. rewrite <- list_fmap_compose. by intros (? & [=] & _)%list_elem_of_fmap. Qed.
Lemma leaf_app a b : leaf (a ++ b) = leaf a ++ leaf b.
Proof. apply fmap_app. Qed.

Lemma attempt_holds g l r g' : holds g l -> attempt g = (r, g') -> holds g' l.
Proof. unfold attempt. intros H E. by destruct (head (answers g)) as [[m|]|]; injection E as _ <-. Qed.

Lemma create_holds p g l r g' : holds g l -> create p g = (r, g') ->
  match r with inl _ => holds g' l | inr h => holds g' ((h, p) :: l) end.
Proof.
  unfold create. destruct (attempt g) as [a g1] eqn:E. intros H. apply (attempt_holds _ _ _ _ H) in E as (H1 & H2 & H3 & H4).
  destruct a as [e|[]]; intros [= <- <-]; [done|]. split_and!; cbn.
  - done.
  - rewrite H2. by rewrite Permutation_app_comm.
  - constructor; [|done]. intros Hn. rewrite Forall_forall in H4. specialize (H4 _ Hn). lia.
  - constructor; [lia|]. eapply Forall_impl; [exact H4|]. cbn. lia.
Qed.

(** Released in this order, no handle goes before one that depends on it. *)
Fixpoint releasable (os l : list (nat * option nat)) : Prop :=
  match os with
  | [] => True
  | o :: rest => Some o.1 ∉ ((o :: rest) ++ l).*2 /\ releasable rest l
  end.

Lemma release_holds h p l g : holds g ((h, p) :: l) -> Some h ∉ ((h, p) :: l).*2 -> holds (release g h) l.
Proof.
  intros (H1 & H2 & H3 & H4) Hp. cbn in H3, H4. apply NoDup_cons in H3 as [Hn H3]. apply Forall_cons in H4 as [_ H4].
  split_and!; [|cbn|done|done].
  - unfold release. cbn. rewrite H1. rewrite bool_decide_true by (rewrite H2; left). rewrite bool_decide_false by (by rewrite H2). done.
  - rewrite H2. rewrite filter_cons_False by (cbn; tauto). rewrite filter_everything; [done|].
    apply Forall_forall. intros x Hx Ex. apply Hn. rewrite <- Ex. by apply list_elem_of_fmap_2.
Qed.

Lemma release_list os : forall l g, holds g (os ++ l) -> releasable os l -> holds (release_all os.*1 g) l.
Proof.
  induction os as [|[h p] os IH]; intros l g H Hr; [done|]. destruct Hr as [Hp Hr]. apply (IH l (release g h)); [|done].
  by apply (release_holds h p).
Qed.

Lemma releasable_leaves hs rest l : (forall h, h ∈ hs -> Some h ∉ (rest ++ l).*2) -> releasable rest l -> releasable (leaf hs ++ rest) l.
Proof.
  intros H Hr. induction hs as [|h hs IH]; [done|]. split; [|apply IH; intros x Hx; apply H; by right].
  change (leaf (h :: hs)) with ((h, None : option nat) :: leaf hs). rewrite <- !app_comm_cons, <- app_assoc. cbn [fmap list_fmap].
  apply not_elem_of_cons. split; [done|]. rewrite fmap_app. apply not_elem_of_app. split; [apply leaf_parents|]. apply H. by left.
Qed.

(** Leaves alone. *)
Lemma releasable_only_leaves hs l : (forall h, h ∈ hs -> Some h ∉ l.*2) -> releasable (leaf hs) l.
Proof. intros H. rewrite <- (app_nil_r (leaf hs)). by apply releasable_leaves. Qed.
End Gpu.

Module Engine.
Import Gpu TensorLayout.

Inductive DataType := kFLOAT | kHALF | kINT8 | kINT32 | kBOOL | kUINT8 | kFP8 | kBF16 | kINT64 | kOther.

Definition tensor_type (t : DataType) : string * Z :=
  match t with
  | kFLOAT => ("FP32", 4)
  | kHALF => ("FP16", 2)
  | kINT8 => ("INT8", 1)
  | kINT32 => ("INT32", 4)
  | kBOOL => ("BOOL", 1)
  | kUINT8 => ("UINT8", 1)
  | kFP8 => ("FP8", 1)
  | kBF16 => ("BF16", 2)
  | kINT64 => ("INT64", 8)
  | kOther => ("", 0)
  end.

(** What the deserialized engine says of an I/O tensor; [mode] is [Some true] for an
    input, [Some false] for an output; [dims] is [None] when their number is not valid. *)
Record IoTensor := mkIo {
  raw_name : option string;
  mode : option bool;
  dims : option (list Z);
  type : DataType;
  on_device : bool;
  linear_format : bool;
  vectorized_dim : Z;
}.

Definition describe_tensor (t : IoTensor) : throws TensorDescription :=
  match raw_name t with
  | None => throw "engine has an unnamed I/O tensor"
  | Some n =>
    match mode t with
    | None => throw ("tensor '" +:+ n +:+ "' has no input/output mode")
    | Some input =>
      match dims t with
      | None => throw ("tensor '" +:+ n +:+ "' has invalid dimensions")
      | Some shape =>
        let '(type_name, type_bytes) := tensor_type (type t) in
        inr (mkDescription n input shape type_name type_bytes (on_device t)
               (linear_format t && (vectorized_dim t =? -1)))
      end
    end
  end.

Fixpoint describe_all (ts : list IoTensor) : throws (list TensorDescription) :=
  match ts with
  | [] => inr []
  | t :: rest => tbind (describe_tensor t) (fun d => tbind (describe_all rest) (fun ds => inr (d :: ds)))
  end.

(** The engine file: its length when it can be opened, and whether it can be read. *)
Record EngineFile := mkEngineFile { length_of : option Z; readable : bool }.

Definition read_engine_file (path : string) (f : EngineFile) : throws unit :=
  match length_of f with
  | None => throw ("cannot open TensorRT engine '" +:+ path +:+ "'")
  | Some n =>
    if n <=? 0 then throw ("TensorRT engine '" +:+ path +:+ "' is empty or unreadable")
    else if readable f then inr tt
    else throw ("cannot read TensorRT engine '" +:+ path +:+ "'")
  end.

(** [State]: what is held so far; [~State] frees the buffers and the stream, then
    the members go in reverse order. *)
Record State := mkState {
  runtime : option nat;
  engine : option nat;
  tensors : list TensorInfo;
  buffers : list nat;
  name : string;
  stream : option nat;
}.
Definition no_state : State := mkState None None [] [] "" None.

Definition destroy (s : State) (g : Gpu) : Gpu :=
  release_all (buffers s ++ option_list (stream s) ++ option_list (engine s) ++ option_list (runtime s)) g.

Definition unload (e : option State) (g : Gpu) : Gpu := match e with Some s => destroy s g | None => g end.

(** [cudaMalloc] for each tensor. *)
Fixpoint allocate (ts : list TensorInfo) (s : State) (g : Gpu) : throws unit * State * Gpu :=
  match ts with
  | [] => (inr tt, s, g)
  | t :: rest =>
    match create None g with
    | (inl e, g) =>
      (throw ("cannot allocate CUDA buffer for tensor '" +:+ info_name t +:+ "' (" +:+ to_string (info_bytes t) +:+
              " bytes): " +:+ e), s, g)
    | (inr b, g) => allocate rest (mkState (runtime s) (engine s) (tensors s) (buffers s ++ [b]) (name s) (stream s)) g
    end
  end.

(** [detail]: the last error TensorRT logged; [engine_name]: [getName]. *)
(** The object holds no engine unless the load succeeds. *)
Definition load (path : string) (f : EngineFile) (io : list IoTensor) (detail engine_name : string)
    (e : option State) (g : Gpu) : throws State * Gpu :=
  let g := unload e g in
  match read_engine_file path f with
  | inl error => (throw error, g)
  | inr _ =>
    match create None g with
    | (inl _, g) => (throw "failed to create TensorRT runtime", g)
    | (inr r, g) =>
      match create (Some r) g with
      | (inl _, g) =>
        (throw ("cannot deserialize TensorRT engine '" +:+ path +:+
           "'; it may be corrupt or incompatible with this TensorRT version, GPU, or plugins" +:+
           (if bool_decide (detail = "") then "" else ": " +:+ detail)), destroy (mkState (Some r) None [] [] "" None) g)
      | (inr n, g) =>
        let held := mkState (Some r) (Some n) [] [] "" None in
        match describe_all io with
        | inl error => (throw error, destroy held g)
        | inr ds =>
          match validate_tensor_layout ds with
          | inl error => (throw ("incompatible TensorRT engine '" +:+ path +:+ "': " +:+ error), destroy held g)
          | inr infos =>
            match create None g with
            | (inl error, g) => (throw ("cannot create CUDA stream for engine '" +:+ path +:+ "': " +:+ error), destroy held g)
            | (inr c, g) =>
              match allocate infos (mkState (Some r) (Some n) infos [] engine_name (Some c)) g with
              | (inl error, s, g) => (throw error, destroy s g)
              | (inr _, s, g) => (inr s, g)
              end
            end
          end
        end
      end
    end
  end.

Definition loaded (e : option State) : bool := bool_decide (is_Some e).
Definition get_tensors (e : option State) : list TensorInfo := match e with Some s => tensors s | None => [] end.
Definition get_name (e : option State) : string := match e with Some s => name s | None => "" end.
Definition get_stream (e : option State) : option nat := s ← e; stream s.

(** The buffer of the first tensor with the name. *)
Fixpoint buffer_of (wanted : string) (ts : list TensorInfo) (bs : list nat) : option nat :=
  match ts, bs with
  | t :: ts, b :: bs => if bool_decide (info_name t = wanted) then Some b else buffer_of wanted ts bs
  | _, _ => None
  end.
Definition device_buffer (wanted : string) (e : option State) : option nat :=
  s ← e; buffer_of wanted (tensors s) (buffers s).
End Engine.

Module Preprocessor.
Import Gpu TensorLayout Preprocess.

(** [cuda_ok]: the operation's name before the error. *)
Definition cuda_ok {A} (operation : string) (r : throws A * Gpu) : throws A * Gpu :=
  match r with (inl e, g) => (throw (operation +:+ ": " +:+ e), g) | (inr a, g) => (inr a, g) end.

(** Calls one after the other, up to the first that fails. *)
Fixpoint calls (operations : list string) (g : Gpu) : throws unit * Gpu :=
  match operations with
  | [] => (inr tt, g)
  | o :: rest => match cuda_ok o (attempt g) with (inl e, g) => (throw e, g) | (inr _, g) => calls rest g end
  end.

(** [State]: the staging buffer with its size, and the two events, made when first needed. *)
Record State := mkState {
  staging : option nat;
  staging_bytes : Z;
  start : option nat;
  end_ : option nat;
}.
Definition no_state : State := mkState None 0 None None.

Definition destroy (s : State) (g : Gpu) : Gpu :=
  release_all (option_list (staging s) ++ option_list (start s) ++ option_list (end_ s)) g.

(** Grow the staging buffer. *)
Definition stage (required : Z) (s : State) (g : Gpu) : throws unit * State * Gpu :=
  if staging_bytes s <? required then
    let g := release_all (option_list (staging s)) g in
    match cuda_ok "cannot allocate BGR CUDA staging buffer" (create None g) with
    | (inl e, g) => (throw e, mkState None 0 (start s) (end_ s), g)
    | (inr b, g) => (inr tt, mkState (Some b) required (start s) (end_ s), g)
    end
  else (inr tt, s, g).

Definition start_event (s : State) (g : Gpu) : throws unit * State * Gpu :=
  match start s with
  | Some _ => (inr tt, s, g)
  | None =>
    match cuda_ok "cannot create CUDA start event" (create None g) with
    | (inl e, g) => (throw e, s, g)
    | (inr h, g) => (inr tt, mkState (staging s) (staging_bytes s) (Some h) (end_ s), g)
    end
  end.
Definition end_event (s : State) (g : Gpu) : throws unit * State * Gpu :=
  match end_ s with
  | Some _ => (inr tt, s, g)
  | None =>
    match cuda_ok "cannot create CUDA end event" (create None g) with
    | (inl e, g) => (throw e, s, g)
    | (inr h, g) => (inr tt, mkState (staging s) (staging_bytes s) (start s) (Some h), g)
    end
  end.

(** The launch of one preprocessing. *)
Definition launch : list string :=
  ["cannot start CUDA timing"; "cannot upload BGR frame"; "cannot launch CUDA preprocessing"; "cannot stop CUDA timing";
   "CUDA preprocessing did not complete"; "cannot measure CUDA preprocessing"].

Definition find_tensor (wanted : string) (is_input : bool) (ts : list TensorInfo) : option TensorInfo :=
  List.find (fun t => bool_decide (info_name t = wanted) && Bool.eqb (info_input t) is_input) ts.

Definition dim (t : TensorInfo) (i : nat) : Z := default 0 (info_shape t !! i).

Definition nchw (t : TensorInfo) : bool :=
  bool_decide (info_type t = "FP32") && bool_decide (length (info_shape t) = 4%nat) && (dim t 0 =? 1) && (dim t 1 =? 3) &&
  (dim t 2 <=? int_max) && (dim t 3 <=? int_max).

(** The device work, once the plan is made. *)
Definition upload (image : BgrImageView) (s : State) (g : Gpu) : throws unit * State * Gpu :=
  if u64_max / stride image <? height image then (throw "BGR upload size overflow", s, g)
  else
    match stage (u64 (stride image * height image)) s g with
    | (inl e, s, g) => (throw e, s, g)
    | (inr _, s, g) =>
      match start_event s g with
      | (inl e, s, g) => (throw e, s, g)
      | (inr _, s, g) =>
        match end_event s g with
        | (inl e, s, g) => (throw e, s, g)
        | (inr _, s, g) => let '(r, g) := calls launch g in (r, s, g)
        end
      end
    end.

Definition run (image : BgrImageView) (e : option Engine.State) (input_name : string) (s : State) (g : Gpu)
    : option (throws PreprocessPlan) * State * Gpu :=
  let fails error := (Some (throw error), s, g) in
  if negb (Engine.loaded e) then fails "TensorRT engine is not loaded"
  else match find_tensor input_name true (Engine.get_tensors e) with
  | None => fails ("TensorRT input tensor '" +:+ input_name +:+ "' is unavailable")
  | Some t =>
    if negb (nchw t) then fails ("TensorRT input '" +:+ input_name +:+ "' must be FP32 NCHW [1,3,H,W]")
    else match make_preprocess_plan image (dim t 3) (dim t 2) with
    | None => (None, s, g)
    | Some (inl error) => fails error
    | Some (inr plan) =>
      match Engine.device_buffer input_name e, Engine.get_stream e with
      | Some _, Some _ =>
        match upload image s g with
        | (inl error, s, g) => (Some (throw error), s, g)
        | (inr _, s, g) => (Some (inr plan), s, g)
        end
      | _, _ => fails "TensorRT input buffer or CUDA stream is unavailable"
      end
    end
  end.
End Preprocessor.

Module Detector.
Import Gpu TensorLayout Preprocess Postprocess Preprocessor.

(** [valid_config] of the detector: the same conditions as the postprocessing's. *)
Definition valid_config (c : YoloPostprocessConfig) : bool :=
  isfinite (confidence_threshold c) && isfinite (nms_iou_threshold c) &&
  fle f32_zero (confidence_threshold c) && fle (confidence_threshold c) (f32_of_Z 1) &&
  fle f32_zero (nms_iou_threshold c) && fle (nms_iou_threshold c) (f32_of_Z 1) && (0 <? max_detections c).

Record State := mkState {
  context : nat;
  start : nat;
  end_ : nat;
  output : Z;           (* elements of the host buffer *)
  channels_ : Z;
  candidates_ : Z;
}.

(** [~State] destroys the events, then the context goes. *)
Definition destroy (s : State) (g : Gpu) : Gpu := release_all [start s; end_ s; context s] g.
Definition reset (s : option State) (g : Gpu) : Gpu := match s with Some s => destroy s g | None => g end.

Record YoloDetector := mkDetector {
  plugins : bool;       (* [bootstrap_]'s [initialized] *)
  config_ : YoloPostprocessConfig;
  engine_ : option Engine.State;
  preprocessor_ : Preprocessor.State;
  state_ : option State;
}.

Definition make_detector (c : YoloPostprocessConfig) : YoloDetector := mkDetector false c None Preprocessor.no_state None.

(** [TensorRtBackend]: the thresholds of the configuration as [float], and at most 300. *)
Definition backend_config (confidence nms : float64) : YoloPostprocessConfig :=
  mkYoloConfig (f32_of_f64 confidence) (f32_of_f64 nms) 300.

Definition yolo_input (t : TensorInfo) : bool :=
  bool_decide (info_type t = "FP32") && bool_decide (length (info_shape t) = 4%nat) && (dim t 0 =? 1) && (dim t 1 =? 3) &&
  (0 <? dim t 2) && (0 <? dim t 3) && (dim t 2 <=? int_max) && (dim t 3 <=? int_max).
Definition yolo_output (t : TensorInfo) : bool :=
  bool_decide (info_type t = "FP32") && bool_decide (length (info_shape t) = 3%nat) && (dim t 0 =? 1) && (4 <? dim t 1) &&
  (0 <? dim t 2) && (dim t 1 <=? int_max) && (dim t 2 <=? int_max) &&
  (info_bytes t / 4 =? u64 (u64 (dim t 1) * u64 (dim t 2))).

(** The two tensors of a YOLO engine. *)
Definition yolo_tensors (ts : list TensorInfo) : option TensorInfo :=
  match find_tensor "images" true ts, find_tensor "output0" false ts with
  | Some i, Some o => if bool_decide (length ts = 2%nat) && yolo_input i && yolo_output o then Some o else None
  | _, _ => None
  end.

(** [createExecutionContext] and the two addresses; a context that could not be
    bound is released again. *)
Definition make_context (e : Engine.State) (g : Gpu) : option nat * Gpu :=
  match create (Engine.engine e) g with
  | (inl _, g) => (None, g)
  | (inr c, g) =>
    let bind (wanted : string) g :=
      match Engine.device_buffer wanted (Some e), attempt g with
      | Some _, (inr _, g) => (true, g)
      | _, (_, g) => (false, g)
      end in
    match bind "images" g with
    | (false, g) => (None, release g c)
    | (true, g) => match bind "output0" g with (false, g) => (None, release g c) | (true, g) => (Some c, g) end
    end
  end.

(** What [load] meets: registering the plugins (with the logged detail on failure),
    and what [TensorRtEngine::load] meets. *)
Record LoadEnv := mkLoad {
  registers : bool;
  registration_detail : string;
  file : Engine.EngineFile;
  io : list Engine.IoTensor;
  engine_detail : string;
  engine_name : string;
}.

(** [TensorRtBootstrap::initialize_standard_plugins], with [initialized] afterwards: the plugins are
    registered once. *)
Definition initialize_standard_plugins (x : LoadEnv) (initialized : bool) : throws unit * bool :=
  if initialized || registers x then (inr tt, true)
  else (throw ("failed to register NVIDIA plugins in the process TensorRT registry" +:+
          (if bool_decide (registration_detail x = "") then "" else ": " +:+ registration_detail x)), false).

(** The events of a context; the context goes when one cannot be made. *)
Definition make_events (c : nat) (g : Gpu) : throws (nat * nat) * Gpu :=
  match cuda_ok "cannot create inference start event" (create None g) with
  | (inl e, g) => (throw e, release g c)
  | (inr s, g) =>
    match cuda_ok "cannot create inference end event" (create None g) with
    | (inl e, g) => (throw e, release_all [s; c] g)
    | (inr n, g) => (inr (s, n), g)
    end
  end.

(** With the engine in place. *)
Definition prepare (e : Engine.State) (g : Gpu) : throws State * Gpu :=
  match yolo_tensors (Engine.tensors e) with
  | None => (throw "YOLO engine must have FP32 images [1,3,H,W] and output0 [1,4+classes,candidates]", g)
  | Some o =>
    match make_context e g with
    | (None, g) => (throw "cannot create or bind YOLO TensorRT execution context", g)
    | (Some c, g) =>
      match make_events c g with
      | (inl error, g) => (throw error, g)
      | (inr (s, n), g) => (inr (mkState c s n (info_bytes o / 4) (dim o 1) (dim o 2)), g)
      end
    end
  end.

Definition load (path : string) (x : LoadEnv) (d : YoloDetector) (g : Gpu) : throws unit * YoloDetector * Gpu :=
  let g := Engine.unload (engine_ d) (reset (state_ d) g) in
  let without plugins := mkDetector plugins (config_ d) None (preprocessor_ d) None in
  if negb (valid_config (config_ d)) then
    (throw "YOLO confidence/NMS threshold or max detections is invalid", without (plugins d), g)
  else
    match initialize_standard_plugins x (plugins d) with
    | (inl error, initialized) => (throw error, without initialized, g)
    | (inr _, initialized) =>
      match Engine.load path (file x) (io x) (engine_detail x) (engine_name x) None g with
      | (inr e, g) =>
        match prepare e g with
        | (inl error, g) => (throw error, without initialized, Engine.unload (Some e) g)
        | (inr s, g) => (inr tt, mkDetector initialized (config_ d) (Some e) (preprocessor_ d) (Some s), g)
        end
      | (inl error, g) => (throw error, without initialized, g)
      end
    end.

(** [inference_backend.cpp]; [built]: the build has TensorRT and CUDA. *)
Definition inference_backend_available (built : bool) : bool := built.
Definition make_inference_backend (built : bool) (confidence nms : float64) : option YoloDetector :=
  if built then Some (make_detector (backend_config confidence nms)) else None.

Definition loaded (d : YoloDetector) : bool := bool_decide (is_Some (state_ d)).

(** The inference itself; [enqueueV3] reports no detail. *)
Definition infer (g : Gpu) : throws unit * Gpu :=
  match calls ["cannot start inference timing"] g with
  | (inl e, g) => (throw e, g)
  | (inr _, g) =>
    match attempt g with
    | (inl _, g) => (throw "YOLO TensorRT enqueueV3 failed", g)
    | (inr _, g) =>
      calls ["cannot stop inference timing"; "cannot copy YOLO output to host"; "YOLO inference did not complete";
             "cannot measure YOLO inference"] g
    end
  end.

(** [computed]: what the device copied into the host buffer. *)
Definition run (image : BgrImageView) (sequence : Z) (computed : list float32) (d : YoloDetector) (g : Gpu)
    : option (throws DetectionResult) * YoloDetector * Gpu :=
  match state_ d with
  | None => (Some (throw "YOLO engine is not loaded"), d, g)
  | Some s =>
    let '(planned, p, g) := Preprocessor.run image (engine_ d) "images" (preprocessor_ d) g in
    let d := mkDetector (plugins d) (config_ d) (engine_ d) p (state_ d) in
    match planned with
    | None => (None, d, g)
    | Some (inl error) => (Some (throw error), d, g)
    | Some (inr plan) =>
      match infer g with
      | (inl error, g) => (Some (throw error), d, g)
      | (inr _, g) =>
        (postprocess_yolo (mkView (Some computed) (output s) (channels_ s) (candidates_ s)) plan (config_ d) sequence, d, g)
      end
    end
  end.

(** [~YoloDetector]: the members go in reverse order. *)
Definition destroy_detector (d : YoloDetector) (g : Gpu) : Gpu :=
  Engine.unload (engine_ d) (Preprocessor.destroy (preprocessor_ d) (reset (state_ d) g)).
End Detector.

(** ** Everything held is released, once and in order *)

Module Account.
Import Gpu TensorLayout Preprocess Postprocess Detector.

(** What each object holds, in the order it is released. *)
Definition of_engine (s : Engine.State) : list (nat * option nat) :=
  leaf (Engine.buffers s ++ option_list (Engine.stream s)) ++
  ((fun n => (n, Engine.runtime s)) <$> option_list (Engine.engine s)) ++ leaf (option_list (Engine.runtime s)).
Definition of_preprocessor (s : Preprocessor.State) : list (nat * option nat) :=
  leaf (option_list (Preprocessor.staging s) ++ option_list (Preprocessor.start s) ++ option_list (Preprocessor.end_ s)).
Definition of_state (e : option Engine.State) (s : State) : list (nat * option nat) :=
  leaf [start s; end_ s] ++ [(context s, x ← e; Engine.engine x)].

Definition owned (d : YoloDetector) : list (nat * option nat) :=
  from_option (of_state (engine_ d)) [] (state_ d) ++ from_option of_engine [] (engine_ d) ++ of_preprocessor (preprocessor_ d).

(** Nothing in the list depends on another handle. *)
Definition free (l : list (nat * option nat)) : Prop := Forall (fun x => x.2 = None) l.

Lemma free_leaf hs : free (leaf hs).
Proof. apply Forall_forall. by intros x (h & -> & _)%list_elem_of_fmap. Qed.
Lemma free_parents l h : free l -> Some h ∉ l.*2.
Proof. intros H (x & Hx & Hi)%list_elem_of_fmap. unfold free in H. rewrite Forall_forall in H. specialize (H x Hi). congruence. Qed.

Lemma of_engine_handles s : (of_engine s).*1 =
  Engine.buffers s ++ option_list (Engine.stream s) ++ option_list (Engine.engine s) ++ option_list (Engine.runtime s).
Proof.
  unfold of_engine. rewrite !fmap_app, !leaf_handles, <- app_assoc. do 2 f_equal. by destruct (Engine.engine s).
Qed.

Lemma holds_nodup g l : holds g l -> NoDup l.*1.
Proof. by intros (_ & _ & ? & _). Qed.

Lemma engine_destroyed s l g : free l -> holds g (of_engine s ++ l) -> holds (Engine.destroy s g) l.
Proof.
  intros Hf H. unfold Engine.destroy. rewrite <- of_engine_handles. apply release_list; [done|].
  apply holds_nodup in H. rewrite fmap_app, of_engine_handles in H. apply NoDup_app in H as (H & _ & _).
  apply releasable_leaves.
  - intros h Hh. rewrite !fmap_app, !not_elem_of_app. split_and!; [|apply leaf_parents|by apply free_parents].
    destruct (Engine.engine s); [|apply not_elem_of_nil]. cbn. rewrite list_elem_of_singleton. intros E.
    rewrite app_assoc in H. apply NoDup_app in H as (_ & H & _). apply (H h Hh). rewrite <- E. cbn. right. left.
  - destruct (Engine.engine s) as [n|]; cbn.
    + split; [|apply releasable_only_leaves; intros h _; by apply free_parents].
      rewrite not_elem_of_cons. split; [|rewrite fmap_app, not_elem_of_app; split; [apply leaf_parents|by apply free_parents]].
      intros E. rewrite app_assoc in H. apply NoDup_app in H as (_ & _ & H). rewrite <- E in H. cbn in H.
      apply NoDup_cons in H as [H _]. apply H. left.
    + apply releasable_only_leaves. intros h _. by apply free_parents.
Qed.

Lemma allocate_holds ts : forall s g l r s' g', holds g (of_engine s ++ l) -> Engine.allocate ts s g = (r, s', g') ->
  holds g' (of_engine s' ++ l) /\ Engine.runtime s' = Engine.runtime s /\ Engine.engine s' = Engine.engine s /\
  Engine.stream s' = Engine.stream s /\ Engine.tensors s' = Engine.tensors s /\
  (r = inr tt -> length (Engine.buffers s') = (length (Engine.buffers s) + length ts)%nat).
Proof.
  induction ts as [|t ts IH]; intros s g l r s' g' H E; cbn [Engine.allocate] in E; [injection E as <- <- <-; split_and!; try done; cbn; lia|].
  destruct (create None g) as [[e|b] g1] eqn:Ec; pose proof (create_holds _ _ _ _ _ H Ec) as H1; [by injection E as <- <- <-|].
  assert (H0 : holds g1 (of_engine (Engine.mkState (Engine.runtime s) (Engine.engine s) (Engine.tensors s)
    (Engine.buffers s ++ [b]) (Engine.name s) (Engine.stream s)) ++ l)).
  { eapply holds_perm; [|exact H1]. unfold of_engine. cbn. rewrite !leaf_app. cbn. rewrite <- !app_assoc. cbn.
    symmetry. apply Permutation_middle. }
  destruct (IH _ _ l _ _ _ H0 E) as (H2 & ? & ? & ? & ? & Hl).
  split_and!; try done. intros Hr. rewrite (Hl Hr). cbn. rewrite length_app. cbn. lia.
Qed.

(** An engine is loaded with all it needs, or nothing more is held than before. *)
Lemma engine_load_holds path f io detail engine_name g l r g' : free l -> holds g l ->
  Engine.load path f io detail engine_name None g = (r, g') ->
  match r with
  | inl _ => holds g' l
  | inr s => holds g' (of_engine s ++ l) /\ is_Some (Engine.engine s) /\ is_Some (Engine.stream s) /\
      length (Engine.buffers s) = length (Engine.tensors s) /\
      exists ds, Engine.describe_all io = inr ds /\ validate_tensor_layout ds = inr (Engine.tensors s)
  end.
Proof.
  intros Hf H. unfold Engine.load. cbn [Engine.unload]. destruct (Engine.read_engine_file path f); [by intros [= <- <-]|].
  destruct (create None g) as [[e|rt] g1] eqn:E1; pose proof (create_holds _ _ _ _ _ H E1) as H1; [by intros [= <- <-]|].
  destruct (create (Some rt) g1) as [[e|n] g2] eqn:E2; pose proof (create_holds _ _ _ _ _ H1 E2) as H2.
  { intros [= <- <-]. by apply (engine_destroyed (Engine.mkState (Some rt) None [] [] "" None)). }
  set (held := Engine.mkState (Some rt) (Some n) [] [] "" None).
  assert (Hd : holds (Engine.destroy held g2) l) by (by apply engine_destroyed).
  destruct (Engine.describe_all io) as [error|ds] eqn:Ed; [by intros [= <- <-]|].
  destruct (validate_tensor_layout ds) as [error|infos] eqn:Ev; [by intros [= <- <-]|].
  destruct (create None g2) as [[e|c] g3] eqn:E3; pose proof (create_holds _ _ _ _ _ H2 E3) as H3.
  { intros [= <- <-]. by apply (engine_destroyed held). }
  destruct (Engine.allocate _ _ _) as [[ra s] g4] eqn:E4.
  destruct (allocate_holds _ (Engine.mkState (Some rt) (Some n) infos [] engine_name (Some c)) _ l _ _ _ H3 E4)
    as (H4 & Hr & Hn & Hs & Ht & Hl).
  destruct ra as [e|[]]; intros [= <- <-]; [by apply engine_destroyed|]. cbn in *. rewrite Hn, Hs, Ht.
  split_and!; [done|eauto..| |]; [by apply Hl|]. by exists ds.
Qed.

(** Every handle that is depended on is in the list. *)
Definition closed (l : list (nat * option nat)) : Prop := forall h, Some h ∈ l.*2 -> h ∈ l.*1.

Lemma closed_free l : free l -> closed l.
Proof. intros H h Hh. by apply free_parents in Hh. Qed.
Lemma closed_app a b : closed a -> closed b -> closed (a ++ b).
Proof. intros Ha Hb h. rewrite !fmap_app, !elem_of_app. intros [H|H]; [left; by apply Ha|right; by apply Hb]. Qed.
Lemma closed_engine s : closed (of_engine s).
Proof.
  intros h. rewrite of_engine_handles. unfold of_engine. rewrite !fmap_app, !elem_of_app.
  intros [H|[H|H]]; [by apply leaf_parents in H| |by apply leaf_parents in H].
  destruct (Engine.engine s); [|by apply not_elem_of_nil in H]. apply list_elem_of_singleton in H. cbn in H. rewrite <- H. cbn. set_solver.
Qed.

Lemma apart a l h : NoDup (a ++ l).*1 -> closed l -> h ∈ a.*1 -> Some h ∉ l.*2.
Proof. rewrite fmap_app. intros (_ & H & _)%NoDup_app Hc Hh Hl. by apply (H h Hh), Hc. Qed.

Lemma state_destroyed e s l g : closed l -> (forall n, (x ← e; Engine.engine x) = Some n -> n ∈ l.*1) ->
  holds g (of_state e s ++ l) -> holds (destroy s g) l.
Proof.
  intros Hc He H. pose proof (holds_nodup _ _ H) as Hn. apply (release_list (of_state e s)); [done|].
  assert (Hh : forall h, h ∈ [start s; end_ s; context s] -> Some h ∉ l.*2) by (intros h Hh; by apply (apart _ _ _ Hn Hc)).
  assert (Hp : forall h, h ∈ [start s; end_ s; context s] -> (x ← e; Engine.engine x) <> Some h).
  { intros h Hi E. specialize (He h E). unfold of_state in Hn. rewrite fmap_app in Hn. apply NoDup_app in Hn as (_ & Hn & _).
    by apply (Hn h). }
  apply releasable_leaves.
  - intros h Hi. rewrite fmap_app, not_elem_of_app. cbn. rewrite list_elem_of_singleton.
    assert (Hi' : h ∈ [start s; end_ s; context s]) by set_solver. split; [|by apply Hh]. intros E. by apply (Hp h Hi').
  - split; [|done]. cbn. rewrite not_elem_of_cons. assert (Hi : context s ∈ [start s; end_ s; context s]) by set_solver.
    split; [|by apply Hh]. intros E. by apply (Hp _ Hi).
Qed.

Lemma preprocessor_destroyed s l g : closed l -> holds g (of_preprocessor s ++ l) -> holds (Preprocessor.destroy s g) l.
Proof.
  intros Hc H. pose proof (holds_nodup _ _ H) as Hn. unfold Preprocessor.destroy.
  match goal with |- holds (release_all ?hs g) l => rewrite <- (leaf_handles hs) end. apply release_list; [done|]. apply releasable_only_leaves. intros h Hh. apply (apart _ _ _ Hn Hc).
  unfold of_preprocessor. by rewrite leaf_handles.
Qed.

Lemma calls_holds os : forall g l r g', holds g l -> Preprocessor.calls os g = (r, g') -> holds g' l.
Proof.
  induction os as [|o os IH]; intros g l r g' H E; cbn [Preprocessor.calls] in E; [by injection E as <- <-|].
  destruct (attempt g) as [a g1] eqn:Ea. pose proof (attempt_holds _ _ _ _ H Ea) as H1. destruct a as [e|[]]; cbn in E; [by injection E as <- <-|].
  by apply (IH _ _ _ _ H1 E).
Qed.

(** A step of the preprocessor keeps the account. *)
Definition keeps (l : list (nat * option nat)) (s : Preprocessor.State) (r : throws unit * Preprocessor.State * Gpu) : Prop :=
  holds r.2 (of_preprocessor r.1.2 ++ l).

Lemma stage_keeps required s l g : closed l -> holds g (of_preprocessor s ++ l) -> keeps l s (Preprocessor.stage required s g).
Proof.
  intros Hc H. unfold Preprocessor.stage. destruct (_ <? _); [|done].
  set (s0 := Preprocessor.mkState None 0 (Preprocessor.start s) (Preprocessor.end_ s)).
  assert (H1 : holds (release_all (option_list (Preprocessor.staging s)) g) (of_preprocessor s0 ++ l)).
  { rewrite <- (leaf_handles (option_list _)). apply release_list.
    - eapply holds_perm; [|exact H]. unfold of_preprocessor, s0.
      cbn [Preprocessor.staging Preprocessor.start Preprocessor.end_]. by rewrite !leaf_app, <- !app_assoc.
    - apply releasable_only_leaves. intros h Hh. rewrite fmap_app, not_elem_of_app. split; [apply leaf_parents|].
      apply (apart _ _ _ (holds_nodup _ _ H) Hc). unfold of_preprocessor. rewrite leaf_handles. set_solver. }
  destruct (create None _) as [[e|b] g1] eqn:E; pose proof (create_holds _ _ _ _ _ H1 E) as H2; cbn; exact H2.
Qed.

Lemma start_keeps s l g : holds g (of_preprocessor s ++ l) -> keeps l s (Preprocessor.start_event s g).
Proof.
  intros H. unfold Preprocessor.start_event. destruct (Preprocessor.start s) eqn:Es; [done|].
  destruct (create None g) as [[e|b] g1] eqn:E; pose proof (create_holds _ _ _ _ _ H E) as H2; cbn; [exact H2|].
  unfold keeps. cbn. eapply holds_perm; [|exact H2]. unfold of_preprocessor. cbn. rewrite Es, !leaf_app. cbn.
  rewrite <- !app_assoc. symmetry. apply Permutation_middle.
Qed.

Lemma end_keeps s l g : holds g (of_preprocessor s ++ l) -> keeps l s (Preprocessor.end_event s g).
Proof.
  intros H. unfold Preprocessor.end_event. destruct (Preprocessor.end_ s) eqn:Es; [done|].
  destruct (create None g) as [[e|b] g1] eqn:E; pose proof (create_holds _ _ _ _ _ H E) as H2; cbn; [exact H2|].
  unfold keeps. cbn. eapply holds_perm; [|exact H2]. unfold of_preprocessor. cbn. rewrite Es, !leaf_app, <- !app_assoc. cbn.
  rewrite !(assoc_L (++)). symmetry. apply Permutation_middle.
Qed.

Lemma upload_keeps image s l g : closed l -> holds g (of_preprocessor s ++ l) -> keeps l s (Preprocessor.upload image s g).
Proof.
  intros Hc H. unfold Preprocessor.upload. destruct (_ <? _); [done|].
  pose proof (stage_keeps (u64 (Preprocess.stride image * Preprocess.height image)) s l g Hc H) as H1.
  destruct (Preprocessor.stage _ s g) as [[[e|[]] s1] g1]; [done|]. pose proof (start_keeps s1 l g1 H1) as H2.
  destruct (Preprocessor.start_event s1 g1) as [[[e|[]] s2] g2]; [done|]. pose proof (end_keeps s2 l g2 H2) as H3.
  destruct (Preprocessor.end_event s2 g2) as [[[e|[]] s3] g3]; [done|].
  destruct (Preprocessor.calls _ g3) as [r g4] eqn:E. apply (calls_holds _ _ _ _ _ H3 E).
Qed.

Lemma preprocess_holds image e n s l g r s' g' : closed l -> holds g (of_preprocessor s ++ l) ->
  Preprocessor.run image e n s g = (r, s', g') -> holds g' (of_preprocessor s' ++ l).
Proof.
  intros Hc H. unfold Preprocessor.run. destruct (negb _); [by intros [= _ <- <-]|].
  destruct (Preprocessor.find_tensor _ _ _) as [t|]; [|by intros [= _ <- <-]]. destruct (negb _); [by intros [= _ <- <-]|].
  destruct (make_preprocess_plan _ _ _) as [[?|plan]|]; [by intros [= _ <- <-]| |by intros [= _ <- <-]].
  destruct (Engine.device_buffer n e), (Engine.get_stream e); try (by intros [= _ <- <-]).
  pose proof (upload_keeps image s l g Hc H) as H1. destruct (Preprocessor.upload image s g) as [[[?|[]] s1] g1]; by intros [= _ <- <-].
Qed.

(** A handle given back right after it was made. *)
Lemma undone c p l g : closed l -> (forall n, p = Some n -> n ∈ l.*1) -> holds g ((c, p) :: l) -> holds (release g c) l.
Proof.
  intros Hc Hp H. pose proof (holds_nodup _ _ H) as Hn. apply (release_holds c p); [done|]. cbn. rewrite not_elem_of_cons.
  split; [|apply (apart [(c, p)] l c Hn Hc); left]. intros E. cbn in Hn. apply NoDup_cons in Hn as [Hn _]. by apply Hn, Hp.
Qed.

Lemma engine_handle e n : Engine.engine e = Some n -> n ∈ (of_engine e).*1.
Proof. intros H. rewrite of_engine_handles, H. set_solver. Qed.

Section Load.
Context (e : Engine.State) (l : list (nat * option nat)).
Context (Hf : free l).

Lemma engine_closed : closed (of_engine e ++ l).
Proof. apply closed_app; [apply closed_engine|by apply closed_free]. Qed.
Lemma engine_within n : Engine.engine e = Some n -> n ∈ (of_engine e ++ l).*1.
Proof. intros H. rewrite fmap_app, elem_of_app. left. by apply engine_handle. Qed.

Lemma context_holds g r g' : holds g (of_engine e ++ l) -> make_context e g = (r, g') ->
  match r with None => holds g' (of_engine e ++ l) | Some c => holds g' ((c, Engine.engine e) :: of_engine e ++ l) end.
Proof.
  intros H. unfold make_context. destruct (create _ g) as [[error|c] g1] eqn:E; pose proof (create_holds _ _ _ _ _ H E) as H1;
    [by intros [= <- <-]|].
  assert (Hu : forall g2, holds g2 ((c, Engine.engine e) :: of_engine e ++ l) -> holds (release g2 c) (of_engine e ++ l)).
  { intros g2 H2. eapply undone; [apply engine_closed|apply engine_within|done]. }
  destruct (attempt g1) as [a g2] eqn:Ea. pose proof (attempt_holds _ _ _ _ H1 Ea) as H2.
  destruct (Engine.device_buffer "images" (Some e)), a as [?|[]]; try (intros [= <- <-]; by apply Hu).
  destruct (attempt g2) as [a g3] eqn:Eb. pose proof (attempt_holds _ _ _ _ H2 Eb) as H3.
  destruct (Engine.device_buffer "output0" (Some e)), a as [?|[]]; intros [= <- <-]; try done; by apply Hu.
Qed.

Lemma events_holds c g r g' : holds g ((c, Engine.engine e) :: of_engine e ++ l) -> make_events c g = (r, g') ->
  match r with
  | inl _ => holds g' (of_engine e ++ l)
  | inr (s, n) => holds g' ((n, None) :: (s, None) :: (c, Engine.engine e) :: of_engine e ++ l)
  end.
Proof.
  intros H. unfold make_events.
  destruct (create None g) as [[error|s] g1] eqn:E; pose proof (create_holds _ _ _ _ _ H E) as H1; cbn [Preprocessor.cuda_ok].
  { intros [= <- <-]. eapply undone; [apply engine_closed|apply engine_within|done]. }
  assert (Hc : closed ((c, Engine.engine e) :: of_engine e ++ l)).
  { intros h. cbn. rewrite !elem_of_cons. intros [Hh|Hh]; right; [by apply engine_within|by apply engine_closed]. }
  destruct (create None g1) as [[error|n] g2] eqn:E2; pose proof (create_holds _ _ _ _ _ H1 E2) as H2; cbn; intros [= <- <-]; [|done].
  eapply undone; [apply engine_closed|apply engine_within|]. apply (undone s None); [done|by intros|done].
Qed.

Lemma prepare_holds g r g' : holds g (of_engine e ++ l) -> prepare e g = (r, g') ->
  match r with
  | inl _ => holds g' (of_engine e ++ l)
  | inr s => holds g' (of_state (Some e) s ++ of_engine e ++ l) /\ exists o, yolo_tensors (Engine.tensors e) = Some o /\
      output s = info_bytes o / 4 /\ channels_ s = Preprocessor.dim o 1 /\ candidates_ s = Preprocessor.dim o 2
  end.
Proof.
  intros H. unfold prepare. destruct (yolo_tensors _) as [o|]; [|by intros [= <- <-]].
  destruct (make_context e g) as [[c|] g1] eqn:E1; pose proof (context_holds _ _ _ H E1) as H1; [|by intros [= <- <-]].
  destruct (make_events c g1) as [[error|[s n]] g2] eqn:E2; pose proof (events_holds _ _ _ _ H1 E2) as H2; [by intros [= <- <-]|].
  intros [= <- <-]. split; [|by exists o]. eapply holds_perm; [|exact H2]. cbn. constructor.
Qed.
End Load.

(** *** The detector *)

(** The shapes the detector was prepared with are those of its engine. *)
Definition shaped (e : Engine.State) (s : State) : Prop :=
  is_Some (Engine.engine e) /\ is_Some (Engine.stream e) /\ length (Engine.buffers e) = length (Engine.tensors e) /\
  exists o, yolo_tensors (Engine.tensors e) = Some o /\
    output s = info_bytes o / 4 /\ channels_ s = Preprocessor.dim o 1 /\ candidates_ s = Preprocessor.dim o 2.

Definition inv (d : YoloDetector) (g : Gpu) : Prop :=
  holds g (owned d) /\
  match state_ d, engine_ d with Some s, Some e => shaped e s /\ valid_config (config_ d) = true | None, None => True | _, _ => False end.

Lemma free_preprocessor s : free (of_preprocessor s).
Proof. apply free_leaf. Qed.

(** [state_.reset(); engine_.unload()]. *)
Lemma cleared d g : inv d g -> holds (Engine.unload (engine_ d) (reset (state_ d) g)) (of_preprocessor (preprocessor_ d)).
Proof.
  intros [H Hs]. unfold owned in H. destruct (state_ d) as [s|], (engine_ d) as [e|]; cbn in *; try done.
  apply engine_destroyed; [apply free_preprocessor|]. apply (state_destroyed (Some e)); [apply engine_closed, free_preprocessor| |done].
  intros n Hn. by apply engine_within.
Qed.

Lemma load_inv path x d g r d' g' : inv d g -> load path x d g = (r, d', g') ->
  inv d' g' /\ config_ d' = config_ d /\ (r = inr tt <-> loaded d' = true).
Proof.
  intros Hi. unfold load. pose proof (cleared d g Hi) as H. revert H. generalize (Engine.unload (engine_ d) (reset (state_ d) g)) as g1.
  clear g Hi. intros g H. assert (Hw : forall p g, holds g (of_preprocessor (preprocessor_ d)) ->
    inv (mkDetector p (config_ d) None (preprocessor_ d) None) g) by done.
  destruct (valid_config (config_ d)) eqn:Hv; cbn [negb]; [|intros [= <- <- <-]; split_and!; [by apply Hw|done..]].
  destruct (initialize_standard_plugins x (plugins d)) as [[error|[]] p]; [intros [= <- <- <-]; split_and!; [by apply Hw|done..]|].
  destruct (Engine.load _ _ _ _ _ None g) as [[error|e] g1] eqn:E;
    pose proof (engine_load_holds _ _ _ _ _ _ _ _ _ (free_preprocessor _) H E) as H1; [intros [= <- <- <-]; split_and!; [by apply Hw|done..]|].
  destruct H1 as (H1 & He & Hc & Hl & _). destruct (prepare e g1) as [[error|s] g2] eqn:E2;
    pose proof (prepare_holds e _ (free_preprocessor (preprocessor_ d)) _ _ _ H1 E2) as H2; intros [= <- <- <-].
  - split_and!; [|done|done]. apply Hw. apply engine_destroyed; [apply free_preprocessor|done].
  - destruct H2 as [H2 Ho]. by split_and!.
Qed.

Lemma infer_holds g l r g' : holds g l -> infer g = (r, g') -> holds g' l.
Proof.
  intros H. unfold infer. destruct (Preprocessor.calls _ g) as [[e|[]] g1] eqn:E1; pose proof (calls_holds _ _ _ _ _ H E1) as H1;
    [by intros [= _ <-]|]. destruct (attempt g1) as [[e|[]] g2] eqn:E2; pose proof (attempt_holds _ _ _ _ H1 E2) as H2; [by intros [= _ <-]|].
  by apply calls_holds.
Qed.

Lemma owned_closed d g : inv d g -> closed (from_option (of_state (engine_ d)) [] (state_ d) ++ from_option of_engine [] (engine_ d)).
Proof.
  intros [_ H]. destruct (state_ d) as [s|], (engine_ d) as [e|]; cbn; try done; [|by intros h Hh%not_elem_of_nil].
  intros h. cbn. rewrite !elem_of_cons. intros [[=]|[[=]|[Hh|Hh]]]; do 3 right; [by apply engine_handle|by apply closed_engine].
Qed.

Lemma run_inv image n computed d g r d' g' : inv d g -> run image n computed d g = (r, d', g') ->
  inv d' g' /\ state_ d' = state_ d /\ engine_ d' = engine_ d /\ config_ d' = config_ d.
Proof.
  intros Hi. pose proof (owned_closed d g Hi) as Hc. destruct Hi as [H Hs]. unfold run.
  destruct (state_ d) as [s|] eqn:Es; [|intros [= _ <- <-]; unfold inv; by rewrite Es].
  set (l := from_option (of_state (engine_ d)) [] (Some s) ++ from_option of_engine [] (engine_ d)) in *.
  destruct (Preprocessor.run image (engine_ d) "images" (preprocessor_ d) g) as [[planned p] g1] eqn:E.
  assert (H1 : holds g1 (of_preprocessor p ++ l)).
  { eapply preprocess_holds; [exact Hc| |exact E]. eapply holds_perm; [|exact H]. unfold owned. rewrite Es. unfold l.
    rewrite (Permutation_app_comm (of_preprocessor _)). by rewrite <- app_assoc. }
  assert (Hk : forall g2, holds g2 (of_preprocessor p ++ l) -> inv (mkDetector (plugins d) (config_ d) (engine_ d) p (Some s)) g2).
  { intros g2 H2. split; [|done]. eapply holds_perm; [|exact H2]. unfold owned. cbn [state_ engine_ preprocessor_]. unfold l.
    rewrite (Permutation_app_comm (of_preprocessor _)). by rewrite <- app_assoc. }
  destruct planned as [[error|plan]|]; [by intros [= _ <- <-]; split; [apply Hk|]| |by intros [= _ <- <-]; split; [apply Hk|]].
  destruct (infer g1) as [[error|[]] g2] eqn:E2; pose proof (infer_holds _ _ _ _ H1 E2) as H2; (intros [= _ <- <-]; split; [by apply Hk|done]).
Qed.

(** Any use of one detector. *)
Inductive use :=
  | Loads (path : string) (x : LoadEnv)
  | Runs (image : BgrImageView) (sequence : Z) (computed : list float32).

Definition apply_use (dg : YoloDetector * Gpu) (u : use) : YoloDetector * Gpu :=
  match u with
  | Loads path x => let '(_, d, g) := load path x dg.1 dg.2 in (d, g)
  | Runs image n computed => let '(_, d, g) := run image n computed dg.1 dg.2 in (d, g)
  end.
Definition uses (us : list use) (dg : YoloDetector * Gpu) : YoloDetector * Gpu := foldl apply_use dg us.

Lemma uses_inv us : forall d g, inv d g -> inv (uses us (d, g)).1 (uses us (d, g)).2.
Proof.
  induction us as [|u us IH]; intros d g H; [done|]. cbn [uses foldl]. destruct u as [path x|image n computed]; cbn [apply_use fst snd].
  - destruct (load path x d g) as [[r d1] g1] eqn:E. apply IH. by apply (load_inv _ _ _ _ _ _ _ H E).
  - destruct (run image n computed d g) as [[r d1] g1] eqn:E. apply IH. by apply (run_inv _ _ _ _ _ _ _ _ H E).
Qed.

Lemma destroyed d g : inv d g -> holds (destroy_detector d g) [].
Proof.
  intros [H Hs]. unfold destroy_detector. unfold owned in H.
  destruct (state_ d) as [s|], (engine_ d) as [e|]; cbn in *; try done.
  - apply engine_destroyed; [constructor|]. rewrite app_nil_r. apply preprocessor_destroyed; [apply closed_engine|].
    assert (H1 : holds (destroy s g) (of_engine e ++ of_preprocessor (preprocessor_ d))).
    { apply (state_destroyed (Some e)); [apply engine_closed, free_preprocessor| |done]. intros n Hn. by apply engine_within. }
    eapply holds_perm; [apply Permutation_app_comm|done].
  - apply preprocessor_destroyed; [by intros h Hh%not_elem_of_nil|by rewrite app_nil_r].
Qed.

(** C22.   The detector leaks nothing on the GPU and uses nothing it gave back: over any sequence of
    loads and runs, whichever CUDA and TensorRT calls fail, it holds exactly the handles of its
    current engine, context and buffers; nothing is released twice or before something that depends
    on it (the context goes before its engine, the engine before its runtime); and destroying it
    releases all. *)
Theorem gpu_resources_balanced us c answers :
  let '(d, g) := uses us (make_detector c, mkGpu [] 0 answers false) in
  misuse g = false /\ live g ≡ₚ owned d /\
  live (destroy_detector d g) = [] /\ misuse (destroy_detector d g) = false.
Proof.
  pose proof (uses_inv us (make_detector c) (mkGpu [] 0 answers false)) as H.
  destruct (uses us _) as [d g]. destruct H as [H Hs]; [split; [|done]; split_and!; [done|done|constructor|constructor]|].
  destruct (destroyed d g) as (H1 & H2 & _); [done|]. apply Permutation_nil_r in H2. destruct H as (? & ? & _). done.
Qed.

(** ** A loaded detector detects *)

Lemma attempt_quiet g : answers g = [] -> attempt g = (inr tt, g).
Proof. destruct g. cbn. intros ->. done. Qed.
Lemma create_quiet p g : answers g = [] -> exists h g', create p g = (inr h, g') /\ answers g' = [].
Proof. intros H. unfold create. rewrite attempt_quiet by done. eauto. Qed.
Lemma release_quiet hs : forall g, answers (release_all hs g) = answers g.
Proof. induction hs as [|h hs IH]; intros g; [done|]. apply (IH (release g h)). Qed.
Lemma calls_quiet os g : answers g = [] -> Preprocessor.calls os g = (inr tt, g).
Proof. intros H. induction os as [|o os IH]; [done|]. cbn [Preprocessor.calls]. by rewrite attempt_quiet. Qed.
Lemma infer_quiet g : answers g = [] -> infer g = (inr tt, g).
Proof. intros H. unfold infer. rewrite calls_quiet, attempt_quiet by done. by apply calls_quiet. Qed.

Lemma upload_quiet image s g : answers g = [] -> 0 < Preprocess.stride image <= int_max -> Preprocess.height image <= int_max ->
  exists s' g', Preprocessor.upload image s g = (inr tt, s', g') /\ answers g' = [].
Proof.
  intros Ha Hs Hh. unfold Preprocessor.upload. destruct (Z.ltb_spec (u64_max / Preprocess.stride image) (Preprocess.height image)) as [Hl|_].
  { pose proof (Z.mul_succ_div_gt u64_max (Preprocess.stride image)). nia. }
  assert (H1 : exists s1 g1, Preprocessor.stage (u64 (Preprocess.stride image * Preprocess.height image)) s g = (inr tt, s1, g1) /\ answers g1 = []).
  { unfold Preprocessor.stage. destruct (_ <? _); [|eauto].
    destruct (create_quiet None (release_all (option_list (Preprocessor.staging s)) g)) as (h & g1 & -> & ?); [by rewrite release_quiet|].
    cbn. eauto. }
  destruct H1 as (s1 & g1 & -> & H1).
  assert (H2 : exists s2 g2, Preprocessor.start_event s1 g1 = (inr tt, s2, g2) /\ answers g2 = []).
  { unfold Preprocessor.start_event. destruct (Preprocessor.start s1); [eauto|]. destruct (create_quiet None g1 H1) as (h & g2 & -> & ?). cbn. eauto. }
  destruct H2 as (s2 & g2 & -> & H2).
  assert (H3 : exists s3 g3, Preprocessor.end_event s2 g2 = (inr tt, s3, g3) /\ answers g3 = []).
  { unfold Preprocessor.end_event. destruct (Preprocessor.end_ s2); [eauto|]. destruct (create_quiet None g2 H2) as (h & g3 & -> & ?). cbn. eauto. }
  destruct H3 as (s3 & g3 & -> & H3). rewrite calls_quiet by done. eauto.
Qed.

Lemma buffer_found wanted b ts : forall bs t, Preprocessor.find_tensor wanted b ts = Some t -> length bs = length ts ->
  is_Some (Engine.buffer_of wanted ts bs).
Proof.
  induction ts as [|t' ts IH]; intros [|x bs] t Hf Hl; try done. cbn in *. case_bool_decide; [eauto|]. cbn in Hf. eauto.
Qed.

Lemma fle_flt a b : fle a b = true -> flt b a = false.
Proof. intros H. apply not_true_iff_false. intros H'. forder. Qed.

Lemma detector_config c : valid_config c = true -> Postprocess.valid_config c = true /\ 0 <= max_detections c.
Proof.
  unfold valid_config, Postprocess.valid_config. intros H. bools. split; [|lia].
  repeat match goal with H : fle _ _ = true |- _ => apply fle_flt in H end.
  apply negb_true_iff. repeat (apply orb_false_intro); try done; try (by apply negb_false_iff). lia.
Qed.

Lemma yolo_tensors_spec ts o : yolo_tensors ts = Some o ->
  exists i, Preprocessor.find_tensor "images" true ts = Some i /\ Preprocessor.nchw i = true /\
    0 < Preprocessor.dim i 2 <= int_max /\ 0 < Preprocessor.dim i 3 <= int_max /\
    4 < Preprocessor.dim o 1 <= int_max /\ 0 < Preprocessor.dim o 2 <= int_max /\
    info_bytes o / 4 = Preprocessor.dim o 1 * Preprocessor.dim o 2.
Proof.
  unfold yolo_tensors. destruct (Preprocessor.find_tensor "images" true ts) as [i|]; [|done].
  destruct (Preprocessor.find_tensor "output0" false ts) as [o'|]; [|done]. intros H. case_match eqn:E; [|done]. injection H as ->.
  unfold yolo_input, yolo_output in E. bools. exists i.
  rewrite (u64_small (Preprocessor.dim o 1)), (u64_small (Preprocessor.dim o 2)), u64_small in * by nia. split_and!; try done; try lia.
  unfold Preprocessor.nchw. rewrite !andb_true_iff. rewrite !bool_decide_eq_true, !Z.eqb_eq, !Z.leb_le. split_and!; done.
Qed.

Lemma plan_usable image w h plan : honest image -> 0 < w <= int_max -> 0 < h <= int_max ->
  make_preprocess_plan image w h = Some (inr plan) ->
  valid_plan plan = true /\ int_plan plan /\ 0 < Preprocess.stride image <= int_max /\ Preprocess.height image <= int_max.
Proof.
  intros Hi Hw Hh Hp. assert (Hv : validate_image image = inr tt).
  { unfold make_preprocess_plan in Hp. by destruct (validate_image image) as [?|[]]. }
  destruct (validate_image_ok image Hi Hv) as (d & _ & ? & ? & ? & _). destruct Hi as (I1 & I2 & I3 & _). unfold in_int in *. bools.
  apply make_preprocess_plan_fits in Hp as ((E1 & E2 & ? & ? & ? & ? & ? & ?) & E3 & E4 & _).
  unfold valid_plan, int_plan. rewrite !andb_true_iff, !Z.ltb_lt, !Z.leb_le. split_and!; lia.
Qed.

(** C23.   A loaded detector detects: once an engine was loaded, whatever happened before, an
    inference whose device calls succeed on an image with a plan returns detections: never an error
    of the postprocessing, whose checks the loaded shapes satisfy. They carry the number of the
    frame, are at most [max_detections], have a class of the engine and lie inside the frame. *)
Theorem loaded_detector_detects d g image n computed s t plan (Hi : inv d g) (Hs : state_ d = Some s)
    (Ht : Preprocessor.find_tensor "images" true (Engine.get_tensors (engine_ d)) = Some t) (Ha : answers g = [])
    (Hh : honest image) (Hp : make_preprocess_plan image (Preprocessor.dim t 3) (Preprocessor.dim t 2) = Some (inr plan))
    (Hc : Z.of_nat (length computed) = output s) :
  exists result d' g', run image n computed d g = (Some (inr result), d', g') /\ inv d' g' /\
    frame_sequence result = n /\ Z.of_nat (length (detections result)) <= max_detections (config_ d) /\
    Forall (fun x => 0 <= class_id x < channels_ s - 4 /\ in_frame plan x) (detections result).
Proof.
  pose proof Hi as [_ He]. rewrite Hs in He. destruct (engine_ d) as [e|] eqn:Ee; [|done].
  destruct He as ((_ & [st Hst] & Hb & o & Ho & E1 & E2 & E3) & Hv). cbn [Engine.get_tensors] in Ht.
  destruct (yolo_tensors_spec _ _ Ho) as (i & Hfi & Hn & Hd2 & Hd3 & Hc1 & Hc2 & Hbytes). rewrite Hfi in Ht. injection Ht as ->.
  destruct (plan_usable _ _ _ _ Hh Hd3 Hd2 Hp) as (Hvp & Hip & Hstr & Hhei).
  destruct (upload_quiet image (preprocessor_ d) g Ha Hstr Hhei) as (p & g1 & Hu & Ha1).
  assert (Er : Preprocessor.run image (engine_ d) "images" (preprocessor_ d) g = (Some (inr plan), p, g1)).
  { unfold Preprocessor.run. rewrite Ee. cbn [Engine.loaded Engine.get_tensors]. rewrite Hfi, Hn, Hp. cbn.
    destruct (buffer_found _ _ _ _ _ Hfi Hb) as [bf ->]. rewrite Hst, Hu. done. }
  set (view := mkView (Some computed) (output s) (channels_ s) (candidates_ s)).
  assert (Hview : honest_view view).
  { unfold honest_view, view, in_int. cbn. rewrite E2, E3. split_and!; [| |lia]; rewrite andb_true_iff, !Z.leb_le; lia. }
  assert (Hval : valid_output view = true).
  { unfold valid_output, view. cbn. rewrite E1, E2, E3, Hbytes, u64_small by nia. apply negb_true_iff.
    repeat apply orb_false_intro; try done; [lia|lia| |by rewrite Z.eqb_refl].
    apply Z.ltb_ge. apply Z.div_le_lower_bound; nia. }
  destruct (detector_config _ Hv) as [Hpc Hmax].
  destruct (postprocess_cases view plan (config_ d) n Hview Hval Hvp Hpc Hmax) as (_ & _ & kept & _ & _ & _ & Hpost & _).
  pose proof (detections_well_formed view plan (config_ d) n _ Hview Hip Hmax Hpost) as (W1 & W2 & _ & W3).
  assert (Hrun : run image n computed d g = (Some (inr (mkDetectionResult n (restore plan <$> kept))),
    mkDetector (plugins d) (config_ d) (engine_ d) p (state_ d), g1)).
  { unfold run. rewrite Hs, Er, infer_quiet by done. cbn [config_]. fold view. by rewrite Hpost. }
  eexists _, _, _. split; [exact Hrun|]. split; [by apply (run_inv _ _ _ _ _ _ _ _ Hi Hrun)|]. split; [done|]. split; [exact W2|].
  eapply Forall_impl; [exact W3|]. cbn. intros x (? & _ & _ & ? & _). done.
Qed.

(** *** An engine with one class and one candidate *)

Definition sample_io : list Engine.IoTensor :=
  [Engine.mkIo (Some "images") (Some true) (Some [1; 3; 4; 4]) Engine.kFLOAT true true (-1);
   Engine.mkIo (Some "output0") (Some false) (Some [1; 5; 1]) Engine.kFLOAT true true (-1)].
Definition sample_load : LoadEnv := mkLoad true "" (Engine.mkEngineFile (Some 1000) true) sample_io "" "yolo".
Definition sample_use : use := Loads "yolo.engine" sample_load.
Definition sample_detector : YoloDetector * Gpu :=
  uses [sample_use] (make_detector sample_config, mkGpu [] 0 [] false).
Definition sample_output : list float32 := f32_of_Z <$> [2; 2; 2; 1; 1].

Lemma sample_inv : inv sample_detector.1 sample_detector.2.
Proof. apply uses_inv. split; [|done]. split_and!; [done|done|constructor|constructor]. Qed.

Lemma loaded_detector_detects_witness : exists result d' g',
  run sample_image 7 sample_output sample_detector.1 sample_detector.2 = (Some (inr result), d', g') /\
  frame_sequence result = 7 /\ length (live g') = 11%nat.
Proof.
  destruct (loaded_detector_detects sample_detector.1 sample_detector.2 sample_image 7 sample_output
    (mkState 5 6 7 5 5 1) (mkInfo "images" true [1; 3; 4; 4] "FP32" 192) sample_plan) as (result & d' & g' & H1 & _ & H2 & _).
  - exact sample_inv.
  - by vm_compute.
  - by vm_compute.
  - by vm_compute.
  - vm_compute. split_and!; try done; by intros [=].
  - by vm_compute.
  - by vm_compute.
  - exists result, d', g'. split; [exact H1|]. split; [exact H2|]. apply (f_equal snd) in H1. cbn [snd] in H1. rewrite <- H1. by vm_compute.
Defined.
End Account.
