(* ===== verification/AlertRepository.v ===== *)
(** * Alert repository ([src/storage/alert_repository.cpp], [src/storage/database.cpp])

    The tables of migration v1 are lists of rows.  SQLite is seen through the
    statements the source sends it: a statement that the tables' constraints
    reject, or that the fault oracle makes fail, returns an error with its code;
    otherwise it has the effect SQL gives it.  [BEGIN IMMEDIATE], [COMMIT] and
    [ROLLBACK] work on a copy of the tables, which only [COMMIT] installs. *)

From S2P Require Import Prelude Strings Floats ConfigData.
From Stdlib Require Import OrdersEx.

Module Repository.
Import Gps.

Record AlertDetection := mkAlertDetection {
  class_id : Z;
  class_name : string;
  confidence : float64;
  x1 : float64;
  y1 : float64;
  x2 : float64;
  y2 : float64;
}.

Record AlertEvent := mkAlert {
  id : string;
  timestamp_ms : Z;
  gps : option GpsFix;
  snapshot_path : string;
  frame_sequence : Z;
  model_version : option string;
  detections : list AlertDetection;
}.

(** A row of [alerts]; a [REAL] column may be [NULL]. *)
Record AlertRow := mkRow {
  row_id : string;
  row_timestamp_ms : Z;
  row_latitude : option float64;
  row_longitude : option float64;
  row_altitude_m : option float64;
  row_gps_valid : Z;
  row_gps_source : string;
  row_snapshot_path : string;
  row_frame_sequence : Z;
  row_model_version : option string;
}.

(** A row of [detections], without its [AUTOINCREMENT] key, which is its
    position in the table. *)
Record DetectionRow := mkDetectionRow {
  alert_id : string;
  detection : AlertDetection;
}.

Record Tables := mkTables {
  alerts : list AlertRow;
  detection_rows : list DetectionRow;
}.

(** What the oracle answers for one SQLite call: [None] is success, otherwise
    the extended error code and the message. *)
Abbreviation fault := (option (Z * string)).

Record Database := mkDatabase {
  connection_ : bool;
  tables : Tables;
  operational_error_ : string;
  faults : list fault;
}.

Definition next_fault (d : Database) : fault * Database :=
  match faults d with
  | [] => (None, d)
  | f :: rest => (f, mkDatabase (connection_ d) (tables d) (operational_error_ d) rest)
  end.

Definition set_tables (t : Tables) (d : Database) : Database :=
  mkDatabase (connection_ d) t (operational_error_ d) (faults d).

(** SQLITE_FULL, IOERR, READONLY, CORRUPT, NOTADB, CANTOPEN and PERM. *)
Definition record_operational_error_locked (code : Z) (error : string) (d : Database) : Database :=
  if bool_decide (Z.land code 255 ∈ [13; 10; 8; 11; 26; 14; 3]) then
    mkDatabase (connection_ d) (tables d) error (faults d)
  else d.

Definition health_error (d : Database) : string :=
  if connection_ d then operational_error_ d else "database closed".

(** ** Writing *)

(** [sqlite3_bind_double]: SQLite stores a NaN as [NULL]. *)
Definition bind_double (x : float64) : option float64 := if is_nan x then None else Some x.

Definition gps_valid (alert : AlertEvent) : bool :=
  match gps alert with Some fix_ => valid fix_ | None => false end.

Definition row_of (alert : AlertEvent) : AlertRow :=
  match gps alert with
  | Some f =>
    if valid f then
      mkRow (id alert) (timestamp_ms alert) (bind_double (fix_latitude f)) (bind_double (fix_longitude f))
        (bind_double (fix_altitude_m f)) 1 (source f) (snapshot_path alert) (frame_sequence alert)
        (model_version alert)
    else mkRow (id alert) (timestamp_ms alert) None None None 0 "none" (snapshot_path alert)
           (frame_sequence alert) (model_version alert)
  | None => mkRow (id alert) (timestamp_ms alert) None None None 0 "none" (snapshot_path alert)
              (frame_sequence alert) (model_version alert)
  end.

(** The constraints of the two tables. *)
Definition alert_violation (t : Tables) (r : AlertRow) : fault :=
  if bool_decide (row_id r ∈ row_id <$> alerts t) then Some (1555, "UNIQUE constraint failed: alerts.id")
  else None.

Definition detection_violation (d : AlertDetection) : fault :=
  if bool_decide (class_name d = "") then Some (275, "CHECK constraint failed: length(class_name) > 0")
  else if existsb is_nan [confidence d; x1 d; y1 d; x2 d; y2 d] then
    Some (1299, "NOT NULL constraint failed")
  else None.

(** The error of a call: the oracle's, or else the violated constraint's. *)
Definition combine (oracle violation : fault) : fault :=
  match oracle with Some e => Some e | None => violation end.

(** The detection loop of [insert], on the transaction's copy of the tables. *)
Fixpoint insert_detections (alert : string) (ds : list AlertDetection) (t : Tables) (d : Database)
    : (Z * string + Tables) * Database :=
  match ds with
  | [] => (inr t, d)
  | x :: rest =>
    let '(f, d) := next_fault d in
    match combine f (detection_violation x) with
    | Some e => (inl e, d)
    | None =>
      insert_detections alert rest (mkTables (alerts t) (detection_rows t ++ [mkDetectionRow alert x])) d
    end
  end.

(** [fail()]: record the error and roll back; the outcome of [ROLLBACK] is
    ignored and the transaction's copy is dropped. *)
Definition fail (e : Z * string) (d : Database) : throws unit * Database :=
  let d := record_operational_error_locked e.1 e.2 d in
  let '(_, d) := next_fault d in
  (throw e.2, d).

Definition insert (alert : AlertEvent) (d : Database) : throws unit * Database :=
  if negb (connection_ d) then (throw "database is not open", d)
  else if bool_decide (id alert = "") || bool_decide (snapshot_path alert = "") ||
          (9223372036854775807 <? frame_sequence alert) then
    (throw "alert id, snapshot path, and signed frame sequence are required", d)
  else
    (* BEGIN IMMEDIATE *)
    match next_fault d with
    | (Some e, d) => (throw e.2, record_operational_error_locked e.1 e.2 d)
    | (None, d) =>
      (* prepare and step of the alert row *)
      match next_fault d with
      | (Some e, d) => fail e d
      | (None, d) =>
        let '(f, d) := next_fault d in
        match combine f (alert_violation (tables d) (row_of alert)) with
        | Some e => fail e d
        | None =>
          let t := mkTables (alerts (tables d) ++ [row_of alert]) (detection_rows (tables d)) in
          (* prepare of the detection insert *)
          match next_fault d with
          | (Some e, d) => fail e d
          | (None, d) =>
            match insert_detections (id alert) (detections alert) t d with
            | (inl e, d) => fail e d
            | (inr t, d) =>
              (* COMMIT *)
              match next_fault d with
              | (Some e, d) => fail e d
              | (None, d) => (inr tt, set_tables t d)
              end
            end
          end
        end
      end
    end.

(** [DELETE FROM alerts WHERE id = ?], with [ON DELETE CASCADE]; [true] when
    exactly one row was deleted. *)
Definition delete_id (i : string) (t : Tables) : Tables :=
  mkTables (List.filter (fun r => negb (bool_decide (row_id r = i))) (alerts t))
    (List.filter (fun r => negb (bool_decide (alert_id r = i))) (detection_rows t)).

Definition remove (i : string) (d : Database) : throws bool * Database :=
  if negb (connection_ d) then (throw "database is not open", d)
  else
    match next_fault d with
    | (Some e, d) => (throw e.2, record_operational_error_locked e.1 e.2 d)
    | (None, d) =>
      match next_fault d with
      | (Some e, d) => (throw e.2, record_operational_error_locked e.1 e.2 d)
      | (None, d) =>
        let t := delete_id i (tables d) in
        (inr (length (alerts (tables d)) =? S (length (alerts t)))%nat, set_tables t d)
      end
    end.

(** ** Reading *)

(** [sqlite3_column_double] of a [NULL] is zero. *)
Definition column_double (x : option float64) : float64 := default f64_zero x.

(** A fix read back has only the fields of the brace initialization. *)
Definition read_alert (r : AlertRow) : AlertEvent :=
  mkAlert (row_id r) (row_timestamp_ms r)
    (if negb (row_gps_valid r =? 0) then
       Some (mkFix true (row_gps_source r) (column_double (row_latitude r))
               (column_double (row_longitude r)) (column_double (row_altitude_m r)) f64_zero 0 0)
     else None)
    (row_snapshot_path r) (row_frame_sequence r) (row_model_version r) [].

Definition detections_of (i : string) (t : Tables) : list AlertDetection :=
  detection <$> List.filter (fun r => bool_decide (alert_id r = i)) (detection_rows t).

Definition with_detections (t : Tables) (a : AlertEvent) : AlertEvent :=
  mkAlert (id a) (timestamp_ms a) (gps a) (snapshot_path a) (frame_sequence a) (model_version a)
    (detections_of (id a) t).

(** Reading [n] rows makes [n] calls that can fail ([read_detections]). *)
Fixpoint read_faults (n : nat) (d : Database) : fault * Database :=
  match n with
  | O => (None, d)
  | S n => match next_fault d with
           | (Some e, d) => (Some e, d)
           | (None, d) => read_faults n d
           end
  end.

(** [query_alerts]: prepare, step through the rows, then their detections. *)
Definition query_alerts (select : Tables -> list AlertRow) (d : Database)
    : throws (list AlertEvent) * Database :=
  match next_fault d with
  | (Some e, d) => (throw e.2, d)
  | (None, d) =>
    match next_fault d with
    | (Some e, d) => (throw e.2, d)
    | (None, d) =>
      let rows := select (tables d) in
      match read_faults (length rows) d with
      | (Some e, d) => (throw e.2, d)
      | (None, d) => (inr ((fun r => with_detections (tables d) (read_alert r)) <$> rows), d)
      end
    end
  end.

Definition bounded_limit (limit : Z) : Z := if int_max <? limit then int_max else limit.

(** Text is compared byte by byte. *)
Definition str_ltb (a b : string) : bool := bool_decide (String_as_OT.compare a b = Lt).

(** [ORDER BY timestamp_ms DESC, id DESC]: [newer a b] when [a] comes first. *)
Definition newer (a b : AlertRow) : bool :=
  (row_timestamp_ms b <? row_timestamp_ms a) ||
  ((row_timestamp_ms a =? row_timestamp_ms b) && str_ltb (row_id b) (row_id a)).
Definition older (a b : AlertRow) : bool := newer b a.

Definition limit_rows (limit : Z) (rows : list AlertRow) : list AlertRow :=
  take (Z.to_nat (bounded_limit limit)) rows.

Definition recent_rows (limit : Z) (t : Tables) : list AlertRow :=
  limit_rows limit (stable_sort newer (alerts t)).

Definition excess_rows (keep : Z) (t : Tables) : list AlertRow :=
  stable_sort older (List.filter (fun r => negb (bool_decide (row_id r ∈ row_id <$> recent_rows keep t)))
                       (alerts t)).

Definition time_range_rows (from_ms to_ms limit : Z) (t : Tables) : list AlertRow :=
  limit_rows limit (stable_sort newer
    (List.filter (fun r => (from_ms <=? row_timestamp_ms r) && (row_timestamp_ms r <=? to_ms)) (alerts t))).

Definition class_rows (class : string) (limit : Z) (t : Tables) : list AlertRow :=
  limit_rows limit (stable_sort newer
    (List.filter (fun r => existsb (fun d => bool_decide (alert_id d = row_id r) &&
                                             bool_decide (class_name (detection d) = class))
                             (detection_rows t)) (alerts t))).

Definition when_open {A} (d : Database) (k : throws A * Database) : throws A * Database :=
  if connection_ d then k else (throw "database is not open", d).

Definition find_recent (limit : Z) (d : Database) := when_open d (query_alerts (recent_rows limit) d).
Definition find_oldest_excess (keep : Z) (d : Database) := when_open d (query_alerts (excess_rows keep) d).
Definition find_by_class (class : string) (limit : Z) (d : Database) :=
  when_open d (query_alerts (class_rows class limit) d).
Definition find_by_time_range (from_ms to_ms limit : Z) (d : Database) :=
  when_open d (if to_ms <? from_ms then (throw "from must not exceed to", d)
               else query_alerts (time_range_rows from_ms to_ms limit) d).

Definition find_by_id (i : string) (d : Database) : throws (option AlertEvent) * Database :=
  when_open d (
    match next_fault d with
    | (Some e, d) => (throw e.2, d)
    | (None, d) =>
      match next_fault d with
      | (Some e, d) => (throw e.2, d)
      | (None, d) =>
        match List.find (fun r => bool_decide (row_id r = i)) (alerts (tables d)) with
        | None => (inr None, d)
        | Some r =>
          match next_fault d with
          | (Some e, d) => (throw e.2, d)
          | (None, d) => (inr (Some (with_detections (tables d) (read_alert r))), d)
          end
        end
      end
    end).

Definition count (d : Database) : throws Z * Database :=
  when_open d (
    match next_fault d with
    | (Some e, d) => (throw e.2, d)
    | (None, d) => match next_fault d with
                   | (Some e, d) => (throw e.2, d)
                   | (None, d) => (inr (Z.of_nat (length (alerts (tables d)))), d)
                   end
    end).

(** ** Faults do not touch the tables *)

Lemma next_fault_spec d f d' : next_fault d = (f, d') ->
  tables d' = tables d /\ connection_ d' = connection_ d /\ (faults d = [] -> f = None /\ d' = d).
Proof. unfold next_fault. destruct (faults d); intros [= <- <-]; naive_solver. Qed.

Lemma record_tables c e d : tables (record_operational_error_locked c e d) = tables d.
Proof. unfold record_operational_error_locked. by case_bool_decide. Qed.

Lemma fail_tables e d : exists d', fail e d = (throw e.2, d') /\ tables d' = tables d.
Proof.
  unfold fail. destruct (next_fault _) as [f d'] eqn:E. apply next_fault_spec in E as (E & _).
  eexists; split; [done|]. by rewrite E, record_tables.
Qed.

Lemma insert_detections_spec i ds t d :
  match insert_detections i ds t d with
  | (inr t', d') => tables d' = tables d /\ connection_ d' = connection_ d /\ Forall (fun x => detection_violation x = None) ds /\
      t' = mkTables (alerts t) (detection_rows t ++ (mkDetectionRow i <$> ds))
  | (inl _, d') => tables d' = tables d
  end.
Proof.
  revert t d; induction ds as [|x ds IH]; intros t d; simpl.
  { split_and!; [done|done|constructor|]. rewrite app_nil_r. by destruct t. }
  destruct (next_fault d) as [f d1] eqn:E. apply next_fault_spec in E as (E & EC & _).
  destruct (combine f (detection_violation x)) eqn:Ec; [done|].
  assert (detection_violation x = None) by (unfold combine in Ec; by destruct f).
  specialize (IH (mkTables (alerts t) (detection_rows t ++ [mkDetectionRow i x])) d1).
  destruct (insert_detections _ _ _ _) as [[e|t'] d'].
  - by rewrite IH.
  - destruct IH as (-> & -> & ? & ->). simpl. rewrite <- app_assoc. split_and!; auto.
Qed.

(** Step over the next oracle answer of an [insert]. *)
Local Ltac oracle :=
  match goal with |- context [next_fault ?d] =>
    let f := fresh "f" in let d' := fresh "d" in let E := fresh "E" in
    destruct (next_fault d) as [f d'] eqn:E; let EC := fresh "EC" in
    apply next_fault_spec in E as (E & EC & _) end.

Lemma insert_spec alert d :
  match insert alert d with
  | (inr _, d') => connection_ d' = true /\ row_id (row_of alert) ∉ row_id <$> alerts (tables d) /\
      tables d' = mkTables (alerts (tables d) ++ [row_of alert])
                    (detection_rows (tables d) ++ (mkDetectionRow (id alert) <$> detections alert))
  | (inl _, d') => tables d' = tables d
  end.
Proof.
  unfold insert. destruct (connection_ d) eqn:Ed; [|done]. cbn [negb]. destruct (_ || _); [done|].
  oracle. destruct f as [e|]; [by rewrite record_tables|].
  oracle. destruct f as [e|]; [destruct (fail_tables e d1) as (? & -> & ->); congruence|].
  oracle. destruct (combine _ _) as [e|] eqn:Ec; [destruct (fail_tables e d2) as (? & -> & ->); congruence|].
  assert (Hv : alert_violation (tables d2) (row_of alert) = None) by (unfold combine in Ec; by destruct f).
  unfold alert_violation in Hv. case_bool_decide as Hin; [done|].
  oracle. destruct f0 as [e|]; [destruct (fail_tables e d3) as (? & -> & ->); congruence|].
  pose proof (insert_detections_spec (id alert) (detections alert)
    (mkTables (alerts (tables d2) ++ [row_of alert]) (detection_rows (tables d2))) d3) as Hi.
  destruct (insert_detections _ _ _ _) as [[e|t'] d4].
  { destruct (fail_tables e d4) as (? & -> & ->). congruence. }
  destruct Hi as (E4 & EC4 & _ & ->). oracle.
  destruct f0 as [e|]; [destruct (fail_tables e d5) as (? & -> & ->); congruence|].
  simpl. replace (tables d2) with (tables d) in * by congruence.
  split_and!; [congruence|done..].
Qed.

Lemma row_of_id alert : row_id (row_of alert) = id alert.
Proof. unfold row_of. destruct (gps alert) as [f|]; [by destruct (valid f)|done]. Qed.

(** ** Integrity *)

Definition wf (t : Tables) : Prop :=
  NoDup (row_id <$> alerts t) /\
  Forall (fun r => alert_id r ∈ row_id <$> alerts t) (detection_rows t).

#[export] Instance wf_dec t : Decision (wf t).
Proof. unfold wf. apply _. Defined.

Lemma wf_delete i t : wf t -> wf (delete_id i t).
Proof.
  intros [Hn Hf]. split; simpl.
  - eapply sublist_NoDup; [exact Hn|]. clear.
    induction (alerts t) as [|r l IH]; simpl; [constructor|]. destruct (negb _); by constructor.
  - rewrite Forall_forall in Hf |- *. intros r Hr.
    apply list_elem_of_In, filter_In in Hr as [Hr Hne]. bools.
    apply list_elem_of_In, Hf, list_elem_of_fmap in Hr as (a & Ha & Hin).
    apply list_elem_of_fmap. exists a. split; [done|].
    apply list_elem_of_In, filter_In. split; [by apply list_elem_of_In|].
    apply negb_true_iff, bool_decide_eq_false. congruence.
Qed.

Lemma remove_tables i d :
  tables (remove i d).2 = tables d \/
  exists b, (remove i d).1 = inr b /\ tables (remove i d).2 = delete_id i (tables d) /\
    b = (length (alerts (tables d)) =? S (length (alerts (delete_id i (tables d)))))%nat.
Proof.
  unfold remove. destruct (negb (connection_ d)); [by left|].
  oracle. destruct f as [e|]; [left; simpl; by rewrite record_tables|].
  oracle. destruct f as [e|]; [left; simpl; rewrite record_tables; congruence|].
  right. simpl. replace (tables d1) with (tables d) by congruence. eauto.
Qed.

(** ** Order *)

Lemma str_ltb_spec a b : str_ltb a b = true <-> String_as_OT.lt a b.
Proof. unfold str_ltb, String_as_OT.lt. by rewrite bool_decide_eq_true. Qed.

Lemma str_ltb_total a b : a <> b -> str_ltb a b = false -> str_ltb b a = true.
Proof.
  intros Hne. rewrite <- not_true_iff_false, !str_ltb_spec.
  destruct (String_as_OT.compare_spec a b); [done|tauto|done].
Qed.

Lemma str_ltb_asym a b : str_ltb a b = true -> str_ltb b a = false.
Proof.
  rewrite <- not_true_iff_false, !str_ltb_spec. intros H1 H2.
  eapply StrictOrder_Irreflexive. etransitivity; [exact H1|exact H2].
Qed.

Lemma str_ltb_trans a b c : str_ltb a b = true -> str_ltb b c = true -> str_ltb a c = true.
Proof. rewrite !str_ltb_spec. intros. etransitivity; eauto. Qed.

Lemma newer_asym a b : newer a b = true -> newer b a = false.
Proof.
  unfold newer. destruct (Z.ltb_spec (row_timestamp_ms b) (row_timestamp_ms a)),
    (Z.ltb_spec (row_timestamp_ms a) (row_timestamp_ms b)),
    (Z.eqb_spec (row_timestamp_ms a) (row_timestamp_ms b)),
    (Z.eqb_spec (row_timestamp_ms b) (row_timestamp_ms a)); simpl; try lia; try done.
  apply str_ltb_asym.
Qed.

Lemma newer_not a b : newer a b = false <->
  row_timestamp_ms a < row_timestamp_ms b \/
  row_timestamp_ms a = row_timestamp_ms b /\ str_ltb (row_id b) (row_id a) = false.
Proof.
  unfold newer. destruct (Z.ltb_spec (row_timestamp_ms b) (row_timestamp_ms a)),
    (Z.eqb_spec (row_timestamp_ms a) (row_timestamp_ms b)); simpl; try (split; [done|lia]).
  - split; [auto|]. intros [?|[]]; [lia|done].
  - split; [lia|done].
Qed.

(** [le_text a b]: [b] is not below [a]. *)
Lemma str_not_trans a b c : str_ltb b a = false -> str_ltb c b = false -> str_ltb c a = false.
Proof.
  intros H1 H2. destruct (str_ltb c a) eqn:E; [|done]. exfalso.
  destruct (decide (a = b)) as [->|Hne]; [congruence|].
  pose proof (str_ltb_total b a ltac:(done) H1) as H. rewrite (str_ltb_trans c a b E H) in H2. done.
Qed.

Lemma before_newer_trans a b c : before newer a b -> before newer b c -> before newer a c.
Proof.
  unfold before. rewrite !newer_not. intros [H1|[H1 S1]] [H2|[H2 S2]]; try (left; lia).
  right. split; [lia|]. by eapply str_not_trans.
Qed.

Lemma sorted_newer l : StronglySorted (before newer) (stable_sort newer l).
Proof. apply stable_sort_sorted; [apply newer_asym|apply before_newer_trans]. Qed.

Lemma sorted_older l : StronglySorted (before older) (stable_sort older l).
Proof.
  apply stable_sort_sorted; [intros a b; apply newer_asym|].
  unfold before, older. intros a b c H1 H2. by eapply (before_newer_trans c b a).
Qed.

Lemma before_newer_both a b : before newer a b -> before newer b a -> row_id a = row_id b.
Proof.
  unfold before. rewrite !newer_not. intros [?|[? S1]] [?|[? S2]]; try lia.
  destruct (decide (row_id a = row_id b)) as [|Hne]; [done|].
  rewrite (str_ltb_total _ _ Hne) in S2; done.
Qed.

Lemma sorted_reverse l : StronglySorted (before newer) l -> StronglySorted (before older) (reverse l).
Proof.
  induction 1 as [|x l Hs IH Hx]; [constructor|]. rewrite reverse_cons.
  assert (Hr : Forall (fun y => before older y x) (reverse l)) by (by apply Forall_reverse).
  clear -IH Hr. induction IH as [|y k Hk IHk Hy]; simpl; [repeat constructor|].
  apply Forall_cons in Hr as [??]. constructor; [auto|]. apply Forall_app. auto.
Qed.

Lemma NoDup_row_inj l a b : NoDup (row_id <$> l) -> a ∈ l -> b ∈ l -> row_id a = row_id b -> a = b.
Proof.
  induction l as [|x l IH]; [set_solver|]. rewrite fmap_cons, NoDup_cons, !elem_of_cons.
  intros [Hx Hn] [->|Ha] [->|Hb] E; auto; exfalso; apply Hx.
  - rewrite E. by apply list_elem_of_fmap_2.
  - rewrite <- E. by apply list_elem_of_fmap_2.
Qed.

(** The rows outside the newest [keep], oldest first. *)
Lemma excess_rows_eq keep t : wf t ->
  excess_rows keep t =
    reverse (drop (Z.to_nat (bounded_limit keep)) (stable_sort newer (alerts t))).
Proof.
  intros [Hn _]. unfold excess_rows, recent_rows, limit_rows.
  set (k := Z.to_nat (bounded_limit keep)). set (s := stable_sort newer (alerts t)).
  assert (Hp : s ≡ₚ alerts t) by apply stable_sort_perm.
  assert (Hns : NoDup (row_id <$> s)) by (by rewrite Hp).
  set (P := fun r => negb (bool_decide (row_id r ∈ row_id <$> take k s))).
  assert (Hf : List.filter P (alerts t) ≡ₚ drop k s).
  { transitivity (List.filter P s).
    - by apply filter_perm.
    - rewrite <- (take_drop k s), fmap_app in Hns. apply NoDup_app in Hns as (_ & Hd & _).
      rewrite <- (take_drop k s) at 1. rewrite List.filter_app.
      assert (E1 : List.filter P (take k s) = []).
      { apply filter_none. intros r Hr. unfold P.
        rewrite bool_decide_true; [done|]. by apply list_elem_of_fmap_2. }
      assert (E2 : List.filter P (drop k s) = drop k s).
      { apply forallb_filter_id, forallb_forall. intros r Hr%list_elem_of_In. unfold P.
        apply negb_true_iff, bool_decide_eq_false. intros Hin. apply (Hd (row_id r) Hin).
        by apply list_elem_of_fmap_2. }
      by rewrite E1, E2. }
  apply (StronglySorted_unique_strong (before older)).
  - intros a b Ha Hb H1 H2.
    assert (a ∈ s) by (rewrite Hp; rewrite stable_sort_perm, list_elem_of_In, filter_In, <- list_elem_of_In in Ha; tauto).
    assert (b ∈ s) by (rewrite elem_of_reverse in Hb; rewrite <- (take_drop k s); set_solver).
    apply (NoDup_row_inj s); auto. by apply before_newer_both.
  - apply sorted_older.
  - apply sorted_reverse. eapply sublist_sorted; [apply sublist_drop|apply sorted_newer].
  - rewrite stable_sort_perm, reverse_Permutation. exact Hf.
Qed.

(** ** What a reader gets *)

(** An alert as it comes back: an invalid fix is dropped, a valid one keeps its
    source and position, a coordinate that is not a number reads as zero. *)
Definition stored (a : AlertEvent) : AlertEvent :=
  mkAlert (id a) (timestamp_ms a)
    (match gps a with
     | Some f => if valid f then
         Some (mkFix true (source f) (column_double (bind_double (fix_latitude f)))
                 (column_double (bind_double (fix_longitude f)))
                 (column_double (bind_double (fix_altitude_m f))) f64_zero 0 0)
       else None
     | None => None
     end) (snapshot_path a) (frame_sequence a) (model_version a) (detections a).

Lemma read_row_of a : read_alert (row_of a) =
  mkAlert (id a) (timestamp_ms a) (gps (stored a)) (snapshot_path a) (frame_sequence a) (model_version a) [].
Proof. unfold read_alert, row_of, stored. destruct (gps a) as [f|]; simpl; [by destruct (valid f)|done]. Qed.

Lemma find_app_new {A} (P : A -> bool) l x : (forall y, y ∈ l -> P y = false) -> P x = true ->
  List.find P (l ++ [x]) = Some x.
Proof.
  intros Hl Hx. induction l as [|y l IH]; simpl; [by rewrite Hx|]. rewrite (Hl y) by set_solver.
  apply IH. set_solver.
Qed.

Lemma detections_of_new i ds t : wf t -> i ∉ row_id <$> alerts t ->
  detections_of i (mkTables (alerts t) (detection_rows t ++ (mkDetectionRow i <$> ds))) = ds.
Proof.
  intros [_ Hf] Hi. unfold detections_of. cbn [detection_rows]. rewrite List.filter_app, filter_none.
  - induction ds as [|x ds IH]; [done|]. simpl. rewrite bool_decide_true by done. by f_equal/=.
  - intros r Hr. rewrite Forall_forall in Hf. apply bool_decide_eq_false. intros <-.
    by apply Hi, Hf.
Qed.

(** [insert] is all or nothing whatever SQLite call fails: on failure the tables are those it found;
    on success the alert's row and all of its detections were added, no other row changed, and
    [find_by_id] reads the alert back, up to the GPS fields the table does not keep. *)
Theorem insert_read_back alert d : wf (tables d) ->
  match insert alert d with
  | (inr _, d') =>
      tables d' = mkTables (alerts (tables d) ++ [row_of alert])
                    (detection_rows (tables d) ++ (mkDetectionRow (id alert) <$> detections alert)) /\
      (faults d' = [] -> find_by_id (id alert) d' = (inr (Some (stored alert)), d'))
  | (inl _, d') => tables d' = tables d
  end.
Proof.
  intros Hwf. pose proof (insert_spec alert d) as H.
  destruct (insert alert d) as [[e|u] d']; [done|]. destruct H as (Hc & Hnew & Ht).
  split; [done|]. intros Hno. rewrite row_of_id in Hnew.
  assert (En : next_fault d' = (None, d')) by (unfold next_fault; by rewrite Hno).
  unfold find_by_id, when_open. rewrite Hc, En. cbn beta iota. rewrite En. cbn beta iota.
  rewrite Ht. cbn [alerts]. rewrite find_app_new; [rewrite En; cbn beta iota|..].
  - unfold with_detections. rewrite read_row_of, Ht. cbn [id timestamp_ms gps snapshot_path frame_sequence model_version].
    pose proof (detections_of_new (id alert) (detections alert) (tables d) Hwf Hnew) as Hd.
    unfold detections_of in Hd |- *. cbn [detection_rows] in Hd |- *. rewrite Hd. done.
  - intros r Hr. apply bool_decide_eq_false. intros E. apply Hnew. rewrite <- E.
    by apply list_elem_of_fmap_2.
  - apply bool_decide_eq_true, row_of_id.
Qed.

Inductive op := Insert (alert : AlertEvent) | Remove (i : string).

Definition apply_op (d : Database) (o : op) : Database :=
  match o with Insert a => (insert a d).2 | Remove i => (remove i d).2 end.

(** Whatever alerts are inserted and removed and whatever SQLite calls fail, the tables keep their
    integrity: no two alerts share an id and every detection belongs to an alert that is present. *)
Theorem repository_integrity (ops : list op) (fs : list fault) :
  wf (tables (foldl apply_op (mkDatabase true (mkTables [] []) "" fs) ops)).
Proof.
  assert (H0 : wf (tables (mkDatabase true (mkTables [] []) "" fs))) by (split; constructor).
  revert H0. generalize (mkDatabase true (mkTables [] []) "" fs).
  induction ops as [|o ops IH]; intros d H; simpl; [done|]. apply IH. destruct o as [a|i]; simpl.
  - pose proof (insert_spec a d) as Hi. destruct (insert a d) as [[e|u] d']; simpl; [by rewrite Hi|].
    destruct Hi as (_ & Hnew & ->). destruct H as [Hn Hf]. split; simpl.
    + rewrite fmap_app, NoDup_app. split_and!; [done| |apply NoDup_singleton].
      simpl. intros i Hi ->%list_elem_of_singleton. done.
    + rewrite fmap_app, Forall_app. split.
      * eapply Forall_impl; [exact Hf|]. set_solver.
      * apply Forall_fmap, Forall_true. intros x. simpl. rewrite row_of_id. set_solver.
  - destruct (remove_tables i d) as [->|(b & _ & -> & _)]; [done|by apply wf_delete].
Qed.

(** The retention query splits the alerts exactly: the rows outside the newest [keep], oldest first,
    followed by the newest [keep] in reverse of [find_recent]'s order, are all the alerts from
    oldest to newest. *)
Theorem retention_partition keep t : wf t ->
  excess_rows keep t ++ reverse (recent_rows keep t) = reverse (stable_sort newer (alerts t)) /\
  (length (recent_rows keep t) <= Z.to_nat keep)%nat /\
  (forall a b, a ∈ excess_rows keep t -> b ∈ recent_rows keep t -> newer b a = true).
Proof.
  intros Hwf. rewrite excess_rows_eq by done. unfold recent_rows, limit_rows.
  set (k := Z.to_nat (bounded_limit keep)). set (s := stable_sort newer (alerts t)).
  assert (Hns : NoDup (row_id <$> s)).
  { destruct Hwf as [Hn _]. unfold s. by rewrite stable_sort_perm. }
  split_and!.
  - by rewrite <- reverse_app, take_drop.
  - rewrite length_take. unfold k, bounded_limit. destruct (Z.ltb_spec int_max keep); lia.
  - intros a b Ha Hb. rewrite elem_of_reverse in Ha.
    pose proof (sorted_newer (alerts t)) as Hs. fold s in Hs. rewrite <- (take_drop k s) in Hs, Hns.
    rewrite fmap_app in Hns. apply NoDup_app in Hns as (_ & Hd & _).
    assert (Hba : before newer b a) by (by eapply StronglySorted_app_1_elem_of).
    destruct (newer b a) eqn:E; [done|]. exfalso. apply (Hd (row_id b)).
    + by apply list_elem_of_fmap_2.
    + rewrite (before_newer_both b a); [by apply list_elem_of_fmap_2|done|done].
Qed.

Definition sample_alert (i : string) (t : Z) : AlertEvent :=
  mkAlert i t (Some (mkFix true "fixed" (lit 25 0) (lit 121 0) (lit 10 0) (lit 9 1) 12 10)) (i +:+ ".jpg") 7
    None [mkAlertDetection 0 "person" (lit 9 1) f64_zero f64_zero f64_one f64_one].
Definition sample_db (fs : list fault) : Database :=
  foldl apply_op (mkDatabase true (mkTables [] []) "" fs)
    [Insert (sample_alert "a" 1); Insert (sample_alert "b" 2); Insert (sample_alert "c" 2)].

Lemma insert_read_back_witness :
  (insert (sample_alert "d" 5) (sample_db [])).1 = inr tt /\
  match insert (sample_alert "d" 5) (sample_db []) with
  | (inr _, d') => find_by_id "d" d' = (inr (Some (stored (sample_alert "d" 5))), d')
  | (inl _, d') => False
  end.
Proof.
  split; [vm_compute; reflexivity|].
  assert (Hwf : wf (tables (sample_db []))).
  { apply (bool_decide_unpack _). vm_compute. exact I. }
  pose proof (insert_read_back (sample_alert "d" 5) (sample_db []) Hwf) as H.
  destruct (insert (sample_alert "d" 5) (sample_db [])) as [[e|u] d'] eqn:E.
  - revert E. vm_compute. discriminate.
  - apply H. revert E. vm_compute. by intros [= _ <-].
Defined.

Lemma retention_partition_witness :
  row_id <$> excess_rows 1 (tables (sample_db [])) = ["a"; "b"] /\
  row_id <$> recent_rows 1 (tables (sample_db [])) = ["c"] /\
  (length (recent_rows 1 (tables (sample_db []))) <= 1)%nat.
Proof.
  split_and!; [vm_compute; reflexivity..|].
  apply (retention_partition 1 (tables (sample_db []))).
  apply (bool_decide_unpack _). vm_compute. exact I.
Defined.
End Repository.
