(* ===== verification/Database.v ===== *)
(** * Opening and migrating the database ([src/storage/database.cpp])

    [Sqlite] is what the source relies on of SQLite: statements that change the
    file at once, or inside a transaction that only [COMMIT] makes lasting and that
    closing the connection drops.  Every call may fail.  [Storage] is the class
    [Database]: opening with its checks, the migration, and the module's calls. *)

From S2P Require Import Prelude Strings ConfigData AlertRepository.

Module Sqlite.

(** The file: its tables and indexes by name, the versions entered in
    [schema_migrations], and the rows of the two tables of migration v1. *)
Record File := mkFile {
  objects : list string;
  versions : list Z;
  rows : Repository.Tables;
}.

Definition no_rows : Repository.Tables := Repository.mkTables [] [].
Definition empty_file : File := mkFile [] [] no_rows.

(** [disk] survives the process, [transaction] is the file inside an open
    transaction.  [answers]: one answer for each call that may fail, [Some] with
    its message ([sqlite3_errmsg]); calls beyond the list succeed.  [past] is the
    history of [disk], one entry for each call. *)
Record World := mkWorld {
  disk : File;
  transaction : option File;
  answers : list (option string);
  past : list File;
}.

Definition current (w : World) : File := default (disk w) (transaction w).

Inductive statement :=
  | CreateMigrations
  | Create (name : string)
  | InsertVersion
  | Begin
  | Commit
  | Rollback
  | Pragma.

(** What a statement that does not fail for another reason does. *)
Definition perform (s : statement) (w : World) : throws (File * option File) :=
  let f := current w in
  let put f := if transaction w then (disk w, Some f) else (f, None) in
  match s with
  | CreateMigrations =>
    inr (put (if bool_decide ("schema_migrations" ∈ objects f) then f
              else mkFile (objects f ++ ["schema_migrations"]) (versions f) (rows f)))
  | Create name =>
    if bool_decide (name ∈ objects f) then throw (name +:+ " already exists")
    else inr (put (mkFile (objects f ++ [name]) (versions f) (rows f)))
  | InsertVersion =>
    if bool_decide (1 ∈ versions f) then throw "UNIQUE constraint failed: schema_migrations.version"
    else inr (put (mkFile (objects f) (versions f ++ [1]) (rows f)))
  | Begin =>
    match transaction w with
    | Some _ => throw "cannot start a transaction within a transaction"
    | None => inr (disk w, Some (disk w))
    end
  | Commit =>
    match transaction w with
    | Some f => inr (f, None)
    | None => throw "cannot commit - no transaction is active"
    end
  | Rollback =>
    match transaction w with
    | Some _ => inr (disk w, None)
    | None => throw "cannot rollback - no transaction is active"
    end
  | Pragma => inr (disk w, transaction w)
  end.

(** One call: the next answer, then the statement. *)
Definition call (s : statement) (w : World) : throws unit * World :=
  let rest := tail (answers w) in
  let unchanged := mkWorld (disk w) (transaction w) rest (past w ++ [disk w]) in
  match head (answers w) with
  | Some (Some message) => (throw message, unchanged)
  | _ =>
    match perform s w with
    | inl message => (throw message, unchanged)
    | inr (d, t) => (inr tt, mkWorld d t rest (past w ++ [d]))
    end
  end.

(** [sqlite3_exec] of several statements: up to the first that fails. *)
Fixpoint execute (script : list statement) (w : World) : throws unit * World :=
  match script with
  | [] => (inr tt, w)
  | s :: rest =>
    match call s w with
    | (inl e, w) => (inl e, w)
    | (inr _, w) => execute rest w
    end
  end.

(** A statement that returns a row: it only reads. *)
Definition query {A} (read : File -> A) (w : World) : throws A * World :=
  let w' := mkWorld (disk w) (transaction w) (tail (answers w)) (past w ++ [disk w]) in
  match head (answers w) with
  | Some (Some message) => (throw message, w')
  | _ => (inr (read (current w)), w')
  end.

(** Closing the connection (or the end of the process) drops the transaction. *)
Definition disconnect (w : World) : World := mkWorld (disk w) None (answers w) (past w).
End Sqlite.

Module Storage.
Import Sqlite.

Definition current_schema_version : Z := 1.

Definition migration_v1 : list statement :=
  Create <$> ["alerts"; "detections"; "idx_alerts_timestamp"; "idx_detections_alert_id"; "idx_detections_class_name"].

(** [SELECT COALESCE(MAX(version), 0)], read by [sqlite3_column_int]. *)
Definition schema_maximum (f : File) : Z :=
  i32 (match versions f with [] => 0 | v :: rest => foldl Z.max v rest end).

(** Undo what a failed migration did; the outcome of [ROLLBACK] is ignored. *)
Definition roll_back (error : string) (w : World) : throws unit * World := (throw error, (execute [Rollback] w).2).

(** [error] stays empty when the insertion reports no text. *)
Definition error_of (r : throws unit) : string := match r with inl e => e | inr _ => "" end.

(** The migration itself, in one transaction. *)
Definition apply_v1 (w : World) : throws unit * World :=
  match execute [Begin] w with
  | (inl e, w) => (throw e, w)
  | (inr _, w) =>
    match execute migration_v1 w with
    | (inl e, w) => roll_back e w
    | (inr _, w) =>
      let '(inserted, w) := execute [InsertVersion] w in
      if bool_decide (error_of inserted = "") then
        match execute [Commit] w with
        | (inl e, w) => roll_back e w
        | (inr _, w) => (inr tt, w)
        end
      else roll_back (error_of inserted) w
    end
  end.

Definition migrate_locked (w : World) : throws unit * World :=
  match execute [CreateMigrations] w with
  | (inl e, w) => (throw e, w)
  | (inr _, w) =>
    match query schema_maximum w with
    | (inl e, w) => (throw e, w)
    | (inr version, w) =>
      if current_schema_version <? version then (throw "database schema is newer than this application", w)
      else if version =? current_schema_version then (inr tt, w)
      else apply_v1 w
    end
  end.

(** What the system and SQLite answer to the other calls of [open]: creating the
    directory; opening the file ([None] inside when there is no handle at all); the
    selected journal mode; the synchronous level. *)
Record Env := mkEnv {
  directories : throws unit;
  opened : option string + unit;
  journal : throws string;
  synchronous : option Z;
}.

(** The settings of an open connection, as checked. *)
Record Settings := mkSettings { foreign_keys : bool; wal : bool; full : bool }.

Record Database := mkDatabase {
  path_ : string;
  path_from_config_ : bool;
  connection_ : option Settings;
  last_error_ : string;
  operational_error_ : string;
  world : World;
}.

Definition make_database (path : string) (w : World) : Database :=
  mkDatabase path (bool_decide (path = "")) None "" "" w.

Definition with_connection (c : option Settings) (w : World) (d : Database) : Database :=
  mkDatabase (path_ d) (path_from_config_ d) c (last_error_ d) (operational_error_ d) w.

Definition lower (c : ascii) : ascii := if (65 <=? byte_of c) && (byte_of c <=? 90) then chr (byte_of c + 32) else c.
(** [sqlite3_stricmp(selected, "wal") == 0]. *)
Definition is_wal (selected : string) : bool := bool_decide (lower <$> chars selected = chars "wal").

Definition in_memory (path : string) : bool := bool_decide (path = ":memory:").

(** The journal and synchronous settings of a file: the error, empty if none. *)
Definition durable (x : Env) (w : World) : string * World :=
  let error := match journal x with
               | inl e => e
               | inr selected => if is_wal selected then ""
                                 else "could not enable WAL journal mode; SQLite selected '" +:+ selected +:+ "'"
               end in
  if negb (bool_decide (error = "")) then (error, w)
  else match execute [Pragma] w with
       | (inl e, w) => ("could not set SQLite synchronous policy: " +:+ e, w)
       | (inr _, w) => (if bool_decide (synchronous x = Some 2) then "" else "SQLite synchronous policy is not FULL", w)
       end.

Definition open_locked (x : Env) (d : Database) : throws unit * Database :=
  match connection_ d with
  | Some _ => (inr tt, d)
  | None =>
    if bool_decide (path_ d = "") then (throw "database path must not be empty", d)
    else
      let made := if negb (in_memory (path_ d)) && contains_char "/" (path_ d) then directories x else inr tt in
      match made, opened x with
      | inl e, _ => (throw ("could not create database directory: " +:+ e), d)
      | inr _, inl e => (throw (default "could not open database" e), d)
      | inr _, inr _ =>
        let w := world d in
        let w := if in_memory (path_ d) then mkWorld empty_file None (answers w) (past w) else w in
        let fails e w := (throw e, with_connection None (disconnect w) d) in
        match execute [Pragma] w with
        | (inl e, w) => fails e w
        | (inr _, w) =>
          let '(error, w) := if in_memory (path_ d) then ("", w) else durable x w in
          if negb (bool_decide (error = "")) then fails error w
          else match migrate_locked w with
               | (inl e, w) => fails e w
               | (inr _, w) =>
                 let file := negb (in_memory (path_ d)) in
                 (inr tt, mkDatabase (path_ d) (path_from_config_ d) (Some (mkSettings true file file))
                            (last_error_ d) "" w)
               end
        end
      end
  end.

Definition close (d : Database) : Database :=
  match connection_ d with Some _ => with_connection None (disconnect (world d)) d | None => d end.

Definition is_open (d : Database) : bool := bool_decide (is_Some (connection_ d)).

Definition health_error (d : Database) : string :=
  match connection_ d with Some _ => operational_error_ d | None => "database closed" end.

Definition schema_version (d : Database) : throws Z * Database :=
  match connection_ d with
  | None => (throw "database is not open", d)
  | Some _ => let '(r, w) := query schema_maximum (world d) in (r, with_connection (connection_ d) w d)
  end.

Definition set_error (e : string) (d : Database) : Database :=
  mkDatabase (path_ d) (path_from_config_ d) (connection_ d) e (operational_error_ d) (world d).

Definition initialize (c : Cfg.Config) (x : Env) (d : Database) : bool * Database :=
  match connection_ d with
  | Some _ => (false, set_error "database is already open" d)
  | None =>
    let path := if path_from_config_ d then Cfg.database_path (Cfg.storage c) else path_ d in
    let d := mkDatabase path (path_from_config_ d) None "" (operational_error_ d) (world d) in
    match open_locked x d with
    | (inl e, d) => (false, set_error e d)
    | (inr _, d) => (true, d)
    end
  end.

Definition start (d : Database) : bool := is_open d.
Definition wait (d : Database) : Database := close d.

(** The repository over an open database. *)
Definition repository (faults : list (option (Z * string))) (d : Database) : Repository.Database :=
  Repository.mkDatabase (is_open d) (rows (current (world d))) (operational_error_ d) faults.

(** ** Migration is all or nothing *)

Definition names_v1 : list string :=
  ["alerts"; "detections"; "idx_alerts_timestamp"; "idx_detections_alert_id"; "idx_detections_class_name"].

(** A file before the migration and after it. *)
Definition fresh (f : File) : Prop := Forall (fun n => n ∉ objects f) names_v1 /\ versions f = [] /\ rows f = no_rows.
Definition migrated (f : File) : Prop := Forall (fun n => n ∈ objects f) names_v1 /\ schema_maximum f = 1.
Definition usable (f : File) : Prop := fresh f \/ migrated f.

(** Usable, with the alerts it had. *)
Definition good (f0 f : File) : Prop := usable f /\ rows f = rows f0.
(** All that ever was on the disk is good. *)
Definition kept (f0 : File) (w : World) : Prop := good f0 (disk w) /\ Forall (good f0) (past w).

(** SQLite's error texts are not empty. *)
Definition worded (w : World) : Prop := Forall (fun a => a <> Some "") (answers w).

Lemma perform_worded s w : perform s w <> inl "".
Proof.
  unfold perform. destruct s as [|name| | | | |]; repeat case_match; try discriminate. intros [= Hn]. by destruct name.
Qed.

Section Migration.
Context (f0 : File).

Lemma call_kept s w r w' : kept f0 w -> worded w -> call s w = (r, w') ->
  (forall d t, perform s w = inr (d, t) -> good f0 d) ->
  kept f0 w' /\ worded w' /\ r <> inl "" /\
  ((r = inr tt /\ perform s w = inr (disk w', transaction w')) \/
   ((exists e, r = inl e) /\ disk w' = disk w /\ transaction w' = transaction w)).
Proof.
  intros [Hd Hp] Hw Hc Hg. unfold call in Hc.
  assert (Hw' : Forall (fun a => a <> Some "") (tail (answers w))) by (destruct Hw; [constructor|done]).
  assert (Hkeep : kept f0 (mkWorld (disk w) (transaction w) (tail (answers w)) (past w ++ [disk w])))
    by (split; [done|by apply Forall_app; split; [|apply Forall_singleton]]).
  destruct (head (answers w)) as [[m|]|] eqn:Eh; [|destruct (perform s w) as [m|[d t]] eqn:Ep..]; simplify_eq.
  1: { split_and!; [done|done| |right; eauto]. intros [= ->]. unfold worded in Hw.
       destruct (answers w); [done|]. injection Eh as ->. by apply Forall_cons in Hw as [? _]. }
  1, 3: split_and!; [done|done| |right; eauto]; intros [= ->]; by apply perform_worded in Ep.
  all: pose proof (Hg d t eq_refl); split_and!; [|done|done|by left]; split; [done|]; apply Forall_app; split; [done|by apply Forall_singleton].
Qed.

(** In a transaction the disk does not change. *)
Lemma create_kept name w r w' t : kept f0 w -> worded w -> transaction w = Some t -> call (Create name) w = (r, w') ->
  kept f0 w' /\ worded w' /\ is_Some (transaction w') /\
  (r = inr tt -> transaction w' = Some (mkFile (objects t ++ [name]) (versions t) (rows t))).
Proof.
  intros Hk Hw Ht Hc. destruct (call_kept _ _ _ _ Hk Hw Hc) as (Hk' & Hw' & _ & H).
  - unfold perform, current. rewrite Ht. intros d t' H. cbn in H. case_bool_decide; simplify_eq. apply Hk.
  - split_and!; [done|done| |]; destruct H as [[-> H]|((e & ->) & _ & H)].
    all: try (unfold perform, current in H; rewrite Ht in H; cbn in H; case_bool_decide; simplify_eq).
    all: rewrite <- ?H; rewrite ?H, ?Ht; by eauto.
Qed.

Lemma creates_kept names : forall w r w' t, kept f0 w -> worded w -> transaction w = Some t -> execute (Create <$> names) w = (r, w') ->
  kept f0 w' /\ worded w' /\ is_Some (transaction w') /\
  (r = inr tt -> transaction w' = Some (mkFile (objects t ++ names) (versions t) (rows t))).
Proof.
  induction names as [|n names IH]; intros w r w' t Hk Hw Ht He; cbn [execute fmap list_fmap] in He.
  - simplify_eq. rewrite app_nil_r. split_and!; [done|done|by rewrite Ht; eauto|]. intros _. rewrite Ht. by destruct t.
  - destruct (call (Create n) w) as [[e|[]] w1] eqn:Ec; destruct (create_kept _ _ _ _ _ Hk Hw Ht Ec) as (Hk1 & Hw1 & Hs & H1).
    + simplify_eq. split_and!; try done.
    + destruct (IH _ _ _ _ Hk1 Hw1 (H1 eq_refl) He) as (? & ? & ? & H). split_and!; [done..|]. intros Hr.
      rewrite (H Hr). cbn. by rewrite <- app_assoc.
Qed.

Lemma execute_one s w : execute [s] w = call s w.
Proof. cbn. by destruct (call s w) as [[e|[]] w']. Qed.

Lemma query_kept {A} (read : File -> A) w r w' : kept f0 w -> worded w -> query read w = (r, w') ->
  kept f0 w' /\ worded w' /\ disk w' = disk w /\ transaction w' = transaction w /\ (forall a, r = inr a -> a = read (current w)).
Proof.
  intros [Hd Hp] Hw Hq. unfold query in Hq.
  assert (H : kept f0 w' /\ worded w' /\ disk w' = disk w /\ transaction w' = transaction w).
  { destruct (head (answers w)) as [[m|]|]; simplify_eq; cbn; split_and!; try done.
    all: try (split; [done|apply Forall_app; split; [done|by apply Forall_singleton]]).
    all: unfold worded in *; cbn; by destruct Hw; [constructor|]. }
  split_and!; try apply H. intros a ->. by destruct (head (answers w)) as [[m|]|]; simplify_eq.
Qed.

(** [CREATE TABLE IF NOT EXISTS schema_migrations]. *)
Lemma create_migrations_kept w r w' : kept f0 w -> worded w -> transaction w = None -> call CreateMigrations w = (r, w') ->
  kept f0 w' /\ worded w' /\ transaction w' = None.
Proof.
  intros Hk Hw Ht Hc. destruct (call_kept _ _ _ _ Hk Hw Hc) as (Hk' & Hw' & _ & H); cycle 1.
  - split_and!; [done|done|]. destruct H as [[_ H]|(_ & _ & ->)]; [|done]. unfold perform in H. rewrite Ht in H. cbn in H. congruence.
  - unfold perform, current. rewrite Ht. intros d t H. cbn in H. destruct Hk as [[Hu Hr] _]. case_bool_decide; [by simplify_eq|].
    injection H as <- <-. split; [|done]. destruct Hu as [(H1 & H2 & H3)|[H1 H2]]; [left|right]; split_and!; cbn; try done.
    + rewrite Forall_forall in H1 |- *. intros n Hn. specialize (H1 n Hn). rewrite elem_of_app, list_elem_of_singleton.
      intros [?| ->]; [done|]. revert Hn. by apply (bool_decide_unpack ("schema_migrations" ∉ names_v1)).
    + eapply Forall_impl; [exact H1|]. cbn. set_solver.
Qed.

Lemma migrated_commit f : fresh f -> migrated (mkFile (objects f ++ names_v1) (versions f ++ [1]) (rows f)).
Proof.
  intros (_ & H & _). split; [|unfold schema_maximum; cbn; by rewrite H]. apply Forall_forall. intros n Hn. cbn. set_solver.
Qed.

(** A statement that leaves the disk alone. *)
Lemma aside_kept s w r w' : kept f0 w -> worded w -> call s w = (r, w') -> (forall d t, perform s w = inr (d, t) -> d = disk w) ->
  kept f0 w' /\ worded w' /\ disk w' = disk w /\ r <> inl "" /\ (r = inr tt -> perform s w = inr (disk w, transaction w')).
Proof.
  intros Hk Hw Hc Hd. destruct (call_kept _ _ _ _ Hk Hw Hc) as (Hk' & Hw' & Hr & H).
  - intros d t H. rewrite (Hd d t H). apply Hk.
  - destruct H as [[-> H]|((e & ->) & H & _)]; split_and!; try done; [by eapply Hd|]. intros _. by rewrite H, <- (Hd _ _ H).
Qed.

Lemma roll_back_kept e w r w' : kept f0 w -> worded w -> roll_back e w = (r, w') -> kept f0 w' /\ worded w' /\ r = inl e.
Proof.
  intros Hk Hw. unfold roll_back. rewrite execute_one. destruct (call Rollback w) as [r1 w1] eqn:Ec. intros [= <- <-].
  destruct (aside_kept _ _ _ _ Hk Hw Ec) as (? & ? & _); [|done]. cbn. intros d t H. case_match; simplify_eq. done.
Qed.

Lemma apply_v1_kept w r w' : kept f0 w -> worded w -> transaction w = None -> fresh (disk w) -> apply_v1 w = (r, w') ->
  kept f0 w' /\ worded w' /\ (r = inr tt -> transaction w' = None /\ migrated (disk w')).
Proof.
  intros Hk2 Hw2 Ht2 Hf. unfold apply_v1. rewrite execute_one. destruct (call Begin w) as [r3 w3] eqn:E3.
  destruct (aside_kept _ _ _ _ Hk2 Hw2 E3) as (Hk3 & Hw3 & Hd3 & _ & Hb); [cbn; rewrite Ht2; by intros d t [= <- _]|].
  destruct r3 as [e|[]]; [by intros [= <- <-]|]. specialize (Hb eq_refl). cbn in Hb. rewrite Ht2 in Hb. injection Hb as Ht3.
  destruct (execute migration_v1 w3) as [r4 w4] eqn:E4.
  destruct (creates_kept names_v1 _ _ _ _ Hk3 Hw3 (eq_sym Ht3) E4) as (Hk4 & Hw4 & [t4 Ht4] & Hc).
  destruct r4 as [e|[]]; [intros H'; by destruct (roll_back_kept _ _ _ _ Hk4 Hw4 H') as (? & ? & ->)|]. specialize (Hc eq_refl).
  rewrite execute_one. destruct (call InsertVersion w4) as [r5 w5] eqn:E5.
  destruct (aside_kept _ _ _ _ Hk4 Hw4 E5) as (Hk5 & Hw5 & Hd5 & Hr5 & Hi).
  { cbn. unfold current. rewrite Ht4. intros d t H'. case_bool_decide; simplify_eq. done. }
  assert (Hin : error_of r5 = "" -> r5 = inr tt) by (destruct r5 as [e|[]]; [cbn; by intros ->|done]).
  case_bool_decide as Ee; [|intros H'; by destruct (roll_back_kept _ _ _ _ Hk5 Hw5 H') as (? & ? & ->)].
  specialize (Hi (Hin Ee)). cbn in Hi. unfold current in Hi. rewrite Hc in Hi. cbn in Hi. case_bool_decide; [done|].
  injection Hi as Ht5. rewrite execute_one. destruct (call Commit w5) as [r6 w6] eqn:E6. pose proof (migrated_commit _ Hf) as Hm.
  destruct (call_kept _ _ _ _ Hk5 Hw5 E6) as (Hk6 & Hw6 & _ & H6).
  - cbn. rewrite <- Ht5. intros d t [= <- _]. split; [by right|]. apply (proj1 Hk2).
  - destruct r6 as [e|[]]; [intros H'; by destruct (roll_back_kept _ _ _ _ Hk6 Hw6 H') as (? & ? & ->)|]. intros [= <- <-].
    split_and!; [done|done|]. intros _. destruct H6 as [[_ H6]|((e & [=]) & _)]. cbn in H6. rewrite <- Ht5 in H6. by injection H6 as <- <-.
Qed.

Lemma migrate_kept w r w' : kept f0 w -> worded w -> transaction w = None -> migrate_locked w = (r, w') ->
  kept f0 w' /\ worded w' /\ (r = inr tt -> transaction w' = None /\ migrated (disk w')).
Proof.
  intros Hk Hw Ht. unfold migrate_locked. rewrite !execute_one. unfold current_schema_version.
  destruct (call CreateMigrations w) as [r1 w1] eqn:E1. destruct (create_migrations_kept _ _ _ Hk Hw Ht E1) as (Hk1 & Hw1 & Ht1).
  destruct r1 as [e|[]]; [by intros [= <- <-]|].
  destruct (query schema_maximum w1) as [r2 w2] eqn:E2. destruct (query_kept _ _ _ _ Hk1 Hw1 E2) as (Hk2 & Hw2 & Hd2 & Ht2 & Hv).
  destruct r2 as [e|version]; [by intros [= <- <-]|]. specialize (Hv version eq_refl). unfold current in Hv. rewrite Ht1 in Hv.
  cbn in Hv. rewrite Ht1 in Ht2. rewrite <- Hd2 in Hv. destruct (Z.ltb_spec 1 version); [by intros [= <- <-]|].
  destruct (Z.eqb_spec version 1) as [Ev|Ev].
  - intros [= <- <-]. split_and!; [done|done|]. intros _. split; [done|]. destruct (proj1 Hk2) as [[(_ & Hn & _)|Hm] _]; [|done].
    unfold schema_maximum in Hv. rewrite Hn in Hv. by subst version.
  - apply apply_v1_kept; [done..|]. destruct (proj1 Hk2) as [[Hf|[_ Hm]] _]; [done|congruence].
Qed.

Lemma pragma_kept w r w' : kept f0 w -> worded w -> execute [Pragma] w = (r, w') ->
  kept f0 w' /\ worded w' /\ disk w' = disk w /\ transaction w' = transaction w.
Proof.
  rewrite execute_one. intros Hk Hw Hc. destruct (call_kept _ _ _ _ Hk Hw Hc) as (Hk' & Hw' & _ & H); cycle 1.
  - split_and!; [done|done|..]; (destruct H as [[_ H]|(_ & ? & ?)]; [cbn in H; congruence|done]).
  - cbn. intros d t [= <- _]. apply Hk.
Qed.

Lemma durable_kept x w error w' : kept f0 w -> worded w -> durable x w = (error, w') ->
  kept f0 w' /\ worded w' /\ transaction w' = transaction w /\
  (error = "" -> journal x <> inl "" -> synchronous x = Some 2 /\ exists selected, journal x = inr selected /\ is_wal selected = true).
Proof.
  intros Hk Hw. unfold durable. set (e := match journal x with inl e => e | inr _ => _ end).
  case_bool_decide as He; cbn [negb]; [|intros [= <- <-]; split_and!; done].
  destruct (execute [Pragma] w) as [[m|[]] w1] eqn:E; destruct (pragma_kept _ _ _ Hk Hw E) as (? & ? & _ & ?); intros [= <- <-];
    split_and!; try done. intros Hs Hj. case_bool_decide; [|done]. split; [done|]. unfold e in He.
  destruct (journal x) as [?|selected]; [by subst|]. destruct (is_wal selected) eqn:Ew; [|done]. eauto.
Qed.

Lemma disconnect_kept w : kept f0 w -> kept f0 (disconnect w) /\ transaction (disconnect w) = None.
Proof. done. Qed.

Lemma open_kept x d r d' : kept f0 (world d) -> worded (world d) -> transaction (world d) = None -> in_memory (path_ d) = false ->
  connection_ d = None -> open_locked x d = (r, d') ->
  kept f0 (world d') /\ transaction (world d') = None /\ path_ d' = path_ d /\ (r <> inr tt -> connection_ d' = None) /\
  (r = inr tt -> is_open d' = true /\ health_error d' = "" /\ migrated (disk (world d')) /\
     (journal x <> inl "" -> synchronous x = Some 2 /\ exists selected, journal x = inr selected /\ is_wal selected = true)).
Proof.
  intros Hk Hw Ht Hm Hc. unfold open_locked. rewrite Hc, Hm. case_bool_decide; [by intros [= <- <-]; split_and!|].
  destruct (if _ && _ then _ else _) as [e|[]]; [by intros [= <- <-]; split_and!|].
  destruct (opened x) as [e|[]]; [by intros [= <- <-]; split_and!|].
  destruct (execute [Pragma] (world d)) as [[e|[]] w1] eqn:E1; destruct (pragma_kept _ _ _ Hk Hw E1) as (Hk1 & Hw1 & _ & Ht1).
  { intros [= <- <-]. by split_and!; try apply disconnect_kept. }
  destruct (durable x w1) as [error w2] eqn:E2. destruct (durable_kept _ _ _ _ Hk1 Hw1 E2) as (Hk2 & Hw2 & Ht2 & Hd).
  case_bool_decide as He; cbn [negb]; [|intros [= <- <-]; by split_and!; try apply disconnect_kept].
  destruct (migrate_locked w2) as [[e|[]] w3] eqn:E3; destruct (migrate_kept _ _ _ Hk2 Hw2 ltac:(congruence) E3) as (Hk3 & Hw3 & H3).
  { intros [= <- <-]. by split_and!; try apply disconnect_kept. }
  intros [= <- <-]. destruct (H3 eq_refl) as [Ht3 Hg]. split_and!; try done. intros _. split_and!; try done. auto.
Qed.
End Migration.

(** C7.   Opening the database migrates it completely or not at all: whichever calls fail and
    wherever the process ends, the file holds either no table of the schema or the whole schema with
    its version entered, and every stored alert; no transaction is left open. When opening succeeds
    the schema is complete, and SQLite has confirmed write-ahead logging and full synchronization.
    *)
Theorem migration_all_or_nothing x d (Hu : usable (disk (world d))) (Hp : past (world d) = []) (Hw : worded (world d))
    (Ht : transaction (world d) = None) (Hm : in_memory (path_ d) = false) (Hc : connection_ d = None)
    (Hj : journal x <> inl "") :
  let '(r, d') := open_locked x d in
  Forall (good (disk (world d))) (past (world d') ++ [disk (world d')]) /\ transaction (world d') = None /\
  (r = inr tt -> is_open d' = true /\ health_error d' = "" /\ migrated (disk (world d')) /\
     synchronous x = Some 2 /\ exists selected, journal x = inr selected /\ is_wal selected = true).
Proof.
  destruct (open_locked x d) as [r d'] eqn:E.
  destruct (open_kept (disk (world d)) x d r d') as ([Hd Hl] & H2 & _ & _ & H3); try done.
  - split; [by split|]. by rewrite Hp.
  - split; [apply Forall_app; split; [done|by apply Forall_singleton]|]. split; [done|]. intros Hr.
    destruct (H3 Hr) as (? & ? & ? & H). destruct (H Hj). split_and!; done.
Qed.

(** ** A failed start can be repeated *)

(** Calls that do not fail. *)
Lemma call_quiet s w : answers w = [] ->
  call s w = match perform s w with
             | inl e => (inl e, mkWorld (disk w) (transaction w) [] (past w ++ [disk w]))
             | inr (d, t) => (inr tt, mkWorld d t [] (past w ++ [d]))
             end.
Proof. intros H. unfold call. rewrite H. by destruct (perform s w) as [e|[d t]]. Qed.

Lemma creates_quiet names : forall w t, answers w = [] -> transaction w = Some t -> NoDup names ->
  Forall (fun n => n ∉ objects t) names ->
  exists w', execute (Create <$> names) w = (inr tt, w') /\ answers w' = [] /\ disk w' = disk w /\
    transaction w' = Some (mkFile (objects t ++ names) (versions t) (rows t)).
Proof.
  induction names as [|n names IH]; intros w t Ha Ht Hn Hf; cbn [execute fmap list_fmap].
  - exists w. rewrite app_nil_r, Ht. by destruct t.
  - apply Forall_cons in Hf as [Hf Hfs]. apply NoDup_cons in Hn as [Hn Hns]. rewrite call_quiet by done.
    unfold perform, current. rewrite Ht. cbn [default]. rewrite bool_decide_false by done.
    destruct (IH (mkWorld (disk w) (Some (mkFile (objects t ++ [n]) (versions t) (rows t))) [] (past w ++ [disk w]))
      (mkFile (objects t ++ [n]) (versions t) (rows t))) as (w' & H & ? & ? & H'); try done.
    { rewrite Forall_forall in Hfs |- *. intros m Hm. cbn. specialize (Hfs m Hm). set_solver. }
    exists w'. split_and!; try done. rewrite H'. cbn. by rewrite <- app_assoc.
Qed.

Lemma apply_v1_quiet w : answers w = [] -> transaction w = None -> fresh (disk w) -> (apply_v1 w).1 = inr tt.
Proof.
  intros Ha Ht (Hf & Hv & _). unfold apply_v1. rewrite execute_one, call_quiet by done. cbn [perform]. rewrite Ht.
  set (w1 := mkWorld (disk w) (Some (disk w)) [] (past w ++ [disk w])).
  destruct (creates_quiet names_v1 w1 (disk w)) as (w2 & E & Ha2 & Hd2 & Ht2); [done|done|by apply (bool_decide_unpack (NoDup names_v1))|done|].
  change migration_v1 with (Create <$> names_v1). rewrite E. rewrite execute_one, call_quiet by done. unfold perform at 1, current.
  rewrite Ht2. cbn [default objects versions rows]. rewrite Hv. rewrite bool_decide_false by set_solver. cbn [error_of].
  rewrite bool_decide_true by done. rewrite execute_one, call_quiet by done. done.
Qed.

Lemma migrate_quiet w : answers w = [] -> transaction w = None -> usable (disk w) -> (migrate_locked w).1 = inr tt.
Proof.
  intros Ha Ht Hu. unfold migrate_locked. rewrite execute_one, call_quiet by done.
  destruct (perform CreateMigrations w) as [e|[d t]] eqn:Ep; [by unfold perform in Ep|].
  assert (Hd : t = None /\ versions d = versions (disk w) /\ good (disk w) d).
  { split; [unfold perform in Ep; rewrite Ht in Ep; cbn in Ep; congruence|].
    split; [unfold perform, current in Ep; rewrite Ht in Ep; cbn in Ep; case_bool_decide; by injection Ep as <- _|].
    destruct (create_migrations_kept (disk w) (mkWorld (disk w) None [] []) (inr tt) (mkWorld d None [] [d])) as ([H _] & _);
      [by split; [split|constructor]|by constructor|done| |done].
    rewrite call_quiet by done. unfold perform, current in *. rewrite Ht in Ep. cbn in Ep |- *. congruence. }
  destruct Hd as (-> & Hv & Hg & _). unfold query. cbn [answers head tail current transaction disk default].
  assert (E : schema_maximum d = 1 \/ (schema_maximum d = 0 /\ fresh d)).
  { destruct Hg as [Hf|[_ Hm]]; [right|by left]. split; [|done]. destruct Hf as (_ & Hn & _). unfold schema_maximum. by rewrite Hn. }
  destruct E as [->|[-> Hf]]; [done|].
  change (current_schema_version <? 0) with false. change (0 =? current_schema_version) with false. cbv iota. by apply apply_v1_quiet.
Qed.

(** What a healthy system answers. *)
Definition favourable (x : Env) : Prop :=
  directories x = inr tt /\ opened x = inr tt /\ synchronous x = Some 2 /\ exists selected, journal x = inr selected /\ is_wal selected = true.

(** The next run of the process on the same file, with calls that no longer fail. *)
Definition restarted (d : Database) : Database := make_database (path_ d) (mkWorld (disk (world d)) None [] []).

Lemma open_quiet x d : favourable x -> path_ d <> "" -> in_memory (path_ d) = false -> usable (disk (world d)) ->
  (open_locked x (restarted d)).1 = inr tt.
Proof.
  intros (H1 & H2 & H3 & selected & H4 & H5) Hp Hm Hu. unfold open_locked. cbn [restarted make_database connection_ path_ world].
  rewrite bool_decide_false by done. rewrite Hm, H1, H2. 
  replace (if negb false && contains_char "/" (path_ d) then inr tt else inr tt) with (inr tt : throws unit) by (by destruct (contains_char _ _)).
  rewrite execute_one, call_quiet by done. cbn [perform disk transaction]. unfold durable. rewrite H4, H5.
  rewrite bool_decide_true by done. cbn [negb]. rewrite execute_one, call_quiet by done. cbn [perform disk transaction].
  rewrite (bool_decide_true (synchronous x = Some 2)) by done. rewrite (bool_decide_true ("" = "")) by done. cbn [negb].
  match goal with |- context [migrate_locked ?w] => pose proof (migrate_quiet w eq_refl eq_refl Hu) as H; destruct (migrate_locked w) as [[e|[]] w'] end; done.
Qed.

(** C27.   A failed start does no lasting harm: after an attempt to open the database that failed at
    any call, or was cut off at any point of its history, the next run on a healthy system opens it,
    and every alert is still there. *)
Theorem failed_open_recovers x x' d (Hu : usable (disk (world d))) (Hp : past (world d) = []) (Hw : worded (world d))
    (Ht : transaction (world d) = None) (Hm : in_memory (path_ d) = false) (Hc : connection_ d = None)
    (Hn : path_ d <> "") (Hx : favourable x') :
  let d' := (open_locked x d).2 in
  Forall (fun f => let cut := make_database (path_ d) (mkWorld f None [] []) in
    (open_locked x' (restarted cut)).1 = inr tt /\ rows f = rows (disk (world d)))
    (past (world d') ++ [disk (world d')]).
Proof.
  cbn zeta. destruct (open_locked x d) as [r d'] eqn:E.
  destruct (open_kept (disk (world d)) x d r d') as ([Hd Hl] & _); try done; [by split; [split|rewrite Hp]|].
  cbn [snd]. apply (Forall_impl (good (disk (world d)))); [apply Forall_app; split; [done|by apply Forall_singleton]|].
  intros f [Hf Hr]. split; [|done]. by apply open_quiet.
Qed.

(** *** A migration that fails at its second index *)

Definition healthy : Env := mkEnv (inr tt) (inr tt) (inr "WAL") (Some 2).
Definition failing_database : Database :=
  make_database "/var/lib/skai/alerts.db"
    (mkWorld empty_file None [None; None; None; None; None; None; None; None; Some "disk I/O error"; Some "disk I/O error"] []).

Lemma migration_all_or_nothing_witness :
  let '(r, d') := open_locked healthy failing_database in
  r = inl "disk I/O error" /\ objects (disk (world d')) = ["schema_migrations"] /\ transaction (world d') = None.
Proof.
  assert (Hu : usable empty_file) by (left; split_and!; [repeat constructor; by apply not_elem_of_nil|done|done]).
  assert (Hw : worded (world failing_database)) by (repeat constructor; done).
  pose proof (migration_all_or_nothing healthy failing_database Hu eq_refl Hw eq_refl eq_refl eq_refl ltac:(done)) as H.
  destruct (open_locked healthy failing_database) as [r d'] eqn:E. destruct H as (_ & H & _).
  vm_compute in E. injection E as <- <-. split_and!; by vm_compute.
Defined.

Lemma failed_open_recovers_witness :
  let d' := (open_locked healthy failing_database).2 in
  (open_locked healthy (restarted d')).1 = inr tt.
Proof.
  cbn zeta. assert (Hu : usable empty_file) by (left; split_and!; [repeat constructor; by apply not_elem_of_nil|done|done]).
  assert (Hw : worded (world failing_database)) by (repeat constructor; done).
  assert (Hx : favourable healthy) by (split_and!; try done; by exists "WAL").
  pose proof (failed_open_recovers healthy healthy failing_database Hu eq_refl Hw eq_refl eq_refl eq_refl ltac:(done) Hx) as H.
  cbn zeta in H. apply Forall_app in H as [_ H]. apply Forall_singleton in H as [H _]. exact H.
Defined.
End Storage.

(** ** The tool that makes the file an installation starts from ([src/storage/database_seed.cpp]) *)

Module Seed.
Import Sqlite Storage.

(** Exit code, standard error and what is left of the disk. *)
Definition main (x : Env) (argv : list string) (w : World) : Z * string * World :=
  match argv with
  | [_; path] =>
    match open_locked x (make_database path w) with
    | (inl error, d) => (1, error +:+ str [chr 10], world d)
    | (inr _, d) => (0, "", world (close d))
    end
  | _ => (2, "", w)
  end.

(** The file an installation gets is usable whatever happened: an exit code of 0 means the whole
    schema is on disk with no rows in it, any other that no table of it is half made; and on a
    system where nothing fails the tool exits with 0. *)
Theorem seed_exact x program path w (Hf : fresh (disk w)) (Hp : past w = []) (Hw : worded w) (Ht : transaction w = None)
    (Hm : in_memory path = false) :
  let '(code, _, w') := main x [program; path] w in
  transaction w' = None /\ usable (disk w') /\ rows (disk w') = no_rows /\
  (code = 0 <-> (open_locked x (make_database path w)).1 = inr tt) /\ (code = 0 -> migrated (disk w')) /\
  (favourable x -> path <> "" -> answers w = [] -> code = 0).
Proof.
  unfold main. destruct (open_locked x (make_database path w)) as [r d] eqn:E.
  destruct (open_kept (disk w) x (make_database path w) r d) as ([[Hu Hr] _] & Ht' & _ & _ & H); try done.
  { split; [split; [by left|done]|]. cbn [make_database world]. by rewrite Hp. }
  assert (Hn : rows (disk (world d)) = no_rows) by (rewrite Hr; apply Hf).
  assert (Hq : favourable x -> path <> "" -> answers w = [] -> r = inr tt).
  { intros Hx Hne Ha. pose proof (open_quiet x (make_database path w) Hx Hne Hm (or_introl Hf)) as Ho. unfold restarted in Ho.
    destruct w as [f t a p]. cbn in Hp, Ht, Ha. subst t a p. cbn [make_database path_ world disk] in Ho. by rewrite E in Ho. }
  destruct r as [e|[]]; cbn [fst].
  - split_and!; try done. intros. discriminate (Hq ltac:(done) ltac:(done) ltac:(done)).
  - destruct (H eq_refl) as (_ & _ & Hg & _). unfold close. destruct (connection_ d); by split_and!.
Qed.

(** Every other command line is refused without touching the disk. *)
Example seed_usage : main healthy ["skai-database-seed"] (mkWorld empty_file None [] []) = (2, "", mkWorld empty_file None [] []).
Proof. reflexivity. Qed.

Lemma seed_exact_witness :
  let '(code, _, w') := main healthy ["skai-database-seed"; "seed.db"] (mkWorld empty_file None [] []) in
  code = 0 /\ migrated (disk w').
Proof.
  assert (Hf : fresh empty_file) by (split_and!; [repeat constructor; by apply not_elem_of_nil|done|done]).
  assert (Hx : favourable healthy) by (split_and!; try done; by exists "WAL").
  pose proof (seed_exact healthy "skai-database-seed" "seed.db" (mkWorld empty_file None [] []) Hf eq_refl (Forall_nil_2 _) eq_refl eq_refl) as H.
  destruct (main _ _ _) as [[code text] w']. destruct H as (_ & _ & _ & _ & Hg & Hc). specialize (Hc Hx ltac:(done) eq_refl). auto.
Defined.
End Seed.
