(* ===== verification/AlertSnapshots.v ===== *)
(** * Alert snapshots on disk ([src/alerts/alert_manager.cpp]: [persist],
      [cleanup_oldest], [reconcile_deletions], [sync_path])

    A snapshot is a file; the world has what the file system shows now, what it
    would show after a power loss (the directory entries synced so far), the
    alert database and an oracle that makes any system call fail.  After every
    system call and database statement the world notes the two states a crash
    at that point could leave: the entries as they are now and the entries
    synced last.  SQLite's error messages are not empty, so [!error.empty()] is
    the failure of the call before it.  A file is [true] when its JPEG was written completely. *)

From S2P Require Import Prelude Strings Floats ConfigData Paths Events AlertRepository.

Module Snapshots.
Import Gps Repository Path.

Abbreviation key := (list string).
Abbreviation disk := (gmap (list string) bool).

Record World := mkWorld {
  cwd : key;
  files : disk;
  synced : disk;
  db : Database;
  io : list (option string);
  crashes : list (disk * Tables);
}.

(** Note what a crash now could leave behind. *)
Definition note (w : World) : World :=
  mkWorld (cwd w) (files w) (synced w) (db w) (io w)
    (crashes w ++ [(files w, tables (db w)); (synced w, tables (db w))]).

Definition set_fs (f s : disk) (w : World) : World :=
  note (mkWorld (cwd w) f s (db w) (io w) (crashes w)).
Definition set_db (d : Database) (w : World) : World :=
  note (mkWorld (cwd w) (files w) (synced w) d (io w) (crashes w)).

Definition next_io (w : World) : option string * World :=
  match io w with
  | [] => (None, w)
  | f :: rest => (f, mkWorld (cwd w) (files w) (synced w) (db w) rest (crashes w))
  end.

(** ** System calls *)

Definition enoent : string := "No such file or directory".

Definition rename (a b : key) (w : World) : throws unit * World :=
  match next_io w with
  | (Some e, w) => (throw e, w)
  | (None, w) =>
    match files w !! a with
    | Some c => (inr tt, set_fs (<[b := c]> (delete a (files w))) (synced w) w)
    | None => (throw enoent, w)
    end
  end.

(** [true]: a file was removed. *)
Definition remove_file (a : key) (w : World) : throws bool * World :=
  match next_io w with
  | (Some e, w) => (throw e, w)
  | (None, w) =>
    match files w !! a with
    | Some _ => (inr true, set_fs (delete a (files w)) (synced w) w)
    | None => (inr false, w)
    end
  end.

Definition parent (k : key) : key := take (length k - 1) k.

(** [sync_path(directory, true, error)] *)
Definition sync_dir (d : key) (w : World) : throws unit * World :=
  match next_io w with
  | (Some e, w) => (throw ("could not open for sync: " +:+ e), w)
  | (None, w) =>
    match next_io w with
    | (Some e, w) => (throw ("could not sync storage: " +:+ e), w)
    | (None, w) =>
      (inr tt, set_fs (files w)
                 (base.filter (fun kv => parent kv.1 = d) (files w) ∪
                  base.filter (fun kv => parent kv.1 <> d) (synced w)) w)
    end
  end.

(** [sync_path(file, false, error)] *)
Definition sync_file (k : key) (w : World) : throws unit * World :=
  match next_io w with
  | (Some e, w) => (throw ("could not open for sync: " +:+ e), w)
  | (None, w) =>
    match files w !! k with
    | None => (throw ("could not open for sync: " +:+ enoent), w)
    | Some c =>
      match next_io w with
      | (Some e, w) => (throw ("could not sync storage: " +:+ e), w)
      | (None, w) => (inr tt, set_fs (files w) (<[k := c]> (synced w)) w)
      end
    end
  end.

(** ** [persist] *)

Record SnapshotFrame := mkSnapshotFrame {
  width : Z;
  height : Z;
  stride : Z;
  bgr_size : Z;
}.

Definition frame_ok (f : SnapshotFrame) : bool :=
  negb ((width f <=? 0) || (height f <=? 0) || (stride f <? width f * 3) ||
        (bgr_size f <? u64 (u64 (stride f) * height f))).

Definition set_snapshot_path (p : string) (a : AlertEvent) : AlertEvent :=
  mkAlert (id a) (timestamp_ms a) (gps a) p (frame_sequence a) (model_version a) (detections a).

Definition alert_dir (directory : string) (a : AlertEvent) : string :=
  join directory (Timestamp.utc_date (Z.quot (timestamp_ms a) 1000)).

(** What [cv::imwrite] does: [inl] throws, [inr false] fails. *)
Abbreviation encoding := (string + bool)%type.

(** A failed encoding may leave a partial file, which is removed. *)
Definition encode_failed (tmp : key) (error : string) (w : World) : throws AlertEvent * World :=
  let w := set_fs (<[tmp := false]> (files w)) (synced w) w in
  let '(_, w) := remove_file tmp w in
  (throw error, w).

Definition persist (directory : string) (frame : SnapshotFrame) (jpeg : encoding) (alert : AlertEvent)
    (w : World) : throws AlertEvent * World :=
  if bool_decide (directory = "") || negb (frame_ok frame) then
    (throw "invalid snapshot directory or frame", w)
  else
    let dir := alert_dir directory alert in
    let final_path := join dir (id alert +:+ ".jpg") in
    let final := absolute_normal (cwd w) final_path in
    let tmp := absolute_normal (cwd w) (join dir (id alert +:+ ".tmp.jpg")) in
    match next_io w with
    | (Some e, w) => (throw ("could not create alert directory: " +:+ e), w)
    | (None, w) =>
      match jpeg with
      | inl what => encode_failed tmp ("could not encode alert snapshot: " +:+ what) w
      | inr false => encode_failed tmp "could not encode alert snapshot" w
      | inr true =>
        let w := set_fs (<[tmp := true]> (files w)) (synced w) w in
        match sync_file tmp w with
        | (inl e, w) => (throw e, w)
        | (inr _, w) =>
          match rename tmp final w with
          | (inl e, w) =>
            let '(_, w) := remove_file tmp w in
            (throw ("could not publish alert snapshot: " +:+ e), w)
          | (inr _, w) =>
            match sync_dir (parent final) w with
            | (inl e, w) => (throw e, w)
            | (inr _, w) =>
              let alert := set_snapshot_path final_path alert in
              match insert alert (db w) with
              | (inr _, d) => (inr alert, set_db d w)
              | (inl e, d) =>
                let w := set_db d w in
                let error := "could not insert alert metadata: " +:+ e in
                match remove_file final w with
                | (inl e2, w) => (throw (error +:+ "; snapshot cleanup failed: " +:+ e2), w)
                | (inr _, w) => (throw error, w)
                end
              end
            end
          end
        end
      end
    end.

(** ** [cleanup_oldest] *)

(** [path.string() + suffix] *)
Definition add_suffix (k : key) (suffix : string) : key :=
  match last k with
  | Some n => parent k ++ [n +:+ suffix]
  | None => [suffix]
  end.
Definition tombstone (k : key) : key := add_suffix k ".deleting".

Definition nonempty_or (error fallback : string) : string :=
  if bool_decide (error = "") then fallback else error.

(** One iteration of the cleanup loop. *)
Definition cleanup_one (directory : string) (alert : AlertEvent) (w : World) : throws unit * World :=
  let root := absolute_normal (cwd w) directory in
  let path := absolute_normal (cwd w) (snapshot_path alert) in
  if negb (is_prefix root path) then (throw "snapshot path is outside alert directory", w)
  else
    let tomb := tombstone path in
    match rename path tomb w with
    | (inl e, w) => (throw ("could not quarantine alert snapshot: " +:+ e), w)
    | (inr _, w) =>
      match sync_dir (parent path) w with
      | (inl e, w) => (throw e, w)
      | (inr _, w) =>
        match remove (id alert) (db w) with
        | (inr true, d) =>
          let w := set_db d w in
          match remove_file tomb w with
          | (inl e, w) => (throw ("could not remove alert snapshot: " +:+ e), w)
          | (inr false, w) => (throw "could not remove alert snapshot: file is missing", w)
          | (inr true, w) => sync_dir (parent path) w
          end
        | (failed, d) =>
          let w := set_db d w in
          let error := match failed with inl e => e | inr _ => "" end in
          let '(_, w) := rename tomb path w in
          let '(_, w) := sync_dir (parent path) w in
          (throw (nonempty_or error "alert disappeared during cleanup"), w)
        end
      end
    end.

Fixpoint cleanup_loop (directory : string) (alerts : list AlertEvent) (w : World) : throws unit * World :=
  match alerts with
  | [] => (inr tt, w)
  | a :: rest =>
    match cleanup_one directory a w with
    | (inl e, w) => (throw e, w)
    | (inr _, w) => cleanup_loop directory rest w
    end
  end.

Definition cleanup_oldest (directory : string) (keep : Z) (w : World) : throws unit * World :=
  match find_oldest_excess keep (db w) with
  | (inl e, d) => (throw e, set_db d w)
  | (inr alerts, d) => cleanup_loop directory alerts (set_db d w)
  end.

(** ** [reconcile_deletions] *)

(** The files below the snapshot directory, in some order. *)
Definition entries (directory : string) (w : World) : list key :=
  List.filter (fun k => is_prefix (resolve (cwd w) directory) k) (map_to_list (files w)).*1.

Definition name_of (k : key) : string := default "" (last k).

Definition failed_reconcile (e : string) (w : World) : throws unit * World :=
  (throw ("could not reconcile alert cleanup: " +:+ e), w).

Fixpoint reconcile_loop (ks : list key) (w : World) : throws unit * World :=
  match ks with
  | [] => (inr tt, w)
  | path :: rest =>
    (* is_regular_file *)
    match next_io w with
    | (Some e, w) => failed_reconcile e w
    | (None, w) =>
      if negb (bool_decide (extension (name_of path) = ".deleting")) then reconcile_loop rest w
      else
        let final_name := stem (name_of path) in
        let final := parent path ++ [final_name] in
        match find_by_id (stem final_name) (db w) with
        | (inl e, d) => (throw e, set_db d w)
        | (inr (Some _), d) =>
          let w := set_db d w in
          match rename path final w with
          | (inl e, w) => failed_reconcile e w
          | (inr _, w) => match sync_dir (parent path) w with
                          | (inl e, w) => (throw e, w)
                          | (inr _, w) => reconcile_loop rest w
                          end
          end
        | (inr None, d) =>
          let w := set_db d w in
          match remove_file path w with
          | (inl e, w) => failed_reconcile e w
          | (inr _, w) => match sync_dir (parent path) w with
                          | (inl e, w) => (throw e, w)
                          | (inr _, w) => reconcile_loop rest w
                          end
          end
        end
    end
  end.

(** A directory that does not exist has no entries, so the [exists] test only
    matters when it fails. *)
Definition reconcile_deletions (directory : string) (w : World) : throws unit * World :=
  match next_io w with
  | (Some e, w) => (throw ("could not inspect alert directory: " +:+ e), w)
  | (None, w) =>
    match next_io w with
    | (Some e, w) => failed_reconcile e w
    | (None, w) => reconcile_loop (entries directory w) w
    end
  end.

(** ** What every crash must leave behind *)

Section Invariant.
Context (c : key).

Definition path_of (r : AlertRow) : key := absolute_normal c (row_snapshot_path r).

(** The rows [persist] writes: a plain id and a file named after it. *)
Definition row_ok (r : AlertRow) : Prop :=
  plain (row_id r) /\ exists d, path_of r = d ++ [row_id r +:+ ".jpg"].

Definition has_snapshot (f : disk) (r : AlertRow) : Prop :=
  is_Some (f !! path_of r) \/ is_Some (f !! tombstone (path_of r)).

(** Only temporary files are incomplete. *)
Definition complete (f : disk) : Prop :=
  forall k, f !! k = Some false -> exists d n, k = d ++ [n +:+ ".tmp.jpg"].

(** Every alert in the database has a complete snapshot, either in place or in
    quarantine. *)
Definition good (s : disk * Tables) : Prop :=
  wf s.2 /\ Forall row_ok (alerts s.2) /\ Forall (has_snapshot s.1) (alerts s.2) /\ complete s.1.

Definition inv (w : World) : Prop :=
  cwd w = c /\ good (files w, tables (db w)) /\ good (synced w, tables (db w)) /\
  Forall good (crashes w).

(** *** Names *)

Lemma jpg_name n : n <> "" -> extension (n +:+ ".jpg") = ".jpg" /\ stem (n +:+ ".jpg") = n.
Proof. intros. apply (ext_app n "jpg"); [done|done|]. vm_compute. set_solver. Qed.

Lemma app_nonempty n e : e <> "" -> n +:+ e <> "".
Proof. intros He H%(f_equal chars). rewrite chars_app in H. apply app_eq_nil in H as [_ H]. by apply chars_nil in H. Qed.

Lemma deleting_name n : n <> "" ->
  extension (n +:+ ".deleting") = ".deleting" /\ stem (n +:+ ".deleting") = n.
Proof. intros. apply (ext_app n "deleting"); [done|done|]. vm_compute. set_solver. Qed.

Lemma str_app_inj_r n m e : n +:+ e = m +:+ e -> n = m.
Proof. intros H%(f_equal chars). rewrite !chars_app in H. simplify_list_eq. by apply chars_inj. Qed.

Lemma str_app_inj_l n m e : e +:+ n = e +:+ m -> n = m.
Proof. intros H%(f_equal chars). rewrite !chars_app in H. simplify_list_eq. by apply chars_inj. Qed.

Lemma parent_snoc (d : key) n : parent (d ++ [n]) = d.
Proof. unfold parent. rewrite length_app. simpl. replace (length d + 1 - 1)%nat with (length d) by lia.
  apply take_app_length. Qed.

Lemma tombstone_snoc (d : key) n : tombstone (d ++ [n]) = d ++ [n +:+ ".deleting"].
Proof. unfold tombstone, add_suffix. by rewrite last_snoc, parent_snoc. Qed.

Lemma name_snoc (d : key) n : name_of (d ++ [n]) = n.
Proof. unfold name_of. by rewrite last_snoc. Qed.

Lemma tomb_inj r s : row_ok r -> row_ok s ->
  tombstone (path_of r) = tombstone (path_of s) -> path_of r = path_of s.
Proof.
  intros (_ & d & Hd) (_ & e & He). rewrite Hd, He, !tombstone_snoc.
  intros [-> [= H]]%app_inj_tail. f_equal. f_equal. exact (str_app_inj_r _ _ ".deleting" H).
Qed.

Lemma path_not_tomb r s : row_ok r -> row_ok s -> path_of r <> tombstone (path_of s).
Proof.
  intros ((Hr & _) & d & Hd) ((Hs & _) & e & He). rewrite Hd, He, tombstone_snoc.
  intros [_ [= H]]%app_inj_tail. apply (f_equal extension) in H.
  rewrite (proj1 (jpg_name _ Hr)), (proj1 (deleting_name _ (app_nonempty _ ".jpg" ltac:(done)))) in H. done.
Qed.

Lemma not_tmp r d n : row_ok r ->
  path_of r <> d ++ [n +:+ ".tmp.jpg"] /\ tombstone (path_of r) <> d ++ [n +:+ ".tmp.jpg"].
Proof.
  intros ((Hr & Hp & _) & e & He). rewrite He, tombstone_snoc. split; intros [_ [= H]]%app_inj_tail.
  - change ".tmp.jpg" with (".tmp" +:+ ".jpg") in H. rewrite str_app_assoc in H.
    apply str_app_inj_r in H. apply Hp. rewrite H, chars_app. set_solver.
  - apply (f_equal extension) in H. change ".tmp.jpg" with (".tmp" +:+ ".jpg") in H.
    rewrite str_app_assoc in H.
    rewrite (proj1 (deleting_name _ (app_nonempty _ ".jpg" ltac:(done)))),
      (proj1 (jpg_name _ (app_nonempty n ".tmp" ltac:(done)))) in H. done.
Qed.

(** *** Changes of the disk that keep the snapshots *)

Lemma good_ext f g t : complete g ->
  (forall r, r ∈ alerts t -> row_ok r -> has_snapshot f r -> has_snapshot g r) ->
  good (f, t) -> good (g, t).
Proof.
  intros Hc Hr (Hw & Ho & Hs & _). split_and!; auto. simpl in *. rewrite Forall_forall in *. auto.
Qed.

Lemma complete_add f k : complete f -> complete (<[k := true]> f).
Proof.
  intros H k'. destruct (decide (k = k')) as [->|]; [by rewrite lookup_insert_eq|].
  rewrite lookup_insert_ne by done. apply H.
Qed.

Lemma complete_delete f k : complete f -> complete (delete k f).
Proof. intros H k' [_ Hk]%lookup_delete_Some. by apply H. Qed.

Lemma good_add f t k : good (f, t) -> good (<[k := true]> f, t).
Proof.
  intros H. eapply good_ext; [apply complete_add, H| |exact H].
  intros r _ _ Hs. unfold has_snapshot in *. rewrite !lookup_insert_is_Some'. tauto.
Qed.

Lemma good_delete f t k :
  (forall r, r ∈ alerts t -> row_ok r -> k <> path_of r /\ k <> tombstone (path_of r)) ->
  good (f, t) -> good (delete k f, t).
Proof.
  intros Hk H. eapply good_ext; [apply complete_delete, H| |exact H].
  intros r Hr Ho Hs. destruct (Hk r Hr Ho). unfold has_snapshot in *. by rewrite !lookup_delete_ne.
Qed.

(** A snapshot file is never a partial one. *)
Lemma snapshot_true f r b : complete f -> row_ok r ->
  f !! path_of r = Some b \/ f !! tombstone (path_of r) = Some b -> b = true.
Proof.
  intros Hc Ho H. destruct b; [done|].
  destruct H as [H|H]; apply Hc in H as (d & n & H); by destruct (not_tmp r d n Ho).
Qed.

(** Moving a row's snapshot into or out of quarantine. *)
Lemma good_move f t r a b x : good (f, t) -> row_ok r ->
  (a = path_of r /\ b = tombstone (path_of r) \/ a = tombstone (path_of r) /\ b = path_of r) ->
  f !! a = Some x -> good (<[b := x]> (delete a f), t).
Proof.
  intros H Hor Hab Hx.
  assert (x = true) as ->.
  { eapply (snapshot_true f r); [apply H|done|]. destruct Hab as [[-> _]|[-> _]]; auto. }
  eapply good_ext; [apply complete_add, complete_delete, H| |exact H].
  intros s Hs Hos Hhas. unfold has_snapshot in *.
  destruct (decide (path_of s = path_of r)) as [Hsr|Hp].
  { rewrite Hsr. destruct Hab as [[-> ->]|[-> ->]]; [right|left]; by rewrite lookup_insert_eq. }
  assert (Ht : tombstone (path_of s) <> tombstone (path_of r)) by (by intros E%tomb_inj).
  pose proof (path_not_tomb s r Hos Hor). pose proof (path_not_tomb r s Hor Hos).
  rewrite !lookup_insert_is_Some'.
  destruct Hhas as [Hh|Hh]; [left|right]; right; rewrite lookup_delete_ne; auto;
    destruct Hab as [[-> ->]|[-> ->]]; congruence.
Qed.

Definition merged (d : key) (f s : disk) : disk :=
  base.filter (fun kv => parent kv.1 = d) f ∪ base.filter (fun kv => parent kv.1 <> d) s.

Lemma merged_lookup d f s k : merged d f s !! k = if decide (parent k = d) then f !! k else s !! k.
Proof.
  unfold merged. rewrite lookup_union, !map_lookup_filter. simpl.
  destruct (decide (parent k = d)) as [E|E].
  - destruct (f !! k) as [x|]; simpl; [rewrite option_guard_True by done; simpl|];
      destruct (s !! k); simpl; rewrite ?option_guard_False by tauto; done.
  - destruct (f !! k) as [x|]; simpl; rewrite ?option_guard_False by done; simpl;
      destruct (s !! k); simpl; rewrite ?option_guard_True by done; done.
Qed.

Lemma good_sync d f s t : good (f, t) -> good (s, t) -> good (merged d f s, t).
Proof.
  intros (Hw & Ho & Hf & Cf) (_ & _ & Hs & Cs). simpl in *. split_and!; auto; simpl.
  - rewrite Forall_forall in *. intros r Hr. specialize (Hf r Hr). specialize (Hs r Hr).
    destruct (Ho r Hr) as (_ & e & He). unfold has_snapshot in *. rewrite !merged_lookup.
    rewrite He, tombstone_snoc, !parent_snoc in *. by destruct (decide (e = d)).
  - intros k. rewrite merged_lookup. destruct (decide _); auto.
Qed.

(** *** Changes of the tables *)

Lemma good_row_removed f t i : good (f, t) -> good (f, delete_id i t).
Proof.
  intros (Hw & Ho & Hs & Hc). split_and!; simpl in *; auto using wf_delete;
    rewrite Forall_forall in *; intros r Hr; apply list_elem_of_In, filter_In in Hr as [Hr _];
    apply list_elem_of_In in Hr; auto.
Qed.

Lemma find_oldest_excess_tables keep d : tables (find_oldest_excess keep d).2 = tables d.
Proof.
  unfold find_oldest_excess, when_open, query_alerts. destruct (connection_ d); [|done].
  destruct (next_fault d) as [[e|] d1] eqn:E1; apply next_fault_spec in E1 as (E1 & _); [done|].
  destruct (next_fault d1) as [[e|] d2] eqn:E2; apply next_fault_spec in E2 as (E2 & _); [simpl; congruence|].
  assert (H : forall n d, tables (read_faults n d).2 = tables d).
  { induction n as [|n IH]; intros d'; simpl; [done|].
    destruct (next_fault d') as [[e|] d3] eqn:E3; apply next_fault_spec in E3 as (E3 & _); [done|].
    by rewrite IH. }
  specialize (H (length (excess_rows keep (tables d2))) d2).
  destruct (read_faults _ _) as [[e|] d3]; simpl in *; congruence.
Qed.

Lemma find_by_id_spec i d :
  tables (find_by_id i d).2 = tables d /\
  match (find_by_id i d).1 with
  | inr (Some _) => exists r, r ∈ alerts (tables d) /\ row_id r = i
  | inr None => forall r, r ∈ alerts (tables d) -> row_id r <> i
  | inl _ => True
  end.
Proof.
  unfold find_by_id, when_open. destruct (connection_ d); [|done].
  destruct (next_fault d) as [[e|] d1] eqn:E1; apply next_fault_spec in E1 as (E1 & _); [done|].
  destruct (next_fault d1) as [[e|] d2] eqn:E2; apply next_fault_spec in E2 as (E2 & _); [simpl; split; [congruence|done]|].
  replace (tables d2) with (tables d) by congruence.
  destruct (List.find _ _) as [r|] eqn:Ef.
  - apply find_some in Ef as [Hr Hi]. bools.
    destruct (next_fault d2) as [[e|] d3] eqn:E3; apply next_fault_spec in E3 as (E3 & _); simpl;
      (split; [congruence|try done]). exists r. by rewrite list_elem_of_In.
  - simpl. split; [congruence|]. intros r Hr Hi.
    apply list_elem_of_In in Hr. pose proof (find_none _ _ Ef r Hr) as H. simpl in H. bools. done.
Qed.

(** *** Steps of the world *)

Lemma inv_next_io w f w' : inv w -> next_io w = (f, w') ->
  inv w' /\ files w' = files w /\ synced w' = synced w /\ db w' = db w.
Proof. unfold next_io. intros H. destruct (io w); intros [= <- <-]; done. Qed.

Lemma inv_set_fs f s w : inv w -> good (f, tables (db w)) -> good (s, tables (db w)) -> inv (set_fs f s w).
Proof.
  intros (Hc & _ & _ & Hl) Hf Hs. unfold inv, set_fs, note; simpl. split_and!; auto.
  apply Forall_app. split; [done|]. repeat constructor; apply Hf || apply Hs.
Qed.

Lemma inv_set_db d w : inv w -> good (files w, tables d) -> good (synced w, tables d) -> inv (set_db d w).
Proof.
  intros (Hc & _ & _ & Hl) Hf Hs. unfold inv, set_db, note; simpl. split_and!; auto.
  apply Forall_app. split; [done|]. repeat constructor; apply Hf || apply Hs.
Qed.

Lemma inv_move r a b w : inv w -> row_ok r ->
  (a = path_of r /\ b = tombstone (path_of r) \/ a = tombstone (path_of r) /\ b = path_of r) ->
  inv (rename a b w).2 /\ db (rename a b w).2 = db w.
Proof.
  intros H Ho Hab. unfold rename. destruct (next_io w) as [[e|] w1] eqn:E;
    destruct (inv_next_io _ _ _ H E) as (H1 & Ef & Es & Ed); [done|].
  destruct (files w1 !! a) as [x|] eqn:Ex; simpl; [|done]. split; [|done].
  apply inv_set_fs; [done|eapply good_move; eauto; apply H1|apply H1].
Qed.

Lemma inv_remove_file k w : inv w ->
  (forall r, r ∈ alerts (tables (db w)) -> row_ok r -> k <> path_of r /\ k <> tombstone (path_of r)) ->
  inv (remove_file k w).2 /\ db (remove_file k w).2 = db w.
Proof.
  intros H Hk. unfold remove_file. destruct (next_io w) as [[e|] w1] eqn:E;
    destruct (inv_next_io _ _ _ H E) as (H1 & Ef & Es & Ed); [done|].
  destruct (files w1 !! k) as [x|] eqn:Ex; simpl; [|done]. split; [|done].
  apply inv_set_fs; [done|apply good_delete; [by rewrite Ed|apply H1]|apply H1].
Qed.

Lemma inv_sync_dir d w : inv w ->
  inv (sync_dir d w).2 /\ db (sync_dir d w).2 = db w /\ files (sync_dir d w).2 = files w /\
  ((sync_dir d w).1 = inr tt -> forall k, parent k = d -> synced (sync_dir d w).2 !! k = files w !! k).
Proof.
  intros H. unfold sync_dir. destruct (next_io w) as [[e|] w1] eqn:E;
    destruct (inv_next_io _ _ _ H E) as (H1 & Ef & Es & Ed); [done|].
  destruct (next_io w1) as [[e|] w2] eqn:E2;
    destruct (inv_next_io _ _ _ H1 E2) as (H2 & Ef2 & Es2 & Ed2); simpl; [by rewrite Ed2, Ef2|].
  fold (merged d (files w2) (synced w2)). split_and!; [|congruence|congruence|].
  - apply inv_set_fs; [done|apply H2|apply good_sync; apply H2].
  - intros _ k Hk. rewrite merged_lookup, decide_True by done. congruence.
Qed.

Lemma remove_inr i d b d' : remove i d = (inr b, d') -> tables d' = delete_id i (tables d).
Proof.
  unfold remove. destruct (negb _); [done|].
  destruct (next_fault d) as [[e|] d1] eqn:E1; [done|]. apply next_fault_spec in E1 as (E1 & _).
  destruct (next_fault d1) as [[e|] d2] eqn:E2; [done|]. apply next_fault_spec in E2 as (E2 & _).
  intros [= _ <-]. simpl. congruence.
Qed.

Lemma inv_db_removed i w : inv w -> inv (set_db (remove i (db w)).2 w).
Proof.
  intros H. destruct (remove_tables i (db w)) as [E|(b & _ & E & _)];
    apply inv_set_db; auto; rewrite E; try apply H; apply good_row_removed; apply H.
Qed.

(** The tombstone of an alert that is no longer in the tables. *)
Lemma tomb_of_removed r t i : row_ok r -> row_id r = i ->
  forall s, s ∈ alerts (delete_id i t) -> row_ok s ->
    tombstone (path_of r) <> path_of s /\ tombstone (path_of r) <> tombstone (path_of s).
Proof.
  intros Hr Hi s Hs Hos. split; [by intros E; symmetry in E; revert E; apply path_not_tomb|].
  intros E%tomb_inj; [|done..]. destruct Hr as (_ & d & Hd), Hos as (_ & e & He).
  rewrite Hd, He in E. apply app_inj_tail in E as [_ [= E]].
  apply (str_app_inj_r _ _ ".jpg") in E. apply list_elem_of_In, filter_In in Hs as [_ Hs]. bools. congruence.
Qed.

Lemma inv_cleanup_one directory r alert w : inv w -> row_ok r ->
  id alert = row_id r -> snapshot_path alert = row_snapshot_path r ->
  inv (cleanup_one directory alert w).2.
Proof.
  intros H Hr Hi Hp. unfold cleanup_one. destruct H as [Hc H']. assert (H : inv w) by (by split).
  assert (Epath : absolute_normal (cwd w) (snapshot_path alert) = path_of r)
    by (unfold path_of; by rewrite Hc, Hp).
  rewrite Epath, Hi. clear Hc H'. destruct (negb _); [done|].
  destruct (inv_move r (path_of r) (tombstone (path_of r)) w H Hr) as [H1 E1]; [auto|].
  destruct (rename _ _ w) as [[e|u] w1]; simpl in *; [done|].
  destruct (inv_sync_dir (parent (path_of r)) w1 H1) as (H2 & E2 & _).
  destruct (sync_dir _ w1) as [[e|u2] w2]; simpl in *; [done|].
  pose proof (inv_db_removed (row_id r) w2 H2) as H3.
  destruct (remove (row_id r) (db w2)) as [res d3] eqn:Er. cbn [snd] in H3.
  assert (Hback : inv (rename (tombstone (path_of r)) (path_of r) (set_db d3 w2)).2 /\
    forall w4, inv w4 -> inv (sync_dir (parent (path_of r)) w4).2).
  { split; [by apply (inv_move r); auto|]. intros. by apply inv_sync_dir. }
  destruct Hback as [Hb1 Hb2].
  destruct res as [e|[]].
  - destruct (rename _ _ (set_db d3 w2)) as [? w4]. specialize (Hb2 w4 Hb1).
    by destruct (sync_dir _ w4) as [? w5].
  - apply remove_inr in Er.
    destruct (inv_remove_file (tombstone (path_of r)) (set_db d3 w2) H3) as [H4 E4].
    { simpl. rewrite Er. by apply tomb_of_removed. }
    destruct (remove_file _ _) as [[e|[]] w4]; simpl in *; [done| |done]. by apply Hb2.
  - destruct (rename _ _ (set_db d3 w2)) as [? w4]. specialize (Hb2 w4 Hb1).
    by destruct (sync_dir _ w4) as [? w5].
Qed.

Lemma find_oldest_excess_rows keep d l d' : find_oldest_excess keep d = (inr l, d') ->
  l = (fun r => with_detections (tables d) (read_alert r)) <$> excess_rows keep (tables d).
Proof.
  pose proof (find_oldest_excess_tables keep d) as Ht.
  unfold find_oldest_excess, when_open, query_alerts in *. destruct (connection_ d); [|done].
  destruct (next_fault d) as [[e|] d1] eqn:E1; [done|]. apply next_fault_spec in E1 as (E1 & _).
  destruct (next_fault d1) as [[e|] d2] eqn:E2; [done|]. apply next_fault_spec in E2 as (E2 & _).
  destruct (read_faults _ _) as [[e|] d3]; [done|]. simpl in Ht. intros [= <- _].
  rewrite Ht. by rewrite E2, E1.
Qed.

Lemma inv_cleanup_loop directory l w : inv w ->
  Forall (fun a => exists r, row_ok r /\ id a = row_id r /\ snapshot_path a = row_snapshot_path r) l ->
  inv (cleanup_loop directory l w).2.
Proof.
  revert w; induction l as [|a l IH]; intros w H Hl; simpl; [done|].
  apply Forall_cons in Hl as [(r & Hr & Hi & Hp) Hl].
  pose proof (inv_cleanup_one directory r a w H Hr Hi Hp) as H1.
  destruct (cleanup_one directory a w) as [[e|u] w1]; [done|]. by apply IH.
Qed.

Lemma inv_cleanup directory keep w : inv w -> inv (cleanup_oldest directory keep w).2.
Proof.
  intros H. unfold cleanup_oldest.
  pose proof (find_oldest_excess_tables keep (db w)) as Ht.
  destruct (find_oldest_excess keep (db w)) as [[e|l] d] eqn:E; simpl in *.
  { apply inv_set_db; auto; rewrite Ht; apply H. }
  apply inv_cleanup_loop; [apply inv_set_db; auto; rewrite Ht; apply H|].
  apply find_oldest_excess_rows in E as ->. apply Forall_fmap, Forall_forall. intros r Hr. simpl.
  exists r. split_and!; [|done|done].
  destruct H as (_ & (_ & Ho & _) & _). simpl in Ho. rewrite Forall_forall in Ho. apply Ho.
  unfold excess_rows in Hr. rewrite stable_sort_perm, list_elem_of_In, filter_In, <- list_elem_of_In in Hr.
  tauto.
Qed.

(** *** [persist] *)

Lemma good_tmp f t d n x : good (f, t) -> good (<[d ++ [n +:+ ".tmp.jpg"] := x]> f, t).
Proof.
  intros H. eapply good_ext; [| |exact H].
  - intros k. destruct (decide (d ++ [n +:+ ".tmp.jpg"] = k)) as [<-|]; [eauto|].
    rewrite lookup_insert_ne by done. apply H.
  - intros r _ _ Hs. unfold has_snapshot in *. rewrite !lookup_insert_is_Some'. tauto.
Qed.

Lemma tmp_not_snapshot d n r : row_ok r ->
  d ++ [n +:+ ".tmp.jpg"] <> path_of r /\ d ++ [n +:+ ".tmp.jpg"] <> tombstone (path_of r).
Proof. intros Hr. destruct (not_tmp r d n Hr). by split; intros E; symmetry in E. Qed.

Lemma inv_remove_tmp d n w : inv w -> inv (remove_file (d ++ [n +:+ ".tmp.jpg"]) w).2.
Proof. intros H. apply inv_remove_file; [done|]. intros r _ Hr. by apply tmp_not_snapshot. Qed.

Lemma inv_encode_failed d n e w : inv w -> inv (encode_failed (d ++ [n +:+ ".tmp.jpg"]) e w).2.
Proof.
  intros H. unfold encode_failed.
  assert (H1 : inv (set_fs (<[d ++ [n +:+ ".tmp.jpg"] := false]> (files w)) (synced w) w))
    by (apply inv_set_fs; [done|apply good_tmp, H|apply H]).
  apply (inv_remove_tmp d n) in H1. by destruct (remove_file _ _).
Qed.

Lemma inv_sync_tmp d n w : inv w ->
  inv (sync_file (d ++ [n +:+ ".tmp.jpg"]) w).2 /\
  files (sync_file (d ++ [n +:+ ".tmp.jpg"]) w).2 = files w /\
  db (sync_file (d ++ [n +:+ ".tmp.jpg"]) w).2 = db w.
Proof.
  intros H. unfold sync_file. destruct (next_io w) as [[e|] w1] eqn:E;
    destruct (inv_next_io _ _ _ H E) as (H1 & Ef & Es & Ed); [done|].
  destruct (files w1 !! _) as [x|] eqn:Ex; [|done].
  destruct (next_io w1) as [[e|] w2] eqn:E2;
    destruct (inv_next_io _ _ _ H1 E2) as (H2 & Ef2 & Es2 & Ed2); simpl; [by rewrite Ed2, Ef2|].
  split_and!; [|congruence..]. apply inv_set_fs; [done|apply H2|apply good_tmp, H2].
Qed.

(** Publishing a complete temporary file under its final name. *)
Lemma inv_publish d n k w : inv w -> files w !! (d ++ [n +:+ ".tmp.jpg"]) = Some true ->
  inv (rename (d ++ [n +:+ ".tmp.jpg"]) k w).2 /\ db (rename (d ++ [n +:+ ".tmp.jpg"]) k w).2 = db w /\
  ((rename (d ++ [n +:+ ".tmp.jpg"]) k w).1 = inr tt ->
   files (rename (d ++ [n +:+ ".tmp.jpg"]) k w).2 !! k = Some true).
Proof.
  intros H Hx. unfold rename. destruct (next_io w) as [[e|] w1] eqn:E;
    destruct (inv_next_io _ _ _ H E) as (H1 & Ef & Es & Ed); [done|].
  rewrite Ef, Hx. simpl. split_and!; [|done|by rewrite lookup_insert_eq].
  rewrite <- Ef. apply inv_set_fs; [done| |apply H1]. apply good_add, good_delete; [|apply H1].
  intros r _ Hr. by apply tmp_not_snapshot.
Qed.

(** An alert [process] may persist: a plain id that is not in the database. *)
Definition persistable (a : AlertEvent) (w : World) : Prop :=
  plain (id a) /\ forall r, r ∈ alerts (tables (db w)) -> row_id r <> id a.

Lemma jpg_file_name n suffix : plain n -> suffix = ".jpg" \/ suffix = ".tmp.jpg" -> file_name (n +:+ suffix).
Proof.
  intros (Hn & _ & Hs) Hsuf.
  assert (Hlen : (4 <= length (chars (n +:+ suffix)))%nat)
    by (rewrite chars_app, length_app; destruct Hsuf as [-> | ->]; simpl; lia).
  split_and!; [intros E; rewrite E in Hlen; simpl in Hlen; lia..|].
  rewrite chars_app, elem_of_app. intros [?|H]; [done|]. destruct Hsuf as [-> | ->]; revert H; vm_compute;
    intros H; repeat (apply elem_of_cons in H as [?|H]; [done|]); by apply elem_of_nil in H.
Qed.

Lemma good_inserted f t a d p : good (f, t) -> plain (id a) -> row_id (row_of a) ∉ row_id <$> alerts t ->
  snapshot_path a = p -> absolute_normal c p = d ++ [id a +:+ ".jpg"] -> f !! (d ++ [id a +:+ ".jpg"]) = Some true ->
  good (f, mkTables (alerts t ++ [row_of a]) (detection_rows t ++ (mkDetectionRow (id a) <$> detections a))).
Proof.
  intros (Hw & Ho & Hs & Hc) Hpl Hn Hp Hd Hf. simpl in *.
  assert (Hrow : row_snapshot_path (row_of a) = p).
  { rewrite <- Hp. unfold row_of. destruct (gps a) as [g|]; [by destruct (valid g)|done]. }
  assert (Hpath : path_of (row_of a) = d ++ [id a +:+ ".jpg"]) by (unfold path_of; by rewrite Hrow).
  split_and!; simpl; auto.
  - destruct Hw as [Hnd Hdet]. split; simpl; rewrite fmap_app.
    + rewrite NoDup_app. split_and!; [done| |apply NoDup_singleton].
      intros i Hi ->%list_elem_of_singleton. done.
    + rewrite Forall_app. split; [eapply Forall_impl; [exact Hdet|set_solver]|].
      apply Forall_fmap, Forall_true. intros x. simpl. rewrite row_of_id. set_solver.
  - apply Forall_app. split; [done|]. constructor; [|constructor].
    split; rewrite row_of_id; [done|]. by exists d.
  - apply Forall_app. split; [done|]. constructor; [|constructor]. left. by rewrite Hpath, Hf.
Qed.

Lemma inv_persist directory frame jpeg a w : inv w -> persistable a w ->
  inv (persist directory frame jpeg a w).2.
Proof.
  intros H (Hpl & Hfresh). unfold persist.
  destruct (_ || _) eqn:Eg; [done|]. apply orb_false_elim in Eg as [Hdir _]. bools.
  assert (Hc : cwd w = c) by apply H. rewrite Hc.
  assert (Hne : alert_dir directory a <> "") by (by apply join_nonempty).
  pose proof (absolute_normal_join c _ _ Hne (jpg_file_name (id a) ".jpg" Hpl ltac:(auto))) as Hfin.
  rewrite Hfin, (absolute_normal_join c _ _ Hne (jpg_file_name (id a) ".tmp.jpg" Hpl ltac:(auto))).
  set (d := resolve c (alert_dir directory a)) in *. set (fp := join _ (id a +:+ ".jpg")) in *. clearbody fp.
  destruct (next_io w) as [[e|] w0] eqn:E0;
    destruct (inv_next_io _ _ _ H E0) as (H0 & Ef & Es & Ed); [done|].
  destruct jpeg as [what|[]]; [by apply inv_encode_failed| |by apply inv_encode_failed].
  set (w1 := set_fs _ _ w0).
  assert (H1 : inv w1) by (apply inv_set_fs; [done|apply good_tmp, H0|apply H0]).
  destruct (inv_sync_tmp d (id a) w1 H1) as (H2 & F2 & D2).
  destruct (sync_file _ w1) as [[e|u] w2]; simpl in H2, F2, D2; [done|].
  destruct (inv_publish d (id a) (d ++ [id a +:+ ".jpg"]) w2 H2) as (H3 & D3 & F3);
    [rewrite F2; simpl; by rewrite lookup_insert_eq|].
  destruct (rename _ _ w2) as [[e|u2] w3]; simpl in H3, D3, F3.
  { pose proof (inv_remove_tmp d (id a) w3 H3) as H4. by destruct (remove_file _ w3). }
  specialize (F3 ltac:(by destruct u2)). rewrite parent_snoc.
  destruct (inv_sync_dir d w3 H3) as (H4 & D4 & F4 & S4).
  destruct (sync_dir d w3) as [[e|u3] w4]; simpl in H4, D4, F4, S4; [done|].
  assert (S5 : synced w4 !! (d ++ [id a +:+ ".jpg"]) = Some true)
    by (rewrite S4; [done|by destruct u3|apply parent_snoc]).
  rewrite <- F4 in F3. pose proof (insert_spec (set_snapshot_path fp a) (db w4)) as Hi.
  destruct (insert _ (db w4)) as [[e|u4] d5].
  - assert (H5 : inv (set_db d5 w4)) by (apply inv_set_db; auto; rewrite Hi; apply H4).
    destruct (inv_remove_file (d ++ [id a +:+ ".jpg"]) (set_db d5 w4) H5) as [H6 _].
    { simpl. rewrite Hi, D4, D3, D2. simpl. rewrite Ed. intros r Hr Ho.
      destruct Ho as ((Hrn & _) & x & Hx). rewrite Hx, tombstone_snoc. split; intros [-> [= Hname]]%app_inj_tail.
      - apply (str_app_inj_r _ _ ".jpg") in Hname. by apply (Hfresh r).
      - apply (f_equal extension) in Hname.
        rewrite (proj1 (jpg_name _ (proj1 Hpl))), (proj1 (deleting_name _ (app_nonempty _ ".jpg" ltac:(done)))) in Hname.
        done. }
    by destruct (remove_file _ _) as [[e2|b] w6].
  - destruct Hi as (_ & Hn & Ht). simpl. apply inv_set_db; [done|..]; rewrite Ht;
      eapply (good_inserted _ _ (set_snapshot_path fp a) d); eauto; apply H4.
Qed.

(** *** [reconcile_deletions] *)

Lemma key_split (k : key) : name_of k <> "" -> k = parent k ++ [name_of k].
Proof.
  unfold name_of. destruct k as [|n k _] using rev_ind; [done|]. by rewrite last_snoc, parent_snoc.
Qed.

Lemma row_ok_ext r : row_ok r ->
  extension (name_of (path_of r)) = ".jpg" /\
  extension (name_of (tombstone (path_of r))) = ".deleting" /\
  stem (name_of (tombstone (path_of r))) = name_of (path_of r) /\
  stem (name_of (path_of r)) = row_id r /\
  parent (tombstone (path_of r)) = parent (path_of r) /\
  path_of r = parent (path_of r) ++ [name_of (path_of r)].
Proof.
  intros ((Hr & _) & d & Hd). rewrite Hd, tombstone_snoc, !name_snoc, !parent_snoc.
  destruct (jpg_name _ Hr) as [-> ->].
  by destruct (deleting_name _ (app_nonempty (row_id r) ".jpg" ltac:(done))) as [-> ->].
Qed.

(** Putting a quarantined file back under its name. *)
Lemma inv_restore p w : inv w -> extension (name_of p) = ".deleting" ->
  inv (rename p (parent p ++ [stem (name_of p)]) w).2.
Proof.
  intros H He. unfold rename. destruct (next_io w) as [[e|] w1] eqn:E;
    destruct (inv_next_io _ _ _ H E) as (H1 & Ef & Es & Ed); [done|].
  destruct (files w1 !! p) as [x|] eqn:Ex; simpl; [|done]. apply inv_set_fs; [done| |apply H1].
  destruct H1 as (_ & Hg & _).
  destruct (decide (Exists (fun r => tombstone (path_of r) = p) (alerts (tables (db w1))))) as [Hin|Hout].
  - apply Exists_exists in Hin as (r & Hr & <-).
    assert (Ho : row_ok r) by (destruct Hg as (_ & Ho & _); simpl in Ho; rewrite Forall_forall in Ho; auto).
    destruct (row_ok_ext r Ho) as (_ & _ & Hst & _ & Hpar & Hsplit). rewrite Hst, Hpar, <- Hsplit.
    eapply good_move; eauto.
  - assert (x = true) as ->.
    { destruct x; [done|]. destruct Hg as (_ & _ & _ & Hc). apply Hc in Ex as (d & n & ->).
      rewrite name_snoc in He. change ".tmp.jpg" with (".tmp" +:+ ".jpg") in He. rewrite str_app_assoc in He.
      by rewrite (proj1 (jpg_name _ (app_nonempty n ".tmp" ltac:(done)))) in He. }
    apply good_add, good_delete; [|done]. intros r Hr Ho. split; intros ->.
    + by rewrite (proj1 (row_ok_ext r Ho)) in He.
    + apply Hout, Exists_exists. eauto.
Qed.

(** Removing a quarantined file whose alert is gone. *)
Lemma inv_remove_orphan p w : inv w -> extension (name_of p) = ".deleting" ->
  (forall r, r ∈ alerts (tables (db w)) -> row_id r <> stem (stem (name_of p))) ->
  inv (remove_file p w).2.
Proof.
  intros H He Hn. apply inv_remove_file; [done|]. intros r Hr Ho.
  destruct (row_ok_ext r Ho) as (Hj & _ & Hs & Hid & _). split; intros ->; [congruence|].
  apply (Hn r Hr). by rewrite Hs, Hid.
Qed.

Lemma inv_find_by_id i w : inv w -> inv (set_db (find_by_id i (db w)).2 w).
Proof.
  intros H. apply inv_set_db; [done|..]; rewrite (proj1 (find_by_id_spec i (db w))); apply H.
Qed.

Lemma inv_reconcile_loop ks w : inv w -> inv (reconcile_loop ks w).2.
Proof.
  revert w; induction ks as [|p ks IH]; intros w H; simpl; [done|].
  destruct (next_io w) as [[e|] w1] eqn:E;
    destruct (inv_next_io _ _ _ H E) as (H1 & Ef & Es & Ed); [done|].
  case_bool_decide as He; simpl; [|by apply IH].
  pose proof (inv_find_by_id (stem (stem (name_of p))) w1 H1) as H2.
  pose proof (find_by_id_spec (stem (stem (name_of p))) (db w1)) as [Ht Hres].
  destruct (find_by_id _ (db w1)) as [[e|[a|]] d] eqn:Ea; simpl in Ht, Hres, H2; [done|..].
  - pose proof (inv_restore p _ H2 He) as H3. destruct (rename _ _ _) as [[e|u] w3]; simpl in H3; [done|].
    destruct (inv_sync_dir (parent p) w3 H3) as [H4 _].
    destruct (sync_dir _ w3) as [[e|u4] w4]; simpl in H4; [done|by apply IH].
  - assert (H3 : inv (remove_file p (set_db d w1)).2)
      by (apply inv_remove_orphan; [done|done|simpl; by rewrite Ht]).
    destruct (remove_file _ _) as [[e|u] w3]; simpl in H3; [done|].
    destruct (inv_sync_dir (parent p) w3 H3) as [H4 _].
    destruct (sync_dir _ w3) as [[e|u4] w4]; simpl in H4; [done|by apply IH].
Qed.

Lemma inv_reconcile directory w : inv w -> inv (reconcile_deletions directory w).2.
Proof.
  intros H. unfold reconcile_deletions. destruct (next_io w) as [[e|] w1] eqn:E;
    destruct (inv_next_io _ _ _ H E) as (H1 & _); [done|].
  destruct (next_io w1) as [[e|] w2] eqn:E2; destruct (inv_next_io _ _ _ H1 E2) as (H2 & _); [done|].
  by apply inv_reconcile_loop.
Qed.

(** ** What a restart repairs *)

Definition in_db (t : Tables) (i : string) : bool := existsb (fun r => bool_decide (row_id r = i)) (alerts t).

(** The effect of one iteration when no call fails. *)
Definition repair (t : Tables) (f : disk) (p : key) : disk :=
  if bool_decide (extension (name_of p) = ".deleting") then
    match f !! p with
    | None => f
    | Some x => if in_db t (stem (stem (name_of p))) then <[parent p ++ [stem (name_of p)] := x]> (delete p f)
                else delete p f
    end
  else f.

(** A world in which no call fails. *)
Definition quiet (w : World) : Prop := io w = [] /\ faults (db w) = [] /\ connection_ (db w) = true.

Lemma quiet_next_io w : io w = [] -> next_io w = (None, w).
Proof. unfold next_io. by intros ->. Qed.

Lemma quiet_find i d : faults d = [] -> connection_ d = true ->
  exists x, find_by_id i d = (inr x, d) /\ in_db (tables d) i = bool_decide (is_Some x).
Proof.
  intros Hf Hc. assert (En : next_fault d = (None, d)) by (unfold next_fault; by rewrite Hf).
  unfold find_by_id, when_open, in_db. rewrite Hc, En. cbn beta iota. rewrite En. cbn beta iota.
  destruct (List.find _ _) as [r|] eqn:E.
  - rewrite En. cbn beta iota. eexists; split; [done|]. rewrite bool_decide_true by eauto.
    apply find_some in E. apply existsb_exists. eauto.
  - eexists; split; [done|]. rewrite bool_decide_false by (by intros [? [=]]).
    apply not_true_is_false. intros (r & Hr & Hi)%existsb_exists. by rewrite (find_none _ _ E r Hr) in Hi.
Qed.

Lemma quiet_reconcile_loop ks w : quiet w -> NoDup ks -> (forall k, k ∈ ks -> is_Some (files w !! k)) ->
  exists w', reconcile_loop ks w = (inr tt, w') /\ quiet w' /\ db w' = db w /\
    files w' = foldl (repair (tables (db w))) (files w) ks.
Proof.
  revert w; induction ks as [|p ks IH]; intros w Hq Hnd Hk; simpl; [by eauto|].
  apply NoDup_cons in Hnd as [Hp Hnd]. pose proof Hq as (Hio & Hf & Hc). rewrite quiet_next_io by done.
  unfold repair at 2. case_bool_decide as He; simpl.
  2:{ apply IH; auto. intros k Hin. apply Hk. set_solver. }
  destruct (quiet_find (stem (stem (name_of p))) (db w) Hf Hc) as (x & -> & ->).
  destruct (Hk p) as [y Hy]; [set_solver|]. rewrite Hy.
  assert (Hsame : set_db (db w) w = note w) by (by destruct w).
  destruct x as [a|].
  - rewrite bool_decide_true by eauto. rewrite Hsame. unfold rename. rewrite quiet_next_io by done.
    simpl. rewrite Hy. unfold sync_dir. rewrite quiet_next_io by done. simpl. rewrite quiet_next_io by done.
    match goal with |- context [reconcile_loop ks ?w'] => destruct (IH w') as (w2 & -> & Hq2 & Hd2 & Hf2) end;
      [done|done| |by exists w2].
    intros k Hin. simpl. rewrite lookup_insert_is_Some'. right. rewrite lookup_delete_ne by set_solver.
    apply Hk. set_solver.
  - rewrite bool_decide_false by (by intros [? [=]]). rewrite Hsame. unfold remove_file.
    rewrite quiet_next_io by done. simpl. rewrite Hy. unfold sync_dir. rewrite quiet_next_io by done.
    simpl. rewrite quiet_next_io by done.
    match goal with |- context [reconcile_loop ks ?w'] => destruct (IH w') as (w2 & -> & Hq2 & Hd2 & Hf2) end;
      [done|done| |by exists w2].
    intros k Hin. simpl. rewrite lookup_delete_ne by set_solver. apply Hk. set_solver.
Qed.

(** A tombstone is removed or put back, and none is created. *)
Lemma repair_tomb t f p d n : Forall row_ok (alerts t) -> plain n ->
  repair t f p !! (d ++ [(n +:+ ".jpg") +:+ ".deleting"]) =
    if decide (p = d ++ [(n +:+ ".jpg") +:+ ".deleting"]) then None
    else f !! (d ++ [(n +:+ ".jpg") +:+ ".deleting"]).
Proof.
  intros Ho Hn. set (k := d ++ _). unfold repair.
  destruct (deleting_name _ (app_nonempty n ".jpg" ltac:(done))) as [Hext Hstem].
  case_bool_decide as He.
  2:{ rewrite decide_False; [done|]. intros ->. apply He. unfold k. by rewrite name_snoc. }
  destruct (f !! p) as [x|] eqn:Ex; [|destruct (decide (p = k)) as [->|]; done].
  destruct (in_db t _) eqn:Edb.
  - assert (Hne : parent p ++ [stem (name_of p)] <> k).
    { intros [_ [= E]]%app_inj_tail. rewrite E, Hstem in Edb.
      apply existsb_exists in Edb as (r & Hr%list_elem_of_In & Hi). bools.
      rewrite Forall_forall in Ho. destruct (Ho r Hr) as ((_ & Hdot & _) & _). apply Hdot.
      rewrite Hi, chars_app. apply elem_of_app. right. vm_compute. set_solver. }
    rewrite lookup_insert_ne by done. destruct (decide (p = k)) as [->|]; [by rewrite lookup_delete_eq|].
    by rewrite lookup_delete_ne.
  - destruct (decide (p = k)) as [->|]; [by rewrite lookup_delete_eq|]. by rewrite lookup_delete_ne.
Qed.

Lemma repaired_tomb t f ks d n : Forall row_ok (alerts t) -> plain n ->
  (is_Some (f !! (d ++ [(n +:+ ".jpg") +:+ ".deleting"])) -> d ++ [(n +:+ ".jpg") +:+ ".deleting"] ∈ ks) ->
  foldl (repair t) f ks !! (d ++ [(n +:+ ".jpg") +:+ ".deleting"]) = None.
Proof.
  intros Ho Hn. revert f. induction ks as [|p ks IH]; intros f Hk; simpl.
  { apply eq_None_not_Some. intros Hs. apply Hk in Hs. set_solver. }
  apply IH. rewrite repair_tomb by done. case_decide as Ep; [by intros [? [=]]|]. set_solver.
Qed.

(** A snapshot in place stays, a quarantined one comes back. *)
Lemma repair_path t f p r : r ∈ alerts t -> row_ok r ->
  is_Some (f !! path_of r) \/ p = tombstone (path_of r) /\ is_Some (f !! p) ->
  is_Some (repair t f p !! path_of r).
Proof.
  intros Hr Ho H. destruct (row_ok_ext r Ho) as (Hj & Ht & Hst & Hid & Hpar & Hsplit). unfold repair.
  case_bool_decide as He.
  2:{ destruct H as [?|[-> _]]; done. }
  destruct (f !! p) as [x|] eqn:Ex.
  2:{ destruct H as [?|[_ [? [=]]]]; done. }
  assert (Hpp : p <> path_of r) by (intros ->; congruence).
  destruct (in_db t _) eqn:Edb.
  - rewrite lookup_insert_is_Some'. destruct H as [?|[-> _]].
    + right. by rewrite lookup_delete_ne.
    + left. by rewrite Hpar, Hst, <- Hsplit.
  - rewrite lookup_delete_ne by done. destruct H as [?|[-> _]]; [done|].
    exfalso. revert Edb. apply eq_true_false_abs, existsb_exists. exists r.
    split; [by apply list_elem_of_In|]. apply bool_decide_eq_true. by rewrite Hst, Hid.
Qed.

Lemma repaired_path t f ks r : Forall row_ok (alerts t) -> r ∈ alerts t ->
  is_Some (f !! path_of r) \/ tombstone (path_of r) ∈ ks /\ is_Some (f !! tombstone (path_of r)) ->
  is_Some (foldl (repair t) f ks !! path_of r).
Proof.
  intros Hos Hr. assert (Ho : row_ok r) by (rewrite Forall_forall in Hos; auto).
  revert f. induction ks as [|p ks IH]; intros f H; simpl; [set_solver|]. apply IH.
  destruct H as [H|[Hin Hs]]; [left; by apply repair_path; auto|].
  destruct (decide (p = tombstone (path_of r))) as [->|Hne]; [left; apply repair_path; auto|].
  right. split; [set_solver|]. destruct Ho as (Hpl & d & Hd). rewrite Hd, tombstone_snoc in *.
  rewrite repair_tomb by done. by rewrite decide_False.
Qed.
End Invariant.

(** ** Any sequence of operations *)

Inductive step (directory : string) : World -> World -> Prop :=
  | step_persist frame jpeg a w : persistable a w -> step directory w (persist directory frame jpeg a w).2
  | step_cleanup keep w : step directory w (cleanup_oldest directory keep w).2
  | step_reconcile w : step directory w (reconcile_deletions directory w).2.

Definition first_world (c : key) (calls : list (option string)) (fs : list fault) : World :=
  mkWorld c ∅ ∅ (mkDatabase true (mkTables [] []) "" fs) calls [].

Lemma snapshots_inv_reachable directory c calls fs w :
  rtc (step directory) (first_world c calls fs) w -> inv c w.
Proof.
  assert (H0 : inv c (first_world c calls fs)).
  { unfold inv, good, first_world; simpl. split_and!; try done; try constructor; try constructor; by intros k. }
  intros H. revert H0. induction H as [|w1 w2 w3 H12 _ IH]; [done|]. intros H1. apply IH.
  destruct H12; auto using inv_persist, inv_cleanup, inv_reconcile.
Qed.

(** What the process finds when it starts on the state a crash left. *)
Definition restarted (c : key) (s : disk * Tables) : World :=
  mkWorld c s.1 s.1 (mkDatabase true s.2 "" []) [] [].

Lemma restart_repairs c directory s : good c s ->
  exists w, reconcile_deletions directory (restarted c s) = (inr tt, w) /\ tables (db w) = s.2 /\
    (forall r, r ∈ alerts s.2 -> resolve c directory `prefix_of` parent (path_of c r) ->
       files w !! path_of c r = Some true /\ files w !! tombstone (path_of c r) = None) /\
    (forall d n, plain n -> resolve c directory `prefix_of` d ->
       files w !! (d ++ [(n +:+ ".jpg") +:+ ".deleting"]) = None).
Proof.
  intros Hg. destruct s as [f t]. set (w0 := restarted c (f, t)).
  assert (Hinv : inv c w0) by (split_and!; [done|exact Hg|exact Hg|constructor]).
  pose proof (inv_reconcile c directory w0 Hinv) as Hinv'.
  assert (Er : reconcile_deletions directory w0 = reconcile_loop (entries directory w0) w0)
    by reflexivity.
  rewrite Er in Hinv' |- *. clear Er.
  assert (Hent : forall k, k ∈ entries directory w0 <-> is_Some (f !! k) /\ resolve c directory `prefix_of` k).
  { intros k. unfold entries. rewrite list_elem_of_In, filter_In, <- list_elem_of_In, is_prefix_spec. simpl.
    rewrite list_elem_of_fmap. split.
    - intros [([k' x] & -> & Hx%elem_of_map_to_list) ?]. simpl. eauto.
    - intros [[x Hx] ?]. split; [|done]. exists (k, x). split; [done|]. by apply elem_of_map_to_list. }
  destruct (quiet_reconcile_loop (entries directory w0) w0) as (w & E & _ & Hd & Hf).
  - done.
  - unfold entries. apply NoDup_ListNoDup, List.NoDup_filter, NoDup_ListNoDup, NoDup_fst_map_to_list.
  - intros k Hk. by apply Hent.
  - rewrite E in Hinv' |- *. exists w. split_and!; [done|by rewrite Hd|..].
    + intros r Hr Hpre. destruct Hg as (_ & Hos & Hhas & _). simpl in *.
      pose proof Hos as Hos'. rewrite Forall_forall in Hos, Hhas. specialize (Hos r Hr). specialize (Hhas r Hr).
      assert (Htomb : is_Some (f !! tombstone (path_of c r)) -> tombstone (path_of c r) ∈ entries directory w0).
      { intros Hs. apply Hent. split; [done|]. destruct Hos as (_ & d & Hd'). rewrite Hd', tombstone_snoc.
        rewrite Hd', parent_snoc in Hpre. by apply prefix_app_r. }
      assert (Hs : is_Some (files w !! path_of c r)).
      { rewrite Hf. apply (repaired_path c); [done|done|]. destruct Hhas; auto. }
      split.
      * destruct Hs as [x Hx]. rewrite Hx. f_equal. eapply (snapshot_true c (files w) r); [|done|by left].
        apply Hinv'.
      * rewrite Hf. destruct Hos as (Hpl & d & Hd'). rewrite Hd', tombstone_snoc in *.
        by apply (repaired_tomb c).
    + intros d n Hn Hpre. rewrite Hf. apply (repaired_tomb c); [apply Hg|done|].
      intros Hs. apply Hent. split; [done|]. by apply prefix_app_r.
Qed.


(** After a crash at any point of any such history, the reconciliation a restart runs succeeds (when
    no call fails), leaves the database alone, puts the snapshot of every alert recorded below the
    snapshot directory back in place, complete, and leaves no quarantined snapshot there, in
    particular none of an alert whose row is gone. *)
Theorem restart_completes_cleanup directory c calls fs w s :
  rtc (step directory) (first_world c calls fs) w -> s ∈ crashes w ->
  exists w', reconcile_deletions directory (restarted c s) = (inr tt, w') /\ tables (db w') = s.2 /\
    (forall r, r ∈ alerts s.2 -> resolve c directory `prefix_of` parent (path_of c r) ->
       files w' !! path_of c r = Some true /\ files w' !! tombstone (path_of c r) = None) /\
    (forall d n, plain n -> resolve c directory `prefix_of` d ->
       files w' !! (d ++ [(n +:+ ".jpg") +:+ ".deleting"]) = None).
Proof.
  intros (_ & _ & _ & Hall)%snapshots_inv_reachable Hin. rewrite Forall_forall in Hall.
  by apply restart_repairs, Hall.
Qed.

(** A snapshot directory written with a trailing separator defeats the cleanup: the normalized root
    ends in an empty element that no snapshot path has, so every alert is reported as outside the
    directory and nothing is deleted. *)
Theorem trailing_slash_blocks_cleanup directory alert w :
  ends_dir directory = true -> resolve (cwd w) directory <> [] ->
  "" ∉ absolute_normal (cwd w) (snapshot_path alert) ->
  cleanup_one directory alert w = (throw "snapshot path is outside alert directory", w).
Proof.
  intros He Hr Hp. unfold cleanup_one.
  assert (is_prefix (absolute_normal (cwd w) directory) (absolute_normal (cwd w) (snapshot_path alert)) = false)
    as ->; [|done].
  apply not_true_is_false. rewrite is_prefix_spec. intros [k Hk]. apply Hp. rewrite Hk.
  unfold absolute_normal. rewrite He, bool_decide_false by (exact Hr). set_solver.
Qed.

Definition sample_frame : SnapshotFrame := mkSnapshotFrame 2 1 6 6.
Definition sample_snapshot (i : string) (ts : Z) : AlertEvent := mkAlert i ts None "" 1 None [].

(** Two alerts are persisted; cleanup of the older one stops when the sync
    after its quarantine fails. *)
Definition sample_world : World :=
  let w := first_world [] (replicate 14 None ++ [Some "I/O error"]) [] in
  let w := (persist "/alerts" sample_frame (inr true) (sample_snapshot "alert-1" 1000) w).2 in
  let w := (persist "/alerts" sample_frame (inr true) (sample_snapshot "alert-2" 2000) w).2 in
  (cleanup_oldest "/alerts" 1 w).2.

Lemma sample_world_reachable :
  rtc (step "/alerts") (first_world [] (replicate 14 None ++ [Some "I/O error"]) []) sample_world.
Proof.
  eapply rtc_l; [apply (step_persist "/alerts" sample_frame (inr true) (sample_snapshot "alert-1" 1000))|].
  { split; [split_and!; [done|vm_compute; set_solver..]|vm_compute; set_solver]. }
  eapply rtc_l; [apply (step_persist "/alerts" sample_frame (inr true) (sample_snapshot "alert-2" 2000))|].
  { split; [split_and!; [done|vm_compute; set_solver..]|].
    intros r Hr. vm_compute in Hr. apply list_elem_of_singleton in Hr as ->. done. }
  eapply rtc_l; [apply (step_cleanup "/alerts" 1)|]. apply rtc_refl.
Qed.

Definition sample_row : AlertRow :=
  mkRow "alert-1" 1000 None None None 0 "none" "/alerts/1970-01-01/alert-1.jpg" 1 None.
Definition sample_crash : disk * Tables := default (∅, mkTables [] []) (crashes sample_world !! 22%nat).

Lemma default_lookup_elem {A} (l : list A) i x : (i < length l)%nat -> default x (l !! i) ∈ l.
Proof. intros [y Hy]%lookup_lt_is_Some_2. rewrite Hy. by eapply list_elem_of_lookup_2. Qed.

Lemma sample_crash_noted : sample_crash ∈ crashes sample_world.
Proof. apply default_lookup_elem. vm_compute. lia. Qed.

Lemma sample_row_present : sample_row ∈ alerts sample_crash.2.
Proof. vm_compute. left. Qed.


Lemma restart_completes_cleanup_witness :
  exists w', reconcile_deletions "/alerts" (restarted [] sample_crash) = (inr tt, w') /\
    files w' !! path_of [] sample_row = Some true /\
    files w' !! tombstone (path_of [] sample_row) = None.
Proof.
  destruct (restart_completes_cleanup "/alerts" [] (replicate 14 None ++ [Some "I/O error"]) [] sample_world
    sample_crash) as (w' & E & _ & H & _).
  - exact sample_world_reachable.
  - exact sample_crash_noted.
  - exists w'. split; [exact E|]. apply H; [exact sample_row_present|].
    exists ["1970-01-01"]. vm_compute. reflexivity.
Defined.

Lemma trailing_slash_blocks_cleanup_witness :
  let w := (persist "/alerts/" sample_frame (inr true) (sample_snapshot "alert-1" 1000) (first_world [] [] [])).2 in
  cleanup_one "/alerts/" (set_snapshot_path "/alerts/1970-01-01/alert-1.jpg" (sample_snapshot "alert-1" 1000)) w =
    (throw "snapshot path is outside alert directory", w) /\
  is_Some (files w !! ["alerts"; "1970-01-01"; "alert-1.jpg"]).
Proof.
  intros w. split; [|vm_compute; eauto]. apply trailing_slash_blocks_cleanup.
  - vm_compute. reflexivity.
  - vm_compute. discriminate.
  - vm_compute. set_solver.
Defined.
End Snapshots.
