(* ===== verification/AlertRules.v ===== *)
(** * Alert rules ([src/alerts/alert_manager.cpp]: [configure], [process])

    [process] runs every rule on the detections of one frame.  Times are
    nanoseconds of the clock the source reads; the repository, the snapshot
    directory and the JPEG encoder are the world of the snapshots component.
    An alert that is raised is also published, with the text of [event_data]. *)

From S2P Require Import Prelude Strings Json Floats ConfigData Paths Preprocess YoloPostprocess AlertRepository.
From S2P Require Import AlertSnapshots.

Module Alerts.
Import Cfg Repository Snapshots.

Record RuleState := mkRuleState {
  rule : AlertRuleConfig;
  consecutive : Z;
  last_alert : option Z;
}.

Record AlertManager := mkManager {
  snapshot_directory_ : string;
  model_version_ : string;
  rules_ : list RuleState;
  detector_generation_ : option Z;
  next_id_ : Z;
}.

Definition make_manager : AlertManager := mkManager "" "" [] None 1.

(** The rule part of [configure]; with a repository it also reconciles. *)
Definition configure (rules : list AlertRuleConfig) (directory version : string) (m : AlertManager)
    : AlertManager :=
  mkManager directory version ((fun r => mkRuleState r 0 None) <$> rules) None (next_id_ m).

(** [configure] with a repository: its error is logged. *)
Definition configure_repository (rules : list AlertRuleConfig) (directory version : string)
    (m : AlertManager) (w : World) : AlertManager * World * list string :=
  let m := configure rules directory version m in
  match reconcile_deletions directory w with
  | (inl e, w) => (m, w, [e])
  | (inr _, w) => (m, w, [])
  end.

Definition class_name (class : Z) (names : list string) : string :=
  match (if 0 <=? class then names !! Z.to_nat class else None) with
  | Some n => n
  | None => "class_" +:+ to_string class
  end.

Definition center (a b : float32) (size : Z) : float64 :=
  f64_div (f64_mul (f64_of_f32 (f32_add a b)) f64_half) (f64_of_Z size).

Definition in_roi (d : Postprocess.Detection) (width height : Z) (roi : option AlertRoi) : bool :=
  match roi with
  | None => true
  | Some r =>
    if (width <=? 0) || (height <=? 0) then false
    else
      let center_x := center (Postprocess.x1 d) (Postprocess.x2 d) width in
      let center_y := center (Postprocess.y1 d) (Postprocess.y2 d) height in
      fle (roi_x1 r) center_x && fle center_x (roi_x2 r) &&
      fle (roi_y1 r) center_y && fle center_y (roi_y2 r)
  end.

Definition matches (r : AlertRuleConfig) (width height : Z) (names : list string)
    (d : Postprocess.Detection) : bool :=
  isfinite (Postprocess.confidence d) && isfinite (Postprocess.x1 d) && isfinite (Postprocess.y1 d) &&
  isfinite (Postprocess.x2 d) && isfinite (Postprocess.y2 d) &&
  bool_decide (class_name (Postprocess.class_id d) names = rule_class r) &&
  negb (flt (f64_of_f32 (Postprocess.confidence d)) (rule_confidence r)) &&
  in_roi d width height (rule_roi r).

Definition to_alert_detection (names : list string) (d : Postprocess.Detection) : AlertDetection :=
  mkAlertDetection (Postprocess.class_id d) (class_name (Postprocess.class_id d) names)
    (f64_of_f32 (Postprocess.confidence d)) (f64_of_f32 (Postprocess.x1 d)) (f64_of_f32 (Postprocess.y1 d))
    (f64_of_f32 (Postprocess.x2 d)) (f64_of_f32 (Postprocess.y2 d)).

(** What one call of [process] is given, and what it finds: the GPS fix, the
    repository ([None] when the manager has none) with the encoder's answer for
    each rule, and the frame to snapshot. *)
Record Call := mkCall {
  result : Postprocess.DetectionResult;
  frame_width : Z;
  frame_height : Z;
  names : list string;
  generation : Z;
  snapshot_frame : option SnapshotFrame;
  wall_time : Z;
  monotonic_time : Z;
  gps_fix : option Gps.GpsFix;
  has_repository : bool;
  jpeg : nat -> encoding;
}.

Definition matching (c : Call) (s : RuleState) : list AlertDetection :=
  to_alert_detection (names c) <$>
    List.filter (matches (rule s) (frame_width c) (frame_height c) (names c))
      (Postprocess.detections (result c)).

Definition second_ns : Z := 1000000000.

Definition alert_id (ms sequence index next : Z) : string :=
  "alert-" +:+ to_string ms +:+ "-" +:+ to_string sequence +:+ "-" +:+ to_string index +:+ "-" +:+
  to_string next.

Definition new_alert (m : AlertManager) (c : Call) (index : nat) (s : RuleState) (next : Z) : AlertEvent :=
  let ms := Z.quot (wall_time c) 1000000 in
  let sequence := Postprocess.frame_sequence (result c) in
  mkAlert (alert_id ms sequence (Z.of_nat index) next) ms (gps_fix c) "" sequence
    (if bool_decide (model_version_ m = "") then None else Some (model_version_ m)) (matching c s).

Definition with_consecutive (n : Z) (s : RuleState) : RuleState := mkRuleState (rule s) n (last_alert s).

(** The counter after a frame with a match. *)
Definition counted (s : RuleState) : Z := Z.min (consecutive s + 1) (consecutive_frames (rule s)).

Definition cooling (now : Z) (s : RuleState) : bool :=
  match last_alert s with
  | Some t => now - t <? cooldown_seconds (rule s) * second_ns
  | None => false
  end.

(** One rule of the loop: its new state, the alert it raised, the errors it
    logged, the id counter and the world. *)
Definition process_rule (m : AlertManager) (c : Call) (index : nat) (s : RuleState) (next : Z) (w : World)
    : RuleState * option AlertEvent * list string * Z * World :=
  if bool_decide (matching c s = []) then (with_consecutive 0 s, None, [], next, w)
  else
    let s := with_consecutive (counted s) s in
    if consecutive s <? consecutive_frames (rule s) then (s, None, [], next, w)
    else if cooling (monotonic_time c) s then (s, None, [], next, w)
    else
      let alert := new_alert m c index s next in
      let next := u64 (next + 1) in
      let raised := mkRuleState (rule s) 0 (Some (monotonic_time c)) in
      if negb (has_repository c) then (raised, Some alert, [], next, w)
      else
        match snapshot_frame c with
        | None => (s, None, ["snapshot frame is unavailable"], next, w)
        | Some frame =>
          match persist (snapshot_directory_ m) frame (jpeg c index) alert w with
          | (inl e, w) => (s, None, [e], next, w)
          | (inr alert, w) => (raised, Some alert, [], next, w)
          end
        end.

Fixpoint process_rules (m : AlertManager) (c : Call) (index : nat) (ss : list RuleState) (next : Z) (w : World)
    : list RuleState * list (option AlertEvent) * list string * Z * World :=
  match ss with
  | [] => ([], [], [], next, w)
  | s :: rest =>
    let '(s, a, errors, next, w) := process_rule m c index s next w in
    let '(rest, alerts, more, next, w) := process_rules m c (S index) rest next w in
    (s :: rest, a :: alerts, errors ++ more, next, w)
  end.

(** A new detector generation restarts the counters of every rule. *)
Definition enter_generation (g : Z) (m : AlertManager) : AlertManager :=
  if bool_decide (detector_generation_ m = Some g) then m
  else mkManager (snapshot_directory_ m) (model_version_ m) (with_consecutive 0 <$> rules_ m) (Some g) (next_id_ m).

(** The alerts returned (also the events published, in this order), the errors
    logged, the manager and the world.  The outcome of each rule is kept apart
    in [process_outcomes]. *)
Definition process_outcomes (c : Call) (m : AlertManager) (w : World)
    : list (option AlertEvent) * list string * AlertManager * World :=
  let m := enter_generation (generation c) m in
  let '(rules, outcomes, errors, next, w) := process_rules m c 0 (rules_ m) (next_id_ m) w in
  (outcomes, errors,
   mkManager (snapshot_directory_ m) (model_version_ m) rules (detector_generation_ m) next, w).

Definition process (c : Call) (m : AlertManager) (w : World)
    : list AlertEvent * list string * AlertManager * World :=
  let '(outcomes, errors, m, w) := process_outcomes c m w in
  (omap (fun o => o) outcomes, errors, m, w).

(** The text of the published event; [show] prints a [double] with 17 digits. *)
Definition detection_data (show : float64 -> string) (d : AlertDetection) : string :=
  js "{'class_id':" +:+ to_string (Repository.class_id d) +:+ js ",'class_name':" +:+ json_string (Repository.class_name d) +:+
  js ",'confidence':" +:+ show (Repository.confidence d) +:+
  js ",'box':[" +:+ show (Repository.x1 d) +:+ "," +:+ show (Repository.y1 d) +:+ "," +:+ show (Repository.x2 d) +:+ "," +:+
  show (Repository.y2 d) +:+ "]}".

Fixpoint detections_data (show : float64 -> string) (ds : list AlertDetection) : string :=
  match ds with
  | [] => ""
  | [d] => detection_data show d
  | d :: rest => detection_data show d +:+ "," +:+ detections_data show rest
  end.

Definition event_data (show : float64 -> string) (a : AlertEvent) : string :=
  js "{'id':" +:+ json_string (id a) +:+ js ",'frame_sequence':" +:+ to_string (frame_sequence a) +:+
  js ",'timestamp_ms':" +:+ to_string (timestamp_ms a) +:+ js ",'detections':[" +:+ detections_data show (detections a) +:+ "]" +:+
  match (if gps_valid a then gps a else None) with
  | Some f =>
    js ",'gps_valid':true,'gps_source':" +:+ json_string (Gps.source f) +:+ js ",'latitude':" +:+ show (Gps.fix_latitude f) +:+
    js ",'longitude':" +:+ show (Gps.fix_longitude f) +:+ js ",'altitude_m':" +:+ show (Gps.fix_altitude_m f)
  | None => js ",'gps_valid':false,'gps_source':'none'"
  end +:+ "}".

(** ** One rule over a stream of frames *)

(** A past frame as the rule saw it, and whether it raised an alert. *)
Record Seen := mkSeen {
  seen_generation : Z;
  seen_match : bool;
  seen_time : Z;
  raised : bool;
}.

(** The most recent frames in a row, newest first, that are of generation [g],
    matched the rule and raised no alert. *)
Fixpoint streak (g : Z) (history : list Seen) : Z :=
  match history with
  | [] => 0
  | f :: rest =>
    if bool_decide (seen_generation f = g) && seen_match f && negb (raised f) then 1 + streak g rest else 0
  end.

Definition last_raised (history : list Seen) : option Z :=
  seen_time <$> List.find raised history.

(** The rule should raise an alert for the frame of call [c]. *)
Definition due (r : AlertRuleConfig) (c : Call) (history : list Seen) : Prop :=
  consecutive_frames r <= streak (generation c) history + 1 /\
  match last_raised history with
  | Some t => cooldown_seconds r * second_ns <= monotonic_time c - t
  | None => True
  end.

(** The manager's record of rule [i] agrees with the frames it has seen. *)
Definition tracks (m : AlertManager) (i : nat) (r : AlertRuleConfig) (history : list Seen) : Prop :=
  exists s, rules_ m !! i = Some s /\ rule s = r /\ last_alert s = last_raised history /\
    match history with
    | [] => consecutive s = 0 /\ detector_generation_ m = None
    | f :: _ => detector_generation_ m = Some (seen_generation f) /\
                consecutive s = Z.min (streak (seen_generation f) history) (consecutive_frames r)
    end.

Definition raised_by (outcomes : list (option AlertEvent)) (i : nat) : bool :=
  match outcomes !! i with Some (Some _) => true | _ => false end.

Definition rule_matches (r : AlertRuleConfig) (c : Call) : bool :=
  existsb (matches r (frame_width c) (frame_height c) (names c)) (Postprocess.detections (result c)).

Definition saw (r : AlertRuleConfig) (c : Call) (fired : bool) : Seen :=
  mkSeen (generation c) (rule_matches r c) (monotonic_time c) fired.

(** ** Lemmas *)

Lemma matching_empty c s : matching c s = [] <-> rule_matches (rule s) c = false.
Proof.
  unfold matching, rule_matches. induction (Postprocess.detections (result c)) as [|d l IH]; simpl; [done|].
  by destruct (matches _ _ _ _ d).
Qed.

Lemma process_rules_lookup m c k ss next w ss' outs errs next' w' i s :
  process_rules m c k ss next w = (ss', outs, errs, next', w') -> ss !! i = Some s ->
  exists n1 w1 s' a e n2 w2, process_rule m c (k + i) s n1 w1 = (s', a, e, n2, w2) /\
    ss' !! i = Some s' /\ outs !! i = Some a.
Proof.
  revert k i next w ss' outs errs next' w'.
  induction ss as [|s0 ss IH]; intros k i next w ss' outs errs next' w'; [done|]. simpl.
  destruct (process_rule m c k s0 next w) as [[[[s1 a1] e1] n1] w1] eqn:E1.
  destruct (process_rules m c (S k) ss n1 w1) as [[[[ss2 a2] e2] n2] w2] eqn:E2.
  intros [= <- <- <- <- <-] Hi. destruct i as [|i]; simpl in Hi.
  - injection Hi as ->. rewrite Nat.add_0_r. naive_solver.
  - destruct (IH _ i _ _ _ _ _ _ _ E2 Hi) as (? & ? & ? & ? & ? & ? & ? & H & ? & ?).
    replace (S k + i)%nat with (k + S i)%nat in H by lia. naive_solver.
Qed.

(** The branches of one rule. *)
Lemma process_rule_cases m c k s n w s' a e n' w' :
  process_rule m c k s n w = (s', a, e, n', w') ->
  rule s' = rule s /\
  ((rule_matches (rule s) c = false /\ a = None /\ s' = with_consecutive 0 s) \/
   (rule_matches (rule s) c = true /\ a = None /\ s' = with_consecutive (counted s) s /\
    (consecutive_frames (rule s) <= counted s -> cooling (monotonic_time c) s = false ->
     has_repository c = true)) \/
   (rule_matches (rule s) c = true /\ is_Some a /\ consecutive_frames (rule s) <= counted s /\
    cooling (monotonic_time c) s = false /\
    s' = mkRuleState (rule s) 0 (Some (monotonic_time c)))).
Proof.
  unfold process_rule. case_bool_decide as Hm.
  { apply matching_empty in Hm. intros [= <- <- _ _ _]. auto 6. }
  assert (Ht : rule_matches (rule s) c = true)
    by (rewrite matching_empty in Hm; by destruct (rule_matches _ _)).
  cbn [consecutive with_consecutive rule].
  destruct (Z.ltb_spec (counted s) (consecutive_frames (rule s))) as [Hlt|Hge].
  { intros [= <- <- _ _ _]. split; [done|]. right; left. split_and!; auto. lia. }
  assert (Hcool : cooling (monotonic_time c) (with_consecutive (counted s) s) = cooling (monotonic_time c) s)
    by done.
  rewrite Hcool. destruct (cooling (monotonic_time c) s) eqn:Ec.
  { intros [= <- <- _ _ _]. split; [done|]. right; left. split_and!; auto. done. }
  destruct (has_repository c) eqn:Er; cbn [negb].
  2:{ intros [= <- <- _ _ _]. split; [done|]. right; right. split_and!; eauto. }
  destruct (snapshot_frame c) as [f|].
  2:{ intros [= <- <- _ _ _]. split; [done|]. right; left. split_and!; auto. }
  destruct (persist _ _ _ _ _) as [[err|al] w1]; intros [= <- <- _ _ _]; (split; [done|]).
  - right; left. split_and!; auto.
  - right; right. split_and!; eauto.
Qed.

Lemma streak_nonneg g h : 0 <= streak g h.
Proof. induction h as [|f h IH]; simpl; [lia|]. destruct (_ && _); lia. Qed.

(** The state of the rule once the generation of the call is entered. *)
Lemma enter_generation_tracks m i r h c : 1 <= consecutive_frames r -> tracks m i r h ->
  exists s, rules_ (enter_generation (generation c) m) !! i = Some s /\ rule s = r /\
    last_alert s = last_raised h /\
    consecutive s = Z.min (streak (generation c) h) (consecutive_frames r) /\
    detector_generation_ (enter_generation (generation c) m) = Some (generation c).
Proof.
  intros Hn (s & Hs & Hr & Hl & Hh). unfold enter_generation.
  pose proof (streak_nonneg (generation c) h). case_bool_decide as Hg.
  - exists s. split_and!; auto. destruct h as [|f h]; [by destruct Hh; congruence|].
    destruct Hh as [Hg' ->]. assert (seen_generation f = generation c) as -> by congruence. done.
  - exists (with_consecutive 0 s). cbn [rules_ detector_generation_]. rewrite list_lookup_fmap, Hs.
    split_and!; auto. destruct h as [|f h]; [simpl; lia|]. destruct Hh as [Hg' _].
    cbn [streak]. rewrite bool_decide_false by congruence. simpl. lia.
Qed.

(** One call of [process], seen by one rule. *)
Lemma process_tracks m i r h c w : 1 <= consecutive_frames r -> tracks m i r h ->
  let '(outcomes, _, m', _) := process_outcomes c m w in
  tracks m' i r (saw r c (raised_by outcomes i) :: h) /\
  (raised_by outcomes i = true -> rule_matches r c = true /\ due r c h) /\
  (rule_matches r c = true -> due r c h -> has_repository c = false -> raised_by outcomes i = true).
Proof.
  intros Hn Ht. destruct (enter_generation_tracks m i r h c Hn Ht) as (s & Hs & Hr & Hl & Hc & Hg).
  unfold process_outcomes. set (m0 := enter_generation (generation c) m) in *.
  destruct (process_rules m0 c 0 (rules_ m0) (next_id_ m0) w) as [[[[rs outs] errs] nx] w'] eqn:E.
  destruct (process_rules_lookup _ _ _ _ _ _ _ _ _ _ _ _ _ E Hs)
    as (n1 & w1 & s' & a & e & n2 & w2 & Ep & Hrs & Houts).
  apply process_rule_cases in Ep as [Hrule Hcases]. rewrite Hr in *.
  assert (Hf : raised_by outs i = bool_decide (is_Some a)).
  { unfold raised_by. rewrite Houts. by destruct a. }
  assert (Hcool : cooling (monotonic_time c) s = false <->
    match last_raised h with
    | Some t => cooldown_seconds r * second_ns <= monotonic_time c - t | None => True end).
  { unfold cooling. rewrite Hl, Hr. destruct (last_raised h); [|done]. by rewrite Z.ltb_ge. }
  assert (Hcnt : counted s = Z.min (streak (generation c) h + 1) (consecutive_frames r))
    by (unfold counted; rewrite Hr, Hc; lia).
  rewrite Hf. destruct Hcases as [(Hm & -> & ->)|[(Hm & -> & -> & Hno)|(Hm & Ha & Hge & Hco & ->)]].
  - rewrite bool_decide_false by (by intros [? [=]]). split_and!; [|done|congruence].
    exists (with_consecutive 0 s). split_and!; auto. unfold saw. cbn [streak seen_match seen_generation raised].
    rewrite Hm, andb_false_r. cbn [andb with_consecutive consecutive]. lia.
  - rewrite bool_decide_false by (by intros [? [=]]). split_and!; [|done|].
    + exists (with_consecutive (counted s) s). split_and!; auto.
      unfold saw. cbn [streak seen_match seen_generation raised]. rewrite Hm, bool_decide_true by done.
      cbn [andb negb with_consecutive consecutive]. rewrite Hcnt. lia.
    + intros _ (Hd & Hcd) Hrep. apply Hcool in Hcd. rewrite Hno in Hrep; [done|lia|done].
  - rewrite bool_decide_true by done. split_and!; [| |done].
    + exists (mkRuleState r 0 (Some (monotonic_time c))). split_and!; auto.
      unfold saw. cbn [streak seen_match seen_generation raised]. cbn [negb]. rewrite andb_false_r.
      cbn [consecutive]. lia.
    + intros _. split; [done|]. split; [lia|by apply Hcool].
Qed.

(** ** A stream of frames *)

(** Follow rule [i] through successive calls, collecting what it saw. *)
Definition watch (i : nat) (r : AlertRuleConfig) (st : AlertManager * World * list Seen) (c : Call)
    : AlertManager * World * list Seen :=
  let '(m, w, h) := st in
  let '(outcomes, _, m', w') := process_outcomes c m w in
  (m', w', saw r c (raised_by outcomes i) :: h).

Lemma watch_tracks i r calls m w h : 1 <= consecutive_frames r -> tracks m i r h ->
  let '(m', _, h') := foldl (watch i r) (m, w, h) calls in tracks m' i r h'.
Proof.
  intros Hn. revert m w h; induction calls as [|c calls IH]; intros m w h Ht; simpl; [done|].
  pose proof (process_tracks m i r h c w Hn Ht) as H.
  destruct (process_outcomes c m w) as [[[outs errs] m'] w']. apply IH, H.
Qed.

(** C37.   After any stream of frames, whatever the other rules do and whatever persisting alerts
    runs into, a rule raises an alert for the next frame only if the frame matches it, the required
    number of consecutive frames (this one included, all of the current detector generation and none
    of which raised an alert) match it, and its cooldown has passed since the last alert it raised;
    and it does raise one then, when the manager has no repository. *)
Theorem alert_raised_when_due rules i r directory version m0 w0 calls c :
  rules !! i = Some r -> 1 <= consecutive_frames r ->
  let '(m, w, history) := foldl (watch i r) (configure rules directory version m0, w0, []) calls in
  let '(outcomes, _, _, _) := process_outcomes c m w in
  (raised_by outcomes i = true -> rule_matches r c = true /\ due r c history) /\
  (rule_matches r c = true -> due r c history -> has_repository c = false -> raised_by outcomes i = true).
Proof.
  intros Hi Hn.
  assert (H0 : tracks (configure rules directory version m0) i r []).
  { exists (mkRuleState r 0 None). cbn. by rewrite list_lookup_fmap, Hi. }
  pose proof (watch_tracks i r calls _ w0 [] Hn H0) as H.
  destruct (foldl _ _ _) as [[m w] h]. pose proof (process_tracks m i r h c w Hn H) as Hp.
  destruct (process_outcomes c m w) as [[[outs errs] m'] w']. apply Hp.
Qed.

(** ** Identifiers *)

Definition dash : ascii := "-".

Lemma dec_digits n c : 0 <= n -> c ∈ dec n -> is_digit c = true.
Proof. intros Hn Hc. destruct (dec_spec n Hn) as (_ & Hf & _). rewrite Forall_forall in Hf. auto. Qed.

Lemma to_string_chars z c : c ∈ chars (to_string z) -> c = dash \/ is_digit c = true.
Proof.
  unfold to_string. destruct (Z.ltb_spec z 0).
  - rewrite chars_app, chars_str. change (chars "-") with [dash]. intros [Hc|Hc]%elem_of_app.
    + left. by apply list_elem_of_singleton in Hc.
    + right. eapply dec_digits; [|done]. lia.
  - rewrite chars_str. intros Hc. right. by eapply dec_digits.
Qed.

Lemma last_part (l1 l2 d1 d2 : list ascii) : dash ∉ d1 -> dash ∉ d2 ->
  l1 ++ dash :: d1 = l2 ++ dash :: d2 -> d1 = d2.
Proof.
  revert l2; induction l1 as [|x l1 IH]; intros [|y l2] H1 H2 E; simplify_eq/=.
  - done.
  - exfalso. apply H1. set_solver.
  - exfalso. apply H2. set_solver.
  - by eapply IH.
Qed.

Lemma digit_not_dash c : is_digit c = true -> c <> dash.
Proof. intros H ->. by vm_compute in H. Qed.

Lemma alert_id_inj ms1 s1 i1 n1 ms2 s2 i2 n2 : 0 <= n1 -> 0 <= n2 ->
  alert_id ms1 s1 i1 n1 = alert_id ms2 s2 i2 n2 -> n1 = n2.
Proof.
  intros H1 H2 E%(f_equal chars). unfold alert_id in E. rewrite !chars_app in E.
  change (chars "-") with [dash] in E. rewrite !app_assoc in E.
  assert (Hts : forall n, 0 <= n -> chars (to_string n) = dec n).
  { intros n Hn. unfold to_string. rewrite (proj2 (Z.ltb_ge n 0)) by lia. apply chars_str. }
  rewrite (Hts n1 H1), (Hts n2 H2) in E.
  rewrite <- !(app_assoc _ [dash]) in E. cbn [app] in E.
  apply last_part in E.
  - destruct (dec_spec n1 H1) as (_ & _ & R1 & _), (dec_spec n2 H2) as (_ & _ & R2 & _).
    rewrite E in R1. congruence.
  - intros Hc%dec_digits; [|done]. by apply digit_not_dash in Hc.
  - intros Hc%dec_digits; [|done]. by apply digit_not_dash in Hc.
Qed.

Lemma alert_id_plain ms s i n : Path.plain (alert_id ms s i n).
Proof.
  assert (Hall : forall c, c ∈ chars (alert_id ms s i n) ->
    c = dash \/ is_digit c = true \/ c ∈ chars "alert-").
  { intros c. unfold alert_id. rewrite !chars_app, !elem_of_app.
    change (chars "-") with [dash]. rewrite !list_elem_of_singleton.
    intros [?|[H|[?|[H|[?|[H|[?|H]]]]]]]; auto; apply to_string_chars in H as [?|?]; auto. }
  split_and!; [done| |]; intros H%Hall; destruct H as [H|[H|H]]; revert H; vm_compute;
    try discriminate; intros H; repeat (apply elem_of_cons in H as [?|H]; [done|]); by apply elem_of_nil in H.
Qed.

(** [ids] carry the counter values [ns]. *)
Definition numbered (ids : list string) (ns : list Z) : Prop :=
  Forall2 (fun i n => exists ms sq ix, i = alert_id ms sq ix n) ids ns.

(** Counter values taken between [lo] and [hi], in increasing order. *)
Definition taken (lo hi : Z) (ns : list Z) : Prop :=
  StronglySorted Z.lt ns /\ Forall (fun n => lo <= n < hi) ns.

Lemma taken_app lo mid hi ns ms : lo <= mid <= hi -> taken lo mid ns -> taken mid hi ms -> taken lo hi (ns ++ ms).
Proof.
  intros Hle [Hs Hn] [Ht Hm]. split.
  - apply StronglySorted_app. split_and!; auto. intros x y Hx Hy.
    rewrite Forall_forall in Hn, Hm. specialize (Hn x Hx). specialize (Hm y Hy). lia.
  - apply Forall_app. split; eapply Forall_impl; [exact Hn| |exact Hm|]; simpl; lia.
Qed.

Lemma persist_id directory frame j a w a' w' : persist directory frame j a w = (inr a', w') ->
  Repository.id a' = Repository.id a.
Proof.
  unfold persist, encode_failed. repeat case_match; intros; simplify_eq/=; done.
Qed.

Lemma process_rule_ids m c k s n w s' a e n' w' : 0 <= n < u64_max ->
  process_rule m c k s n w = (s', a, e, n', w') ->
  n <= n' <= n + 1 /\
  exists ns, numbered (Repository.id <$> option_list a) ns /\ taken n n' ns.
Proof.
  intros Hn. unfold process_rule.
  assert (Hnone : forall hi, exists ns, numbered (Repository.id <$> option_list None) ns /\ taken n hi ns)
    by (intros hi; exists []; split; [constructor|split; constructor]).
  rewrite u64_small by lia.
  assert (Hone : forall al ms sq ix, Repository.id al = alert_id ms sq ix n ->
    exists ns, numbered (Repository.id <$> option_list (Some al)) ns /\ taken n (n + 1) ns).
  { intros al ms sq ix E. exists [n]. split; [constructor; [by rewrite E; eauto|constructor]|].
    split; [repeat constructor|]. constructor; [lia|constructor]. }
  case_bool_decide; [intros [= <- <- _ <- _]; split; [lia|apply Hnone]|].
  destruct (_ <? _); [intros [= <- <- _ <- _]; split; [lia|apply Hnone]|].
  destruct (cooling _ _); [intros [= <- <- _ <- _]; split; [lia|apply Hnone]|].
  destruct (negb _); [intros [= <- <- _ <- _]; split; [lia|by eapply Hone]|].
  destruct (snapshot_frame c); [|intros [= <- <- _ <- _]; split; [lia|apply Hnone]].
  destruct (persist _ _ _ _ _) as [[err|al] w1] eqn:Ep; intros [= <- <- _ <- _]; (split; [lia|]); [apply Hnone|].
  eapply Hone. rewrite (persist_id _ _ _ _ _ _ _ Ep). done.
Qed.

Lemma process_rules_ids m c k ss n w ss' outs errs n' w' :
  1 <= n -> n + Z.of_nat (length ss) <= u64_max ->
  process_rules m c k ss n w = (ss', outs, errs, n', w') ->
  n <= n' <= n + Z.of_nat (length ss) /\ length ss' = length ss /\
  exists ns, numbered (Repository.id <$> omap (fun o => o) outs) ns /\ taken n n' ns.
Proof.
  revert k n w ss' outs errs n' w'. induction ss as [|s ss IH]; intros k n w ss' outs errs n' w' H1 Hmax; simpl in *.
  { intros [= <- <- _ <- _]. split_and!; [lia|lia|done|]. exists []. split; [constructor|split; constructor]. }
  destruct (process_rule m c k s n w) as [[[[s1 a] e1] n1] w1] eqn:E1.
  destruct (process_rules m c (S k) ss n1 w1) as [[[[ss2 a2] e2] n2] w2] eqn:E2.
  intros [= <- <- _ <- _].
  assert (Hr : 0 <= n < u64_max) by lia.
  destruct (process_rule_ids _ _ _ _ _ _ _ _ _ _ _ Hr E1) as (Hn1 & ns1 & N1 & T1).
  assert (Hr2 : n1 + Z.of_nat (length ss) <= u64_max) by lia.
  assert (Hr1 : 1 <= n1) by lia.
  destruct (IH _ _ _ _ _ _ _ _ Hr1 Hr2 E2) as (Hn2 & Hl & ns2 & N2 & T2).
  split_and!; [lia|lia|simpl; lia|]. exists (ns1 ++ ns2). split; [|eapply taken_app; eauto; lia].
  destruct a as [al|]; cbn [omap list_omap]; simpl in *.
  - inversion N1 as [|? n0 ? ? Hh Hnil]; subst. inversion Hnil; subst. constructor; [done|exact N2].
  - inversion N1; subst. exact N2.
Qed.

(** Run a stream of calls, collecting the ids of the alerts returned. *)
Fixpoint alert_ids (calls : list Call) (m : AlertManager) (w : World) : list string :=
  match calls with
  | [] => []
  | c :: rest =>
    let '(alerts, _, m, w) := process c m w in
    (Repository.id <$> alerts) ++ alert_ids rest m w
  end.

Lemma alert_ids_numbered calls m w : 1 <= next_id_ m ->
  next_id_ m + Z.of_nat (length calls * length (rules_ m)) <= u64_max ->
  exists ns hi, numbered (alert_ids calls m w) ns /\ taken (next_id_ m) hi ns /\ next_id_ m <= hi.
Proof.
  revert m w. induction calls as [|c calls IH]; intros m w H1 Hmax; cbn [alert_ids].
  { exists [], (next_id_ m). split_and!; [constructor|split; constructor|lia]. }
  unfold process, process_outcomes. set (m0 := enter_generation (generation c) m).
  assert (Hm0 : next_id_ m0 = next_id_ m /\ length (rules_ m0) = length (rules_ m)).
  { unfold m0, enter_generation. case_bool_decide; [done|]. simpl. by rewrite length_fmap. }
  destruct Hm0 as [En El].
  destruct (process_rules m0 c 0 (rules_ m0) (next_id_ m0) w) as [[[[rs outs] errs] nx] w'] eqn:E.
  assert (Hr1 : 1 <= next_id_ m0) by lia.
  assert (Hr2 : next_id_ m0 + Z.of_nat (length (rules_ m0)) <= u64_max) by (simpl in Hmax; lia).
  destruct (process_rules_ids _ _ _ _ _ _ _ _ _ _ _ Hr1 Hr2 E)
    as (Hn & Hl & ns & N & T).
  match goal with |- context [alert_ids calls ?m'' w'] => destruct (IH m'' w') as (ns' & hi & N' & T' & Hh) end;
    simpl in *; [lia|rewrite Hl; lia|].
  exists (ns ++ ns'), hi. split_and!; [by apply Forall2_app| |lia].
  eapply taken_app; [|rewrite <- En; exact T|exact T']. lia.
Qed.

(** No two alerts raised by one manager share an identifier, over any stream of frames (until the
    64-bit counter would wrap), and every identifier is a plain file name, free of dots and
    separators. *)
Theorem alert_ids_distinct calls rules directory version w :
  Z.of_nat (length calls * length rules) < u64_max ->
  NoDup (alert_ids calls (configure rules directory version make_manager) w) /\
  Forall Path.plain (alert_ids calls (configure rules directory version make_manager) w).
Proof.
  intros Hmax. destruct (alert_ids_numbered calls (configure rules directory version make_manager) w)
    as (ns & hi & N & [Ts Tr] & _); [simpl; lia|simpl; rewrite length_fmap; lia|].
  simpl in Tr. split.
  - revert ns N Ts Tr. generalize (alert_ids calls (configure rules directory version make_manager) w) as ids.
    induction ids as [|i ids IH]; intros ns N Ts Tr; [constructor|].
    inversion N as [|? n ? ns' (ms & sq & ix & ->) N']; subst.
    inversion Ts as [|? ? Ts' Hlt]; subst. apply Forall_cons in Tr as [Hn Tr]. constructor; [|by eapply IH].
    intros Hin. apply list_elem_of_lookup in Hin as [j Hj].
    destruct (Forall2_lookup_l _ _ _ _ _ N' Hj) as (n' & Hn' & ms' & sq' & ix' & E).
    rewrite Forall_forall in Hlt, Tr. apply list_elem_of_lookup_2 in Hn'.
    specialize (Hlt n' Hn'). specialize (Tr n' Hn'). apply alert_id_inj in E; lia.
  - eapply Forall2_Forall_l; [exact N|]. apply Forall_true. intros n i (ms & sq & ix & ->). apply alert_id_plain.
Qed.

(** A rule that needs two frames in a row, and a detection that matches it. *)
Definition sample_rule : AlertRuleConfig :=
  mkRule "person" (lit 5 1) 2 10 (Some (mkRoi f64_zero f64_zero f64_one f64_one)).
Definition sample_call (sequence now : Z) : Call :=
  let q n := f32_div (f32_of_Z n) (f32_of_Z 4) in
  mkCall (Postprocess.mkDetectionResult sequence
            [Postprocess.mkDetection 0 (q 3) (q 0) (q 0) (q 8) (q 8)])
    4 4 ["person"] 1 None (1700000000000000000 + now) now None false (fun _ => inr true).

Lemma alert_raised_when_due_witness :
  let '(m, w, history) := foldl (watch 0 sample_rule)
    (configure [sample_rule] "" "" make_manager, first_world [] [] [], []) [sample_call 1 0] in
  let '(outcomes, _, _, _) := process_outcomes (sample_call 2 40000000) m w in
  raised_by outcomes 0 = true /\ due sample_rule (sample_call 2 40000000) history.
Proof.
  pose proof (alert_raised_when_due [sample_rule] 0 sample_rule "" "" make_manager (first_world [] [] [])
    [sample_call 1 0] (sample_call 2 40000000) ltac:(vm_compute; reflexivity) ltac:(vm_compute; by intros)) as H.
  assert (E : let '(m, w, history) := foldl (watch 0 sample_rule)
      (configure [sample_rule] "" "" make_manager, first_world [] [] [], []) [sample_call 1 0] in
    let '(outcomes, _, _, _) := process_outcomes (sample_call 2 40000000) m w in
    raised_by outcomes 0 = true) by (vm_compute; reflexivity).
  destruct (foldl _ _ _) as [[m w] history].
  destruct (process_outcomes _ m w) as [[[outcomes errors] m'] w'].
  destruct H as [H _]. split; [exact E|]. apply H, E.
Defined.

Lemma alert_ids_distinct_witness :
  let ids := alert_ids [sample_call 1 0; sample_call 2 40000000; sample_call 3 11000000000; sample_call 4 11040000000]
    (configure [sample_rule] "" "" make_manager) (first_world [] [] []) in
  ids = ["alert-1700000000040-2-0-1"; "alert-1700000011040-4-0-2"] /\ NoDup ids.
Proof.
  intros ids. split; [vm_compute; reflexivity|]. apply alert_ids_distinct. vm_compute. reflexivity.
Defined.
End Alerts.
