(* ===== verification/Recording.v ===== *)
(** * Recording ([include/skai/video/recording_control.hpp], [src/video/recording.cpp])

    [Control] is the controller the web API and the worker share; [Quota] the
    deletion of old segments; [Worker] the loop of the recording thread, one
    iteration at a time.  GStreamer is seen through its answers: whether a
    pipeline opens, what its bus reports, whether a buffer is accepted and
    whether finalizing it ends in EOS. *)

From S2P Require Import Prelude Strings ConfigData.

(** ** The controller *)

Module Control.

Record RecordingStatus := mkStatus {
  configured : bool;
  available : bool;
  active : bool;
  state : string;
  current_path : string;
  last_error : string;
  unavailable_reason : string;
  access_units_written : Z;
  bytes_written : Z;
  access_units_dropped : Z;
}.

Record RecordingController := mkController {
  configured_ : bool;
  requested_ : bool;
  media_available_ : bool;
  media_unavailable_reason_ : string;
  status_ : RecordingStatus;
}.

Definition default_status : RecordingStatus := mkStatus false true false "stopped" "" "" "" 0 0 0.
Definition make_controller : RecordingController := mkController false false true "" default_status.

Definition with_status (st : RecordingStatus) (c : RecordingController) : RecordingController :=
  mkController (configured_ c) (requested_ c) (media_available_ c) (media_unavailable_reason_ c) st.
Definition with_requested (r : bool) (c : RecordingController) : RecordingController :=
  mkController (configured_ c) r (media_available_ c) (media_unavailable_reason_ c) (status_ c).
Definition with_state (active : bool) (state : string) (s : RecordingStatus) : RecordingStatus :=
  mkStatus (configured s) (available s) active state (current_path s) (last_error s) (unavailable_reason s)
    (access_units_written s) (bytes_written s) (access_units_dropped s).

Definition configure (enabled : bool) (c : RecordingController) : RecordingController :=
  mkController true enabled (media_available_ c) (media_unavailable_reason_ c)
    (mkStatus true (media_available_ c) false
       (if negb (media_available_ c) then "unavailable" else if enabled then "starting" else "stopped")
       "" "" (media_unavailable_reason_ c) 0 0 0).

Definition start (c : RecordingController) : throws unit * RecordingController :=
  if negb (configured_ c) then (throw "recording is not configured", c)
  else if negb (media_available_ c) then
    (throw (if bool_decide (media_unavailable_reason_ c = "") then "source H.264 is unavailable"
            else media_unavailable_reason_ c), c)
  else
    let s := status_ c in
    (inr tt, with_requested true (with_status
      (mkStatus (configured s) (available s) (active s)
         (if negb (active s) then "starting" else state s)
         (current_path s) "" (unavailable_reason s) (access_units_written s) (bytes_written s)
         (access_units_dropped s)) c)).

Definition stop (c : RecordingController) : throws unit * RecordingController :=
  if negb (configured_ c) then (throw "recording is not configured", c)
  else
    let s := status_ c in
    (inr tt, with_requested false
      (with_status (with_state (active s) (if active s then "stopping" else "stopped") s) c)).

Definition requested (c : RecordingController) : bool := requested_ c && media_available_ c.

Definition set_active (path : string) (c : RecordingController) : RecordingController :=
  let s := status_ c in
  with_status (mkStatus (configured s) (available s) true "recording" path (last_error s)
    (unavailable_reason s) (access_units_written s) (bytes_written s) (access_units_dropped s)) c.

Definition set_stopped (c : RecordingController) : RecordingController :=
  let s := status_ c in
  with_status (with_state false
    (if negb (requested_ c) && negb (bool_decide (state s = "error")) then "stopped" else state s) s) c.

Definition set_error (error : string) (c : RecordingController) : RecordingController :=
  let s := status_ c in
  with_requested false (with_status (mkStatus (configured s) (available s) false "error" (current_path s)
    error (unavailable_reason s) (access_units_written s) (bytes_written s) (access_units_dropped s)) c).

Definition commit_written (units bytes : Z) (c : RecordingController) : RecordingController :=
  let s := status_ c in
  with_status (mkStatus (configured s) (available s) (active s) (state s) (current_path s) (last_error s)
    (unavailable_reason s) (u64 (access_units_written s + units)) (u64 (bytes_written s + bytes))
    (access_units_dropped s)) c.

Definition add_dropped (c : RecordingController) : RecordingController :=
  let s := status_ c in
  with_status (mkStatus (configured s) (available s) (active s) (state s) (current_path s) (last_error s)
    (unavailable_reason s) (access_units_written s) (bytes_written s) (u64 (access_units_dropped s + 1))) c.

Definition set_media_available (avail : bool) (reason : string) (c : RecordingController)
    : RecordingController :=
  let why := if avail then "" else reason in
  let s := status_ c in
  let active' := if negb avail then false else active s in
  let state' :=
    if negb avail then (if negb (bool_decide (state s = "error")) then "unavailable" else state s)
    else if requested_ c && negb (active s) then "starting"
    else if negb (requested_ c) && negb (bool_decide (state s = "error")) then "stopped"
    else state s in
  mkController (configured_ c) (requested_ c) avail why
    (mkStatus (configured s) avail active' state' (current_path s) (last_error s) why
       (access_units_written s) (bytes_written s) (access_units_dropped s)).

(** Everything other threads may ask of the controller. *)
Inductive command :=
  | Configure (enabled : bool)
  | Start
  | Stop
  | SetActive (path : string)
  | SetStopped
  | SetError (error : string)
  | CommitWritten (units bytes : Z)
  | AddDropped
  | SetMediaAvailable (avail : bool) (reason : string).

Definition apply (c : RecordingController) (k : command) : RecordingController :=
  match k with
  | Configure e => configure e c
  | Start => (start c).2
  | Stop => (stop c).2
  | SetActive p => set_active p c
  | SetStopped => set_stopped c
  | SetError e => set_error e c
  | CommitWritten u b => commit_written u b c
  | AddDropped => add_dropped c
  | SetMediaAvailable a r => set_media_available a r c
  end.

(** What the status never contradicts. *)
Definition consistent (c : RecordingController) : Prop :=
  let s := status_ c in
  state s ∈ ["stopped"; "starting"; "recording"; "stopping"; "error"; "unavailable"] /\
  available s = media_available_ c /\ unavailable_reason s = media_unavailable_reason_ c /\
  configured s = configured_ c /\
  (media_available_ c = true -> media_unavailable_reason_ c = "") /\
  (state s = "error" -> active s = false /\ requested_ c = false) /\
  (state s = "stopping" -> active s = true \/ requested_ c = true) /\
  (active s = true -> state s = "recording" \/ state s = "stopping" \/ state s = "stopped").

Local Ltac settle :=
  cbn [negb andb] in *; split_and!;
  first [assumption | reflexivity | (apply (bool_decide_unpack _); vm_compute; exact I)
        | (intros; first [discriminate | tauto | (split; first [reflexivity|tauto]) | congruence])
        | (intros; repeat match goal with
             | H : ?P -> _, H' : ?P |- _ => specialize (H H')
             | H : _ /\ _ |- _ => destruct H
             | H : _ \/ _ |- _ => destruct H
             end; first [discriminate | congruence | tauto])].

Lemma apply_consistent c k : consistent c -> consistent (apply c k).
Proof.
  unfold consistent. destruct c as [cf rq av why [scf sav sac sst sp se sr su sb sd]]; simpl.
  intros (Hst & -> & -> & -> & Hwhy & Herr & Hstop & Hact).
  destruct k as [e| | |q| |e|u b| |a r]; unfold apply, start, stop, configure, set_active, set_stopped, set_error,
    commit_written, add_dropped, set_media_available, with_requested, with_status, with_state;
    cbn [configured_ requested_ media_available_ media_unavailable_reason_ status_ configured available active
      state unavailable_reason fst snd].
  - destruct av, e; settle.
  - destruct cf; [|settle]. destruct av; [|settle]. destruct sac; settle.
  - destruct cf; [|settle]. destruct sac; settle.
  - settle.
  - destruct rq; [settle|]. case_bool_decide; settle.
  - settle.
  - settle.
  - settle.
  - destruct a.
    + destruct rq, sac; cbn [negb andb]; try settle; case_bool_decide; settle.
    + case_bool_decide; settle.
Qed.

(** Whatever the API, the worker and the media source ask of the recording controller and in
    whatever order, its status stays consistent: availability and its reason are the media source's,
    a recording in error is neither active nor requested, "stopping" is only shown while something
    is active or requested again, and an active recording is never shown as starting, unavailable or
    failed. *)
Theorem controller_consistent (commands : list command) :
  consistent (foldl apply make_controller commands).
Proof.
  assert (H : consistent make_controller) by (split_and!; try done; set_solver).
  revert H. generalize make_controller.
  induction commands as [|k ks IH]; intros c H; simpl; [done|]. by apply IH, apply_consistent.
Qed.

(** A stop followed by a start before the worker has closed the segment leaves the controller
    requested and recording, but the state it reports is still "stopping" (until the next segment
    begins). *)
Theorem restart_reports_stopping c :
  configured_ c = true -> media_available_ c = true -> active (status_ c) = true ->
  let c' := (start (stop c).2).2 in
  requested c' = true /\ active (status_ c') = true /\ state (status_ c') = "stopping".
Proof.
  destruct c as [cf rq av why [scf sav sac sst sp se sr su sb sd]]; simpl. by intros -> -> ->.
Qed.

Lemma restart_reports_stopping_witness :
  let c := foldl apply make_controller [Configure true; SetActive "a.mp4"; Stop; Start] in
  requested c = true /\ state (status_ c) = "stopping".
Proof.
  intros c. unfold c. cbn [foldl apply].
  pose proof (restart_reports_stopping (set_active "a.mp4" (configure true make_controller))
    ltac:(reflexivity) ltac:(reflexivity) ltac:(reflexivity)) as (H1 & _ & H3).
  split; [exact H1|exact H3].
Defined.
End Control.

(** ** Storage quota *)

Module Quota.

Definition mib : Z := 1024 * 1024.

(** A segment of the recording directory; [removable]: [remove] reports no
    error for it. *)
Record File := mkFile {
  path : string;
  size : Z;
  time : Z;
  removable : bool;
}.

(** The files the directory scan keeps. *)
Definition is_segment (name extension : string) (regular : bool) : bool :=
  regular && bool_decide (extension = ".mp4") && starts_with "recording_" name.

Definition total_size (files : list File) : Z := foldr (fun f t => u64 (size f + t)) 0 files.

Definition by_time (a b : File) : bool := time a <? time b.

(** The deletion loop: the files on which [remove] is called. *)
Fixpoint evict (quota total : Z) (files : list File) : list File :=
  match files with
  | [] => []
  | f :: rest =>
    if total <=? quota then []
    else f :: evict quota (if removable f then u64 (total - size f) else total) rest
  end.

Definition quota_bytes (max_storage_mb : Z) : Z := u64 (max_storage_mb * mib).

(** [std::sort] by time; the order of files with equal times is its choice. *)
Definition enforce_quota (max_storage_mb : Z) (files : list File) : list File :=
  evict (quota_bytes max_storage_mb) (total_size files) (stable_sort by_time files).

(** [prepare_directory] after the directory was created. *)
Definition has_space (min_free_space_mb free : Z) : bool := negb (free <? u64 (min_free_space_mb * mib)).

(** ** Exact sizes *)

Definition sum_size (files : list File) : Z := foldr (fun f t => size f + t) 0 files.

Lemma sum_size_nonneg files : Forall (fun f => 0 <= size f) files -> 0 <= sum_size files.
Proof. induction 1; simpl; lia. Qed.

Lemma total_size_exact files : Forall (fun f => 0 <= size f) files -> sum_size files <= u64_max ->
  total_size files = sum_size files.
Proof.
  induction 1 as [|f files Hf Hfs IH]; simpl; [done|]. intros H.
  pose proof (sum_size_nonneg files Hfs). rewrite IH by lia. apply u64_small. lia.
Qed.

Lemma sum_size_perm l k : l ≡ₚ k -> sum_size l = sum_size k.
Proof. induction 1; simpl; lia. Qed.

Lemma sum_size_app l k : sum_size (l ++ k) = sum_size l + sum_size k.
Proof. induction l; simpl; lia. Qed.

(** The loop deletes the shortest prefix that brings the total under the quota. *)
Lemma evict_spec quota total files :
  Forall (fun f => 0 <= size f /\ removable f = true) files -> sum_size files <= total <= u64_max ->
  exists rest, files = evict quota total files ++ rest /\
    (total - sum_size (evict quota total files) <= quota \/ rest = []) /\
    (forall pre f, pre ++ [f] `prefix_of` evict quota total files -> quota < total - sum_size pre).
Proof.
  intros H. revert total. induction H as [|f files [Hf Hr] Hfs IH]; intros total Ht; simpl.
  { exists []. split_and!; auto. intros pre f Hp. apply prefix_nil_inv in Hp. by destruct pre. }
  simpl in Ht. assert (0 <= sum_size files).
  { apply sum_size_nonneg. eapply Forall_impl; [exact Hfs|]. naive_solver. }
  destruct (Z.leb_spec total quota) as [Hle|Hgt].
  { exists (f :: files). split_and!; auto; [left; simpl; lia|].
    intros pre g Hp. apply prefix_nil_inv in Hp. by destruct pre. }
  rewrite Hr, u64_small by lia. destruct (IH (total - size f)) as (rest & E & Hq & Hmin); [lia|].
  exists rest. split_and!.
  - simpl. by rewrite <- E.
  - destruct Hq as [?|?]; [left; simpl; lia|by right].
  - intros pre g Hp. destruct pre as [|x pre]; [simpl; lia|].
    apply prefix_cons_inv_1 in Hp as Hx. apply prefix_cons_inv_2 in Hp. subst x.
    specialize (Hmin pre g Hp). simpl. lia.
Qed.

(** When the quota in bytes and the directory's total fit in 64 bits and every deletion succeeds,
    [enforce_quota] deletes the oldest segments first, brings the rest under the quota (or deletes
    everything), and deletes none that was not needed: before each deletion the total was above the
    quota. *)
Theorem quota_evicts_oldest max_storage_mb files :
  0 <= max_storage_mb * mib <= u64_max ->
  Forall (fun f => 0 <= size f /\ removable f = true) files -> sum_size files <= u64_max ->
  exists kept, stable_sort by_time files = enforce_quota max_storage_mb files ++ kept /\
    (forall a b, a ∈ enforce_quota max_storage_mb files -> b ∈ kept -> time a <= time b) /\
    (sum_size kept <= max_storage_mb * mib \/ kept = []) /\
    (forall pre f, pre ++ [f] `prefix_of` enforce_quota max_storage_mb files ->
       max_storage_mb * mib < sum_size files - sum_size pre).
Proof.
  intros Hq Hf Hs. assert (Hpos : Forall (fun f => 0 <= size f) files)
    by (eapply Forall_impl; [exact Hf|]; naive_solver).
  unfold enforce_quota, quota_bytes. rewrite total_size_exact, u64_small by done.
  assert (Hsum : sum_size (stable_sort by_time files) = sum_size files)
    by apply sum_size_perm, stable_sort_perm.
  destruct (evict_spec (max_storage_mb * mib) (sum_size files) (stable_sort by_time files))
    as (kept & E & Hk & Hmin); [by apply stable_sort_Forall|lia|].
  exists kept. split_and!; auto.
  - intros a b Ha Hb.
    assert (Hsort : StronglySorted (before by_time) (stable_sort by_time files)).
    { apply stable_sort_sorted; unfold before, by_time; intros *; rewrite ?Z.ltb_lt, ?Z.ltb_ge; lia. }
    rewrite E in Hsort. pose proof (StronglySorted_app_1_elem_of _ _ _ _ _ Hsort Ha Hb) as H.
    unfold before, by_time in H. apply Z.ltb_ge in H. lia.
  - destruct Hk as [Hk|]; [left|by right].
    rewrite E, sum_size_app in Hsum. lia.
Qed.

Lemma quota_evicts_oldest_witness :
  let files := [mkFile "recording_b.mp4" 900000 20 true; mkFile "recording_a.mp4" 900000 10 true;
                mkFile "recording_c.mp4" 100000 30 true] in
  path <$> enforce_quota 1 files = ["recording_a.mp4"] /\
  exists kept, stable_sort by_time files = enforce_quota 1 files ++ kept.
Proof.
  intros files. split; [vm_compute; reflexivity|].
  destruct (quota_evicts_oldest 1 files) as (kept & E & _).
  - vm_compute. split; by intros.
  - repeat constructor; vm_compute; by intros.
  - vm_compute. by intros.
  - exists kept. exact E.
Defined.
End Quota.

(** ** The recording thread *)

Module Worker.
Import Control.

Record EncodedUnit := mkUnit {
  keyframe : bool;
  discontinuity : bool;
  unit_bytes : Z;
}.

Inductive BusEvent := NoEvent | BusError (detail : string) | BusEos.

(** What the muxer does with a pushed unit. *)
Inductive PushResult := Pressure | PushFailed (error : string) | Pushed.

(** What one iteration of the loop meets: the controller calls other threads
    made since the last iteration, the queue, and GStreamer's answers. *)
Record Iteration := mkIteration {
  commands : list command;
  popped : option EncodedUnit;
  drops_at_pop : Z;               (* the queue's drop counter when the unit is taken *)
  queue_drops : Z;                (* and when the loop reads it, a moment later *)
  shutdown : bool;
  bus : BusEvent;
  opens : option string;          (* the error, when a pipeline does not open *)
  push : PushResult;
  finalizes : bool;               (* closing ends in EOS *)
}.

Record State := mkState {
  pipeline_ : bool;
  waiting_for_keyframe_ : bool;
  observed_queue_drops_ : Z;
  pending_access_units_ : Z;
  pending_bytes_ : Z;
  control_ : RecordingController;
}.

(** What the thread does to the recording; [Lost] marks a unit that is not
    written, units the queue dropped, or a discontinuity in the source. *)
Inductive action := Opened | Wrote (u : EncodedUnit) | Closed (finalized : bool) | Lost.

(** [RecordingModule::initialize] and [start]. *)
Definition first_state (drops : Z) (c : RecordingController) : State := mkState false true drops 0 0 c.

Definition set_control (c : RecordingController) (s : State) : State :=
  mkState (pipeline_ s) (waiting_for_keyframe_ s) (observed_queue_drops_ s) (pending_access_units_ s)
    (pending_bytes_ s) c.
Definition set_waiting (b : bool) (s : State) : State :=
  mkState (pipeline_ s) b (observed_queue_drops_ s) (pending_access_units_ s) (pending_bytes_ s) (control_ s).
Definition set_observed (n : Z) (s : State) : State :=
  mkState (pipeline_ s) (waiting_for_keyframe_ s) n (pending_access_units_ s) (pending_bytes_ s) (control_ s).
Definition set_pipeline (b : bool) (s : State) : State :=
  mkState b (waiting_for_keyframe_ s) (observed_queue_drops_ s) (pending_access_units_ s)
    (pending_bytes_ s) (control_ s).

(** [close_pipeline]: the pending counts are committed only when the file was
    finalized. *)
Definition close_pipeline (finalize : bool) (it : Iteration) (s : State) : list action * State :=
  if negb (pipeline_ s) then ([], s)
  else
    let finalized := finalize && finalizes it in
    ([Closed finalized],
     mkState false (waiting_for_keyframe_ s) (observed_queue_drops_ s) 0 0
       (if finalized then commit_written (pending_access_units_ s) (pending_bytes_ s) (control_ s)
        else control_ s)).

(** [fail]: also logged and published. *)
Definition fail (error : string) (s : State) : State := set_control (set_error error (control_ s)) s.

Definition drop_unit (s : State) : State := set_control (add_dropped (control_ s)) s.

(** [write_access_unit] and the handling of its failure. *)
Definition write_unit (it : Iteration) (u : EncodedUnit) (s : State) : list action * State :=
  match push it with
  | Pressure => ([Lost], set_waiting true (drop_unit s))
  | PushFailed e => let '(a, s) := close_pipeline false it (fail e s) in (Lost :: a, s)
  | Pushed =>
    ([Wrote u], mkState (pipeline_ s) (waiting_for_keyframe_ s) (observed_queue_drops_ s)
                  (u64 (pending_access_units_ s + 1)) (u64 (pending_bytes_ s + unit_bytes u)) (control_ s))
  end.

(** From the keyframe test to the end of the body. *)
Definition handle_unit (it : Iteration) (u : EncodedUnit) (s : State) : list action * State :=
  let '(a1, s) :=
    if discontinuity u then
      let '(a, s) := close_pipeline true it (set_waiting true s) in (Lost :: a, s)
    else ([], s) in
  if waiting_for_keyframe_ s && negb (keyframe u) then (a1 ++ [Lost], drop_unit s)
  else
    let s := set_waiting false s in
    if pipeline_ s then let '(a2, s) := write_unit it u s in (a1 ++ a2, s)
    else
      match opens it with
      | Some e => (a1 ++ [Lost], fail e s)
      | None => let '(a2, s) := write_unit it u (set_pipeline true s) in (a1 ++ Opened :: a2, s)
      end.

(** One iteration of [run]; [false]: the loop ends. *)
Definition iterate (it : Iteration) (s : State) : bool * list action * State :=
  let s := set_control (foldl apply (control_ s) (commands it)) s in
  if negb (requested (control_ s)) then
    let '(a, s) := close_pipeline true it s in
    let s := set_control (set_stopped (control_ s)) (set_waiting true s) in
    match popped it with
    | Some _ => (true, a ++ [Lost], drop_unit s)
    | None => (true, a, s)
    end
  else
    let '(a1, s) :=
      if negb (queue_drops it =? observed_queue_drops_ s) then
        let '(a, s) := close_pipeline true it (set_waiting true (set_observed (queue_drops it) s)) in
        (Lost :: a, s)
      else ([], s) in
    if pipeline_ s && negb (match bus it with NoEvent => true | _ => false end) then
      let error := match bus it with
                   | BusError e => e
                   | _ => "recording pipeline ended unexpectedly"
                   end in
      let '(a2, s) := close_pipeline false it (fail error s) in
      (true, a1 ++ a2 ++ (if popped it then [Lost] else []), s)
    else
      match popped it with
      | None => (negb (shutdown it), a1, s)
      | Some u => let '(a2, s) := handle_unit it u s in (true, a1 ++ a2, s)
      end.

(** Units the queue dropped after the unit in hand was taken and before the
    counter was read: they stood behind that unit. *)
Definition late_loss (it : Iteration) : list action :=
  if queue_drops it =? drops_at_pop it then [] else [Lost].

(** The loop until it ends, and the final [close_pipeline(true)]. *)
Fixpoint run (its : list Iteration) (s : State) : list action * State :=
  match its with
  | [] => ([], s)
  | it :: rest =>
    let '(continues, a, s) := iterate it s in
    if continues then let '(a', s) := run rest s in (a ++ late_loss it ++ a', s)
    else let '(a', s) := close_pipeline true it s in (a ++ late_loss it ++ a', s)
  end.

(** ** What is written can be decoded *)

(** A start request that reaches the worker after a failure and before it has
    seen that recording was off.  [no_race] also asks that the queue drops
    nothing between taking a unit and reading the drop counter. *)
Definition restart_race (it : Iteration) (s : State) : Prop :=
  waiting_for_keyframe_ s = false /\ pipeline_ s = false /\
  requested (foldl apply (control_ s) (commands it)) = true.

Fixpoint no_race (its : list Iteration) (s : State) : Prop :=
  match its with
  | [] => True
  | it :: rest => ~ restart_race it s /\ queue_drops it = drops_at_pop it /\ no_race rest (iterate it s).2
  end.

(** Every unit written is a keyframe or directly follows another unit written
    to the same segment, with nothing lost in between; [follows] says whether
    the action before was a write. *)
Fixpoint decodable (follows : bool) (actions : list action) : Prop :=
  match actions with
  | [] => True
  | Wrote u :: rest => (keyframe u = true \/ follows = true) /\ decodable true rest
  | _ :: rest => decodable false rest
  end.

(** Whether the last action is a write. *)
Fixpoint ends_in_write (follows : bool) (actions : list action) : bool :=
  match actions with
  | [] => follows
  | Wrote _ :: rest => ends_in_write true rest
  | _ :: rest => ends_in_write false rest
  end.

Lemma decodable_app f a b : decodable f (a ++ b) <-> decodable f a /\ decodable (ends_in_write f a) b.
Proof.
  revert f; induction a as [|x a IH]; intros f; simpl; [tauto|]. destruct x; rewrite IH; tauto.
Qed.

Lemma ends_app f a b : ends_in_write f (a ++ b) = ends_in_write (ends_in_write f a) b.
Proof. revert f; induction a as [|x a IH]; intros f; simpl; [done|]. by destruct x. Qed.

(** The worker's state: while it is not waiting for a keyframe, the last thing
    it did was to write to the open segment, or recording has been switched
    off by a failure. *)
Definition inv (f : bool) (s : State) : Prop :=
  waiting_for_keyframe_ s = false ->
  pipeline_ s = true /\ f = true \/ pipeline_ s = false /\ requested (control_ s) = false.

(** A step of the worker keeps what it writes decodable. *)
Definition sound (f : bool) (r : list action * State) : Prop :=
  decodable f r.1 /\ inv (ends_in_write f r.1) r.2.

Lemma close_sound f finalize it s : waiting_for_keyframe_ s = true -> sound f (close_pipeline finalize it s).
Proof.
  intros Hw. unfold close_pipeline. destruct (pipeline_ s); simpl; (split; [done|]); intros H; simpl in H; congruence.
Qed.

Lemma close_failed f it e s : sound f (close_pipeline false it (fail e s)).
Proof.
  unfold close_pipeline. destruct (pipeline_ s) eqn:E; simpl; rewrite E; simpl; (split; [done|]).
  - intros _. right. done.
  - intros _. right. done.
Qed.

(** Writing a unit to the open pipeline. *)
Lemma write_sound f it u s : pipeline_ s = true -> waiting_for_keyframe_ s = false ->
  keyframe u = true \/ f = true -> sound f (write_unit it u s).
Proof.
  intros Hp Hw Hu. unfold write_unit. destruct (push it) as [|e|].
  - split; [done|]. intros H. done.
  - pose proof (close_failed false it e s) as Hc. destruct (close_pipeline false it (fail e s)) as [a s'].
    exact Hc.
  - split; [simpl; tauto|]. intros _. left. done.
Qed.

Lemma handle_sound f it u s : inv f s ->
  (waiting_for_keyframe_ s = false -> pipeline_ s = true \/ discontinuity u = true) ->
  sound f (handle_unit it u s).
Proof.
  intros Hi Hp. unfold handle_unit.
  (* after the discontinuity test *)
  assert (H1 : forall a1 s1, (if discontinuity u then
        let '(a, s') := close_pipeline true it (set_waiting true s) in (Lost :: a, s')
      else ([], s)) = (a1, s1) ->
    decodable f a1 /\ inv (ends_in_write f a1) s1 /\
    (waiting_for_keyframe_ s1 = false -> pipeline_ s1 = true)).
  { intros a1 s1. destruct (discontinuity u) eqn:Ed.
    - pose proof (close_sound false true it (set_waiting true s) eq_refl) as [Hd He].
      destruct (close_pipeline true it (set_waiting true s)) as [a s'] eqn:Ec. intros [= <- <-].
      split_and!; [done|done|].
      unfold close_pipeline in Ec. simpl in Ec. destruct (pipeline_ s); injection Ec as <- <-; done.
    - intros [= <- <-]. split_and!; auto; [done|]. intros H. destruct (Hp H); congruence. }
  destruct (if discontinuity u then _ else _) as [a1 s1] eqn:E1.
  destruct (H1 a1 s1 eq_refl) as (Hd & Hinv & Hpipe). clear H1.
  destruct (waiting_for_keyframe_ s1 && negb (keyframe u)) eqn:Ew.
  { apply andb_prop in Ew as [Ew _]. split; simpl.
    - rewrite decodable_app. split; [done|simpl; done].
    - intros H. simpl in H. congruence. }
  assert (Hkey : keyframe u = true \/ ends_in_write f a1 = true /\ pipeline_ s1 = true).
  { apply andb_false_iff in Ew as [Ew|Ew]; [|left; by apply negb_false_iff].
    specialize (Hpipe Ew). destruct (Hinv Ew) as [[_ ?]|[? _]]; [by right|congruence]. }
  cbn [set_waiting pipeline_]. destruct (pipeline_ s1) eqn:Ep.
  - pose proof (write_sound (ends_in_write f a1) it u (set_waiting false s1) Ep eq_refl ltac:(tauto)) as [Hd2 Hi2].
    destruct (write_unit it u (set_waiting false s1)) as [a2 s2].
    split; simpl; [by rewrite decodable_app|by rewrite ends_app].
  - assert (Hk : keyframe u = true) by (destruct Hkey as [?|[_ ?]]; [done|congruence]).
    destruct (opens it) as [e|].
    + split; simpl; [rewrite decodable_app; split; [done|simpl; done]|].
      intros _. right. simpl. by rewrite Ep.
    + pose proof (write_sound false it u (set_pipeline true (set_waiting false s1)) eq_refl eq_refl ltac:(by left))
        as [Hd2 Hi2].
      destruct (write_unit it u _) as [a2 s2].
      split; simpl; [by rewrite decodable_app|by rewrite ends_app].
Qed.

Lemma iterate_sound f it s : inv f s -> ~ restart_race it s ->
  sound f ((iterate it s).1.2, (iterate it s).2).
Proof.
  intros Hi Hr. unfold iterate. set (c := foldl apply (control_ s) (commands it)) in *.
  set (s0 := set_control c s). cbn [control_ set_control]. change (control_ s0) with c.
  destruct (requested c) eqn:Ereq; cbn [negb].
  2:{ assert (Hd : decodable f (close_pipeline true it s0).1)
        by (unfold close_pipeline; by destruct (negb (pipeline_ s0))).
      destruct (close_pipeline true it s0) as [a s1]. simpl in Hd.
      destruct (popped it); split; simpl; try (by intros H); [|done].
      rewrite decodable_app. split; [done|simpl; done]. }
  assert (Hp : waiting_for_keyframe_ s0 = false -> pipeline_ s0 = true /\ f = true).
  { intros Hw. destruct (Hi Hw) as [?|[? _]]; [done|]. exfalso. apply Hr. done. }
  (* after the queue-drop test *)
  assert (H1 : forall a1 s1, (if negb (queue_drops it =? observed_queue_drops_ s0) then
        let '(a, s') := close_pipeline true it (set_waiting true (set_observed (queue_drops it) s0)) in
        (Lost :: a, s')
      else ([], s0)) = (a1, s1) ->
    decodable f a1 /\ (waiting_for_keyframe_ s1 = false -> pipeline_ s1 = true /\ ends_in_write f a1 = true)).
  { intros a1 s1. destruct (negb _).
    - pose proof (close_sound false true it (set_waiting true (set_observed (queue_drops it) s0)) eq_refl) as [Hd _].
      destruct (close_pipeline true it _) as [a s'] eqn:Ec. intros [= <- <-]. split; [done|].
      unfold close_pipeline in Ec. simpl in Ec. destruct (pipeline_ s); injection Ec as <- <-; done.
    - intros [= <- <-]. split; [done|exact Hp]. }
  destruct (if negb (queue_drops it =? _) then _ else _) as [a1 s1] eqn:E1.
  destruct (H1 a1 s1 eq_refl) as (Hd & Hw). clear H1.
  destruct (pipeline_ s1 && _) eqn:Eb.
  { match goal with |- context [fail ?e s1] =>
      pose proof (close_failed (ends_in_write f a1) it e s1) as [Hd2 Hi2];
      destruct (close_pipeline false it (fail e s1)) as [a2 s2] eqn:Ec end.
    split; simpl.
    - rewrite !decodable_app. split_and!; [done|done|]. by destruct (popped it).
    - rewrite !ends_app. intros Hw2. specialize (Hi2 Hw2). simpl in Hi2.
      destruct Hi2 as [[Hpp _]|?]; [|by right].
      unfold close_pipeline in Ec. simpl in Ec. destruct (pipeline_ s1) eqn:Ep; simpl in Ec; simplify_eq; simpl in *; congruence. }
  destruct (popped it) as [u|]; simpl.
  - pose proof (handle_sound (ends_in_write f a1) it u s1) as [Hd2 Hi2].
    + intros H. left. by apply Hw.
    + intros H. left. by apply Hw.
    + destruct (handle_unit it u s1) as [a2 s2]. split; simpl; [by rewrite decodable_app|by rewrite ends_app].
  - split; simpl; [done|]. intros H. left. by apply Hw.
Qed.

Lemma run_sound its f s : inv f s -> no_race its s -> decodable f (run its s).1.
Proof.
  revert f s; induction its as [|it its IH]; intros f s Hi Hn; simpl; [done|].
  destruct Hn as (Hr & Hq & Hn). unfold late_loss. rewrite Hq, Z.eqb_refl. cbn [app]. pose proof (iterate_sound f it s Hi Hr) as [Hd Hi'].
  destruct (iterate it s) as [[cont a] s1]. simpl in *. destruct cont.
  - specialize (IH _ _ Hi' Hn). destruct (run its s1) as [a' s2]. simpl in *. by rewrite decodable_app.
  - unfold close_pipeline. destruct (pipeline_ s1); simpl; rewrite decodable_app; split; simpl; done.
Qed.


(** The proviso is needed: when recording is started again right after a failure, before the worker
    has seen that it was off, the new segment begins with whatever unit comes next, keyframe or not.
    *)
Theorem restart_after_failure_not_decodable c e u :
  configured_ c = true -> media_available_ c = true -> requested_ c = true ->
  keyframe u = false -> discontinuity u = false ->
  let key := mkUnit true false 1 in
  let fails := mkIteration [] (Some key) 0 0 false NoEvent (Some e) Pushed true in
  let restarts := mkIteration [Start] (Some u) 0 0 false NoEvent None Pushed true in
  (run [fails; restarts] (first_state 0 c)).1 = [Lost; Opened; Wrote u].
Proof.
  intros Hc Hm Hr Hk Hd key fails restarts. destruct c as [cf rq av why st]. simpl in *. subst.
  unfold run, iterate. simpl. unfold requested. simpl. unfold start; simpl. unfold handle_unit; simpl.
  rewrite Hk, Hd. reflexivity.
Qed.

(** The second proviso is needed as well: the loop reads the queue's drop counter after it has taken
    a unit, so when the unit in hand is a keyframe and the queue drops a unit right then, the
    keyframe is written, the loss counts as seen, and the next unit is written although the one
    before it is missing. *)
Theorem late_drop_not_decodable c key u :
  requested c = true -> keyframe key = true -> keyframe u = false -> discontinuity key = false -> discontinuity u = false ->
  let races := mkIteration [] (Some key) 0 1 false NoEvent None Pushed true in
  let next := mkIteration [] (Some u) 1 1 false NoEvent None Pushed true in
  (run [races; next] (first_state 0 c)).1 = [Lost; Opened; Wrote key; Lost; Wrote u] /\
  ~ decodable false (run [races; next] (first_state 0 c)).1.
Proof.
  intros Hc Hk Hu Hd Hd' races next.
  assert (E : (run [races; next] (first_state 0 c)).1 = [Lost; Opened; Wrote key; Lost; Wrote u]).
  { unfold run, iterate. simpl. rewrite !Hc. simpl. unfold handle_unit; simpl. rewrite Hk, Hd. simpl.
    rewrite !Hc. simpl. rewrite Hu, Hd'. reflexivity. }
  rewrite E. split; [done|]. simpl. rewrite Hu. intuition discriminate.
Qed.

Lemma late_drop_not_decodable_witness :
  ~ decodable false
      (run [mkIteration [] (Some (mkUnit true false 9)) 0 1 false NoEvent None Pushed true;
            mkIteration [] (Some (mkUnit false false 5)) 1 1 false NoEvent None Pushed true]
         (first_state 0 (configure true make_controller))).1.
Proof.
  exact (proj2 (late_drop_not_decodable (configure true make_controller) (mkUnit true false 9) (mkUnit false false 5)
    eq_refl eq_refl eq_refl eq_refl eq_refl)).
Defined.


Lemma restart_after_failure_not_decodable_witness :
  let c := configure true make_controller in
  ~ decodable false
      (run [mkIteration [] (Some (mkUnit true false 1)) 0 0 false NoEvent (Some "disk full") Pushed true;
            mkIteration [Start] (Some (mkUnit false false 9)) 0 0 false NoEvent None Pushed true]
         (first_state 0 c)).1.
Proof.
  intros c.
  rewrite (restart_after_failure_not_decodable c "disk full" (mkUnit false false 9)
    eq_refl eq_refl eq_refl eq_refl eq_refl).
  simpl. intros [[H|H] _]; discriminate.
Defined.
End Worker.
