(* ===== verification/RecordingModule.v ===== *)
(** * The recording module around its thread ([src/video/recording.cpp])

    Lifecycle of [RecordingModule], opening a pipeline, the names of the segments and
    the state events.  The thread itself is [Worker] of [Recording.v]; what opening
    reports is what an iteration of the thread gets as [opens]. *)

From S2P Require Import Prelude Strings Json Paths ConfigData Events Recording.

(** ** Segments *)

Module Segments.

(** [std::setw(3) << std::setfill('0')]. *)
Definition pad3 (n : Z) : string := str (replicate (3 - str_length (to_string n)) "0"%char) +:+ to_string n.

(** [stamp]: the local time as [%Y%m%d_%H%M%S]. *)
Definition segment_name (stamp session : string) (fragment : Z) : string :=
  "recording_" +:+ stamp +:+ "_" +:+ session +:+ (if fragment =? 0 then "" else "_" +:+ pad3 fragment) +:+ ".mp4".

Definition next_path (directory stamp session : string) (fragment : Z) : string :=
  Path.join directory (segment_name stamp session fragment).

(** [json_string] of this file: control characters are dropped. *)
Definition json_char (c : ascii) : list ascii :=
  if Ascii.eqb c quote || Ascii.eqb c backslash then [backslash; c] else if 32 <=? byte_of c then [c] else [].
Definition json_string (value : string) : string := str (quote :: (chars value ≫= json_char) ++ [quote]).

(** [publish_state]: the data of the event. *)
Definition state_event (s : Control.RecordingStatus) : string :=
  js "{'state':" +:+ json_string (Control.state s) +:+ js ",'active':" +:+ (if Control.active s then "true" else "false") +:+
  js ",'current_path':" +:+ json_string (Control.current_path s) +:+
  js ",'last_error':" +:+ json_string (Control.last_error s) +:+ "}".

(** [on_format_location]: the name of the next segment, the controller that now shows it
    and the data of the event that announces it. *)
Definition on_format_location (directory stamp session : string) (fragment : Z) (c : Control.RecordingController)
    : string * Control.RecordingController * string :=
  let path := next_path directory stamp session fragment in
  let c := Control.set_active path c in
  (path, c, state_event (Control.status_ c)).

Lemma read_json_char c k : read_chars (json_char c ++ k) =
  if 32 <=? byte_of c then (fun p => (c :: p.1, p.2)) <$> read_chars k else read_chars k.
Proof. destruct c as [[] [] [] [] [] [] [] []]; reflexivity. Qed.

Lemma read_recording_body l k :
  read_chars ((l ≫= json_char) ++ quote :: k) = Some (base.filter (fun c => 32 <= byte_of c) l, k).
Proof.
  induction l as [|c l IH]; [done|]. rewrite bind_cons, <- app_assoc, read_json_char, IH, filter_cons.
  destruct (Z.leb_spec 32 (byte_of c)); [rewrite decide_True by done|rewrite decide_False by lia]; done.
Qed.

(** What an event says of the recording is what the controller holds: the path it announces reads
    back as the segment's, but for control characters. *)
Theorem announced_path_reads_back directory stamp session fragment c :
  let '(path, c', data) := on_format_location directory stamp session fragment c in
  Control.current_path (Control.status_ c') = path /\
  exists before body, chars data = before ++ quote :: body /\ chars (js ",'current_path':") `suffix_of` before /\
    exists rest, read_chars body = Some (base.filter (fun c => 32 <= byte_of c) (chars path), rest).
Proof.
  unfold on_format_location. set (path := next_path _ _ _ _). set (c' := Control.set_active path c).
  assert (Hp : Control.current_path (Control.status_ c') = path) by done. split; [exact Hp|].
  unfold state_event. rewrite Hp. clearbody c' path. set (active := if Control.active _ then "true" else "false").
  rewrite !chars_app. unfold json_string at 2. rewrite chars_str, <- app_comm_cons, <- app_assoc. cbn [app].
  eexists _, _. split; [rewrite !app_assoc; reflexivity|]. split; [by eexists|].
  eexists. rewrite <- !app_assoc. apply read_recording_body.
Qed.

Lemma starts_with_app (p s : string) : starts_with p (p +:+ s) = true.
Proof. unfold starts_with. apply bool_decide_eq_true. rewrite chars_app. apply take_app_length. Qed.

Lemma segment_shape stamp session fragment : exists n, segment_name stamp session fragment = n +:+ ("." +:+ "mp4") /\ n <> "".
Proof.
  exists ("recording_" +:+ stamp +:+ "_" +:+ session +:+ (if fragment =? 0 then "" else "_" +:+ pad3 fragment)).
  split; [|done]. apply chars_inj. unfold segment_name. by rewrite !chars_app, <- !app_assoc.
Qed.

(** Every file the recorder names is one the quota knows: it is recognised as a segment, so that it
    counts towards the storage used and can be deleted to make room. *)
Theorem segments_counted stamp session fragment :
  let name := segment_name stamp session fragment in
  Quota.is_segment name (Path.extension name) true = true.
Proof.
  intros name. unfold Quota.is_segment. destruct (segment_shape stamp session fragment) as (n & E & Hn). fold name in E.
  destruct (Path.ext_app n "mp4" Hn) as [Hx _]; [done| |].
  { vm_compute. intros H. repeat (apply elem_of_cons in H as [H|H]; [discriminate|]). by apply not_elem_of_nil in H. }
  rewrite E, Hx, bool_decide_true by done. rewrite <- E. apply starts_with_app.
Qed.
End Segments.

(** ** Lifecycle *)

Module Recorder.
Import Control Worker.

Record RecordingModule := mkModule {
  config_ : Cfg.RecordingConfig;
  worker : State;
  joinable : bool;
  last_error_ : string;
}.

Definition with_worker (s : State) (j : bool) (error : string) (m : RecordingModule) : RecordingModule :=
  mkModule (config_ m) s j error.

Definition initialize (c : Cfg.RecordingConfig) (m : RecordingModule) : bool * RecordingModule :=
  if joinable m then (false, m)
  else (true, mkModule c (set_control (configure (Cfg.rec_enabled c) (control_ (worker m))) (worker m)) false "").

(** [drops]: the queue's drop counter. *)
Definition start (gst_ready : bool) (drops : Z) (m : RecordingModule) : bool * RecordingModule :=
  if joinable m then (false, m)
  else if negb gst_ready then
    (false, with_worker (worker m) false "GStreamer must be initialized before recording" m)
  else (true, with_worker (set_observed drops (worker m)) true (last_error_ m) m).

(** [wait]: the thread has run [its] when it is joined; [last] is what closing the
    pipeline meets. *)
Definition wait (its : list Iteration) (last : Iteration) (m : RecordingModule) : list action * RecordingModule :=
  let '(a1, s) := if joinable m then run its (worker m) else ([], worker m) in
  let s := set_control (Control.stop (control_ s)).2 s in
  let '(a2, s) := close_pipeline true last s in
  (a1 ++ a2, with_worker (set_control (set_stopped (control_ s)) s) false (last_error_ m) m).

(** What [prepare_directory] and GStreamer answer when a pipeline is opened. *)
Record Opening := mkOpening {
  directory_error : option string;
  space : string + Z;
  created : throws unit;
  appsrc : bool;
  h264parse : bool;
  splitmuxsink : bool;
  linked : bool;
  playing : bool;
}.

Definition prepare_directory (c : Cfg.RecordingConfig) (o : Opening) : throws unit :=
  match directory_error o with
  | Some e => throw ("could not create recording directory: " +:+ e)
  | None =>
    match space o with
    | inl e => throw ("could not inspect recording disk space: " +:+ e)
    | inr free =>
      if Quota.has_space (Cfg.min_free_space_mb c) free then inr tt else throw "insufficient free disk space for recording"
    end
  end.

Definition open_pipeline (c : Cfg.RecordingConfig) (o : Opening) : throws unit :=
  match prepare_directory c o, created o with
  | inl e, _ | inr _, inl e => throw e
  | inr _, inr _ =>
    if negb (appsrc o && h264parse o && splitmuxsink o) then throw "required GStreamer MP4 recording plugins are unavailable"
    else if negb (linked o) then throw "could not link MP4 recording pipeline"
    else if negb (playing o) then throw "failed to start MP4 recording pipeline"
    else inr tt
  end.

(** A module in any state of use. *)
Inductive use :=
  | Initializes (c : Cfg.RecordingConfig)
  | Starts (gst_ready : bool) (drops : Z)
  | Commands (ks : list command)
  | Waits (its : list Iteration) (last : Iteration).

Definition apply_use (m : RecordingModule) (u : use) : RecordingModule :=
  match u with
  | Initializes c => (initialize c m).2
  | Starts gst_ready drops => (start gst_ready drops m).2
  | Commands ks => with_worker (set_control (foldl Control.apply (control_ (worker m)) ks) (worker m)) (joinable m) (last_error_ m) m
  | Waits its last => (wait its last m).2
  end.

Lemma close_pipeline_gone it s : pipeline_ (close_pipeline true it s).2 = false /\
  requested_ (control_ (close_pipeline true it s).2) = requested_ (control_ s) /\
  configured_ (control_ (close_pipeline true it s).2) = configured_ (control_ s).
Proof. unfold close_pipeline. destruct (pipeline_ s) eqn:E; cbn; [|done]. by destruct (finalizes it). Qed.

(** Joining the module leaves no thread and no pipeline; nothing is recorded and nothing is requested
    (of a configured controller); and the controller says "stopped", or keeps the error that ended the
    recording. *)
Theorem recording_ends its last m :
  let m' := (wait its last m).2 in
  joinable m' = false /\ pipeline_ (worker m') = false /\ active (status_ (control_ (worker m'))) = false /\
  (configured_ (control_ (worker m')) = true ->
     requested_ (control_ (worker m')) = false /\
     (state (status_ (control_ (worker m'))) = "stopped" \/ state (status_ (control_ (worker m'))) = "error")).
Proof.
  unfold wait. destruct (if joinable m then _ else _) as [a1 s]. set (s1 := set_control (Control.stop (control_ s)).2 s).
  destruct (close_pipeline_gone last s1) as (G1 & G2 & G3). destruct (close_pipeline true last s1) as [a2 s2]. cbn in *.
  split_and!; [done|done|done|]. rewrite G3. unfold Control.stop in G2 |- *.
  destruct (negb (configured_ (control_ s))) eqn:Ec; cbn in *; [apply negb_true_iff in Ec; congruence|].
  intros _. rewrite G2. split; [done|]. case_bool_decide; cbn; auto.
Qed.
End Recorder.
