(* ===== verification/Diagnostics.v ===== *)
(** * Diagnostics the modules publish ([include/skai/video/rtsp_metrics.hpp],
      [include/skai/metrics.hpp], [include/skai/webrtc/webrtc_manager.hpp])

    The plain records that the control plane reports, and the two counters that
    feed them: the monotonic counter over jitter-buffer readings and the rate of
    delivered frames. *)

From S2P Require Import Prelude Strings Floats BoundedQueue RtspRecovery.

(** ** RTSP source *)

Module Rtsp.

Definition source_health_name (h : Recovery.SourceHealth) : string :=
  match h with
  | Recovery.Stopped => "stopped"
  | Recovery.Connecting => "connecting"
  | Recovery.Connected => "connected"
  | Recovery.Degraded => "degraded"
  | Recovery.Stalled => "stalled"
  | Recovery.Reconnecting => "reconnecting"
  | Recovery.Error => "error"
  end.

Record RtspDiagnostics := mkRtsp {
  health : Recovery.SourceHealth;
  codec : string;
  decoder : string;
  width : Z;
  height : Z;
  fps_num : Z;
  fps_den : Z;
  fps_in : float64;
  url_configured : bool;
  transport : string;
  frames_dropped : Z;
  frames_discarded : Z;
  last_frame_age_ms : Z;
  packets_lost : Z;
  packets_late : Z;
  avg_jitter_ns : Z;
  frames_received : Z;
  reconnect_count : Z;
  last_error : string;
}.

(** [MonotonicCounter]: its high-water mark is the whole state. *)
Definition MonotonicCounter : Type := Z.
Definition make_counter : MonotonicCounter := 0.
Definition observe (value : Z) (high_water : MonotonicCounter) : Z * MonotonicCounter :=
  if value <=? high_water then (0, high_water) else (u64 (value - high_water), value).
Definition reset (_ : MonotonicCounter) : MonotonicCounter := 0.

(** The increases reported for a sequence of readings. *)
Fixpoint increases (readings : list Z) (c : MonotonicCounter) : list Z * MonotonicCounter :=
  match readings with
  | [] => ([], c)
  | v :: rest => let '(i, c) := observe v c in let '(is_, c) := increases rest c in (i :: is_, c)
  end.

Definition total (l : list Z) : Z := foldr Z.add 0 l.

Lemma increases_spec readings c : 0 <= c -> Forall is_u64 readings ->
  let '(is_, c') := increases readings c in
  total is_ = c' - c /\ c' = foldl Z.max c readings /\ Forall (Z.le 0) is_.
Proof.
  intros Hc H. revert c Hc. induction H as [|v readings Hv Hr IH]; intros c Hc; simpl; [split_and!; [lia|done|done]|].
  unfold observe. destruct (Z.leb_spec v c) as [Hle|Hgt].
  - specialize (IH c Hc). destruct (increases readings c) as [is_ c'].
    destruct IH as (Ht & -> & Hp). simpl. rewrite Ht, Z.max_l by lia. split_and!; [lia|done|by constructor].
  - specialize (IH v ltac:(lia)). destruct (increases readings v) as [is_ c'].
    destruct IH as (Ht & -> & Hp). simpl. unfold is_u64 in Hv. rewrite Ht, Z.max_r, u64_small by lia.
    split_and!; [lia|done|constructor; [lia|done]].
Qed.

(** The increases a counter reports since it was reset add up to the highest reading so far:
    readings that step back report nothing and are not counted twice when the source catches up. *)
Theorem counter_totals_high_water readings : Forall is_u64 readings ->
  let '(is_, c) := increases readings (reset make_counter) in
  total is_ = foldl Z.max 0 readings /\ c = foldl Z.max 0 readings /\ Forall (Z.le 0) is_.
Proof.
  intros H. pose proof (increases_spec readings (reset make_counter) ltac:(done) H) as Hs.
  destruct (increases _ _) as [is_ c]. destruct Hs as (Ht & -> & Hp). unfold reset in *. split_and!; auto. lia.
Qed.

Lemma counter_totals_high_water_witness :
  let '(is_, c) := increases [5; 3; 9] (reset make_counter) in
  total is_ = 9 /\ c = 9 /\ Forall (Z.le 0) is_.
Proof.
  apply (counter_totals_high_water [5; 3; 9]). unfold is_u64. repeat constructor; lia.
Defined.
End Rtsp.

(** ** WebRTC *)

Module WebRtc.

Inductive CreateSessionError := None_ | Disabled | Capacity | InvalidOffer | GatheringTimeout | Internal.

#[export] Instance CreateSessionError_eq : EqDecision CreateSessionError.
Proof. solve_decision. Defined.

Record CreateSessionResult := mkResult {
  error : CreateSessionError;
  session_id : string;
  answer_sdp : string;
  message : string;
}.

Record WebRtcPeerDiagnostics := mkPeer {
  peer_session_id : string;
  peer_state : string;
  ice_state : string;
  local_candidate : string;
  local_interface : string;
  selected_interface : string;
  connection_age_s : Z;
  bytes_sent : Z;
  packets_sent : Z;
  packets_retransmitted : Z;
  media_queue_drops : Z;
  keyframe_events : Z;
  failure_stage : string;
  close_reason : string;
  last_error : string;
}.

Record WebRtcDiagnostics := mkWebRtc {
  enabled : bool;
  media_available : bool;
  keyframe_cached : bool;
  media_unavailable_reason : string;
  lan_only : bool;
  max_peers : Z;
  sessions_created : Z;
  sessions_closed : Z;
  signaling_errors : Z;
  media_errors : Z;
  last_close_reason : string;
  peers : list WebRtcPeerDiagnostics;
  recently_closed : list WebRtcPeerDiagnostics;
}.

Definition no_diagnostics : WebRtcDiagnostics := mkWebRtc false true false "" true 0 0 0 0 0 "" [] [].
End WebRtc.

(** ** Metrics *)

Module Metrics.

(** [IngestRate]; time points are nanoseconds. *)
Record IngestRate := mkRate {
  first_ : option Z;
  frames_ : Z;
}.

Definition make_rate : IngestRate := mkRate None 0.
Definition reset_rate (_ : IngestRate) : IngestRate := make_rate.

(** [std::chrono::duration<double>] of a nanosecond count. *)
Definition seconds_of (ns : Z) : float64 := f64_div (f64_of_Z ns) (f64_of_Z 1000000000).

Definition observe_frame (now : Z) (r : IngestRate) : option float64 * IngestRate :=
  match first_ r with
  | None => (None, mkRate (Some now) (frames_ r))
  | Some first =>
    let frames := u64 (frames_ r + 1) in
    let seconds := seconds_of (now - first) in
    if fle seconds f64_zero then (None, mkRate (Some first) frames)
    else
      let fps := f64_div (f64_of_Z frames) seconds in
      (Some fps, if fle f64_one seconds then mkRate (Some now) 0 else mkRate (Some first) frames)
  end.

Record SystemMetrics := mkSystem {
  memory_rss_bytes : option Z;
  cpu_percent : option float64;
  gpu_percent : option float64;
  disk_free_bytes : option Z;
}.

Record WhipMetrics := mkWhipMetrics {
  whip_enabled : bool;
  peer_state : string;
  ice_state : string;
  whip_error : string;
  access_units_sent : Z;
  media_queue_drops : Z;
  media_queue_discarded : Z;
}.

Definition default_whip_metrics : WhipMetrics := mkWhipMetrics false "disabled" "disabled" "" 0 0 0.

Record MetricsSnapshot := mkMetrics {
  system : SystemMetrics;
  rtsp : option Rtsp.RtspDiagnostics;
  inference_queue : Queue.QueueStats;
  inference_queue_depth : Z;
  encoded_queue : Queue.QueueStats;
  encoded_queue_depth : Z;
  websocket_clients : Z;
  whip : WhipMetrics;
  alert_count : option Z;
  encoder_fps : option float64;
  recent_errors : list string;
}.

Definition default_metrics : MetricsSnapshot :=
  mkMetrics (mkSystem None None None None) None Queue.stats_zero 0 Queue.stats_zero 0 0
    default_whip_metrics None None [].

(** The rate after frames were delivered at these times. *)
Definition after_frames (times : list Z) : IngestRate :=
  foldl (fun r t => snd (observe_frame t r)) (reset_rate make_rate) times.

Lemma one_not_zero x : fle f64_one x = true -> fle x f64_zero = false.
Proof. destruct x as [[]|[]| |[] m e]; done. Qed.

(** The delivered-frame rate counts every frame of its window and no other: the window opened at one
    of the delivered frames, its counter is the number of frames delivered since, and none of those
    is a second or more after the opening one, so a rate never averages over a closed window. *)
Theorem ingest_rate_window times : Z.of_nat (length times) <= u64_max -> times <> [] ->
  exists before opening since, times = before ++ opening :: since /\
    after_frames times = mkRate (Some opening) (Z.of_nat (length since)) /\
    Forall (fun t => fle f64_one (seconds_of (t - opening)) = false)
      since.
Proof.
  induction times as [|now times IH] using rev_ind; intros Hlen Hne; [done|]. clear Hne.
  rewrite length_app in Hlen. simpl in Hlen. unfold after_frames. rewrite foldl_app. cbn [foldl].
  fold (after_frames times). destruct times as [|t times].
  { exists [], now, []. split_and!; [done|done|constructor]. }
  destruct IH as (before & opening & since & E & -> & Hs); [lia|done|].
  unfold observe_frame. cbn [first_ frames_].
  assert (Hl : (length since <= length (t :: times))%nat) by (rewrite E, length_app; simpl; lia).
  rewrite u64_small by lia. rewrite E. replace (Z.of_nat (length since) + 1) with (Z.of_nat (length (since ++ [now])))
    by (rewrite length_app; simpl; lia).
  destruct (fle f64_one (seconds_of (now - opening))) eqn:E1.
  2: { exists before, opening, (since ++ [now]). split_and!; [by rewrite <- app_assoc|by destruct (fle _ f64_zero)|].
       apply Forall_app. split; [done|]. by constructor. }
  rewrite one_not_zero by done. cbn [snd].
  exists (before ++ opening :: since), now, []. split_and!; [done|done|constructor].
Qed.

Lemma ingest_rate_window_witness :
  exists before opening since, [0; 400000000; 1200000000; 1300000000] = before ++ opening :: since /\
    after_frames [0; 400000000; 1200000000; 1300000000] = mkRate (Some opening) (Z.of_nat (length since)) /\
    Forall (fun t => fle f64_one (seconds_of (t - opening)) = false)
      since.
Proof. apply (ingest_rate_window [0; 400000000; 1200000000; 1300000000]); [simpl; lia|done]. Defined.
End Metrics.

(** ** Sampling the process and the machine ([src/metrics.cpp]) *)

Module Sampler.
Import Metrics.

(** [disk_path_] as the names below the root, innermost first. *)
Record SystemMetricsSampler := mkSampler {
  disk_path_ : list string;
  previous_wall_ : option Z;
  previous_cpu_seconds_ : float64;
}.

(** What the system answers: pages of [statm], the page size, [getrusage] as user and
    system time in seconds and microseconds, the GPU load in permille, whether a path
    can be made absolute, which paths exist, and the free space at one. *)
Record Machine := mkMachine {
  statm : option (Z * Z);
  page_size : Z;
  usage : option (Z * Z * (Z * Z));
  gpu_load : option Z;
  has_absolute : bool;
  exists_at : list string -> bool;
  available_at : list string -> option Z;
}.

Definition resident (x : Machine) : option Z :=
  match statm x with
  | Some (_, resident) => if 0 <? page_size x then Some (u64 (resident * page_size x)) else None
  | None => None
  end.

Definition cpu_seconds (u : Z * Z * (Z * Z)) : float64 :=
  let '(us, uu, (ss, su)) := u in
  f64_add (f64_of_Z (us + ss)) (f64_div (f64_of_Z (uu + su)) (f64_of_Z 1000000)).

(** The load since the last sample, and the sampler that remembers this one. *)
Definition cpu_load (now : Z) (u : Z * Z * (Z * Z)) (s : SystemMetricsSampler) : option float64 * SystemMetricsSampler :=
  let cpu := cpu_seconds u in
  let load :=
    match previous_wall_ s with
    | Some wall =>
      let elapsed := seconds_of (now - wall) in
      if flt f64_zero elapsed
      then Some (f64_div (f64_mul (f64_of_Z 100) (f64_sub cpu (previous_cpu_seconds_ s))) elapsed) else None
    | None => None
    end in
  (load, mkSampler (disk_path_ s) (Some now) cpu).

Definition gpu (x : Machine) : option float64 :=
  match gpu_load x with
  | Some permille => if (0 <=? permille) && (permille <=? 1000) then Some (f64_div (f64_of_Z permille) (f64_of_Z 10)) else None
  | None => None
  end.

(** [None]: not even the root exists; the loop would not end. *)
Fixpoint nearest (exists_ : list string -> bool) (path : list string) : option (list string) :=
  if exists_ path then Some path
  else match path with [] => None | _ :: parent => nearest exists_ parent end.

Definition disk_free (x : Machine) (path : list string) : option (option Z) :=
  if has_absolute x then available_at x <$> nearest (exists_at x) path else Some None.

(** [None]: does not return. *)
Definition sample (now : Z) (x : Machine) (s : SystemMetricsSampler) : option (SystemMetrics * SystemMetricsSampler) :=
  let '(cpu, s) := match usage x with Some u => cpu_load now u s | None => (None, s) end in
  free ← disk_free x (disk_path_ s);
  Some (mkSystem (resident x) cpu (gpu x) free, s).

Lemma nearest_spec exists_ path : exists_ [] = true ->
  exists below above, path = below ++ above /\ nearest exists_ path = Some above /\ exists_ above = true /\
    forall b, b `suffix_of` path -> exists_ b = true -> (length b <= length above)%nat.
Proof.
  intros H0. induction path as [|n path (below & above & -> & E & Ha & Hb)].
  { exists [], []. cbn. rewrite H0. split_and!; try done. by intros b ->%suffix_nil_inv. }
  cbn [nearest]. destruct (exists_ (n :: below ++ above)) eqn:En.
  - exists [], (n :: below ++ above). split_and!; try done. intros b [k Hk] _. apply (f_equal length) in Hk.
    rewrite length_app in Hk. lia.
  - exists (n :: below), above. split_and!; try done. intros [|m b] Hs He; [cbn; lia|]. apply Hb; [|done].
    apply suffix_cons_inv in Hs as [[= -> ->]|Hs]; [congruence|done].
Qed.

(** Sampling ends, since the root exists, and the free space is that of the file system which holds
    the configured path: of its innermost directory that exists. *)
Theorem disk_sampled_where_it_exists now x s (Hr : exists_at x [] = true) (Ha : has_absolute x = true) :
  exists m s' below above, sample now x s = Some (m, s') /\ disk_path_ s = below ++ above /\
    exists_at x above = true /\ disk_free_bytes m = available_at x above /\
    forall b, b `suffix_of` disk_path_ s -> exists_at x b = true -> (length b <= length above)%nat.
Proof.
  destruct (nearest_spec (exists_at x) (disk_path_ s) Hr) as (below & above & E & En & He & Hb).
  unfold sample, disk_free. destruct (usage x) as [u|]; cbn [cpu_load]; cbn [disk_path_]; rewrite Ha, En;
    cbn [fmap option_fmap option_map mbind option_bind]; eexists _, _, below, above; by split_and!.
Qed.
End Sampler.
