(* ===== verification/Health.v ===== *)
(** * Runtime status and health ([include/skai/status.hpp], [include/skai/health.hpp],
      [src/health.cpp])

    [Status] is the lock-free status board the modules write and the control
    plane reads; [Health] turns the components' diagnostics into states, and
    [Watchdog] polls the component probes and combines the last poll. *)

From S2P Require Import Prelude Strings Floats ConfigData RtspRecovery Recording Diagnostics.

(** ** The status board *)

Module Status.

Record Encoder := mkEncoder {
  frames_submitted : Z;
  frames_rejected : Z;
  frames_dropped : Z;
  appsrc_pressure_dropped : Z;
  access_units_encoded : Z;
  bytes_encoded : Z;
  access_units_dropped : Z;
  last_access_unit_age_ms : Z;
  last_error : string;
}.

Record RuntimeStatusSnapshot := mkSnapshot {
  status : string;
  uptime_s : Z;
  video_fps : option float64;
  detector_fps : option float64;
  last_inference_ms : option float64;
  last_inference_age_ms : option Z;
  encoder : option Encoder;
}.

Record RuntimeStatus := mkRuntimeStatus {
  running_ : bool;
  detector_expected_ : bool;
  video_available_ : bool;
  detector_available_ : bool;
  detector_fps_available_ : bool;
  video_fps_ : float64;
  detector_fps_ : float64;
  inference_ms_ : float64;
  inference_at_ns_ : Z;
  encoder_available_ : bool;
  encoder_ : Encoder;
}.

Definition make_status : RuntimeStatus :=
  mkRuntimeStatus false false false false false f64_zero f64_zero f64_zero 0 false
    (mkEncoder 0 0 0 0 0 0 0 (-1) "").

(** Each member function; the clock reading is an argument. *)
Inductive update :=
  | SetRunning (b : bool)
  | SetDetectorExpected (b : bool)
  | UpdateVideo (fps : float64)
  | UpdateDetector (fps ms : float64) (now : Z)
  | UpdateInference (ms : float64) (now : Z)
  | ClearVideo
  | ClearDetector
  | UpdateEncoder (e : Encoder)
  | ClearEncoder.

Definition apply (s : RuntimeStatus) (u : update) : RuntimeStatus :=
  let '(mkRuntimeStatus run exp vid det fpsa vf df im at_ ea e) := s in
  match u with
  | SetRunning b => mkRuntimeStatus b exp vid det fpsa vf df im at_ ea e
  | SetDetectorExpected b => mkRuntimeStatus run b vid (if b then det else false) fpsa vf df im at_ ea e
  | UpdateVideo fps => mkRuntimeStatus run exp true det fpsa fps df im at_ ea e
  | UpdateDetector fps ms now => mkRuntimeStatus run exp vid true true vf fps ms now ea e
  | UpdateInference ms now => mkRuntimeStatus run exp vid true fpsa vf df ms now ea e
  | ClearVideo => mkRuntimeStatus run exp false det fpsa vf df im at_ ea e
  | ClearDetector => mkRuntimeStatus run exp vid false false vf df im at_ ea e
  | UpdateEncoder e => mkRuntimeStatus run exp vid det fpsa vf df im at_ true e
  | ClearEncoder => mkRuntimeStatus run exp vid det fpsa vf df im at_ false e
  end.

Definition snapshot (now : Z) (s : RuntimeStatus) : RuntimeStatusSnapshot :=
  mkSnapshot
    (if negb (running_ s) then "starting"
     else if video_available_ s && (negb (detector_expected_ s) || detector_available_ s) then "running"
     else "degraded")
    0
    (if video_available_ s then Some (video_fps_ s) else None)
    (if detector_available_ s && detector_fps_available_ s then Some (detector_fps_ s) else None)
    (if detector_available_ s then Some (inference_ms_ s) else None)
    (if detector_available_ s then Some (Z.quot (now - inference_at_ns_ s) 1000000) else None)
    (if encoder_available_ s then Some (encoder_ s) else None).

(** The last measurement in a sequence of updates, [None] when it was cleared
    since or never made.  [choose]: what an update says, [None] when nothing. *)
Fixpoint latest {A} (choose : update -> option (option A)) (us : list update) (acc : option A) : option A :=
  match us with
  | [] => acc
  | u :: rest => latest choose rest (default acc (choose u))
  end.

Definition about_video (u : update) : option (option float64) :=
  match u with UpdateVideo fps => Some (Some fps) | ClearVideo => Some None | _ => None end.
Definition about_inference (u : update) : option (option (float64 * Z)) :=
  match u with
  | UpdateDetector _ ms now | UpdateInference ms now => Some (Some (ms, now))
  | ClearDetector | SetDetectorExpected false => Some None
  | _ => None
  end.
Definition about_encoder (u : update) : option (option Encoder) :=
  match u with UpdateEncoder e => Some (Some e) | ClearEncoder => Some None | _ => None end.

Lemma latest_spec us s :
  (let s' := foldl apply s us in
   (if video_available_ s' then Some (video_fps_ s') else None) =
     latest about_video us (if video_available_ s then Some (video_fps_ s) else None) /\
   (if detector_available_ s' then Some (inference_ms_ s', inference_at_ns_ s') else None) =
     latest about_inference us
       (if detector_available_ s then Some (inference_ms_ s, inference_at_ns_ s) else None) /\
   (if encoder_available_ s' then Some (encoder_ s') else None) =
     latest about_encoder us (if encoder_available_ s then Some (encoder_ s) else None)).
Proof.
  revert s; induction us as [|u us IH]; intros s; simpl; [done|].
  specialize (IH (apply s u)). destruct IH as (IH1 & IH2 & IH3).
  destruct s as [run exp vid det fpsa vf df im at_ ea e].
  destruct u as [b|[]|fps|fps ms now|ms now| | |e'|]; simpl in *; by rewrite IH1, IH2, IH3.
Qed.

(** The status board never shows a default as a measurement: after any sequence of updates the video
    rate, the inference time with its age and the encoder figures are those of the last update that
    was not cleared since, and absent when there is none; and the overall status is "running" only
    with video present and, if one is expected, a current inference. *)
Theorem status_shows_latest us now :
  let r := snapshot now (foldl apply make_status us) in
  video_fps r = latest about_video us None /\
  last_inference_ms r = fst <$> latest about_inference us None /\
  last_inference_age_ms r = (fun m => Z.quot (now - m.2) 1000000) <$> latest about_inference us None /\
  encoder r = latest about_encoder us None /\
  (status r = "running" -> is_Some (video_fps r)).
Proof.
  pose proof (latest_spec us make_status) as (H1 & H2 & H3). simpl in *.
  set (s := foldl apply make_status us) in *. rewrite <- H1, <- H2, <- H3. clear.
  destruct (video_available_ s), (detector_available_ s), (encoder_available_ s); simpl; split_and!; try done.
  all: by destruct (negb (running_ s)).
Qed.
End Status.

(** ** Component health *)

Module Health.

#[local] Existing Instance Recovery.SourceHealth_eq.

Inductive HealthState := Starting | Running | Degraded | Stopping | Failed.

#[export] Instance HealthState_eq : EqDecision HealthState.
Proof. solve_decision. Defined.

Inductive HealthComponent := VideoSource | Detector | Encoder | Recorder | Gps | Web | WebRtc | Database.

#[export] Instance HealthComponent_eq : EqDecision HealthComponent.
Proof. solve_decision. Defined.

Definition all_health_components : list HealthComponent :=
  [VideoSource; Detector; Encoder; Recorder; Gps; Web; WebRtc; Database].

Definition health_state_name (s : HealthState) : string :=
  match s with
  | Starting => "STARTING"
  | Running => "RUNNING"
  | Degraded => "DEGRADED"
  | Stopping => "STOPPING"
  | Failed => "FAILED"
  end.

Definition health_component_name (c : HealthComponent) : string :=
  match c with
  | VideoSource => "video_source"
  | Detector => "detector"
  | Encoder => "encoder"
  | Recorder => "recorder"
  | Gps => "gps"
  | Web => "web"
  | WebRtc => "webrtc"
  | Database => "database"
  end.

Record ComponentHealth := mkHealth {
  state : HealthState;
  detail : string;
}.

Definition or_default (s d : string) : string := if bool_decide (s = "") then d else s.

Definition video_health (diagnostics : option Rtsp.RtspDiagnostics) (stall_timeout_ms : Z) : ComponentHealth :=
  match diagnostics with
  | None => mkHealth Starting "source not initialized"
  | Some v =>
    if bool_decide (Rtsp.health v = Recovery.Connected) && (0 <=? Rtsp.last_frame_age_ms v) &&
       (stall_timeout_ms <? Rtsp.last_frame_age_ms v) then mkHealth Degraded "source frame is stale"
    else
      match Rtsp.health v with
      | Recovery.Connected => mkHealth Running ""
      | Recovery.Connecting =>
        mkHealth (if Rtsp.frames_received v =? 0 then Starting else Degraded) "source connecting"
      | Recovery.Degraded => mkHealth Degraded "source packet loss"
      | Recovery.Stalled => mkHealth Degraded "source stalled"
      | Recovery.Reconnecting => mkHealth Degraded (or_default (Rtsp.last_error v) "source reconnecting")
      | Recovery.Error => mkHealth Failed (or_default (Rtsp.last_error v) "source failed")
      | Recovery.Stopped => mkHealth Failed "source stopped"
      end
  end.

Definition detector_health (supported enabled : bool) (s : Status.RuntimeStatusSnapshot) : ComponentHealth :=
  if negb supported then mkHealth Running "not installed"
  else if negb enabled then mkHealth Running "disabled"
  else if bool_decide (Status.last_inference_ms s = None) then mkHealth Degraded "no current inference"
  else if match Status.last_inference_age_ms s with Some a => 3000 <? a | None => false end then
    mkHealth Degraded "inference is stale"
  else mkHealth Running "".

Definition encoder_health (s : Status.RuntimeStatusSnapshot) (media h264_required : bool) : ComponentHealth :=
  if negb h264_required && bool_decide (Status.encoder s = None) then mkHealth Running "not required"
  else if negb media then mkHealth Degraded "H.264 media unavailable"
  else match Status.encoder s with
       | None => mkHealth Running "H.264 passthrough"
       | Some e =>
         if negb (bool_decide (Status.last_error e = "")) then mkHealth Degraded (Status.last_error e)
         else if 3000 <? Status.last_access_unit_age_ms e then mkHealth Degraded "encoded media is stale"
         else mkHealth Running ""
       end.

Definition recorder_health (s : Control.RecordingStatus) (requested enabled_by_config : bool) : ComponentHealth :=
  if bool_decide (Control.state s = "error") then mkHealth Failed (Control.last_error s)
  else if negb (Control.configured s) || (negb enabled_by_config && negb requested && negb (Control.active s)) then
    mkHealth Running "disabled"
  else if bool_decide (Control.state s = "unavailable") then
    mkHealth Degraded (Control.unavailable_reason s)
  else if negb requested then mkHealth Running "stopped"
  else if negb (Control.available s) then mkHealth Degraded (Control.unavailable_reason s)
  else if Control.active s then mkHealth Running ""
  else mkHealth Starting "recording starting".

Definition gps_health (enabled : bool) (fix_ : option Gps.GpsFix) : ComponentHealth :=
  if negb enabled then mkHealth Running "disabled"
  else match fix_ with
       | Some f => if Gps.valid f then mkHealth Running "" else mkHealth Degraded "GPS fix unavailable"
       | None => mkHealth Degraded "GPS fix unavailable"
       end.

Definition webrtc_health (d : WebRtc.WebRtcDiagnostics) (w : Metrics.WhipMetrics) : ComponentHealth :=
  let rtc :=
    if WebRtc.enabled d && negb (WebRtc.media_available d) then mkHealth Degraded (WebRtc.media_unavailable_reason d)
    else if negb (WebRtc.enabled d) && negb (Metrics.whip_enabled w) then mkHealth Running "disabled"
    else mkHealth Running "" in
  if Metrics.whip_enabled w then
    if bool_decide (Metrics.peer_state w = "failed") || bool_decide (Metrics.peer_state w = "stopped") then
      mkHealth Failed (or_default (Metrics.whip_error w) "WHIP uplink stopped")
    else if bool_decide (Metrics.peer_state w = "retrying") || bool_decide (Metrics.peer_state w = "disconnected") ||
            bool_decide (Metrics.ice_state w = "failed") || bool_decide (Metrics.ice_state w = "disconnected") then
      mkHealth Degraded (or_default (Metrics.whip_error w) "WHIP uplink reconnecting")
    else if negb (bool_decide (Metrics.peer_state w = "connected")) ||
            (negb (bool_decide (Metrics.ice_state w = "connected")) && negb (bool_decide (Metrics.ice_state w = "completed"))) then
      mkHealth Starting "WHIP uplink connecting"
    else rtc
  else rtc.

Definition web_health (serving : bool) : ComponentHealth :=
  if serving then mkHealth Running "" else mkHealth Failed "HTTP server not serving".

Definition database_health (error : string) : ComponentHealth :=
  if bool_decide (error = "") then mkHealth Running "" else mkHealth Failed error.
End Health.

(** ** The watchdog *)

Module Watchdog.
Import Health.

(** What calling a probe does. *)
Inductive Probe := Answers (h : ComponentHealth) | Throws (what : string) | ThrowsUnknown.

Record Entry := mkEntry {
  registered : bool;
  entry_health : ComponentHealth;
  critical : bool;
}.

Record HealthWatchdog := mkWatchdog {
  entries_ : HealthComponent -> Entry;
  last_poll_ : Z;               (* 0: the epoch of the clock, never polled *)
  lifecycle_ : HealthState;
  stopping_ : bool;
}.

Record HealthSnapshot := mkHealthSnapshot {
  overall : HealthState;
  components : HealthComponent -> ComponentHealth;
}.

Definition make_watchdog : HealthWatchdog :=
  mkWatchdog (fun _ => mkEntry false (mkHealth Starting "") false) 0 Starting false.

Definition set_probe (c : HealthComponent) (is_critical : bool) (w : HealthWatchdog) : HealthWatchdog :=
  mkWatchdog (fun c' => if bool_decide (c' = c) then mkEntry true (entry_health (entries_ w c')) is_critical
                        else entries_ w c')
    (last_poll_ w) (lifecycle_ w) (stopping_ w).

Definition set_lifecycle (s : HealthState) (w : HealthWatchdog) : HealthWatchdog :=
  mkWatchdog (entries_ w) (last_poll_ w) s (stopping_ w).

Definition observe (e : Entry) (p : Probe) : ComponentHealth :=
  if negb (registered e) then mkHealth Starting "probe not registered"
  else match p with
       | Answers h => h
       | Throws what => mkHealth Failed what
       | ThrowsUnknown => mkHealth Failed "probe failed"
       end.

(** [tick]: the probes answer [probes]. *)
Definition tick (now : Z) (probes : HealthComponent -> Probe) (w : HealthWatchdog) : HealthWatchdog :=
  mkWatchdog (fun c => let e := entries_ w c in mkEntry (registered e) (observe e (probes c)) (critical e))
    now (lifecycle_ w) (stopping_ w).

Definition two_seconds : Z := 2000000000.

Definition is_stale (now : Z) (w : HealthWatchdog) : bool :=
  negb (last_poll_ w =? 0) && (two_seconds <? now - last_poll_ w).

(** The loop over the components: failed, degraded, starting. *)
Fixpoint combine (shown : HealthComponent -> ComponentHealth) (is_critical : HealthComponent -> bool)
    (cs : list HealthComponent) (acc : bool * bool * bool) : bool * bool * bool :=
  match cs with
  | [] => acc
  | c :: rest =>
    let '(failed, degraded, starting) := acc in
    combine shown is_critical rest
      match state (shown c) with
      | Failed => if is_critical c then (true, degraded, starting) else (failed, true, starting)
      | Degraded => (failed, true, starting)
      | Starting => (failed, degraded, true)
      | Running | Stopping => (failed, degraded, starting)
      end
  end.

Definition snapshot (now : Z) (w : HealthWatchdog) : HealthSnapshot :=
  let stale := is_stale now w in
  let shown c := if stale then mkHealth Failed "watchdog poll stale" else entry_health (entries_ w c) in
  let '(failed, degraded, starting) :=
    combine shown (fun c => critical (entries_ w c)) all_health_components (stale, false, false) in
  mkHealthSnapshot
    (if bool_decide (lifecycle_ w = Running) then
       if failed then Failed else if degraded then Degraded else if starting then Starting else Running
     else lifecycle_ w)
    shown.

(** [start] on a watchdog whose worker is not running: a poll, then running. *)
Definition start (now : Z) (probes : HealthComponent -> Probe) (w : HealthWatchdog) : HealthWatchdog :=
  set_lifecycle Running (tick now probes w).
Definition stop (w : HealthWatchdog) : HealthWatchdog :=
  mkWatchdog (entries_ w) (last_poll_ w) Stopping true.

(** ** Lemmas *)

Lemma all_components c : c ∈ all_health_components.
Proof. destruct c; set_solver. Qed.

Lemma combine_spec shown crit cs f d s :
  combine shown crit cs (f, d, s) =
    (f || existsb (fun c => bool_decide (state (shown c) = Failed) && crit c) cs,
     d || existsb (fun c => bool_decide (state (shown c) = Degraded) ||
                            (bool_decide (state (shown c) = Failed) && negb (crit c))) cs,
     s || existsb (fun c => bool_decide (state (shown c) = Starting)) cs).
Proof.
  revert f d s; induction cs as [|c cs IH]; intros f d s; simpl; [by rewrite !orb_false_r|].
  destruct (state (shown c)), (crit c); simpl; rewrite IH; rewrite ?orb_true_r, ?orb_false_r; simpl;
    rewrite ?orb_true_r; done.
Qed.

Lemma exists_component (P : HealthComponent -> bool) :
  existsb P all_health_components = true <-> exists c, P c = true.
Proof.
  rewrite existsb_exists. split; [naive_solver|]. intros [c Hc]. exists c. split; [|done].
  apply list_elem_of_In, all_components.
Qed.

(** The overall state from the components' states. *)
Lemma combined_state shown crit :
  let '(failed, degraded, starting) := combine shown crit all_health_components (false, false, false) in
  let o := if failed then Failed else if degraded then Degraded else if starting then Starting else Running in
  (o = Failed <-> exists c, crit c = true /\ state (shown c) = Failed) /\
  (o = Degraded \/ o = Failed <-> exists c, state (shown c) = Degraded \/ state (shown c) = Failed) /\
  (o = Running <-> forall c, state (shown c) = Running \/ state (shown c) = Stopping).
Proof.
  rewrite combine_spec. cbn [orb].
  assert (HF : existsb (fun c => bool_decide (state (shown c) = Failed) && crit c) all_health_components = true
    <-> exists c, state (shown c) = Failed /\ crit c = true).
  { rewrite exists_component. setoid_rewrite andb_true_iff. by setoid_rewrite bool_decide_eq_true. }
  assert (HD : existsb (fun c => bool_decide (state (shown c) = Degraded) ||
      (bool_decide (state (shown c) = Failed) && negb (crit c))) all_health_components = true
    <-> exists c, state (shown c) = Degraded \/ state (shown c) = Failed /\ crit c = false).
  { rewrite exists_component. setoid_rewrite orb_true_iff. setoid_rewrite andb_true_iff.
    setoid_rewrite bool_decide_eq_true. by setoid_rewrite negb_true_iff. }
  assert (HS : existsb (fun c => bool_decide (state (shown c) = Starting)) all_health_components = true
    <-> exists c, state (shown c) = Starting).
  { rewrite exists_component. by setoid_rewrite bool_decide_eq_true. }
  destruct (existsb (fun c => bool_decide (state (shown c) = Failed) && crit c) _).
  { destruct (proj1 HF eq_refl) as (c & ? & ?). split_and!; split; try done; [by eauto..|].
    intros Hall. destruct (Hall c); congruence. }
  assert (NF : forall c, state (shown c) = Failed -> crit c = false).
  { intros c Hc. apply not_true_is_false. intros Hcr. assert (false = true); [|done]. apply HF. eauto. }
  destruct (existsb (fun c => _ || _) _).
  { destruct (proj1 HD eq_refl) as (c & Hc). split_and!; split; try done; eauto.
    - intros (c' & Hc' & Hs'). apply NF in Hs'. congruence.
    - intros _. exists c. tauto.
    - intros Hall. destruct (Hall c), Hc as [?|[? _]]; congruence. }
  assert (ND : forall c, state (shown c) <> Degraded /\ state (shown c) <> Failed).
  { intros c. split; intros Hc; (assert (false = true); [|done]); apply HD; exists c; auto. }
  destruct (existsb (fun c => bool_decide (state (shown c) = Starting)) _).
  - destruct (proj1 HS eq_refl) as (c & Hc). split_and!; split; try done.
    + intros (c' & _ & Hs'). by destruct (ND c').
    + intros [?|?]; done.
    + intros (c' & [?|?]); by destruct (ND c').
    + intros Hall. destruct (Hall c); congruence.
  - split_and!; split; try done.
    + intros (c' & _ & Hs'). by destruct (ND c').
    + intros [?|?]; done.
    + intros (c' & [?|?]); by destruct (ND c').
    + intros _ c. destruct (ND c), (state (shown c)) eqn:E; auto; try done.
      assert (false = true); [|done]. apply HS. eauto.
Qed.

(** A snapshot within two seconds of a poll shows for every component what its probe answered, a
    throwing probe as FAILED and an unregistered one as STARTING; while the service is running the
    overall state is FAILED exactly when a critical component failed, otherwise DEGRADED exactly
    when some component is degraded or failed, otherwise STARTING exactly when some component is
    starting, otherwise RUNNING. *)
Theorem snapshot_combines_probes now now' probes w :
  lifecycle_ w = Running -> now' - now <= two_seconds ->
  let snap := snapshot now' (tick now probes w) in
  (forall c, components snap c = observe (entries_ w c) (probes c)) /\
  (overall snap = Failed <->
     exists c, critical (entries_ w c) = true /\ state (components snap c) = Failed) /\
  (overall snap = Degraded \/ overall snap = Failed <->
     exists c, state (components snap c) = Degraded \/ state (components snap c) = Failed) /\
  (overall snap = Running <->
     forall c, state (components snap c) = Running \/ state (components snap c) = Stopping).
Proof.
  intros Hl Hn snap.
  assert (Hs : is_stale now' (tick now probes w) = false).
  { unfold is_stale. simpl. apply andb_false_iff. right. apply Z.ltb_ge. lia. }
  pose proof (combined_state (fun c => observe (entries_ w c) (probes c)) (fun c => critical (entries_ w c))) as H.
  unfold snap, snapshot. rewrite Hs. cbn [entry_health entries_ tick critical lifecycle_].
  destruct (combine _ _ _ _) as [[f d] st]. cbn [overall components].
  rewrite Hl, bool_decide_true by done. split; [done|exact H].
Qed.

Lemma snapshot_combines_probes_witness :
  let w := set_lifecycle Running (set_probe Web true (set_probe Gps false make_watchdog)) in
  let probes c := match c with Web => Answers (mkHealth Running "") | _ => Throws "no fix" end in
  let snap := snapshot 1500000001 (tick 1 probes w) in
  components snap Gps = mkHealth Failed "no fix" /\
  (overall snap = Degraded \/ overall snap = Failed) /\ overall snap <> Failed.
Proof.
  intros w probes snap.
  destruct (snapshot_combines_probes 1 1500000001 probes w) as (H1 & H2 & H3 & _);
    [reflexivity|vm_compute; by intros|].
  split_and!.
  - unfold snap. rewrite H1. reflexivity.
  - apply H3. exists Gps. right. vm_compute. reflexivity.
  - vm_compute. discriminate.
Defined.

(** A watchdog that has not completed a poll for more than two seconds reports every component, and
    a running service as a whole, as FAILED. *)
Theorem stale_watchdog_fails now w :
  last_poll_ w <> 0 -> two_seconds < now - last_poll_ w ->
  let snap := snapshot now w in
  (forall c, components snap c = mkHealth Failed "watchdog poll stale") /\
  (lifecycle_ w = Running -> overall snap = Failed).
Proof.
  intros Hp Hn snap. assert (Hs : is_stale now w = true).
  { unfold is_stale. apply andb_true_iff. split; [by apply negb_true_iff, Z.eqb_neq|by apply Z.ltb_lt]. }
  unfold snap, snapshot. rewrite Hs, combine_spec. cbn [orb overall components]. split; [done|].
  intros ->. by rewrite bool_decide_true.
Qed.

Lemma stale_watchdog_fails_witness :
  overall (snapshot 3000000000 (start 1 (fun _ => Answers (mkHealth Running "")) make_watchdog)) = Failed.
Proof.
  destruct (stale_watchdog_fails 3000000000 (start 1 (fun _ => Answers (mkHealth Running "")) make_watchdog))
    as [_ H]; [vm_compute; discriminate|vm_compute; reflexivity|]. apply H. reflexivity.
Defined.
End Watchdog.
