(* ===== verification/ApiState.v ===== *)
(** * State behind the web API ([include/skai/api_state.hpp])

    The object the web API and the inference worker share.  The worker takes a
    permit before an inference and presents it with the result; switching,
    reconfiguring or withdrawing the detector changes the generation, so that a
    result computed before the change cannot be published after it.  Each member
    function holds the mutex throughout, so an interleaving is a sequence of
    calls. *)

From S2P Require Import Prelude Strings Floats ConfigData RtspRecovery Recording Diagnostics Health.

Module Api.

Record PublicConfigDto := mkDto {
  video_transport : string;
  video_latency_ms : Z;
  video_stall_timeout_ms : Z;
  detector_confidence : float64;
  detector_nms : float64;
  detector_annotate : bool;
  web_bind : string;
  web_port : Z;
  recording_configured : bool;
  recording_segment_seconds : Z;
  gps_enabled : bool;
  gps_source : string;
  webrtc_enabled : bool;
  webrtc_max_peers : Z;
  webrtc_connection_timeout_ms : Z;
  webrtc_media_queue_capacity : Z;
}.

Definition empty_dto : PublicConfigDto := mkDto "" 0 0 f64_zero f64_zero false "" 0 false 0 false "" false 0 0 0.

Record DetectionDto := mkDetection {
  class_id : Z;
  class_name : string;
  confidence : float32;
  x1 : float32;
  y1 : float32;
  x2 : float32;
  y2 : float32;
}.

Record LatestDetectionsDto := mkLatest {
  available : bool;
  frame_sequence : Z;
  pts_ns : Z;
  frame_width : Z;
  frame_height : Z;
  detections : list DetectionDto;
}.

Definition no_detections : LatestDetectionsDto := mkLatest false 0 0 0 0 [].

Record DetectorPermit := mkPermit {
  enabled : bool;
  generation : Z;
}.

(** [status_] and [gps_state_] are shared with the modules that write them; the
    model keeps the current contents. *)
Record ApiState := mkApi {
  configured_ : bool;
  detector_enabled_ : bool;
  detector_supported_ : bool;
  detector_generation_ : Z;
  status_ : option Status.RuntimeStatus;
  gps_state_ : option Gps.GpsFix;
  config_ : PublicConfigDto;
  latest_ : LatestDetectionsDto;
}.

Definition make_api (status : option Status.RuntimeStatus) (gps : option Gps.GpsFix) : ApiState :=
  mkApi false true true 0 status gps empty_dto no_detections.

Definition set_status (st : option Status.RuntimeStatus) (s : ApiState) : ApiState :=
  mkApi (configured_ s) (detector_enabled_ s) (detector_supported_ s) (detector_generation_ s) st (gps_state_ s)
    (config_ s) (latest_ s).

Definition synchronize_runtime_status (s : ApiState) : ApiState :=
  match status_ s with
  | None => s
  | Some b =>
    set_status (Some (Status.apply (Status.apply b Status.ClearDetector)
                        (Status.SetDetectorExpected (detector_enabled_ s)))) s
  end.

Definition bind_runtime_status (status : option Status.RuntimeStatus) (s : ApiState) : ApiState :=
  synchronize_runtime_status (set_status status s).

Definition dto_of (c : Cfg.Config) : PublicConfigDto :=
  mkDto (Cfg.transport (Cfg.video c)) (Cfg.latency_ms (Cfg.video c)) (Cfg.stall_timeout_ms (Cfg.video c))
    (Cfg.det_confidence (Cfg.detector c)) (Cfg.nms (Cfg.detector c)) (Cfg.annotate (Cfg.detector c))
    (Cfg.bind (Cfg.web c)) (Cfg.port (Cfg.web c))
    (Cfg.rec_enabled (Cfg.recording c)) (Cfg.segment_seconds (Cfg.recording c))
    (Cfg.gps_enabled (Cfg.gps c)) (Cfg.gps_source (Cfg.gps c))
    (Cfg.rtc_enabled (Cfg.webrtc c)) (Cfg.max_peers (Cfg.webrtc c))
    (Cfg.connection_timeout_ms (Cfg.webrtc c)) (Cfg.media_queue_capacity (Cfg.webrtc c)).

(** The detector was switched: a new generation starts with no result. *)
Definition next_generation (enabled supported : bool) (s : ApiState) : ApiState :=
  mkApi (configured_ s) enabled supported (u64 (detector_generation_ s + 1)) (status_ s) (gps_state_ s)
    (config_ s) no_detections.

Definition configure (c : Cfg.Config) (s : ApiState) : ApiState :=
  let s := mkApi true (detector_enabled_ s) (detector_supported_ s) (detector_generation_ s) (status_ s)
             (gps_state_ s) (dto_of c) (latest_ s) in
  synchronize_runtime_status (next_generation (detector_supported_ s) (detector_supported_ s) s).

Definition public_config (s : ApiState) : option PublicConfigDto :=
  if configured_ s then Some (config_ s) else None.

Definition detector_permit (s : ApiState) : DetectorPermit :=
  mkPermit (detector_enabled_ s) (detector_generation_ s).

(** A permit that [commit_detections] and [invalidate_detections] refuse. *)
Definition refused (permit : DetectorPermit) (s : ApiState) : bool :=
  negb (detector_enabled_ s) || negb (generation permit =? detector_generation_ s).

Definition set_latest (l : LatestDetectionsDto) (s : ApiState) : ApiState :=
  mkApi (configured_ s) (detector_enabled_ s) (detector_supported_ s) (detector_generation_ s) (status_ s)
    (gps_state_ s) (config_ s) l.

(** The [commit] callbacks run under the mutex and act on the caller's [world]. *)
Definition commit_detections {world} (permit : DetectorPermit) (frame_sequence frame_width frame_height pts_ns : Z)
    (ds : list DetectionDto) (commit : world -> world) (s : ApiState) (w : world) : bool * ApiState * world :=
  if refused permit s then (false, s, w)
  else (true, set_latest (mkLatest true frame_sequence pts_ns frame_width frame_height ds) s, commit w).

Definition invalidate_detections {world} (permit : DetectorPermit) (commit : bool -> world -> world)
    (s : ApiState) (w : world) : bool * ApiState * world :=
  if refused permit s then (false, s, w)
  else (true, set_latest no_detections s, commit (available (latest_ s)) w).

Definition latest_detections (s : ApiState) : LatestDetectionsDto := latest_ s.
Definition latest_gps (s : ApiState) : option Gps.GpsFix := gps_state_ s.

Definition set_detector_enabled (enabled : bool) (s : ApiState) : ApiState :=
  synchronize_runtime_status (next_generation (enabled && detector_supported_ s) (detector_supported_ s) s).

Definition detector_enabled (s : ApiState) : bool := detector_enabled_ s.

Definition set_detector_supported (supported : bool) (s : ApiState) : ApiState :=
  synchronize_runtime_status
    (if negb supported then next_generation false supported s
     else mkApi (configured_ s) (detector_enabled_ s) supported (detector_generation_ s) (status_ s)
            (gps_state_ s) (config_ s) (latest_ s)).

Definition detector_supported (s : ApiState) : bool := detector_supported_ s.

(** ** Calls *)

(** The calls that change the state; [Board] and [Fix] are the writes of the
    other owners of the shared objects. *)
Inductive call :=
  | Bind (status : option Status.RuntimeStatus)
  | Configure (c : Cfg.Config)
  | Commit (permit : DetectorPermit) (seq width height pts : Z) (ds : list DetectionDto)
  | Invalidate (permit : DetectorPermit)
  | SetEnabled (b : bool)
  | SetSupported (b : bool)
  | Board (u : Status.update)
  | Fix (f : option Gps.GpsFix).

Definition apply_call (s : ApiState) (c : call) : ApiState :=
  match c with
  | Bind b => bind_runtime_status b s
  | Configure c => configure c s
  | Commit p n w h t ds => (commit_detections p n w h t ds (fun w : unit => w) s tt).1.2
  | Invalidate p => (invalidate_detections p (fun _ (w : unit) => w) s tt).1.2
  | SetEnabled b => set_detector_enabled b s
  | SetSupported b => set_detector_supported b s
  | Board u => set_status (flip Status.apply u <$> status_ s) s
  | Fix f => mkApi (configured_ s) (detector_enabled_ s) (detector_supported_ s) (detector_generation_ s)
               (status_ s) f (config_ s) (latest_ s)
  end.

(** The calls that start a new generation. *)
Definition switches (c : call) : bool :=
  match c with
  | Configure _ | SetEnabled _ => true
  | SetSupported b => negb b
  | _ => false
  end.

(** ** Lemmas *)

Lemma sync_fields s :
  configured_ (synchronize_runtime_status s) = configured_ s /\
  detector_enabled_ (synchronize_runtime_status s) = detector_enabled_ s /\
  detector_supported_ (synchronize_runtime_status s) = detector_supported_ s /\
  detector_generation_ (synchronize_runtime_status s) = detector_generation_ s /\
  latest_ (synchronize_runtime_status s) = latest_ s.
Proof. unfold synchronize_runtime_status. by destruct (status_ s). Qed.

Lemma generation_step s c :
  detector_generation_ (apply_call s c) =
  if switches c then u64 (detector_generation_ s + 1) else detector_generation_ s.
Proof.
  destruct c as [b|c|p n w h t ds|p|b|b|u|f]; cbn [apply_call switches].
  - unfold bind_runtime_status. by destruct (sync_fields (set_status b s)) as (_ & _ & _ & -> & _).
  - unfold configure. match goal with |- context [synchronize_runtime_status ?x] =>
      by destruct (sync_fields x) as (_ & _ & _ & -> & _) end.
  - unfold commit_detections. by destruct (refused p s).
  - unfold invalidate_detections. by destruct (refused p s).
  - unfold set_detector_enabled. match goal with |- context [synchronize_runtime_status ?x] =>
      by destruct (sync_fields x) as (_ & _ & _ & -> & _) end.
  - unfold set_detector_supported. match goal with |- context [synchronize_runtime_status ?x] =>
      destruct (sync_fields x) as (_ & _ & _ & -> & _) end. by destruct b.
  - done.
  - done.
Qed.

Definition switch_count (cs : list call) : Z := Z.of_nat (length (List.filter switches cs)).

Lemma generation_run cs s : is_u64 (detector_generation_ s) ->
  detector_generation_ (foldl apply_call s cs) = u64 (detector_generation_ s + switch_count cs).
Proof.
  unfold switch_count. revert s. induction cs as [|c cs IH]; intros s Hs; cbn [foldl List.filter].
  { cbn. rewrite Z.add_0_r. by rewrite u64_small. }
  pose proof (generation_step s c) as Hg. rewrite IH, Hg.
  - destruct (switches c); cbn [length]; [|done]. rewrite u64_add_l. f_equal. lia.
  - rewrite Hg. destruct (switches c); [apply u64_range|done].
Qed.

Lemma generation_range cs s : is_u64 (detector_generation_ s) -> is_u64 (detector_generation_ (foldl apply_call s cs)).
Proof. intros. rewrite generation_run by done. apply u64_range. Qed.

(** The detector's state is coherent: it is only enabled when supported, and a
    disabled detector shows no result. *)
Definition coherent (s : ApiState) : Prop :=
  (detector_enabled_ s = true -> detector_supported_ s = true) /\
  (detector_enabled_ s = false -> latest_ s = no_detections).

Lemma coherent_sync s : coherent s -> coherent (synchronize_runtime_status s).
Proof. unfold coherent. destruct (sync_fields s) as (_ & -> & -> & _ & ->). done. Qed.

Lemma coherent_step s c : coherent s -> coherent (apply_call s c).
Proof.
  intros H. destruct c as [b|c|p n w h t ds|p|b|b|u|f]; cbn [apply_call]; try done.
  - by apply coherent_sync.
  - apply coherent_sync. by split.
  - unfold commit_detections, refused. destruct (detector_enabled_ s) eqn:E; [|done]. cbn.
    destruct (negb _); [done|]. destruct H as [H1 _]. split; cbn; [done|]. rewrite E. done.
  - unfold invalidate_detections. destruct (refused p s); [done|]. destruct H. by split.
  - apply coherent_sync. split; cbn; [|done]. by intros []%andb_prop.
  - apply coherent_sync. destruct b; cbn; [|by split]. destruct H as [_ H]. by split.
Qed.

Lemma coherent_run cs status gps : coherent (foldl apply_call (make_api status gps) cs).
Proof.
  assert (H : coherent (make_api status gps)) by done. revert H.
  generalize (make_api status gps). induction cs as [|c cs IH]; intros s H; [done|].
  cbn. by apply IH, coherent_step.
Qed.

(** ** Theorems *)

(** C4.   No stale result is ever published: once a permit was taken, any sequence of calls that
    switches, reconfigures or withdraws the detector at least once (and fewer than 2^64 times)
    leaves the permit refused by both [commit_detections] and [invalidate_detections], which then
    change nothing and do not run the callback. *)
Theorem stale_permit_refused {world} before after status gps seq width height pts ds
    (commit : world -> world) (invalidated : bool -> world -> world) w :
  let s0 := foldl apply_call (make_api status gps) before in
  let s := foldl apply_call s0 after in
  0 < switch_count after <= u64_max ->
  commit_detections (detector_permit s0) seq width height pts ds commit s w = (false, s, w) /\
  invalidate_detections (detector_permit s0) invalidated s w = (false, s, w).
Proof.
  intros s0 s Hn. assert (H0 : is_u64 (detector_generation_ s0)) by (apply generation_range; done).
  assert (Hr : refused (detector_permit s0) s = true).
  { unfold refused. apply orb_true_iff. right. apply negb_true_iff, Z.eqb_neq. unfold s. cbn.
    rewrite generation_run by done. zarith. }
  unfold commit_detections, invalidate_detections. by rewrite Hr.
Qed.

(** At every moment: a detector that is not supported is not enabled, a disabled detector shows no
    result, and a published result therefore belongs to an enabled, supported detector. *)
Theorem detector_state_coherent cs status gps :
  let s := foldl apply_call (make_api status gps) cs in
  (detector_enabled s = true -> detector_supported s = true) /\
  (detector_enabled s = false -> latest_detections s = no_detections) /\
  (available (latest_detections s) = true -> detector_enabled s = true /\ detector_supported s = true).
Proof.
  intros s. destruct (coherent_run cs status gps) as [H1 H2]. fold s in H1, H2.
  unfold detector_enabled, latest_detections, detector_supported. split_and!; [done|done|].
  destruct (detector_enabled_ s); [auto|]. rewrite H2 by done. done.
Qed.

(** A configuration with other secrets: stream URL and credentials, engine and
    web root paths, recording directory and limits, database paths, alert rules,
    position, interfaces, uplink URL and log level. *)
Definition same_public (c c' : Cfg.Config) : Prop := dto_of c = dto_of c'.

Definition with_secrets (url user pass engine_ root_ dir db alerts_dir whip_url : string) (c : Cfg.Config) : Cfg.Config :=
  let v := Cfg.video c in let d := Cfg.detector c in let r := Cfg.recording c in let w := Cfg.web c in
  Cfg.mkConfig
    (Cfg.mkVideo url user pass (Cfg.transport v) (Cfg.latency_ms v) (Cfg.reconnect_delay_ms v)
       (Cfg.max_reconnect_delay_ms v) (Cfg.stall_timeout_ms v) (Cfg.first_frame_timeout_ms v))
    (Cfg.mkDetector engine_ (Cfg.det_confidence d) (Cfg.nms d) (Cfg.annotate d))
    (Cfg.mkWeb (Cfg.bind w) (Cfg.port w) root_)
    (Cfg.mkRecording (Cfg.rec_enabled r) dir (Cfg.segment_seconds r) (Cfg.max_storage_mb r) (Cfg.min_free_space_mb r))
    (Cfg.mkStorage db alerts_dir) (Cfg.alerts c) (Cfg.gps c) (Cfg.webrtc c)
    (Cfg.mkWhip (Cfg.whip_enabled (Cfg.whip c)) whip_url) (Cfg.logging c).

(** Credentials and paths never reach the API state: two configurations that differ only in the
    stream URL, user name, password, engine path, web root, recording directory, database path,
    alert directory and uplink URL leave it in the same state, and so does everything done
    afterwards. *)
Theorem configure_hides_secrets url user pass engine_ root_ dir db alerts_dir whip_url c s cs :
  foldl apply_call (configure (with_secrets url user pass engine_ root_ dir db alerts_dir whip_url c) s) cs =
  foldl apply_call (configure c s) cs.
Proof. done. Qed.

(** Every switch of the detector is visible on the status board at once: after
    [bind_runtime_status], [configure], [set_detector_enabled] or [set_detector_supported] the board
    of the API expects the detector exactly when it is enabled and shows no inference, so a board
    that reports "running" with the detector enabled has seen an inference since. *)
Theorem switch_resets_board c s b now :
  match c with Bind _ | Configure _ | SetEnabled _ | SetSupported _ => true | _ => false end = true ->
  status_ (apply_call s c) = Some b ->
  let r := Status.snapshot now b in
  Status.detector_expected_ b = detector_enabled (apply_call s c) /\
  Status.last_inference_ms r = None /\ Status.detector_fps r = None /\
  (detector_enabled (apply_call s c) = true -> Status.status r <> "running").
Proof.
  intros Hc Hb r.
  assert (Hs : exists x, apply_call s c = synchronize_runtime_status x) by (destruct c; try done; eexists; reflexivity).
  destruct Hs as [x Hx]. rewrite Hx in Hb |- *. unfold detector_enabled.
  destruct (sync_fields x) as (_ & -> & _). unfold synchronize_runtime_status in Hb.
  destruct (status_ x) as [[run exp vid det fpsa vf df im at_ ea e]|] eqn:E; [|congruence].
  cbn in Hb. injection Hb as <-. unfold r. cbn. destruct (detector_enabled_ x); cbn; split_and!; try done.
  intros _. destruct run; cbn; [|done]. by rewrite andb_false_r.
Qed.

Lemma stale_permit_refused_witness :
  let s0 := make_api None None in
  let s := foldl apply_call s0 [SetEnabled false; SetEnabled true] in
  commit_detections (detector_permit s0) 7 640 480 0 [] (fun n => n + 1) s 0 = (false, s, 0) /\
  invalidate_detections (detector_permit s0) (fun _ n => n + 1) s 0 = (false, s, 0).
Proof.
  apply (stale_permit_refused [] [SetEnabled false; SetEnabled true] None None); vm_compute; split; [done|discriminate].
Defined.

Lemma switch_resets_board_witness :
  let s := make_api (Some Status.make_status) None in
  exists b, status_ (apply_call s (SetEnabled true)) = Some b /\ Status.detector_expected_ b = true.
Proof.
  eexists. split; [reflexivity|].
  exact (proj1 (switch_resets_board (SetEnabled true) (make_api (Some Status.make_status) None) _ 0 eq_refl eq_refl)).
Defined.
End Api.
