(* ===== verification/Inference.v ===== *)
(** * The inference worker ([src/inference/yolo_inference_module.cpp])

    The worker takes frames from a bounded queue, asks the API state for a permit,
    runs the detector, and publishes a result under the API's mutex: the latest
    detections, the status board, an event, the sink of the SEI selectors, the alert
    queue and the annotated frame.  A frame passes through three steps, between
    which any other thread may call the API: taken from the queue, permitted,
    finished.  The detector and OpenCV are inputs of a step. *)

From S2P Require Import Prelude Strings Floats Json ConfigData BoundedQueue Preprocess YoloPostprocess Annotator.
From S2P Require Import AlertRepository AlertSnapshots AlertRules Diagnostics Events Health ApiState.

Module Inference.
Import Annotator.

Definition coco_class_names : list string :=
  ["person"; "bicycle"; "car"; "motorcycle"; "airplane"; "bus"; "train";
   "truck"; "boat"; "traffic light"; "fire hydrant"; "stop sign";
   "parking meter"; "bench"; "bird"; "cat"; "dog"; "horse"; "sheep";
   "cow"; "elephant"; "bear"; "zebra"; "giraffe"; "backpack"; "umbrella";
   "handbag"; "tie"; "suitcase"; "frisbee"; "skis"; "snowboard";
   "sports ball"; "kite"; "baseball bat"; "baseball glove"; "skateboard";
   "surfboard"; "tennis racket"; "bottle"; "wine glass"; "cup"; "fork";
   "knife"; "spoon"; "bowl"; "banana"; "apple"; "sandwich"; "orange";
   "broccoli"; "carrot"; "hot dog"; "pizza"; "donut"; "cake"; "chair";
   "couch"; "potted plant"; "bed"; "dining table"; "toilet"; "tv"; "laptop";
   "mouse"; "remote"; "keyboard"; "cell phone"; "microwave"; "oven";
   "toaster"; "sink"; "refrigerator"; "book"; "clock"; "vase"; "scissors";
   "teddy bear"; "hair drier"; "toothbrush"].

Definition class_name (class : Z) : string :=
  match (if 0 <=? class then coco_class_names !! Z.to_nat class else None) with
  | Some n => n
  | None => "class_" +:+ to_string class
  end.

(** [show9]: a float with nine significant digits. *)
Definition detection_json (show9 : float32 -> string) (d : Postprocess.Detection) : string :=
  foldr String.append ""
    [ js "{'class_id':"; to_string (Postprocess.class_id d); js ",'class_name':'"; class_name (Postprocess.class_id d);
      js "','confidence':"; show9 (Postprocess.confidence d); js ",'box':["; show9 (Postprocess.x1 d); ",";
      show9 (Postprocess.y1 d); ","; show9 (Postprocess.x2 d); ","; show9 (Postprocess.y2 d); "]}" ].

Fixpoint separated (items : list string) : string :=
  match items with
  | [] => ""
  | [item] => item
  | item :: rest => item +:+ "," +:+ separated rest
  end.

Definition detection_event_data (show9 : float32 -> string) (r : Postprocess.DetectionResult) (f : Frame) : string :=
  foldr String.append ""
    [ js "{'available':true,'frame_sequence':"; to_string (Postprocess.frame_sequence r);
      js ",'pts_ns':"; to_string (pts_ns f); js ",'frame_width':"; to_string (width f);
      js ",'frame_height':"; to_string (height f); js ",'detections':[";
      separated (detection_json show9 <$> Postprocess.detections r); "]}" ].

Definition to_dto (d : Postprocess.Detection) : Api.DetectionDto :=
  Api.mkDetection (Postprocess.class_id d) (class_name (Postprocess.class_id d)) (Postprocess.confidence d)
    (Postprocess.x1 d) (Postprocess.y1 d) (Postprocess.x2 d) (Postprocess.y2 d).

Record AlertWork := mkWork {
  detections : Postprocess.DetectionResult;
  snapshot : Frame;
  generation : Z;
}.

(** The objects the worker shares with other threads, and its own variables.  When
    there is an API state, the status board is the one bound to it; [status_] is
    the board otherwise.  [has_...]: whether the pointer is set.  [events],
    [sunk], [shown] and [log] are what was published, handed to the sink, pushed
    to the output queue and logged. *)
Record Worker := mkWorker {
  input_ : Queue.BoundedQueue Frame;
  output_ : option (Queue.BoundedQueue Frame);
  api_ : option Api.ApiState;
  has_status : bool;
  status_ : Status.RuntimeStatus;
  has_events : bool;
  has_sink : bool;
  has_alerts : bool;
  alert_queue_ : Queue.BoundedQueue AlertWork;
  annotation_ : AnnotationOptions;
  stopping_ : bool;
  previous : option Z;
  events : list string;
  sunk : list (Frame * list Api.DetectionDto);
  shown : list Frame;
  log : list (string * string);
}.

Definition set_board (api : option Api.ApiState) (status : Status.RuntimeStatus) (w : Worker) : Worker :=
  mkWorker (input_ w) (output_ w) api (has_status w) status (has_events w) (has_sink w) (has_alerts w) (alert_queue_ w)
    (annotation_ w) (stopping_ w) (previous w) (events w) (sunk w) (shown w) (log w).
Definition set_local (annotation : AnnotationOptions) (previous : option Z) (w : Worker) : Worker :=
  mkWorker (input_ w) (output_ w) (api_ w) (has_status w) (status_ w) (has_events w) (has_sink w) (has_alerts w)
    (alert_queue_ w) annotation (stopping_ w) previous (events w) (sunk w) (shown w) (log w).
Definition set_trace (events : list string) (sunk : list (Frame * list Api.DetectionDto)) (log : list (string * string))
    (w : Worker) : Worker :=
  mkWorker (input_ w) (output_ w) (api_ w) (has_status w) (status_ w) (has_events w) (has_sink w) (has_alerts w)
    (alert_queue_ w) (annotation_ w) (stopping_ w) (previous w) events sunk (shown w) log.
Definition set_queues (input : Queue.BoundedQueue Frame) (output : option (Queue.BoundedQueue Frame))
    (alerts : Queue.BoundedQueue AlertWork) (shown : list Frame) (w : Worker) : Worker :=
  mkWorker input output (api_ w) (has_status w) (status_ w) (has_events w) (has_sink w) (has_alerts w) alerts
    (annotation_ w) (stopping_ w) (previous w) (events w) (sunk w) shown (log w).
Definition set_stopping (b : bool) (w : Worker) : Worker :=
  mkWorker (input_ w) (output_ w) (api_ w) (has_status w) (status_ w) (has_events w) (has_sink w) (has_alerts w)
    (alert_queue_ w) (annotation_ w) b (previous w) (events w) (sunk w) (shown w) (log w).

(** [if (status_) status_->...]. *)
Definition update_status (u : Status.update) (w : Worker) : Worker :=
  if has_status w then
    match api_ w with
    | Some a => set_board (Some (Api.apply_call a (Api.Board u))) (status_ w) w
    | None => set_board None (Status.apply (status_ w) u) w
    end
  else w.

(** [if (output_) output_->push(...)]. *)
Definition push_output (f : Frame) (w : Worker) : Worker :=
  match output_ w with
  | Some q => set_queues (input_ w) (Some (Queue.push f q).2) (alert_queue_ w) (shown w ++ [f]) w
  | None => w
  end.

(** [if (events_) events_->publish(EventType::Detection, ...)]. *)
Definition publish (data : string) (w : Worker) : Worker :=
  if has_events w then set_trace (events w ++ [data]) (sunk w) (log w) w else w.
Definition log_error (module message : string) (w : Worker) : Worker :=
  set_trace (events w) (sunk w) (log w ++ [(module, message)]) w.

(** The permit for the next inference. *)
Definition take_permit (w : Worker) : Api.DetectorPermit :=
  match api_ w with Some a => Api.detector_permit a | None => Api.mkPermit true 0 end.

Definition invalidate (permit : Api.DetectorPermit) (w : Worker) : Worker :=
  let w :=
    match api_ w with
    | Some a =>
      match Api.invalidate_detections permit (fun was_available _ => was_available) a false with
      | (true, a, was_available) =>
        let w := update_status Status.ClearDetector (set_board (Some a) (status_ w) w) in
        if was_available then publish (js "{'available':false}") w else w
      | (false, _, _) => w
      end
    | None => update_status Status.ClearDetector w
    end in
  set_local (annotation_ w) None w.

(** What [detector_->run] gives: the detections with the three wall times, or the
    error it reported or threw. *)
Inductive detection :=
  | Detected (result : Postprocess.DetectionResult) (preprocess_ms inference_wall_ms postprocess_ms : float64)
  | Undetected (error : string).

Section Step.
Context (show9 : float32 -> string) (show2 : float32 -> string) (show1 : float64 -> string)
        (text_size : string -> float64 -> TextSize).

(** Under the API's mutex when there is an API state. *)
Definition commit (r : Postprocess.DetectionResult) (frame annotated : Frame) (permit : Api.DetectorPermit)
    (has_previous : bool) (now : Z) (w : Worker) : Worker :=
  let o := annotation_ w in
  let w := set_local o (Some now) w in
  let w := update_status (if has_previous then Status.UpdateDetector (fps o) (inference_ms o) now
                          else Status.UpdateInference (inference_ms o) now) w in
  let w := publish (detection_event_data show9 r frame) w in
  let w := if has_sink w
           then set_trace (events w) (sunk w ++ [(frame, to_dto <$> Postprocess.detections r)]) (log w) w else w in
  let w :=
    if has_alerts w then
      let before := Queue.dropped (Queue.stats (alert_queue_ w)) in
      let work := mkWork r (if bool_decide (output_ w = None) then frame else annotated) (Api.generation permit) in
      let q := (Queue.push work (alert_queue_ w)).2 in
      let w := set_queues (input_ w) (output_ w) q (shown w) w in
      if negb (Queue.dropped (Queue.stats q) =? before)
      then log_error "alerts" "alert persistence queue dropped its oldest frame" w else w
    else w in
  push_output annotated w.

(** The frame's metrics are computed before it is annotated. *)
Definition measure (now : Z) (a b c : float64) (w : Worker) : AnnotationOptions :=
  let o := annotation_ w in
  mkOptions (enabled o) (show_metrics o)
    (match previous w with
     | Some p => f64_div f64_one (Metrics.seconds_of (now - p))
     | None => f64_zero
     end) (f64_add (f64_add a b) c) (box_thickness o) (font_scale o).

(** The frame is finished: [draw] is what OpenCV would do with the annotation. *)
Definition finish (f : Frame) (permit : Api.DetectorPermit) (outcome : detection) (now : Z)
    (draw : list command -> throws (list Z)) (w : Worker) : Worker :=
  match outcome with
  | Undetected e => push_output f (log_error "detector" e (invalidate permit w))
  | Detected r a b c =>
    let has_previous := bool_decide (is_Some (previous w)) in
    let w := set_local (measure now a b c w) (Some now) w in
    let annotated :=
      match output_ w with
      | Some _ => annotate_frame show2 show1 text_size draw f r coco_class_names (annotation_ w)
      | None => inr (mkFrame 0 0 0 0 0 0 0 [])
      end in
    match annotated with
    | inl e => push_output f (log_error "annotation" e (invalidate permit w))
    | inr annotated =>
      match api_ w with
      | None => commit r f annotated permit has_previous now w
      | Some api =>
        match Api.commit_detections permit (Postprocess.frame_sequence r) (width f) (height f) (pts_ns f)
                (to_dto <$> Postprocess.detections r) (fun _ => tt) api tt with
        | (true, api, _) => commit r f annotated permit has_previous now (set_board (Some api) (status_ w) w)
        | (false, _, _) => push_output f w
        end
      end
    end
  end.
End Step.

(** *** The worker and the other threads *)

(** Where the worker is with its current frame.  [switches]: how often the
    detector had been switched when the permit was given. *)
Inductive position :=
  | Idle
  | Holding (f : Frame)
  | Permitted (f : Frame) (permit : Api.DetectorPermit) (switches : Z)
  | Ended (dropped : option Frame).

Definition in_hand (p : position) : list Frame :=
  match p with Holding f | Permitted f _ _ | Ended (Some f) => [f] | _ => [] end.

(** [taken]: the frames taken from the input, in order; [switched]: how often the
    detector was switched. *)
Record World := mkWorld {
  worker : Worker;
  position_ : position;
  taken : list Frame;
  switched : Z;
}.

Inductive action :=
  | Feeds (f : Frame)
  | Pops
  | Permits
  | Finishes (outcome : detection) (now : Z) (draw : list command -> throws (list Z))
  | Calls (c : Api.call)
  | Stops.

(** [stop()]. *)
Definition stop (w : Worker) : Worker :=
  let w := set_stopping true w in
  set_queues (Queue.shutdown (input_ w)) (output_ w) (Queue.shutdown (alert_queue_ w)) (shown w) w.

Section Run.
Context (show9 : float32 -> string) (show2 : float32 -> string) (show1 : float64 -> string)
        (text_size : string -> float64 -> TextSize).

Definition step (a : action) (x : World) : option World :=
  let w := worker x in
  let set_input q := set_queues q (output_ w) (alert_queue_ w) (shown w) w in
  match a, position_ x with
  | Feeds f, p => Some (mkWorld (set_input (Queue.push f (input_ w)).2) p (taken x) (switched x))
  | Stops, p => Some (mkWorld (stop w) p (taken x) (switched x))
  | Calls c, p =>
    a ← api_ w;
    Some (mkWorld (set_board (Some (Api.apply_call a c)) (status_ w) w) p (taken x)
            (if Api.switches c then switched x + 1 else switched x))
  | Pops, Idle =>
    if stopping_ w then Some (mkWorld w (Ended None) (taken x) (switched x))
    else
      '(front, q) ← Queue.pop (input_ w);
      match front with
      | None => Some (mkWorld (set_input q) (Ended None) (taken x) (switched x))
      | Some f => Some (mkWorld (set_input q) (Holding f) (taken x ++ [f]) (switched x))
      end
  | Permits, Holding f =>
    if stopping_ w then Some (mkWorld w (Ended (Some f)) (taken x) (switched x))
    else
      let permit := take_permit w in
      if negb (Api.enabled permit)
      then Some (mkWorld (push_output f (update_status Status.ClearDetector w)) Idle (taken x) (switched x))
      else Some (mkWorld w (Permitted f permit (switched x)) (taken x) (switched x))
  | Finishes outcome now draw, Permitted f permit _ =>
    Some (mkWorld (finish show9 show2 show1 text_size f permit outcome now draw w) Idle (taken x) (switched x))
  | _, _ => None
  end.

Fixpoint execute (actions : list action) (x : World) : option World :=
  match actions with
  | [] => Some x
  | a :: rest => x' ← step a x; execute rest x'
  end.
End Run.

(** The calls other threads make; only the worker commits and invalidates. *)
Definition foreign (a : action) : Prop :=
  match a with Calls (Api.Commit _ _ _ _ _ _) | Calls (Api.Invalidate _) => False | _ => True end.

(** *** Which part of the worker an operation touches *)

(** The frames shown, and whether there is an output queue. *)
Definition view (w : Worker) : list Frame * bool := (shown w, bool_decide (is_Some (output_ w))).
(** What tells the outside about a result, apart from the output queue. *)
Definition told (w : Worker) : list string * list (Frame * list Api.DetectionDto) * Queue.BoundedQueue AlertWork :=
  (events w, sunk w, alert_queue_ w).

Lemma view_status u w : view (update_status u w) = view w.
Proof. unfold update_status. by destruct (has_status w), (api_ w). Qed.
Lemma view_publish d w : view (publish d w) = view w.
Proof. unfold publish. by destruct (has_events w). Qed.
Lemma view_log m e w : view (log_error m e w) = view w.
Proof. done. Qed.
Lemma view_local o p w : view (set_local o p w) = view w.
Proof. done. Qed.
Lemma view_board a s w : view (set_board a s w) = view w.
Proof. done. Qed.
Lemma view_invalidate p w : view (invalidate p w) = view w.
Proof.
  unfold invalidate. destruct (api_ w) as [a|]; [|by rewrite view_local, view_status].
  destruct (Api.invalidate_detections _ _ _ _) as [[[] a'] was]; [|done]. rewrite view_local.
  destruct was; by rewrite ?view_publish, view_status.
Qed.

Lemma view_output f w : view (push_output f w) =
  (if bool_decide (is_Some (output_ w)) then shown w ++ [f] else shown w, bool_decide (is_Some (output_ w))).
Proof. unfold push_output, view. by destruct (output_ w) eqn:E; cbn; rewrite ?E. Qed.

Create Rewrite HintDb worker.
#[export] Hint Rewrite view_status view_publish view_log view_local view_board view_invalidate : worker.

(** The output after a frame was pushed behind changes that do not show. *)
Lemma view_pushed f w w' : view w' = view w -> view (push_output f w') =
  (if bool_decide (is_Some (output_ w)) then shown w ++ [f] else shown w, bool_decide (is_Some (output_ w))).
Proof. rewrite view_output. unfold view. intros [= -> ->]. done. Qed.

Lemma view_commit show9 r f g permit hp now w :
  view (commit show9 r f g permit hp now w) =
  (if bool_decide (is_Some (output_ w)) then shown w ++ [g] else shown w, bool_decide (is_Some (output_ w))).
Proof.
  unfold commit. apply view_pushed.
  match goal with |- view (if has_alerts ?w2 then _ else _) = _ => assert (H : view w2 = view w) end.
  { destruct (has_sink _); [change (view (set_trace _ _ _ ?x)) with (view x)|]; by autorewrite with worker. }
  destruct (has_alerts _); [|done]. destruct (negb _); exact H.
Qed.

(** A finished frame is shown exactly once, itself but for its pixels. *)
Lemma view_finish show9 show2 show1 text_size f permit outcome now draw w :
  exists g, g = with_pixels (bgr g) f /\
    view (finish show9 show2 show1 text_size f permit outcome now draw w) =
    (if bool_decide (is_Some (output_ w)) then shown w ++ [g] else shown w, bool_decide (is_Some (output_ w))).
Proof.
  assert (Hraw : f = with_pixels (bgr f) f) by (by destruct f).
  unfold finish. destruct outcome as [r a b c|e]; [|exists f; split; [done|apply view_pushed; by autorewrite with worker]].
  set (w1 := set_local _ _ w). change (output_ w1) with (output_ w). change (api_ w1) with (api_ w).
  assert (Hend : forall g w2, g = with_pixels (bgr g) f \/ output_ w = None -> view w2 = view w ->
    exists g', g' = with_pixels (bgr g') f /\ view (commit show9 r f g permit (bool_decide (is_Some (previous w))) now w2) =
      (if bool_decide (is_Some (output_ w)) then shown w ++ [g'] else shown w, bool_decide (is_Some (output_ w)))).
  { intros g w2 Hg Hv. rewrite view_commit. unfold view in Hv. injection Hv as -> ->.
    destruct Hg as [Hg|Hn]; [by exists g|]. exists f. by rewrite Hn. }
  destruct (output_ w) as [q|] eqn:Ho.
  - destruct (annotate_frame _ _ _ _ _ _ _ _) as [e|g] eqn:Ha.
    { exists f. split; [done|]. rewrite <- Ho. apply view_pushed. by autorewrite with worker. }
    apply annotate_keeps in Ha. destruct (api_ w) as [api|]; [|apply Hend; auto].
    destruct (Api.commit_detections _ _ _ _ _ _ _ _ _) as [[[] api'] []]; [apply Hend; auto|].
    exists f. split; [done|]. rewrite <- Ho. by apply view_pushed.
  - destruct (api_ w) as [api|]; [|apply Hend; auto].
    destruct (Api.commit_detections _ _ _ _ _ _ _ _ _) as [[[] api'] []]; [apply Hend; auto|].
    exists f. split; [done|]. rewrite <- Ho. by apply view_pushed.
Qed.

(** *** Frames are conserved *)

(** [s] is [t] with other pixels. *)
Definition redrawn (t s : Frame) : Prop := s = with_pixels (bgr s) t.

Definition begins (w : Worker) : World := mkWorld w Idle [] 0.

Definition conserved (x : World) : Prop :=
  is_Some (output_ (worker x)) /\ Forall2 redrawn (taken x) (shown (worker x) ++ in_hand (position_ x)).

Lemma redrawn_refl f : redrawn f f.
Proof. by destruct f. Qed.

Lemma conserved_view w w' p p' l n n' : view w' = view w -> in_hand p' = in_hand p ->
  conserved (mkWorld w p l n) -> conserved (mkWorld w' p' l n').
Proof.
  unfold conserved, view. cbn. intros Hv Hp [Ho H]. injection Hv as Hs Hb. rewrite Hs, Hp. split; [|exact H].
  rewrite (bool_decide_eq_true_2 (is_Some (output_ w)) Ho) in Hb. by apply bool_decide_eq_true_1 in Hb.
Qed.

(** A frame that was in hand is shown. *)
Lemma conserved_shown w w' p f g l n : in_hand p = [f] -> redrawn f g -> conserved (mkWorld w p l n) ->
  view w' = (if bool_decide (is_Some (output_ w)) then shown w ++ [g] else shown w, bool_decide (is_Some (output_ w))) ->
  conserved (mkWorld w' Idle l n).
Proof.
  unfold conserved, view. cbn. intros Hp Hg [Ho H] Hv. injection Hv as Hs Hb. rewrite (bool_decide_eq_true_2 (is_Some (output_ w)) Ho) in Hs, Hb.
  apply bool_decide_eq_true_1 in Hb. split; [exact Hb|]. rewrite Hp in H. rewrite Hs, app_nil_r.
  apply Forall2_app_inv_r in H as (l1 & l2 & H1 & H2 & ->). apply Forall2_app; [done|].
  apply Forall2_cons_inv_r in H2 as (t & l3 & Ht & H3 & ->). apply Forall2_nil_inv_r in H3 as ->.
  constructor; [|constructor]. unfold redrawn in *. rewrite Hg, Ht. done.
Qed.

Lemma conserved_step show9 show2 show1 text_size a x x' :
  conserved x -> step show9 show2 show1 text_size a x = Some x' -> conserved x'.
Proof.
  intros H Hs. destruct x as [w p l n]. unfold step in Hs. cbn [worker position_ taken switched] in Hs.
  destruct a as [f| | |outcome now draw|c|].
  - simplify_eq. by apply (conserved_view w _ p p l n).
  - destruct p as [|f|f permit k|d]; [|by destruct (stopping_ w)..]. destruct (stopping_ w); [by simplify_eq; apply (conserved_view w _ Idle _ l n)|].
    apply bind_Some in Hs as ([front q] & _ & Hs). destruct front as [f|]; simplify_eq.
    + destruct H as [Ho H]. split; [exact Ho|]. cbn in *. rewrite app_nil_r in H. apply Forall2_app; [done|].
      constructor; [apply redrawn_refl|constructor].
    + by apply (conserved_view w _ Idle _ l n).
  - destruct p as [|f|f permit k|d]; [by destruct (stopping_ w)| |by destruct (stopping_ w)..].
    destruct (stopping_ w); [by simplify_eq; apply (conserved_view w _ (Holding f) _ l n)|].
    destruct (negb _); simplify_eq; [|by apply (conserved_view w _ (Holding f) _ l n)].
    apply (conserved_shown w _ (Holding f) f f l n); [done|apply redrawn_refl|done|]. apply view_pushed. by autorewrite with worker.
  - destruct p as [|f|f permit k|d]; try done. simplify_eq.
    destruct (view_finish show9 show2 show1 text_size f permit outcome now draw w) as (g & Hg & Hv).
    by apply (conserved_shown w _ (Permitted f permit k) f g l n).
  - apply bind_Some in Hs as (a & _ & Hs). simplify_eq. by apply (conserved_view w _ p p l n).
  - simplify_eq. by apply (conserved_view w _ p p l n).
Qed.

Lemma conserved_execute show9 show2 show1 text_size actions x x' :
  conserved x -> execute show9 show2 show1 text_size actions x = Some x' -> conserved x'.
Proof.
  revert x. induction actions as [|a actions IH]; intros x H Hx; cbn [execute] in Hx; [by simplify_eq|].
  apply bind_Some in Hx as (x1 & Hs & Hx). eauto using conserved_step.
Qed.

(** C15.   The worker neither loses, repeats nor reorders frames: whatever the detector and OpenCV do
    and however the detector is switched meanwhile, the frames pushed to the output are, in order,
    exactly the frames taken from the input (each itself but for its pixels), except for the one in
    the worker's hands or dropped by [stop]. *)
Theorem inference_conserves_frames show9 show2 show1 text_size actions w x
    (Ho : is_Some (output_ w)) (Hn : shown w = [])
    (Hx : execute show9 show2 show1 text_size actions (begins w) = Some x) :
  Forall2 redrawn (taken x) (shown (worker x) ++ in_hand (position_ x)) /\ (length (in_hand (position_ x)) <= 1)%nat.
Proof.
  split; [|destruct (position_ x) as [| | |[]]; cbn; lia].
  apply (conserved_execute show9 show2 show1 text_size actions (begins w)); [|done].
  split; [done|]. cbn. rewrite Hn. constructor.
Qed.

(** *** Results are published only while their permit is current *)

(** The generation and the switch of the detector, which the worker never touches. *)
Definition permission (w : Worker) : option (Z * bool) :=
  (fun a => (Api.detector_generation_ a, Api.detector_enabled_ a)) <$> api_ w.

Lemma permission_status u w : permission (update_status u w) = permission w.
Proof. unfold update_status, permission. destruct (has_status w); [|done]. by destruct (api_ w) eqn:E; cbn; rewrite ?E. Qed.
Lemma permission_publish d w : permission (publish d w) = permission w.
Proof. unfold publish. by destruct (has_events w). Qed.
Lemma permission_output f w : permission (push_output f w) = permission w.
Proof. unfold push_output. by destruct (output_ w). Qed.
Lemma permission_log m e w : permission (log_error m e w) = permission w.
Proof. done. Qed.
Lemma permission_local o p w : permission (set_local o p w) = permission w.
Proof. done. Qed.

Lemma permission_invalidate p w : permission (invalidate p w) = permission w.
Proof.
  unfold invalidate. rewrite permission_local. destruct (api_ w) as [a|] eqn:E; [|by rewrite permission_status].
  unfold Api.invalidate_detections. destruct (Api.refused p a); [done|]. cbn -[update_status publish].
  assert (H : permission (set_board (Some (Api.set_latest Api.no_detections a)) (status_ w) w) = permission w)
    by (unfold permission; by rewrite E).
  destruct (Api.available _); by rewrite ?permission_publish, permission_status.
Qed.

Lemma permission_commit show9 r f g permit hp now w : permission (commit show9 r f g permit hp now w) = permission w.
Proof.
  unfold commit. rewrite permission_output.
  match goal with |- permission (if has_alerts ?w2 then _ else _) = _ => assert (H : permission w2 = permission w) end.
  { destruct (has_sink _); [change (permission (set_trace _ _ _ ?x)) with (permission x)|];
      by rewrite permission_publish, permission_status. }
  destruct (has_alerts _); [|done]. destruct (negb _); exact H.
Qed.

Lemma permission_finish show9 show2 show1 text_size f permit outcome now draw w :
  permission (finish show9 show2 show1 text_size f permit outcome now draw w) = permission w.
Proof.
  unfold finish. destruct outcome as [r a b c|e]; [|by rewrite permission_output, permission_log, permission_invalidate].
  set (w1 := set_local _ _ w). change (output_ w1) with (output_ w). change (api_ w1) with (api_ w).
  destruct (match output_ w with Some _ => _ | None => _ end) as [e|g];
    [by rewrite permission_output, permission_log, permission_invalidate|].
  destruct (api_ w) as [api|] eqn:E; [|by rewrite permission_commit]. unfold Api.commit_detections.
  destruct (Api.refused permit api); [by rewrite permission_output|]. rewrite permission_commit.
  unfold permission. cbn. by rewrite E.
Qed.

Lemma enabled_kept c a : Api.switches c = false -> Api.detector_enabled_ (Api.apply_call a c) = Api.detector_enabled_ a.
Proof.
  destruct c as [b|c|p n w h t ds|p|b|b|u|f]; cbn [Api.apply_call Api.switches]; intros H; try done.
  - unfold Api.bind_runtime_status. by destruct (Api.sync_fields (Api.set_status b a)) as (_ & -> & _).
  - unfold Api.commit_detections. by destruct (Api.refused p a).
  - unfold Api.invalidate_detections. by destruct (Api.refused p a).
  - destruct b; [|done]. unfold Api.set_detector_supported. cbn [negb].
    match goal with |- context [Api.synchronize_runtime_status ?x] =>
      by destruct (Api.sync_fields x) as (_ & -> & _) end.
Qed.

Definition permits (g0 : Z) (x : World) : Prop :=
  0 <= switched x /\
  exists enabled, permission (worker x) = Some (u64 (g0 + switched x), enabled) /\
    match position_ x with
    | Permitted _ permit k => Api.generation permit = u64 (g0 + k) /\ 0 <= k <= switched x /\ (k = switched x -> enabled = true)
    | _ => True
    end.

Lemma permits_step show9 show2 show1 text_size g0 a x x' :
  permits g0 x -> step show9 show2 show1 text_size a x = Some x' -> permits g0 x'.
Proof.
  intros (Hn & en & Hp & Hk) Hs. destruct x as [w p l n]. unfold step in Hs. cbn [worker position_ taken switched] in *.
  destruct a as [f| | |outcome now draw|c|].
  - simplify_eq. split; [done|]. by exists en.
  - destruct p as [|f|f permit k|d]; [|by destruct (stopping_ w)..].
    destruct (stopping_ w); [by simplify_eq; split; [|exists en]|].
    apply bind_Some in Hs as ([front q] & _ & Hs). by destruct front; simplify_eq; split; [done|exists en| done|exists en].
  - destruct p as [|f|f permit k|d]; [by destruct (stopping_ w)| |by destruct (stopping_ w)..].
    destruct (stopping_ w); [by simplify_eq; split; [|exists en]|].
    unfold permission in Hp. apply fmap_Some in Hp as (api & Hapi & [= Hg He]).
    destruct (negb _) eqn:Hen; simplify_eq.
    + split; [done|]. cbn [position_ worker switched]. eexists. rewrite permission_output, permission_status. unfold permission. rewrite Hapi. cbn. by rewrite Hg.
    + split; [done|]. cbn [position_ worker switched]. exists (Api.detector_enabled_ api). unfold permission. rewrite Hapi. cbn. rewrite Hg.
      split; [done|]. unfold take_permit in *. rewrite Hapi in *. cbn in *. split_and!; [done|done|lia|].
      intros _. by apply negb_false_iff in Hen.
  - destruct p as [|f|f permit k|d]; try done. simplify_eq. split; [done|]. cbn [position_ worker switched]. exists en.
    by rewrite permission_finish.
  - apply bind_Some in Hs as (api & Hapi & Hs). simplify_eq. unfold permission in Hp. rewrite Hapi in Hp. cbn in Hp. injection Hp as Hg He.
    pose proof (Api.generation_step api c) as Hgs. split; [cbn; destruct (Api.switches c); lia|].
    cbn [position_ worker switched]. unfold permission. cbn. exists (Api.detector_enabled_ (Api.apply_call api c)).
    rewrite Hgs, Hg. split; [destruct (Api.switches c); [by rewrite u64_add_l, Z.add_assoc|done]|].
    destruct p as [|f|f permit k|d]; try done. destruct Hk as (Hk1 & Hk2 & Hk3). split_and!; [done|lia|destruct (Api.switches c); lia|].
    destruct (Api.switches c) eqn:Esw; [lia|]. intros Hks. rewrite enabled_kept by done. rewrite He. auto.
  - simplify_eq. split; [done|]. by exists en.
Qed.

Lemma permits_execute show9 show2 show1 text_size g0 actions x x' :
  permits g0 x -> execute show9 show2 show1 text_size actions x = Some x' -> permits g0 x'.
Proof.
  revert x. induction actions as [|a actions IH]; intros x H Hx; cbn [execute] in Hx; [by simplify_eq|].
  apply bind_Some in Hx as (x1 & Hs & Hx). eauto using permits_step.
Qed.

(** A permit that a switch has overtaken: nothing gets out but the raw frame. *)
Lemma finish_refused show9 show2 show1 text_size f permit outcome now draw w a :
  api_ w = Some a -> Api.refused permit a = true ->
  let w' := finish show9 show2 show1 text_size f permit outcome now draw w in
  told w' = told w /\ api_ w' = api_ w.
Proof.
  intros Ha Hr. assert (Hout : forall g w2, told w2 = told w -> api_ w2 = api_ w ->
    told (push_output g w2) = told w /\ api_ (push_output g w2) = api_ w).
  { intros g w2 Ht Hb. unfold push_output. by destruct (output_ w2). }
  assert (Hinv : forall w2, told w2 = told w -> api_ w2 = api_ w ->
    told (invalidate permit w2) = told w /\ api_ (invalidate permit w2) = api_ w).
  { intros w2 Ht Hb. unfold invalidate, Api.invalidate_detections. rewrite Hb, Ha, Hr. cbn. by rewrite Hb. }
  unfold finish. destruct outcome as [r x y z|e]; [|destruct (Hinv w) as [? ?]; [done..|]; by apply Hout].
  set (w1 := set_local _ _ w). change (api_ w1) with (api_ w). destruct (match output_ w1 with Some _ => _ | None => _ end) as [e|g].
  { destruct (Hinv w1) as [? ?]; [done..|]. by apply Hout. }
  rewrite Ha. unfold Api.commit_detections. rewrite Hr. rewrite <- Ha. by apply Hout.
Qed.

(** Who listens, and what they were told so far. *)
Definition ears (w : Worker) :=
  (has_events w, has_sink w, has_alerts w, output_ w, alert_queue_ w, sunk w, events w, Api.latest_ <$> api_ w).

Lemma ears_status u w : ears (update_status u w) = ears w.
Proof. unfold update_status, ears. destruct (has_status w); [|done]. by destruct (api_ w) eqn:E; cbn; rewrite ?E. Qed.

(** What [commit] tells, to whom there is. *)
Lemma commit_tells show9 r f g permit hp now w :
  let w' := commit show9 r f g permit hp now w in
  events w' = events w ++ (if has_events w then [detection_event_data show9 r f] else []) /\
  sunk w' = sunk w ++ (if has_sink w then [(f, to_dto <$> Postprocess.detections r)] else []) /\
  alert_queue_ w' = (if has_alerts w
     then (Queue.push (mkWork r (if bool_decide (output_ w = None) then f else g) (Api.generation permit)) (alert_queue_ w)).2
     else alert_queue_ w) /\
  Api.latest_ <$> api_ w' = Api.latest_ <$> api_ w.
Proof.
  unfold commit. generalize (detection_event_data show9 r f) as data. generalize (to_dto <$> Postprocess.detections r) as dtos.
  intros dtos data. match goal with |- context [publish data (update_status ?u ?v)] => set (w0 := update_status u v) end.
  assert (E : ears w0 = ears w) by (unfold w0; by rewrite ears_status). clearbody w0.
  injection E as <- <- <- <- <- <- <- <-. unfold publish. destruct (has_events w0) eqn:H1.
  all: cbn [has_sink has_alerts set_trace]; destruct (has_sink w0) eqn:H2; cbn [has_alerts set_trace];
    destruct (has_alerts w0) eqn:H3.
  all: unfold push_output, log_error; cbn [output_ alert_queue_ set_trace set_queues].
  all: try destruct (negb _); cbn [output_ set_trace set_queues]; destruct (output_ w0) eqn:H4.
  all: cbn [events sunk alert_queue_ api_ set_trace set_queues]; rewrite ?app_nil_r; by split_and!.
Qed.

(** C16.   A result gets out only while its permit is current, and then completely: when the detector
    was switched between the permit and the end of the inference (fewer than 2^64 times), finishing
    the frame publishes no event, hands nothing to the sink, queues no alert and leaves the API
    state as it is; when it was not, a detection that could be drawn becomes the latest result, is
    published, handed to the sink and queued for the alerts, all of them. *)
Theorem result_published_iff_current show9 show2 show1 text_size actions w a0 x a f permit k outcome now draw
    (Ha0 : api_ w = Some a0) (Hg : is_u64 (Api.detector_generation_ a0))
    (Hx : execute show9 show2 show1 text_size actions (begins w) = Some x)
    (Hpos : position_ x = Permitted f permit k) (Ha : api_ (worker x) = Some a) (Hfew : switched x <= u64_max) :
  let w' := finish show9 show2 show1 text_size f permit outcome now draw (worker x) in
  (k <> switched x -> told w' = told (worker x) /\ api_ w' = api_ (worker x)) /\
  (k = switched x -> forall r t1 t2 t3 g, outcome = Detected r t1 t2 t3 ->
     (output_ (worker x) = None \/
      annotate_frame show2 show1 text_size draw f r coco_class_names (measure now t1 t2 t3 (worker x)) = inr g) ->
     Api.latest_ <$> api_ w' = Some (Api.mkLatest true (Postprocess.frame_sequence r) (pts_ns f) (width f) (height f)
                                       (to_dto <$> Postprocess.detections r)) /\
     events w' = events (worker x) ++ (if has_events (worker x) then [detection_event_data show9 r f] else []) /\
     sunk w' = sunk (worker x) ++ (if has_sink (worker x) then [(f, to_dto <$> Postprocess.detections r)] else []) /\
     (has_alerts (worker x) = true -> exists snapshot, redrawn f snapshot /\
        alert_queue_ w' = (Queue.push (mkWork r snapshot (Api.generation permit)) (alert_queue_ (worker x))).2)).
Proof.
  assert (H : permits (Api.detector_generation_ a0) x).
  { eapply permits_execute; [|exact Hx]. split; [done|]. exists (Api.detector_enabled_ a0). cbn.
    unfold permission. rewrite Ha0, Z.add_0_r, u64_small by done. done. }
  destruct H as (_ & en & Hp & Hk). rewrite Hpos in Hk. destruct Hk as (Hgen & Hle & Hen).
  unfold permission in Hp. rewrite Ha in Hp. injection Hp as Hga Hea.
  assert (Href : Api.refused permit a = negb (bool_decide (k = switched x)) || negb en).
  { unfold Api.refused. rewrite Hea, Hga, Hgen. case_bool_decide as Hks.
    - subst k. rewrite Z.eqb_refl. by destruct en.
    - destruct (Z.eqb_spec (u64 (Api.detector_generation_ a0 + k)) (u64 (Api.detector_generation_ a0 + switched x))) as [E|];
        [exfalso; zarith|by destruct en]. }
  split.
  - intros Hks. apply (finish_refused _ _ _ _ _ _ _ _ _ _ a); [done|]. rewrite Href, bool_decide_false by done. done.
  - intros Hks r t1 t2 t3 g -> Hdraw. assert (Hr : Api.refused permit a = false)
      by (rewrite Href, bool_decide_true by done; by rewrite Hen).
    unfold finish. set (w1 := set_local _ _ (worker x)). change (output_ w1) with (output_ (worker x)).
    change (api_ w1) with (api_ (worker x)). rewrite Ha. unfold Api.commit_detections. rewrite Hr.
    assert (Hg' : exists g', (match output_ (worker x) with
        | Some _ => annotate_frame show2 show1 text_size draw f r coco_class_names (annotation_ w1)
        | None => inr (mkFrame 0 0 0 0 0 0 0 [])
        end : throws Frame) = inr g' /\ redrawn f (if bool_decide (output_ (worker x) = None) then f else g')).
    { destruct (output_ (worker x)) as [q|] eqn:Ho; [|eexists; split; [done|apply redrawn_refl]].
      destruct Hdraw as [?|Hd]; [done|]. exists g. split; [exact Hd|]. rewrite bool_decide_false by done.
      by apply annotate_keeps in Hd. }
    destruct Hg' as (g' & -> & Hsnap). cbn zeta iota.
    match goal with |- context [commit show9 r f g' permit ?hp now ?w2] =>
      destruct (commit_tells show9 r f g' permit hp now w2) as (H1 & H2 & H3 & H4) end.
    split; [rewrite H4; done|]. split; [exact H1|]. split; [exact H2|]. intros Hal. eexists. split; [exact Hsnap|].
    rewrite H3. cbn [has_alerts set_board set_local w1 output_ alert_queue_]. by rewrite Hal.
Qed.

(** *** Examples *)

Definition sample_worker : Worker :=
  mkWorker (Queue.mkQueue 2 [] Queue.stats_zero false) (Some (Queue.mkQueue 2 [] Queue.stats_zero false))
    (Some (Api.make_api (Some Status.make_status) None)) true Status.make_status true true true
    (Queue.mkQueue 2 [] Queue.stats_zero false) default_options false None [] [] [] [].

Definition sample_result : detection :=
  Detected (Postprocess.mkDetectionResult 7 [sample_detection 0 2]) f64_one f64_one f64_one.
Definition sample_text (_ : string) (_ : float64) : TextSize := mkText 10 8 2.
#[local] Abbreviation run_sample := (execute (fun _ => "1") (fun _ => "1.00") (fun _ => "0.0") sample_text).

(** The detector is switched off and on while the first frame is inferred. *)
Definition switched_meanwhile : list action :=
  [Feeds sample_frame; Pops; Permits; Calls (Api.SetEnabled false); Calls (Api.SetEnabled true);
   Finishes sample_result 5 (fun _ => inr []); Feeds sample_frame; Pops; Permits].
Definition sample_state : World := default (begins sample_worker) (run_sample switched_meanwhile (begins sample_worker)).

Lemma sample_runs : run_sample switched_meanwhile (begins sample_worker) = Some sample_state.
Proof. vm_compute. reflexivity. Qed.

Lemma inference_conserves_frames_witness :
  length (taken sample_state) = 2%nat /\
  Forall2 redrawn (taken sample_state) (shown (worker sample_state) ++ in_hand (position_ sample_state)).
Proof.
  split; [by vm_compute|].
  apply (inference_conserves_frames (fun _ => "1") (fun _ => "1.00") (fun _ => "0.0") sample_text switched_meanwhile
    sample_worker sample_state ltac:(eexists; reflexivity) eq_refl sample_runs).
Defined.

Lemma result_published_iff_current_witness :
  events (worker sample_state) = [] /\
  exists w', length (events w') = 1%nat /\ length (sunk w') = 1%nat /\
    w' = finish (fun _ => "1") (fun _ => "1.00") (fun _ => "0.0") sample_text sample_frame (Api.mkPermit true 2)
           sample_result 6 (fun _ => inr []) (worker sample_state).
Proof.
  split; [by vm_compute|]. eexists. split; [|split; [|reflexivity]].
  all: destruct (result_published_iff_current (fun _ => "1") (fun _ => "1.00") (fun _ => "0.0") sample_text
         switched_meanwhile sample_worker (Api.make_api (Some Status.make_status) None) sample_state
         (default (Api.make_api None None) (api_ (worker sample_state))) sample_frame (Api.mkPermit true 2) 2
         sample_result 6 (fun _ => inr []) eq_refl ltac:(by vm_compute) sample_runs ltac:(by vm_compute)
         ltac:(by vm_compute) ltac:(by vm_compute)) as [_ H];
       destruct (H ltac:(by vm_compute) _ _ _ _ (with_pixels [] sample_frame) eq_refl ltac:(right; by vm_compute))
         as (_ & H1 & H2 & _).
  - rewrite H1. by vm_compute.
  - rewrite H2. by vm_compute.
Defined.
End Inference.

(** ** The module and its alert thread *)

Module Detector.
Import Annotator Inference.

(** [path.filename()]: what follows the last slash. *)
Definition filename (p : string) : string :=
  str (foldl (fun acc c => if bool_decide (c = "/"%char) then [] else acc ++ [c]) [] (chars p)).

Record YoloInferenceModule := mkModule {
  worker : Worker;
  alerts_ : Alerts.AlertManager;
  detector_ : bool;
  worker_joinable : bool;
  alert_joinable : bool;
}.

(** [configure]: what the alert manager's call does to the manager and the world
    of its snapshots, with the errors it reports. *)
Definition configure_alerts (c : Cfg.Config) (has_repository : bool) (m : Alerts.AlertManager) (s : Snapshots.World)
    : Alerts.AlertManager * Snapshots.World * list string :=
  let rules := Cfg.alerts c in
  let directory := Cfg.alert_directory (Cfg.storage c) in
  let version := filename (Cfg.engine (Cfg.detector c)) in
  if has_repository then Alerts.configure_repository rules directory version m s
  else (Alerts.configure rules directory version m, s, []).

(** [backend]: what the factory gives, a backend that loads the engine or not. *)
Definition initialize (c : Cfg.Config) (has_repository : bool) (backend : option (throws unit))
    (m : YoloInferenceModule) (s : Snapshots.World) : bool * YoloInferenceModule * Snapshots.World :=
  if detector_ m || worker_joinable m then (false, m, s)
  else
    let w := worker m in
    let w := set_queues (Queue.reset (input_ w)) (Queue.reset <$> output_ w) (Queue.reset (alert_queue_ w)) (shown w) w in
    let w := update_status Status.ClearDetector w in
    let o := annotation_ w in
    let w := set_local (mkOptions (Cfg.annotate (Cfg.detector c)) true (fps o) (inference_ms o) (box_thickness o)
                          (font_scale o)) (previous w) w in
    let '(alerts, s, _) := if has_alerts w then configure_alerts c has_repository (alerts_ m) s else (alerts_ m, s, []) in
    let fails e := (false, mkModule (log_error "detector" e w) alerts false (worker_joinable m) (alert_joinable m), s) in
    match backend with
    | None => fails "inference backend unavailable"
    | Some (inl e) => fails e
    | Some (inr _) => (true, mkModule w alerts true (worker_joinable m) (alert_joinable m), s)
    end.

(** The loop's own [previous] starts afresh. *)
Definition start (m : YoloInferenceModule) : bool * YoloInferenceModule :=
  if negb (detector_ m) || worker_joinable m then (false, m)
  else
    let w := set_stopping false (worker m) in
    (true, mkModule (set_local (annotation_ w) None w) (alerts_ m) true true (has_alerts w || alert_joinable m)).

Definition stop (m : YoloInferenceModule) : YoloInferenceModule :=
  mkModule (Inference.stop (worker m)) (alerts_ m) (detector_ m) (worker_joinable m) (alert_joinable m).

(** [wait], once both threads have ended. *)
Definition wait (m : YoloInferenceModule) : YoloInferenceModule :=
  let w := worker m in
  let w := set_queues (input_ w) (Queue.shutdown <$> output_ w) (alert_queue_ w) (shown w) w in
  mkModule (update_status Status.ClearDetector w) (alerts_ m) false false false.

(** *** The alert thread *)

(** The readings [process] makes for one frame. *)
Record Reading := mkReading {
  wall : Z;
  monotonic : Z;
  gps : option Gps.GpsFix;
  with_repository : bool;
  jpeg : nat -> Snapshots.encoding;
}.

Definition call_of (work : AlertWork) (r : Reading) : Alerts.Call :=
  let f := snapshot work in
  Alerts.mkCall (detections work) (width f) (height f) coco_class_names (generation work)
    (Some (Snapshots.mkSnapshotFrame (width f) (height f) (stride f) (Z.of_nat (length (bgr f)))))
    (wall r) (monotonic r) (gps r) (with_repository r) (jpeg r).

Definition persist (work : AlertWork) (r : Reading) (ms : Alerts.AlertManager * Snapshots.World)
    : Alerts.AlertManager * Snapshots.World :=
  let '(_, _, m, s) := Alerts.process (call_of work r) ms.1 ms.2 in (m, s).

(** [while (auto work = alert_queue_.pop())]; [None]: blocked, or out of fuel. *)
Fixpoint persist_alerts (fuel : nat) (readings : nat -> Reading) (n : nat) (q : Queue.BoundedQueue AlertWork)
    (ms : Alerts.AlertManager * Snapshots.World)
    : option (Queue.BoundedQueue AlertWork * (Alerts.AlertManager * Snapshots.World)) :=
  match fuel with
  | O => None
  | S fuel =>
    '(front, q) ← Queue.pop q;
    match front with
    | None => Some (q, ms)
    | Some work => persist_alerts fuel readings (S n) q (persist work (readings n) ms)
    end
  end.

(** Processing a list of frames, one reading each. *)
Fixpoint persist_list (readings : nat -> Reading) (n : nat) (works : list AlertWork)
    (ms : Alerts.AlertManager * Snapshots.World) : Alerts.AlertManager * Snapshots.World :=
  match works with
  | [] => ms
  | work :: rest => persist_list readings (S n) rest (persist work (readings n) ms)
  end.

Lemma persist_shutdown readings l : forall n q ms, Queue.queue_ q = l -> Queue.shutdown_ q = true ->
  exists q', persist_alerts (S (length l)) readings n q ms = Some (q', persist_list readings n l ms) /\ Queue.queue_ q' = [].
Proof.
  induction l as [|work l IH]; intros n q ms Hq Hs.
  - exists q. cbn. unfold Queue.pop, Queue.wait_ready, Queue.take_front. rewrite Hs, Hq. done.
  - cbn [persist_alerts length]. unfold Queue.pop, Queue.wait_ready, Queue.take_front. rewrite Hs, Hq. cbn [orb mbind option_bind].
    apply (IH (S n)); done.
Qed.

(** C34.   No queued alert is lost at shutdown: once [stop] has closed the alert queue, the alert
    thread ends, after it has processed every frame that was queued, in order; its loop runs once
    more than there are frames. *)
Theorem alerts_drained_at_stop readings n m ms :
  let works := Queue.queue_ (alert_queue_ (worker m)) in
  exists q', persist_alerts (S (length works)) readings n (alert_queue_ (worker (stop m))) ms =
      Some (q', persist_list readings n works ms) /\
    Queue.queue_ q' = [].
Proof. by apply persist_shutdown. Qed.

(** [initialize] succeeds exactly when the module is idle and a backend loaded the
    engine; then, and when it fails, no frame or alert of an earlier run is left. *)
Theorem initialize_spec c has_repository backend m s :
  let '(done_, m', _) := initialize c has_repository backend m s in
  (done_ = true <-> detector_ m = false /\ worker_joinable m = false /\ backend = Some (inr tt)) /\
  (detector_ m || worker_joinable m = false ->
     detector_ m' = done_ /\ Queue.queue_ (input_ (worker m')) = [] /\ Queue.queue_ (alert_queue_ (worker m')) = []).
Proof.
  unfold initialize. destruct (detector_ m || worker_joinable m) eqn:E.
  { split; [|done]. split; [done|]. intros (H1 & H2 & _). by rewrite H1, H2 in E. }
  apply orb_false_elim in E as [E1 E2].
  set (w := set_queues _ _ _ _ _). assert (Hq : forall u, Queue.queue_ (input_ (update_status u w)) = [] /\
    Queue.queue_ (alert_queue_ (update_status u w)) = []).
  { intros u. unfold update_status. by destruct (has_status w), (api_ w). }
  destruct (if has_alerts _ then _ else _) as [[alerts s'] errors].
  destruct backend as [[e|[]]|]; cbn -[update_status]; (split; [|intros _; split; [done|apply Hq]]); naive_solver.
Qed.
End Detector.
