(* ===== verification/Router.v ===== *)
(** * The HTTP API ([src/web/router.cpp], [include/skai/web/router.hpp])

    [route_request] with every handler it contains.  Boost.Beast is seen through
    the request and response fields the source reads and sets ([prepare_payload]
    only derives the length header from the body).  Printing a double in the
    classic locale with six and with seventeen significant digits is a parameter;
    so is the WebRTC manager, an interface with the three operations the router
    calls. *)

From S2P Require Import Prelude Strings Floats Json Paths BoundedQueue RtspRecovery ConfigData.
From S2P Require Import AlertRepository Recording Diagnostics Health ApiState.

(** ** Requests and responses *)

Module Http.

Inductive verb := Get | Head | Post | Delete | Other (name : string).

#[export] Instance verb_eq : EqDecision verb.
Proof. solve_decision. Defined.

Record Request := mkRequest {
  method : verb;
  target : string;
  version : Z;
  content_type : string;
  body : string;
}.

(** Header fields are kept by name; [set] replaces a field. *)
Record Response := mkResponse {
  result : Z;
  response_version : Z;
  fields : gmap string string;
  response_body : string;
}.

Definition set (field value : string) (r : Response) : Response :=
  mkResponse (result r) (response_version r) (<[field := value]> (fields r)) (response_body r).

Definition json_response (status version : Z) (body : string) : Response :=
  set "Cache-Control" "no-store" (set "Content-Type" "application/json" (mkResponse status version ∅ body)).
End Http.

(** The operations of the WebRTC manager that the router calls. *)
Record WebRtcOps (manager : Type) := mkOps {
  diagnostics : manager -> WebRtc.WebRtcDiagnostics;
  create_session : string -> manager -> WebRtc.CreateSessionResult * manager;
  close_session : string -> manager -> bool * manager;
}.
Arguments diagnostics {_}.
Arguments create_session {_}.
Arguments close_session {_}.

(** ** Bodies *)

Module Bodies.

Definition newline : string := str [chr 10].
Definition out (parts : list string) : string := foldr String.append "" parts.
Definition json_bool (b : bool) : string := if b then "true" else "false".

Fixpoint comma_separated (items : list string) : string :=
  match items with
  | [] => ""
  | [i] => i
  | i :: rest => i +:+ "," +:+ comma_separated rest
  end.

Definition or_null (value : option string) : string := default "null" value.

Definition component_json (h : Watchdog.HealthSnapshot) (c : Health.HealthComponent) : string :=
  let value := Watchdog.components h c in
  out [ json_string (Health.health_component_name c); js ":{'state':";
        json_string (Health.health_state_name (Health.state value));
        js ",'detail':"; json_string (Health.detail value); "}" ].

Definition health_json (h : Watchdog.HealthSnapshot) : string :=
  out [ js "{'state':"; json_string (Health.health_state_name (Watchdog.overall h)); js ",'components':{";
        comma_separated (component_json h <$> Health.all_health_components); "}}"; newline ].

Definition peer_json (p : WebRtc.WebRtcPeerDiagnostics) : string :=
  out [ js "{'session_id':"; json_string (WebRtc.peer_session_id p);
        js ",'peer_state':"; json_string (WebRtc.peer_state p);
        js ",'ice_state':"; json_string (WebRtc.ice_state p);
        js ",'local_candidate':"; json_string (WebRtc.local_candidate p);
        js ",'local_interface':"; json_string (WebRtc.local_interface p);
        js ",'selected_interface':"; json_string (WebRtc.selected_interface p);
        js ",'connection_age_s':"; to_string (WebRtc.connection_age_s p);
        js ",'bytes_sent':"; to_string (WebRtc.bytes_sent p);
        js ",'packets_sent':"; to_string (WebRtc.packets_sent p);
        js ",'packets_retransmitted':"; to_string (WebRtc.packets_retransmitted p);
        js ",'media_queue_drops':"; to_string (WebRtc.media_queue_drops p);
        js ",'keyframe_events':"; to_string (WebRtc.keyframe_events p);
        js ",'failure_stage':"; json_string (WebRtc.failure_stage p);
        js ",'close_reason':"; json_string (WebRtc.close_reason p);
        js ",'last_error':"; json_string (WebRtc.last_error p); "}" ].

Definition webrtc_diagnostics_json (d : WebRtc.WebRtcDiagnostics) : string :=
  out [ js "{'enabled':"; json_bool (WebRtc.enabled d);
        js ",'media_available':"; json_bool (WebRtc.media_available d);
        js ",'media_unavailable_reason':"; json_string (WebRtc.media_unavailable_reason d);
        js ",'keyframe_cached':"; json_bool (WebRtc.keyframe_cached d);
        js ",'lan_only':"; json_bool (WebRtc.lan_only d);
        js ",'max_peers':"; to_string (WebRtc.max_peers d);
        js ",'active_peers':"; to_string (Z.of_nat (length (WebRtc.peers d)));
        js ",'sessions_created':"; to_string (WebRtc.sessions_created d);
        js ",'sessions_closed':"; to_string (WebRtc.sessions_closed d);
        js ",'signaling_errors':"; to_string (WebRtc.signaling_errors d);
        js ",'media_errors':"; to_string (WebRtc.media_errors d);
        js ",'last_close_reason':"; json_string (WebRtc.last_close_reason d);
        js ",'peers':["; comma_separated (peer_json <$> WebRtc.peers d);
        js "],'recently_closed':["; comma_separated (peer_json <$> WebRtc.recently_closed d); "]}" ].

Section Numbers.
(** [output << value] for a double, with precision 6 and with
    [max_digits10] = 17; a float is promoted first. *)
Context (show6 show17 : float64 -> string).

Definition encoder_json (e : Status.Encoder) : string :=
  out [ js "{'frames_submitted':"; to_string (Status.frames_submitted e);
        js ",'frames_rejected':"; to_string (Status.frames_rejected e);
        js ",'frames_dropped':"; to_string (Status.frames_dropped e);
        js ",'appsrc_pressure_dropped':"; to_string (Status.appsrc_pressure_dropped e);
        js ",'access_units_encoded':"; to_string (Status.access_units_encoded e);
        js ",'bytes_encoded':"; to_string (Status.bytes_encoded e);
        js ",'access_units_dropped':"; to_string (Status.access_units_dropped e);
        js ",'last_access_unit_age_ms':"; to_string (Status.last_access_unit_age_ms e);
        js ",'last_error':"; json_string (Status.last_error e); "}" ].

Definition status_json (s : Status.RuntimeStatusSnapshot) (detector_enabled : bool)
    (webrtc : option WebRtc.WebRtcDiagnostics) : string :=
  out [ js "{'status':'"; Status.status s; js "','uptime_s':"; to_string (Status.uptime_s s);
        js ",'video':{'fps':"; or_null (show6 <$> Status.video_fps s);
        js "},'detector':{'enabled':"; json_bool detector_enabled;
        js ",'fps':"; or_null (show6 <$> Status.detector_fps s);
        js ",'last_inference_ms':"; or_null (show6 <$> Status.last_inference_ms s);
        js "},'encoder':"; or_null (encoder_json <$> Status.encoder s);
        js ",'webrtc':"; or_null (webrtc_diagnostics_json <$> webrtc); "}"; newline ].

Definition rtsp_json (r : Rtsp.RtspDiagnostics) : string :=
  out [ js "{'health':"; json_string (Rtsp.source_health_name (Rtsp.health r));
        js ",'codec':"; json_string (Rtsp.codec r);
        js ",'decoder':"; json_string (Rtsp.decoder r);
        js ",'transport':"; json_string (Rtsp.transport r);
        js ",'width':"; to_string (Rtsp.width r);
        js ",'height':"; to_string (Rtsp.height r);
        js ",'fps_in':"; show6 (Rtsp.fps_in r);
        js ",'frames_received':"; to_string (Rtsp.frames_received r);
        js ",'frames_dropped':"; to_string (Rtsp.frames_dropped r);
        js ",'frames_discarded':"; to_string (Rtsp.frames_discarded r);
        js ",'last_frame_age_ms':"; to_string (Rtsp.last_frame_age_ms r);
        js ",'reconnect_count':"; to_string (Rtsp.reconnect_count r);
        js ",'packets_lost':"; to_string (Rtsp.packets_lost r);
        js ",'packets_late':"; to_string (Rtsp.packets_late r);
        js ",'last_error':"; json_string (Rtsp.last_error r); "}" ].

Definition metrics_json (s : Status.RuntimeStatusSnapshot) (m : Metrics.MetricsSnapshot)
    (fix_ : option Gps.GpsFix) (webrtc : option WebRtc.WebRtcDiagnostics) : string :=
  let w := Metrics.whip m in
  out [ js "{'ingest_fps':"; or_null (show6 <$> Status.video_fps s);
        js ",'rtsp':"; or_null (rtsp_json <$> Metrics.rtsp m);
        js ",'inference_fps':"; or_null (show6 <$> Status.detector_fps s);
        js ",'inference_latency_ms':"; or_null (show6 <$> Status.last_inference_ms s);
        js ",'inference_queue':{'depth':"; to_string (Metrics.inference_queue_depth m);
        js ",'dropped':"; to_string (Queue.dropped (Metrics.inference_queue m));
        js ",'discarded':"; to_string (Queue.discarded (Metrics.inference_queue m));
        js "},'encoder_fps':"; or_null (show6 <$> Metrics.encoder_fps m);
        js ",'encoder_mode':";
        json_string (match Status.encoder s with Some _ => "encode" | None => "passthrough" end);
        js ",'encoded_media_queue':{'depth':"; to_string (Metrics.encoded_queue_depth m);
        js ",'dropped':"; to_string (Queue.dropped (Metrics.encoded_queue m));
        js ",'discarded':"; to_string (Queue.discarded (Metrics.encoded_queue m));
        js "},'whip':{'enabled':"; json_bool (Metrics.whip_enabled w);
        js ",'peer_state':"; json_string (Metrics.peer_state w);
        js ",'ice_state':"; json_string (Metrics.ice_state w);
        js ",'last_error':"; json_string (Metrics.whip_error w);
        js ",'access_units_sent':"; to_string (Metrics.access_units_sent w);
        js ",'media_queue_drops':"; to_string (Metrics.media_queue_drops w);
        js ",'media_queue_discarded':"; to_string (Metrics.media_queue_discarded w);
        js "},'websocket_clients':"; to_string (Metrics.websocket_clients m);
        js ",'webrtc':"; webrtc_diagnostics_json (default WebRtc.no_diagnostics webrtc);
        js ",'gps':";
        or_null ((fun f => out [ js "{'source':"; json_string (Gps.source f); js ",'age_s':null}" ]) <$> fix_);
        js ",'alert_count':"; or_null (to_string <$> Metrics.alert_count m);
        js ",'system':{'memory_rss_bytes':"; or_null (to_string <$> Metrics.memory_rss_bytes (Metrics.system m));
        js ",'cpu_percent':"; or_null (show6 <$> Metrics.cpu_percent (Metrics.system m));
        js ",'gpu_percent':"; or_null (show6 <$> Metrics.gpu_percent (Metrics.system m));
        js ",'disk_free_bytes':"; or_null (to_string <$> Metrics.disk_free_bytes (Metrics.system m));
        js "},'recent_errors':["; comma_separated (Metrics.recent_errors m); "]}"; newline ].

Definition config_json (c : Api.PublicConfigDto) (detector_enabled : bool) : string :=
  out [ js "{'video':{'transport':"; json_string (Api.video_transport c);
        js ",'latency_ms':"; to_string (Api.video_latency_ms c);
        js ",'stall_timeout_ms':"; to_string (Api.video_stall_timeout_ms c);
        js "},'detector':{'enabled':"; json_bool detector_enabled;
        js ",'confidence':"; show6 (Api.detector_confidence c);
        js ",'nms':"; show6 (Api.detector_nms c);
        js ",'annotate':"; json_bool (Api.detector_annotate c);
        js "},'web':{'bind':"; json_string (Api.web_bind c);
        js ",'port':"; to_string (Api.web_port c);
        js "},'recording':{'configured':"; json_bool (Api.recording_configured c);
        js ",'segment_seconds':"; to_string (Api.recording_segment_seconds c);
        js "},'gps':{'enabled':"; json_bool (Api.gps_enabled c);
        js ",'source':"; json_string (Api.gps_source c);
        js "},'webrtc':{'enabled':"; json_bool (Api.webrtc_enabled c);
        js ",'max_peers':"; to_string (Api.webrtc_max_peers c);
        js ",'connection_timeout_ms':"; to_string (Api.webrtc_connection_timeout_ms c);
        js ",'media_queue_capacity':"; to_string (Api.webrtc_media_queue_capacity c); "}}"; newline ].

Definition float_text (x : float32) : string := show6 (f64_of_f32 x).

Definition detection_json (d : Api.DetectionDto) : string :=
  out [ js "{'class_id':"; to_string (Api.class_id d); js ",'class_name':"; json_string (Api.class_name d);
        js ",'confidence':"; float_text (Api.confidence d);
        js ",'box':["; float_text (Api.x1 d); ","; float_text (Api.y1 d); ","; float_text (Api.x2 d); ",";
        float_text (Api.y2 d); "]}" ].

Definition detections_json (l : Api.LatestDetectionsDto) : string :=
  out [ js "{'available':"; json_bool (Api.available l);
        js ",'frame_sequence':"; to_string (Api.frame_sequence l); js ",'pts_ns':"; to_string (Api.pts_ns l);
        js ",'frame_width':"; to_string (Api.frame_width l); js ",'frame_height':"; to_string (Api.frame_height l);
        js ",'detections':["; comma_separated (detection_json <$> Api.detections l); "]}"; newline ].

Definition alert_gps_json (f : Gps.GpsFix) : string :=
  out [ js "{'valid':"; json_bool (Gps.valid f); js ",'source':"; json_string (Gps.source f);
        js ",'latitude':"; show17 (Gps.fix_latitude f); js ",'longitude':"; show17 (Gps.fix_longitude f);
        js ",'altitude_m':"; show17 (Gps.fix_altitude_m f); "}" ].

Definition alert_detection_json (d : Repository.AlertDetection) : string :=
  out [ js "{'class_id':"; to_string (Repository.class_id d);
        js ",'class_name':"; json_string (Repository.class_name d);
        js ",'confidence':"; show17 (Repository.confidence d);
        js ",'box':["; show17 (Repository.x1 d); ","; show17 (Repository.y1 d); ","; show17 (Repository.x2 d); ",";
        show17 (Repository.y2 d); "]}" ].

Definition alert_json (a : Repository.AlertEvent) : string :=
  out [ js "{'id':"; json_string (Repository.id a); js ",'timestamp_ms':"; to_string (Repository.timestamp_ms a);
        js ",'gps':"; or_null (alert_gps_json <$> Repository.gps a);
        js ",'snapshot_path':"; json_string (Repository.snapshot_path a);
        js ",'frame_sequence':"; to_string (Repository.frame_sequence a);
        js ",'model_version':"; or_null (json_string <$> Repository.model_version a);
        js ",'detections':["; comma_separated (alert_detection_json <$> Repository.detections a); "]}" ].

Definition alerts_json (l : list Repository.AlertEvent) : string :=
  out [ js "{'available':true,'items':["; comma_separated (alert_json <$> l); "]}"; newline ].

Definition gps_json (f : Gps.GpsFix) : string :=
  out [ js "{'available':true,'valid':"; json_bool (Gps.valid f); js ",'source':"; json_string (Gps.source f);
        js ",'latitude':"; show17 (Gps.fix_latitude f); js ",'longitude':"; show17 (Gps.fix_longitude f);
        js ",'altitude_m':"; show17 (Gps.fix_altitude_m f); js ",'hdop':"; show17 (Gps.hdop f);
        js ",'satellites_visible':"; to_string (Gps.satellites_visible f);
        js ",'satellites_used':"; to_string (Gps.satellites_used f); "}"; newline ].

Definition recordings_json (s : Control.RecordingStatus) : string :=
  out [ js "{'available':"; json_bool (Control.available s); js ",'state':"; json_string (Control.state s);
        js ",'active':"; json_bool (Control.active s);
        js ",'current_path':"; json_string (Control.current_path s);
        js ",'access_units_written':"; to_string (Control.access_units_written s);
        js ",'unavailable_reason':"; json_string (Control.unavailable_reason s);
        js ",'last_error':"; json_string (Control.last_error s); "}"; newline ].

Definition recording_json (s : Control.RecordingStatus) : string :=
  out [ js "{'state':"; json_string (Control.state s); js ",'active':"; json_bool (Control.active s);
        js ",'current_path':"; json_string (Control.current_path s);
        js ",'last_error':"; json_string (Control.last_error s); "}"; newline ].

Definition error_json (message : string) : string := out [ js "{'error':"; json_string message; "}"; newline ].
End Numbers.
End Bodies.

(** ** Query strings and paths *)

Module Query.

Definition percent : ascii := "%".

(** [decode_component]: two hexadecimal digits after each [%]. *)
Fixpoint decode_chars (l : list ascii) : option (list ascii) :=
  match l with
  | [] => Some []
  | c :: rest =>
    if negb (Ascii.eqb c percent) then (c ::.) <$> decode_chars rest
    else match rest with
         | h :: l :: rest' =>
           match hex_value h, hex_value l with
           | Some hi, Some lo => (chr (hi * 16 + lo) ::.) <$> decode_chars rest'
           | _, _ => None
           end
         | _ => None
         end
  end.

Definition decode_component (encoded : string) : option string := str <$> decode_chars (chars encoded).

(** The loop of [query_parameters]; every turn moves [position] forward. *)
Fixpoint query_loop (fuel : nat) (target : string) (position : option nat) (values : gmap string string)
    : option (gmap string string) :=
  match fuel, position with
  | S fuel, Some position =>
    if (position + 1 <? str_length target)%nat then
      let stop := find_char "&" target (position + 1) in
      match find_char "=" target (position + 1) with
      | None => Some values
      | Some equal =>
        if match stop with Some e => (e <? equal)%nat | None => false end then Some values
        else
          match decode_component (substr target (equal + 1)
                  (match stop with Some e => Some (e - equal - 1)%nat | None => None end)) with
          | None => None
          | Some value =>
            query_loop fuel target stop
              (<[substr target (position + 1) (Some (equal - position - 1)%nat) := value]> values)
          end
      end
    else Some values
  | _, _ => Some values
  end.

Definition query_parameters (target : string) : option (gmap string string) :=
  query_loop (S (str_length target)) target (find_char "?" target 0) ∅.

(** [std::from_chars] of the whole text for [std::size_t] and [std::int64_t]. *)
Definition parse_digits (l : list ascii) : option Z := match l with [] => None | _ => read_dec l 0 end.

Definition parse_size (text : string) : option Z :=
  match parse_digits (chars text) with
  | Some n => if n <=? u64_max then Some n else None
  | None => None
  end.

Definition parse_int64 (text : string) : option Z :=
  let signed := match chars text with
                | "-"%char :: rest => Z.opp <$> parse_digits rest
                | l => parse_digits l
                end in
  match signed with
  | Some n => if (-9223372036854775808 <=? n) && (n <=? 9223372036854775807) then Some n else None
  | None => None
  end.

Definition alerts_path : string := "/api/v1/alerts".
Definition alerts_prefix : string := "/api/v1/alerts/".
Definition session_prefix : string := "/api/v1/webrtc/sessions/".

(** A path that is [prefix] followed by one non-empty element. *)
Definition names_item (prefix path : string) : bool :=
  starts_with prefix path && (str_length prefix <? str_length path)%nat &&
  bool_decide (find_char Path.slash path (str_length prefix) = None).

Definition alert_route (path : string) : bool :=
  bool_decide (path = alerts_path) || names_item alerts_prefix path.
End Query.

(** ** Routing *)

Module Router.
Import Http Bodies Query.
#[local] Existing Instance Health.HealthState_eq.
#[local] Existing Instance WebRtc.CreateSessionError_eq.

Section Router.
Context {manager : Type} (ops : WebRtcOps manager) (show6 show17 : float64 -> string).

(** The objects behind the routes; a pointer that may be null is an option. *)
Record Backends := mkBackends {
  api : Api.ApiState;
  alerts : option Repository.Database;
  recording : option Control.RecordingController;
  webrtc : option manager;
}.

Definition set_api (a : Api.ApiState) (b : Backends) : Backends :=
  mkBackends a (alerts b) (recording b) (webrtc b).
Definition set_alerts (d : Repository.Database) (b : Backends) : Backends :=
  mkBackends (api b) (Some d) (recording b) (webrtc b).
Definition set_recording (r : Control.RecordingController) (b : Backends) : Backends :=
  mkBackends (api b) (alerts b) (Some r) (webrtc b).
Definition set_webrtc (m : manager) (b : Backends) : Backends :=
  mkBackends (api b) (alerts b) (recording b) (Some m).

Definition line (text : string) : string := js text +:+ newline.

Definition get_paths : list string :=
  ["/health"; "/api/v1/status"; "/api/v1/metrics"; "/api/v1/config"; "/api/v1/detections/latest"; "/api/v1/gps"].
Definition post_paths : list string :=
  ["/api/v1/recording/start"; "/api/v1/recording/stop"; "/api/v1/detector/enable"; "/api/v1/detector/disable";
   "/api/v1/webrtc/whep"].

Definition get_route (path : string) : bool :=
  bool_decide (path ∈ get_paths) || alert_route path || bool_decide (path = "/api/v1/recordings").
Definition post_route (path : string) : bool := bool_decide (path ∈ post_paths).
Definition delete_route (path : string) : bool := names_item session_prefix path.

Definition path_of (target : string) : string := substr target 0 (find_char "?" target 0).

Definition handle_health (version : Z) (health : option Watchdog.HealthSnapshot) : Response :=
  match health with
  | None => json_response 503 version
      (line "{'state':'FAILED','components':{},'detail':'health watchdog unavailable'}")
  | Some h =>
    json_response (if bool_decide (Watchdog.overall h = Health.Running) then 200 else 503) version (health_json h)
  end.

Definition create_status (e : WebRtc.CreateSessionError) : Z :=
  match e with
  | WebRtc.InvalidOffer => 400
  | WebRtc.Disabled => 503
  | WebRtc.Capacity => 429
  | WebRtc.GatheringTimeout => 504
  | _ => 500
  end.

Definition handle_whep (request : Request) (b : Backends) : Response * Backends :=
  let version := version request in
  match webrtc b with
  | None => (json_response 503 version (line "{'error':'WebRTC unavailable'}"), b)
  | Some m =>
    if negb (bool_decide (content_type request = "application/sdp")) then
      (json_response 415 version (line "{'error':'Content-Type must be application/sdp'}"), b)
    else
      let '(created, m) := create_session ops (body request) m in
      let b := set_webrtc m b in
      if negb (bool_decide (WebRtc.error created = WebRtc.None_)) then
        (json_response (create_status (WebRtc.error created)) version (error_json (WebRtc.message created)), b)
      else
        (set "Location" (session_prefix +:+ WebRtc.session_id created)
           (set "Cache-Control" "no-store" (set "Content-Type" "application/sdp"
             (mkResponse 201 version ∅ (WebRtc.answer_sdp created)))), b)
  end.

Definition handle_delete (version : Z) (path : string) (b : Backends) : Response * Backends :=
  match webrtc b with
  | None => (json_response 503 version (line "{'error':'WebRTC unavailable'}"), b)
  | Some m =>
    let '(closed, m) := close_session ops (substr path (str_length session_prefix) None) m in
    let b := set_webrtc m b in
    if closed then (mkResponse 204 version ∅ "", b)
    else (json_response 404 version (line "{'error':'session not found'}"), b)
  end.

(** What the calls to the repository leave in [error] and in the result. *)
Definition error_of {A} (r : throws A) : string := match r with inl e => e | inr _ => "" end.
Definition items_of {A} (r : throws (list A)) : list A := match r with inl _ => [] | inr l => l end.

Definition handle_alert (version : Z) (i : string) (d : Repository.Database) : Response * Repository.Database :=
  let '(found, d) := Repository.find_by_id i d in
  if negb (bool_decide (error_of found = "")) then (json_response 500 version (error_json (error_of found)), d)
  else match found with
       | inr (Some a) => (json_response 200 version (alert_json show17 a +:+ newline), d)
       | _ => (json_response 404 version (line "{'error':'alert not found'}"), d)
       end.

(** The filters of the alert list, or the message of the 400 response. *)
Inductive alert_query :=
  | TimeRange (from_ms to_ms limit : Z)
  | ByClass (class : string) (limit : Z)
  | Recent (limit : Z).

Definition alert_limit (parameters : gmap string string) : option Z :=
  match parameters !! "limit" with
  | None => Some 100
  | Some text =>
    match parse_size text with
    | Some limit => if (limit =? 0) || (1000 <? limit) then None else Some limit
    | None => None
    end
  end.

Definition read_query (parameters : gmap string string) : throws alert_query :=
  match alert_limit parameters with
  | None => throw "invalid limit"
  | Some limit =>
    match parameters !! "from", parameters !! "to", parameters !! "class" with
    | Some _, None, _ | None, Some _, _ | Some _, Some _, Some _ => throw "invalid alert filters"
    | Some from, Some to, None =>
      match parse_int64 from, parse_int64 to with
      | Some from_ms, Some to_ms => inr (TimeRange from_ms to_ms limit)
      | _, _ => throw "invalid time range"
      end
    | None, None, Some class => inr (ByClass class limit)
    | None, None, None => inr (Recent limit)
    end
  end.

Definition run_query (q : alert_query) (d : Repository.Database)
    : throws (list Repository.AlertEvent) * Repository.Database :=
  match q with
  | TimeRange from_ms to_ms limit => Repository.find_by_time_range from_ms to_ms limit d
  | ByClass class limit => Repository.find_by_class class limit d
  | Recent limit => Repository.find_recent limit d
  end.

Definition handle_alert_list (version : Z) (target : string) (d : Repository.Database)
    : Response * Repository.Database :=
  match query_parameters target with
  | None => (json_response 400 version (line "{'error':'invalid query encoding'}"), d)
  | Some parameters =>
    match read_query parameters with
    | inl message => (json_response 400 version (js "{'error':'" +:+ message +:+ line "'}"), d)
    | inr q =>
      let '(items, d) := run_query q d in
      if negb (bool_decide (error_of items = "")) then (json_response 500 version (error_json (error_of items)), d)
      else (json_response 200 version (alerts_json show17 (items_of items)), d)
    end
  end.

Definition handle_alerts (request : Request) (path : string) (b : Backends) : Response * Backends :=
  match alerts b with
  | None => (json_response 503 (version request) (line "{'available':false,'items':[]}"), b)
  | Some d =>
    let '(response, d) :=
      if negb (bool_decide (path = alerts_path)) then handle_alert (version request) (substr path 15 None) d
      else handle_alert_list (version request) (target request) d in
    (response, set_alerts d b)
  end.

(** [recording && recording->status().configured] *)
Definition configured_recording (b : Backends) : option Control.RecordingController :=
  match recording b with
  | Some r => if Control.configured (Control.status_ r) then Some r else None
  | None => None
  end.

Definition handle_recordings (version : Z) (b : Backends) : Response :=
  match configured_recording b with
  | Some r =>
    let s := Control.status_ r in
    json_response (if Control.available s then 200 else 503) version (recordings_json s)
  | None => json_response 503 version (line "{'available':false,'items':[]}")
  end.

Definition handle_detector (version : Z) (path : string) (b : Backends) : Response * Backends :=
  if negb (Api.detector_supported (api b)) then (json_response 503 version (line "{'available':false}"), b)
  else
    let enabled := bool_decide (path = "/api/v1/detector/enable") in
    (json_response 200 version (out [ js "{'enabled':"; json_bool enabled; "}"; newline ]),
     set_api (Api.set_detector_enabled enabled (api b)) b).

Definition handle_recording (version : Z) (path : string) (b : Backends) : Response * Backends :=
  match configured_recording b with
  | Some r =>
    let '(done, r) := if bool_decide (path = "/api/v1/recording/start") then Control.start r else Control.stop r in
    let b := set_recording r b in
    match done with
    | inr _ => (json_response 200 version (recording_json (Control.status_ r)), b)
    | inl e => (json_response 503 version (error_json e), b)
    end
  | None => (json_response 501 version (line "{'available':false,'error':'recording not implemented'}"), b)
  end.

Definition allow (path : string) : string :=
  if get_route path then "GET" else if delete_route path then "DELETE" else "POST".
Definition expected (path : string) : verb :=
  if get_route path then Get else if delete_route path then Delete else Post.

Definition route_request (request : Request) (status : Status.RuntimeStatusSnapshot) (b : Backends)
    (metrics : option Metrics.MetricsSnapshot) (health : option Watchdog.HealthSnapshot) : Response * Backends :=
  let path := path_of (target request) in
  let version := version request in
  let diagnostics := diagnostics ops <$> webrtc b in
  if negb (get_route path) && negb (post_route path) && negb (delete_route path) then
    (json_response 404 version (line "{'error':'not found'}"), b)
  else if negb (bool_decide (method request = expected path)) then
    (set "Allow" (allow path) (json_response 405 version (line "{'error':'method not allowed'}")), b)
  else if bool_decide (path = "/health") then (handle_health version health, b)
  else if bool_decide (path = "/api/v1/status") then
    (json_response 200 version (status_json show6 status (Api.detector_enabled (api b)) diagnostics), b)
  else if bool_decide (path = "/api/v1/metrics") then
    (json_response 200 version
       (metrics_json show6 status (default Metrics.default_metrics metrics) (Api.latest_gps (api b)) diagnostics), b)
  else if bool_decide (path = "/api/v1/config") then
    match Api.public_config (api b) with
    | None => (json_response 503 version (line "{'available':false}"), b)
    | Some c => (json_response 200 version (config_json show6 c (Api.detector_enabled (api b))), b)
    end
  else if bool_decide (path = "/api/v1/detections/latest") then
    (json_response 200 version (detections_json show6 (Api.latest_detections (api b))), b)
  else if bool_decide (path = "/api/v1/gps") then
    match Api.latest_gps (api b) with
    | None => (json_response 503 version (line "{'available':false}"), b)
    | Some f => (json_response 200 version (gps_json show17 f), b)
    end
  else if bool_decide (path = "/api/v1/webrtc/whep") then handle_whep request b
  else if delete_route path then handle_delete version path b
  else if alert_route path then handle_alerts request path b
  else if bool_decide (path = "/api/v1/recordings") then (handle_recordings version b, b)
  else if bool_decide (path = "/api/v1/detector/enable") || bool_decide (path = "/api/v1/detector/disable") then
    handle_detector version path b
  else handle_recording version path b.
End Router.
End Router.
