(* ===== verification/RouterFacts.v ===== *)
(** * Properties of the HTTP API

    Route classes and method discipline, read-only GET requests, the alert list's
    filters, the detector switch, and the round trip of query strings. *)

From S2P Require Import Prelude Strings Floats Json Paths ConfigData AlertRepository Recording.
From S2P Require Import Diagnostics Health ApiState Router.

Module RouterFacts.
Import Http Bodies Query Router.

(** ** Route classes *)

Lemma names_item_prefixes (p q path : string) :
  names_item p path = true -> names_item q path = true ->
  (str_length p <= str_length q)%nat -> take (str_length p) (chars q) = chars p.
Proof.
  unfold names_item. rewrite !andb_true_iff. intros [[Hp _] _] [[Hq _] _] Hl.
  unfold starts_with, str_length in *. rewrite bool_decide_eq_true in Hp, Hq.
  rewrite <- Hq, take_take. by rewrite Nat.min_l.
Qed.

Ltac concrete H := repeat (apply elem_of_cons in H as [->|H]); [..|by apply elem_of_nil in H].

Lemma post_excludes path : post_route path = true -> get_route path = false /\ delete_route path = false.
Proof.
  unfold post_route. rewrite bool_decide_eq_true. unfold post_paths. intros H.
  concrete H; by vm_compute.
Qed.

Lemma get_excludes path : get_route path = true -> post_route path = false /\ delete_route path = false.
Proof.
  intros H. split.
  { destruct (post_route path) eqn:E; [|done]. apply post_excludes in E as [E _]. congruence. }
  unfold get_route, alert_route in H. rewrite !orb_true_iff, !bool_decide_eq_true in H.
  destruct H as [[H|[->|H]]| ->]; [|done| |done].
  - unfold get_paths in H. concrete H; by vm_compute.
  - unfold delete_route. destruct (names_item session_prefix path) eqn:E; [|done]. exfalso.
    pose proof (names_item_prefixes _ _ _ H E ltac:(vm_compute; lia)) as Hx. vm_compute in Hx. discriminate.
Qed.

Section Facts.
Context {manager : Type} (ops : WebRtcOps manager) (show6 show17 : float64 -> string).
Abbreviation route := (route_request ops show6 show17).

(** What a database shows to its readers. *)
Definition contents (d : Repository.Database) : bool * Repository.Tables * string :=
  (Repository.connection_ d, Repository.tables d, Repository.operational_error_ d).

Definition unchanged (b b' : @Backends manager) : Prop :=
  api b' = api b /\ recording b' = recording b /\ webrtc b' = webrtc b /\
  (contents <$> alerts b') = (contents <$> alerts b).

Lemma next_fault_contents d : contents (Repository.next_fault d).2 = contents d.
Proof. unfold Repository.next_fault. by destruct (Repository.faults d). Qed.

Lemma read_faults_contents n d : contents (Repository.read_faults n d).2 = contents d.
Proof.
  revert d. induction n as [|n IH]; intros d; simpl; [done|]. pose proof (next_fault_contents d) as H.
  destruct (Repository.next_fault d) as [[e|] d1]; simpl in *; [done|]. by rewrite IH.
Qed.

(** Cases on the next answers of SQLite, keeping that the contents stay. *)
Ltac faults := repeat
  match goal with
  | |- context [Repository.next_fault ?d] =>
    let H := fresh "Hd" in pose proof (next_fault_contents d) as H;
    destruct (Repository.next_fault d) as [[?|] ?]; cbn [snd] in H
  | |- context [Repository.read_faults ?n ?d] =>
    let H := fresh "Hd" in pose proof (read_faults_contents n d) as H;
    destruct (Repository.read_faults n d) as [[?|] ?]; cbn [snd] in H
  end; cbn [snd]; try congruence.

Lemma query_alerts_contents select d : contents (Repository.query_alerts select d).2 = contents d.
Proof. unfold Repository.query_alerts. faults. Qed.

Lemma find_by_id_contents i d : contents (Repository.find_by_id i d).2 = contents d.
Proof.
  unfold Repository.find_by_id, Repository.when_open. destruct (Repository.connection_ d); [|done]. faults.
  all: case_match; cbn [snd]; congruence.
Qed.

Lemma run_query_contents q d : contents (run_query q d).2 = contents d.
Proof.
  destruct q; cbn [run_query];
    unfold Repository.find_by_time_range, Repository.find_by_class, Repository.find_recent, Repository.when_open;
    destruct (Repository.connection_ d); try done; try apply query_alerts_contents.
  case_match; [done|]. apply query_alerts_contents.
Qed.

Lemma handle_alerts_unchanged request path b : unchanged b (handle_alerts show17 request path b).2.
Proof.
  unfold handle_alerts, unchanged. destruct (alerts b) as [d|] eqn:E; [|cbn; by rewrite E].
  match goal with |- context [let '(_, _) := ?m in _] => assert (H : contents m.2 = contents d); [|destruct m as [r d']] end.
  { destruct (negb _).
    - unfold handle_alert. pose proof (find_by_id_contents (substr path 15 None) d) as H.
      destruct (Repository.find_by_id _ d) as [f d1]. cbn [snd] in H. destruct (negb _); [done|].
      by destruct f as [|[a|]].
    - unfold handle_alert_list. destruct (query_parameters _) as [ps|]; [|done].
      destruct (read_query ps) as [m|q]; [done|]. pose proof (run_query_contents q d) as H.
      destruct (run_query q d) as [items d1]. cbn [snd] in H. by destruct (negb _). }
  cbn in *. by rewrite H.
Qed.

Lemma unchanged_refl b : unchanged b b.
Proof. done. Qed.

(** A GET route that is none of the fixed paths and not an alert path is the list of recordings. *)
Lemma get_route_cases path : get_route path = true ->
  path ∈ get_paths \/ alert_route path = true \/ path = "/api/v1/recordings".
Proof. unfold get_route. rewrite !orb_true_iff, !bool_decide_eq_true. tauto. Qed.


(** Methods are enforced before anything else happens: the GET, POST and DELETE routes are disjoint;
    a path that is none of them is answered 404; a known path with another method is answered 405
    with the one allowed method; and in both cases the state is untouched. *)
Theorem dispatch_discipline request status b metrics health :
  let path := path_of (target request) in
  let known := get_route path || post_route path || delete_route path in
  let '(response, b') := route request status b metrics health in
  (known = false -> result response = 404 /\ b' = b) /\
  (known = true -> method request <> expected path ->
     result response = 405 /\ fields response !! "Allow" = Some (allow path) /\ b' = b) /\
  (get_route path && post_route path || get_route path && delete_route path || post_route path && delete_route path
     = false).
Proof.
  intros path known. destruct (route request status b metrics health) as [response b'] eqn:E.
  assert (Hk : negb (get_route path) && negb (post_route path) && negb (delete_route path) = negb known)
    by (unfold known; by rewrite !negb_orb).
  split_and!.
  - intros Hn. unfold route_request in E. fold path in E. rewrite Hk, Hn in E. by injection E as <- <-.
  - intros Hn Hm. unfold route_request in E. fold path in E. rewrite Hk, Hn in E. cbn [negb] in E.
    rewrite bool_decide_false in E by done. cbn [negb] in E. injection E as <- <-. split_and!; [done| |done].
    cbn. by rewrite lookup_insert.
  - pose proof (post_excludes path). pose proof (get_excludes path).
    destruct (get_route path), (post_route path), (delete_route path); naive_solver.
Qed.

(** Switching the detector over HTTP takes effect at once: a POST to [/api/v1/detector/enable] or
    [disable] that answers 200 leaves the detector in the requested state with no result to show,
    and every permit given out before is refused from then on. *)
Theorem detector_switch_final request status b metrics health (enable : bool) :
  method request = Post ->
  path_of (target request) = (if enable then "/api/v1/detector/enable" else "/api/v1/detector/disable") ->
  is_u64 (Api.detector_generation_ (api b)) ->
  let '(response, b') := route request status b metrics health in
  if Api.detector_supported (api b) then
    result response = 200 /\ Api.detector_enabled (api b') = enable /\
    Api.latest_detections (api b') = Api.no_detections /\
    Api.refused (Api.detector_permit (api b)) (api b') = true
  else result response = 503 /\ b' = b.
Proof.
  intros Hm Hp Hg.
  assert (E : route request status b metrics health =
    handle_detector (version request) (if enable then "/api/v1/detector/enable" else "/api/v1/detector/disable") b).
  { assert (Hc : forall path, path ∈ ["/api/v1/detector/enable"; "/api/v1/detector/disable"] ->
      get_route path = false /\ post_route path = true /\ delete_route path = false /\ alert_route path = false).
    { intros path Hin. concrete Hin; vm_compute; split_and!; reflexivity. }
    unfold route_request, expected. rewrite Hp, Hm.
    destruct enable; [specialize (Hc "/api/v1/detector/enable" ltac:(set_solver))
                     |specialize (Hc "/api/v1/detector/disable" ltac:(set_solver))];
      destruct Hc as (-> & -> & -> & ->); cbn [negb andb];
      repeat first [rewrite (bool_decide_true (Post = Post)) by done
                   |rewrite bool_decide_false by discriminate|rewrite bool_decide_true by done];
      reflexivity. }
  rewrite E. unfold handle_detector. destruct (Api.detector_supported (api b)) eqn:Es; cbn [negb]; [|done].
  replace (bool_decide _) with enable by by destruct enable.
  unfold Api.set_detector_enabled. match goal with |- context [Api.synchronize_runtime_status ?x] =>
    destruct (Api.sync_fields x) as (_ & E1 & _ & E2 & E3) end.
  unfold Api.detector_enabled, Api.latest_detections, Api.refused. cbn [api set_api] in *. rewrite E1, E2, E3. cbn.
  unfold Api.detector_supported in Es. rewrite Es, andb_true_r. split_and!; [done|done|done|].
  apply orb_true_iff. right. apply negb_true_iff, Z.eqb_neq. zarith.
Qed.
End Facts.

(** ** Alert lists *)

Lemma query_alerts_length select d items d' :
  Repository.query_alerts select d = (inr items, d') -> (length items <= length (select (Repository.tables d)))%nat.
Proof.
  unfold Repository.query_alerts. pose proof (next_fault_contents d) as H1.
  destruct (Repository.next_fault d) as [[?|] d1]; [done|]. pose proof (next_fault_contents d1) as H2.
  destruct (Repository.next_fault d1) as [[?|] d2]; [done|]. cbn [snd] in *.
  destruct (Repository.read_faults _ d2) as [[?|] d3]; [done|]. intros [= <- <-]. rewrite length_fmap.
  assert (Repository.tables d2 = Repository.tables d) as -> by (unfold contents in *; congruence). done.
Qed.

Lemma limit_rows_length limit rows : (length (Repository.limit_rows limit rows) <= Z.to_nat limit)%nat.
Proof.
  unfold Repository.limit_rows, Repository.bounded_limit. rewrite length_take.
  destruct (Z.ltb_spec int_max limit); lia.
Qed.

Lemma parse_size_range text n : parse_size text = Some n -> 0 <= n <= u64_max.
Proof.
  unfold parse_size, parse_digits. destruct (chars text) as [|c l]; [done|].
  destruct (read_dec (c :: l) 0) as [m|] eqn:E; [|done]. apply read_dec_nonneg in E; [|done].
  destruct (Z.leb_spec m u64_max); [|done]. intros [= <-]. done.
Qed.

Definition limit_of (q : alert_query) : Z :=
  match q with TimeRange _ _ l => l | ByClass _ l => l | Recent l => l end.

Lemma read_query_limit ps q : read_query ps = inr q -> 1 <= limit_of q <= 1000 /\ alert_limit ps = Some (limit_of q).
Proof.
  unfold read_query. destruct (alert_limit ps) as [l|] eqn:E; [|done]. intros H.
  assert (Hl : limit_of q = l).
  { by repeat (case_match; simplify_eq/=). }
  rewrite Hl. split; [|done]. unfold alert_limit in E. destruct (ps !! "limit"); [|simplify_eq; lia].
  destruct (parse_size s) as [n|] eqn:Ep; [|done].
  destruct ((n =? 0) || (1000 <? n)) eqn:Eb; [done|]. injection E as <-. bools.
  apply parse_size_range in Ep. lia.
Qed.

(** A list of alerts never exceeds what was asked for: whenever the filters of a request are
    accepted, the limit lies between 1 and 1000 (100 when absent), and a query that succeeds returns
    at most that many alerts. *)
Theorem alert_list_bounded ps q d items d' :
  read_query ps = inr q -> run_query q d = (inr items, d') ->
  1 <= limit_of q <= 1000 /\ (ps !! "limit" = None -> limit_of q = 100) /\ Z.of_nat (length items) <= limit_of q.
Proof.
  intros Hq Hr. destruct (read_query_limit ps q Hq) as [Hl Ha]. split; [done|]. split.
  { intros E. unfold alert_limit in Ha. rewrite E in Ha. congruence. }
  assert (Hle : (length items <= Z.to_nat (limit_of q))%nat); [|lia].
  destruct q as [f t l|c l|l]; cbn [run_query limit_of] in *;
    unfold Repository.find_by_time_range, Repository.find_by_class, Repository.find_recent, Repository.when_open in Hr;
    destruct (Repository.connection_ d); try done; try (destruct (t <? f); [done|]);
    (etrans; [exact (query_alerts_length _ _ _ _ Hr)|apply limit_rows_length]).
Qed.

(** ** Query strings *)

Definition unreserved (c : ascii) : bool :=
  let b := byte_of c in
  ((48 <=? b) && (b <=? 57)) || ((65 <=? b) && (b <=? 90)) || ((97 <=? b) && (b <=? 122)).

Definition encode_char (c : ascii) : list ascii :=
  if unreserved c then [c] else [percent; hex_digit (byte_of c / 16); hex_digit (byte_of c mod 16)].

Definition encode_component (value : string) : list ascii := chars value ≫= encode_char.

Fixpoint render_query (parameters : list (string * string)) : list ascii :=
  match parameters with
  | [] => []
  | [(k, v)] => chars k ++ "="%char :: encode_component v
  | (k, v) :: rest => chars k ++ "="%char :: encode_component v ++ "&"%char :: render_query rest
  end.

(** A key without the separators of a query string. *)
Definition plain_key (k : string) : Prop := "="%char ∉ chars k /\ "&"%char ∉ chars k.

Lemma nibbles (f : Z -> bool) : forallb f (seqZ 0 16) = true -> forall v, 0 <= v <= 15 -> f v = true.
Proof.
  rewrite forallb_forall. intros H v Hv. apply H, list_elem_of_In, elem_of_seqZ. lia.
Qed.

Lemma hex_value_digit v : 0 <= v <= 15 -> hex_value (hex_digit v) = Some v.
Proof.
  intros Hv. eapply bool_decide_unpack.
  refine (Is_true_true_2 _ (nibbles (fun v => bool_decide (hex_value (hex_digit v) = Some v)) eq_refl v Hv)).
Qed.

Lemma decode_encode_char c rest : decode_chars (encode_char c ++ rest) = (c ::.) <$> decode_chars rest.
Proof.
  pose proof (byte_of_range c) as Hb. unfold encode_char. destruct (unreserved c) eqn:E.
  - cbn [app decode_chars]. destruct (Ascii.eqb_spec c percent) as [->|]; [|done]. vm_compute in E. discriminate.
  - cbn [app decode_chars]. rewrite Ascii.eqb_refl. cbn [negb]. rewrite !hex_value_digit by zarith.
    replace (byte_of c / 16 * 16 + byte_of c mod 16) with (byte_of c) by zarith. by rewrite chr_byte_of.
Qed.

Lemma decode_encode value : decode_component (str (encode_component value)) = Some value.
Proof.
  unfold decode_component, encode_component. rewrite chars_str.
  assert (H : decode_chars (chars value ≫= encode_char) = Some (chars value)).
  { induction (chars value) as [|c l IH]; [done|]. cbn [mbind list_bind]. by rewrite decode_encode_char, IH. }
  rewrite H. cbn. by rewrite str_chars.
Qed.

Lemma encode_no_separator c value : unreserved c = false -> c <> percent -> c ∉ encode_component value.
Proof.
  intros Hu Hp. unfold encode_component. rewrite list_elem_of_bind. intros (d & Hin & _). unfold encode_char in Hin.
  assert (Hd : forall v, 0 <= v <= 15 -> unreserved (hex_digit v) = true).
  { apply nibbles. reflexivity. }
  pose proof (byte_of_range d). destruct (unreserved d) eqn:E.
  - apply list_elem_of_singleton in Hin as ->. congruence.
  - rewrite !elem_of_cons in Hin. destruct Hin as [->|[->|[->|Hin]]]; [done|..|by apply elem_of_nil in Hin];
      rewrite Hd in Hu; zarith || done.
Qed.

Definition parameter_map (parameters : list (string * string)) (values : gmap string string) : gmap string string :=
  foldl (fun m p => <[p.1 := p.2]> m) values parameters.

Lemma query_loop_one fuel target pre sep k v values : chars target = pre ++ sep :: chars k ++ "="%char :: encode_component v ->
  plain_key k -> query_loop (S (S fuel)) target (Some (length pre)) values = Some (<[k := v]> values).
Proof.
  intros E [Hk1 Hk2]. cbn [query_loop].
  assert (E1 : chars target = (pre ++ [sep]) ++ chars k ++ "="%char :: encode_component v)
    by by rewrite <- app_assoc.
  assert (E2 : chars target = (pre ++ [sep] ++ chars k ++ ["="%char]) ++ encode_component v)
    by (rewrite E; by rewrite <- !app_assoc).
  assert (L1 : length (pre ++ [sep]) = (length pre + 1)%nat) by by rewrite length_app.
  rewrite <- L1. rewrite (find_char_split _ _ _ _ _ E1 Hk1).
  rewrite (find_char_absent "&" target (pre ++ [sep]) _ E1).
  2: { rewrite elem_of_app, elem_of_cons. intros [?|[?|H]]; [done|done|].
       by apply (encode_no_separator "&" v) in H. }
  rewrite (proj2 (Nat.ltb_lt _ _)).
  2: { unfold str_length. rewrite E1, !length_app. simpl. lia. }
  replace (length (pre ++ [sep]) + length (chars k) + 1)%nat with (length (pre ++ [sep] ++ chars k ++ ["="%char]))
    by (rewrite !length_app; simpl; lia).
  rewrite (substr_rest _ _ _ E2), decode_encode.
  replace (length (pre ++ [sep]) + length (chars k) - length pre - 1)%nat with (length (chars k)) by (rewrite L1; lia).
  by rewrite (substr_split _ _ _ _ E1), str_chars.
Qed.

Lemma query_loop_next fuel target pre sep k v rest values :
  chars target = pre ++ sep :: chars k ++ "="%char :: encode_component v ++ "&"%char :: rest -> plain_key k ->
  exists pre', chars target = pre' ++ "&"%char :: rest /\
    query_loop (S fuel) target (Some (length pre)) values =
    query_loop fuel target (Some (length pre')) (<[k := v]> values).
Proof.
  intros E [Hk1 Hk2]. set (value := encode_component v) in *.
  assert (E1 : chars target = (pre ++ [sep]) ++ chars k ++ "="%char :: value ++ "&"%char :: rest)
    by by rewrite <- app_assoc.
  assert (E2 : chars target = (pre ++ [sep]) ++ (chars k ++ "="%char :: value) ++ "&"%char :: rest)
    by (rewrite E1; by rewrite <- !app_assoc).
  assert (E3 : chars target = (pre ++ [sep] ++ chars k ++ ["="%char]) ++ value ++ "&"%char :: rest)
    by (rewrite E; by rewrite <- !app_assoc).
  exists (pre ++ [sep] ++ chars k ++ "="%char :: value). split; [rewrite E; by rewrite <- !app_assoc|].
  cbn [query_loop]. assert (L1 : length (pre ++ [sep]) = (length pre + 1)%nat) by by rewrite length_app.
  rewrite <- L1. rewrite (find_char_split _ _ _ _ _ E1 Hk1).
  rewrite (find_char_split _ _ _ _ _ E2).
  2: { rewrite elem_of_app, elem_of_cons. intros [?|[?|H]]; [done|done|].
       by apply (encode_no_separator "&" v) in H. }
  rewrite (proj2 (Nat.ltb_lt _ _)).
  2: { unfold str_length. rewrite E1, !length_app. simpl. lia. }
  rewrite (proj2 (Nat.ltb_ge _ _)) by (rewrite !length_app; simpl; lia).
  replace (length (pre ++ [sep]) + length (chars k) + 1)%nat with (length (pre ++ [sep] ++ chars k ++ ["="%char]))
    by (rewrite !length_app; simpl; lia).
  match goal with |- context [Some (?n - _ - 1)%nat] =>
    replace (n - (length (pre ++ [sep]) + length (chars k)) - 1)%nat with (length value)
      by (rewrite !length_app; simpl; lia) end.
  rewrite (substr_split _ _ _ _ E3). unfold value at 1. rewrite decode_encode.
  replace (length (pre ++ [sep]) + length (chars k) - length pre - 1)%nat with (length (chars k)) by (rewrite L1; lia).
  rewrite (substr_split _ _ _ _ E1), str_chars. do 2 f_equal. rewrite !length_app. simpl. lia.
Qed.

Lemma query_loop_render ps fuel target pre sep values :
  chars target = pre ++ sep :: render_query ps -> Forall (fun p => plain_key p.1) ps ->
  (length ps < fuel)%nat ->
  query_loop fuel target (Some (length pre)) values = Some (parameter_map ps values).
Proof.
  revert fuel pre sep values. induction ps as [|[k v] ps IH]; intros fuel pre sep values E Hp Hf.
  { destruct fuel as [|fuel]; [simpl in Hf; lia|]. cbn [query_loop].
    rewrite (proj2 (Nat.ltb_ge _ _)); [done|]. unfold str_length. rewrite E, length_app. simpl. lia. }
  apply Forall_cons in Hp as [Hk Hp]. simpl in Hk. destruct ps as [|p ps].
  - destruct fuel as [|[|fuel]]; [simpl in Hf; lia..|]. by apply (query_loop_one fuel target pre sep k v values E).
  - destruct fuel as [|fuel]; [lia|].
    destruct (query_loop_next fuel target pre sep k v (render_query (p :: ps)) values E Hk) as (pre' & E' & ->).
    rewrite (IH fuel pre' "&"%char _ E' Hp); [done|]. simpl in *. lia.
Qed.

Lemma render_query_length ps : (length ps <= length (render_query ps))%nat.
Proof.
  induction ps as [|[k v] [|p ps] IH]; [done| |].
  - cbn [render_query]. rewrite length_app. simpl. lia.
  - change (render_query ((k, v) :: p :: ps)) with
      (chars k ++ "="%char :: encode_component v ++ "&"%char :: render_query (p :: ps)).
    rewrite length_app. cbn [length] in *. rewrite length_app. cbn [length] in *. lia.
Qed.

(** Query strings round-trip: whatever the values, percent-encoding them, joining them with [&] and
    appending them to any path makes [query_parameters] return exactly these parameters, the last
    one winning when a key repeats; the loop always terminates with an answer. *)
Theorem query_roundtrip path ps : "?"%char ∉ chars path -> Forall (fun p => plain_key p.1) ps ->
  query_parameters (path +:+ "?" +:+ str (render_query ps)) = Some (parameter_map ps ∅).
Proof.
  intros Hq Hp. unfold query_parameters. set (target := path +:+ "?" +:+ str (render_query ps)).
  assert (E : chars target = chars path ++ "?"%char :: render_query ps)
    by (unfold target; rewrite !chars_app, chars_str; done).
  pose proof (find_char_split "?" target [] (chars path) (render_query ps) E Hq) as Hf. cbn [length Nat.add] in Hf.
  rewrite Hf.
  rewrite (query_loop_render ps _ target (chars path) "?"%char ∅ E Hp); [done|].
  unfold str_length. rewrite E, length_app. simpl. pose proof (render_query_length ps). lia.
Qed.

(** ** Examples *)

(** A manager that refuses every session. *)
Definition closed_manager : WebRtcOps unit :=
  mkOps unit (fun _ => WebRtc.no_diagnostics)
    (fun _ m => (WebRtc.mkResult WebRtc.Disabled "" "" "WebRTC disabled", m)) (fun _ m => (false, m)).

Definition sample_backends : @Backends unit :=
  mkBackends (Api.make_api None None) (Some (Repository.mkDatabase true (Repository.mkTables [] []) "" []))
    (Some Control.make_controller) (Some tt).

Definition sample_status : Status.RuntimeStatusSnapshot := Status.snapshot 0 Status.make_status.

Definition show_nothing (_ : float64) : string := "0".


Lemma detector_switch_final_witness :
  let '(response, b') := route_request closed_manager show_nothing show_nothing
    (mkRequest Post "/api/v1/detector/disable" 11 "" "") sample_status sample_backends None None in
  result response = 200 /\ Api.detector_enabled (api b') = false.
Proof.
  pose proof (detector_switch_final closed_manager show_nothing show_nothing
    (mkRequest Post "/api/v1/detector/disable" 11 "" "") sample_status sample_backends None None false
    eq_refl eq_refl ltac:(vm_compute; split; discriminate)) as H.
  destruct (route_request _ _ _ _ _ _ _ _) as [r b']. destruct H as (? & ? & _). done.
Defined.

Lemma alert_list_bounded_witness :
  let q := Recent 5 in
  read_query {["limit" := "5"]} = inr q /\ Z.of_nat (length (@nil Repository.AlertEvent)) <= limit_of q.
Proof.
  split; [reflexivity|].
  eapply (alert_list_bounded {["limit" := "5"]} (Recent 5)
    (Repository.mkDatabase true (Repository.mkTables [] []) "" []) []); reflexivity.
Defined.

Lemma query_roundtrip_witness :
  query_parameters ("/api/v1/alerts" +:+ "?" +:+ str (render_query [("class", "a&b=%"); ("limit", "5")])) =
  Some (parameter_map [("class", "a&b=%"); ("limit", "5")] ∅).
Proof.
  apply query_roundtrip; [|repeat constructor]; cbn; rewrite ?not_elem_of_cons; split_and?; try done; apply not_elem_of_nil.
Defined.

Lemma dispatch_discipline_witness :
  let '(response, b') := route_request closed_manager show_nothing show_nothing
    (mkRequest Delete "/api/v1/status" 11 "" "") sample_status sample_backends None None in
  result response = 405 /\ fields response !! "Allow" = Some "GET" /\ b' = sample_backends.
Proof.
  pose proof (dispatch_discipline closed_manager show_nothing show_nothing
    (mkRequest Delete "/api/v1/status" 11 "" "") sample_status sample_backends None None) as H.
  destruct (route_request _ _ _ _ _ _ _ _) as [r b']. destruct H as (_ & H & _).
  apply H; [reflexivity|]. intros E. vm_compute in E. discriminate.
Defined.
End RouterFacts.
