(* ===== verification/StaticFiles.v ===== *)
(** * Static files ([src/web/static_file_handler.cpp])

    The handler loads a fixed list of assets when it is built and serves requests
    from memory.  The file system is a parameter: how a path is made canonical and
    what inspecting and reading a file gives; at a request only the former is used,
    and it may differ from what it was when the assets were loaded. *)

From S2P Require Import Prelude Strings Floats Json Paths Router RouterFacts.

Module StaticFiles.
Import Http Query RouterFacts.

(** [std::filesystem::path::begin] to [end]: the root directory, the names, and
    an empty element for a trailing separator. *)
Definition elements (p : string) : list string :=
  (if Path.is_absolute p then ["/"] else []) ++ Path.names p ++
  (if Path.ends_with_slash p && negb (bool_decide (Path.names p = [])) then [""] else []).

(** [p / q]: an absolute [q] replaces [p]. *)
Definition append (p q : string) : string := if Path.is_absolute q then q else Path.join p q.

Definition is_within (root candidate : string) : bool := Path.is_prefix (elements root) (elements candidate).

(** The last element, whose extension [content_type] looks at. *)
Definition extension_of (p : string) : string := Path.extension (default "" (last (elements p))).

Definition content_type (p : string) : string :=
  let extension := extension_of p in
  if bool_decide (extension = ".html") then "text/html; charset=utf-8"
  else if bool_decide (extension = ".js") then "text/javascript; charset=utf-8"
  else if bool_decide (extension = ".css") then "text/css; charset=utf-8"
  else if bool_decide (extension = ".json") then "application/json"
  else if bool_decide (extension = ".svg") then "image/svg+xml"
  else if bool_decide (extension = ".png") then "image/png"
  else if bool_decide (extension = ".jpg") || bool_decide (extension = ".jpeg") then "image/jpeg"
  else "application/octet-stream".

Definition text_response (status : Z) (message : string) : Response :=
  set "Content-Type" "text/plain; charset=utf-8" (mkResponse status 11 ∅ (message +:+ Bodies.newline)).

(** The characters of [decode_path] after the query was cut off. *)
Fixpoint decode_chars (l : list ascii) : option (list ascii) :=
  match l with
  | [] => Some []
  | c :: rest =>
    if negb (Ascii.eqb c percent) then (c ::.) <$> decode_chars rest
    else match rest with
         | h :: l :: rest' =>
           match hex_value h, hex_value l with
           | Some hi, Some lo =>
             let value := chr (hi * 16 + lo) in
             if Ascii.eqb value (chr 0) then None else (value ::.) <$> decode_chars rest'
           | _, _ => None
           end
         | _ => None
         end
  end.

Definition decode_path (target : string) : option string :=
  match decode_chars (chars (substr target 0 (find_char "?" target 0))) with
  | Some decoded => if bool_decide (head decoded = Some Path.slash) then Some (str decoded) else None
  | None => None
  end.

(** ** Loading *)

Record Asset := mkAsset {
  asset_body : string;
  asset_content_type : string;
}.

Record StaticFileHandler := mkHandler {
  root_ : string;
  assets_ : gmap string Asset;
  error_ : string;
}.

Definition maximum_asset_bytes : Z := 1024 * 1024.
Definition asset_names : list string :=
  ["index.html"; "app.js"; "style.css"; "diagnostics.html"; "diagnostics.js"; "diagnostics.css"].

(** What opening a file and reading [size] bytes gives. *)
Inductive read_result := NotOpened | ReadFailed | Got (bytes : string).

Section FileSystem.
(** [weakly_canonical], [is_directory] and [is_regular_file] without error,
    [file_size], and reading; [None] is an error. *)
Context (canonical : string -> option string) (is_directory is_regular : string -> bool)
  (file_size : string -> option Z) (read_file : string -> Z -> read_result).

(** One turn of the constructor's loop: the next state, or the error it returns with. *)
Definition load_asset (root name : string) (assets : gmap string Asset) : throws (gmap string Asset) :=
  match canonical (append root name) with
  | None => inr assets
  | Some candidate =>
    if negb (is_within root candidate) then inr assets
    else if negb (is_regular candidate) then inr assets
    else match file_size candidate with
         | None => throw ("cannot inspect static asset: " +:+ name)
         | Some size =>
           if maximum_asset_bytes <? size then throw ("static asset exceeds 1 MiB limit: " +:+ name)
           else match read_file candidate size with
                | Got bytes =>
                  inr (match assets !! candidate with
                       | Some _ => assets
                       | None => <[candidate := mkAsset bytes (content_type candidate)]> assets
                       end)
                | _ => throw ("cannot read static asset: " +:+ name)
                end
         end
  end.

Fixpoint load_assets (root : string) (names : list string) (assets : gmap string Asset) : gmap string Asset * string :=
  match names with
  | [] => (assets, "")
  | name :: rest =>
    match load_asset root name assets with
    | inl e => (assets, e)
    | inr assets => load_assets root rest assets
    end
  end.

Definition make_handler (root : string) : StaticFileHandler :=
  match canonical root with
  | Some root =>
    if is_directory root then
      let '(assets, error) := load_assets root asset_names ∅ in mkHandler root assets error
    else mkHandler root ∅ "web.root must be an accessible directory"
  | None => mkHandler "" ∅ "web.root must be an accessible directory"
  end.

Definition valid (h : StaticFileHandler) : bool := bool_decide (error_ h = "").
Definition error (h : StaticFileHandler) : string := error_ h.
End FileSystem.

(** ** Serving *)

Definition relative_path (decoded : string) : string :=
  if bool_decide (decoded = "/") then "index.html"
  else if bool_decide (decoded = "/diagnostics") then "diagnostics.html"
  else substr decoded 1 None.

Definition handle (canonical : string -> option string) (h : StaticFileHandler) (request : Request) : Response :=
  if negb (bool_decide (method request = Get)) && negb (bool_decide (method request = Head)) then
    set "Allow" "GET, HEAD" (text_response 405 "method not allowed")
  else
    match decode_path (target request) with
    | None => text_response 400 "invalid request target"
    | Some decoded =>
      match canonical (append (root_ h) (relative_path decoded)) with
      | None => text_response 404 "not found"
      | Some candidate =>
        if negb (is_within (root_ h) candidate) then text_response 403 "forbidden"
        else match assets_ h !! candidate with
             | None => text_response 404 "not found"
             | Some asset =>
               let response := set "Cache-Control" "no-cache" (set "Content-Type" (asset_content_type asset)
                                 (mkResponse 200 (version request) ∅ "")) in
               if bool_decide (method request = Head) then
                 set "Content-Length" (to_string (Z.of_nat (str_length (asset_body asset)))) response
               else mkResponse (result response) (response_version response) (fields response) (asset_body asset)
             end
      end
    end.

(** ** Lemmas *)

Lemma is_within_spec root candidate :
  is_within root candidate = true <-> elements root `prefix_of` elements candidate.
Proof. apply Path.is_prefix_spec. Qed.

Section Loaded.
Context (canonical : string -> option string) (is_directory is_regular : string -> bool)
  (file_size : string -> option Z) (read_file : string -> Z -> read_result).

(** An asset that was loaded from one of the listed names below [root]. *)
Definition from_disk (root path : string) (a : Asset) : Prop :=
  exists name size, name ∈ asset_names /\ canonical (append root name) = Some path /\
    elements root `prefix_of` elements path /\ is_regular path = true /\
    file_size path = Some size /\ size <= maximum_asset_bytes /\
    read_file path size = Got (asset_body a) /\ asset_content_type a = content_type path.

Lemma load_asset_from_disk root name assets assets' :
  name ∈ asset_names -> map_Forall (from_disk root) assets ->
  load_asset canonical is_regular file_size read_file root name assets = inr assets' ->
  map_Forall (from_disk root) assets'.
Proof.
  intros Hn Ha. unfold load_asset. destruct (canonical _) as [c|] eqn:Ec; [|by intros [= <-]].
  destruct (is_within root c) eqn:Ew; cbn [negb]; [|by intros [= <-]].
  destruct (is_regular c) eqn:Er; cbn [negb]; [|by intros [= <-]].
  destruct (file_size c) as [size|] eqn:Es; [|done].
  destruct (Z.ltb_spec maximum_asset_bytes size); [done|].
  destruct (read_file c size) as [| |bytes] eqn:Eb; [done|done|]. intros [= <-].
  destruct (assets !! c); [done|]. apply map_Forall_insert_2; [|done].
  exists name, size. apply is_within_spec in Ew. split_and!; auto.
Qed.

Lemma load_assets_from_disk root names assets :
  Forall (fun n => n ∈ asset_names) names -> map_Forall (from_disk root) assets ->
  map_Forall (from_disk root) (load_assets canonical is_regular file_size read_file root names assets).1.
Proof.
  intros Hn. revert assets. induction Hn as [|n names Hn Hns IH]; intros assets Ha; simpl; [done|].
  destruct (load_asset _ _ _ _ root n assets) as [e|assets'] eqn:E; [done|].
  apply IH. by eapply load_asset_from_disk.
Qed.

Lemma handler_from_disk root :
  map_Forall (from_disk (root_ (make_handler canonical is_directory is_regular file_size read_file root)))
    (assets_ (make_handler canonical is_directory is_regular file_size read_file root)).
Proof.
  unfold make_handler. destruct (canonical root) as [r|]; [|apply map_Forall_empty].
  destruct (is_directory r); [|apply map_Forall_empty].
  pose proof (load_assets_from_disk r asset_names ∅) as H.
  destruct (load_assets _ _ _ _ r asset_names ∅) as [assets e]. cbn in *.
  apply H; [|apply map_Forall_empty]. rewrite Forall_forall. done.
Qed.

(** Only listed assets are ever served: whatever the target and however paths resolve when the
    request comes, a response with status 200 carries the bytes and the content type of a regular
    file of at most 1 MiB that was loaded from one of the six asset names and lies below the web
    root; a HEAD request gets its length and no body. *)
Theorem served_assets_listed canonical_now root request :
  let h := make_handler canonical is_directory is_regular file_size read_file root in
  let response := handle canonical_now h request in
  result response = 200 ->
  exists path a, from_disk (root_ h) path a /\
    fields response !! "Content-Type" = Some (content_type path) /\
    response_body response = (if bool_decide (method request = Head) then "" else asset_body a) /\
    (method request = Head ->
       fields response !! "Content-Length" = Some (to_string (Z.of_nat (str_length (asset_body a))))).
Proof.
  intros h response. unfold response, handle. destruct (negb _ && _); [done|].
  destruct (decode_path _) as [decoded|]; [|done]. destruct (canonical_now _) as [c|]; [|done].
  destruct (negb (is_within _ c)); [done|]. destruct (assets_ h !! c) as [a|] eqn:E; [|done]. intros _.
  assert (Hd : from_disk (root_ h) c a) by (by apply (handler_from_disk root c a E)).
  exists c, a. split; [done|]. destruct Hd as (name & size & _ & _ & _ & _ & _ & _ & _ & Ht).
  rewrite <- Ht. case_bool_decide as Hh; cbn.
  - rewrite lookup_insert_ne by done. rewrite lookup_insert_ne by done. rewrite !lookup_insert. done.
  - rewrite lookup_insert_ne by done. rewrite lookup_insert. done.
Qed.
End Loaded.

(** Requests cannot leave the web root: when the path a GET or HEAD request names resolves to
    something that is not below the root, the answer is 403, whether it got there by dot segments,
    an absolute path or a link. *)
Theorem outside_root_forbidden canonical_now h request decoded candidate :
  method request = Get \/ method request = Head -> decode_path (target request) = Some decoded ->
  canonical_now (append (root_ h) (relative_path decoded)) = Some candidate ->
  ~ elements (root_ h) `prefix_of` elements candidate ->
  result (handle canonical_now h request) = 403.
Proof.
  intros Hm Hd Hc Hw. unfold handle.
  replace (negb (bool_decide (method request = Get)) && negb (bool_decide (method request = Head))) with false.
  2: { symmetry. destruct Hm as [-> | ->]; done. }
  rewrite Hd, Hc. destruct (is_within (root_ h) candidate) eqn:E; [|done]. by apply is_within_spec in E.
Qed.

(** ** Decoding *)

Lemma decode_path_encode_char c rest : c <> chr 0 -> decode_chars (encode_char c ++ rest) = (c ::.) <$> decode_chars rest.
Proof.
  intros Hc. pose proof (byte_of_range c) as Hb. unfold encode_char. destruct (unreserved c) eqn:E.
  - cbn [app decode_chars]. destruct (Ascii.eqb_spec c percent) as [->|]; [vm_compute in E; discriminate|done].
  - cbn [app decode_chars]. rewrite Ascii.eqb_refl. cbn [negb]. rewrite !hex_value_digit by zarith.
    replace (byte_of c / 16 * 16 + byte_of c mod 16) with (byte_of c) by zarith. rewrite chr_byte_of.
    by destruct (Ascii.eqb_spec c (chr 0)).
Qed.

Lemma decode_path_chars_encode l : chr 0 ∉ l -> decode_chars (l ≫= encode_char) = Some l.
Proof.
  induction l as [|c l IH]; intros H; [done|]. cbn [mbind list_bind].
  by rewrite decode_path_encode_char, IH by set_solver.
Qed.

Lemma encode_no_question value : "?"%char ∉ encode_component value.
Proof. by apply encode_no_separator. Qed.

(** Percent-encoding a path and appending any query string decodes to that path, for every path that
    starts with a slash and has no NUL byte. *)
Theorem decode_path_roundtrip path query :
  front path = Some Path.slash -> chr 0 ∉ chars path ->
  decode_path (str (encode_component path) +:+ "?" +:+ query) = Some path.
Proof.
  intros Hf Hn. unfold decode_path. set (t := str (encode_component path) +:+ "?" +:+ query).
  assert (E : chars t = [] ++ encode_component path ++ "?"%char :: chars query)
    by (unfold t; rewrite !chars_app, chars_str; done).
  pose proof (find_char_split "?" t [] _ _ E (encode_no_question path)) as Hq. cbn [length Nat.add] in Hq. rewrite Hq.
  pose proof (substr_split t [] _ _ E) as Hs. cbn [length] in Hs. rewrite Hs, chars_str.
  unfold encode_component. rewrite decode_path_chars_encode by done.
  unfold front in Hf. rewrite bool_decide_true by done. by rewrite str_chars.
Qed.

(** ** Examples *)

Definition sample_canonical (p : string) : option string :=
  if bool_decide (p = "/srv/web/../secret") then Some "/srv/secret" else Some p.

Definition sample_handler : StaticFileHandler :=
  make_handler sample_canonical (fun _ => true) (fun p => bool_decide (p = "/srv/web/index.html"))
    (fun _ => Some 2) (fun _ _ => Got "ok") "/srv/web".

Lemma served_assets_listed_witness :
  let response := handle sample_canonical sample_handler (mkRequest Get "/" 11 "" "") in
  exists path a, from_disk sample_canonical (fun p => bool_decide (p = "/srv/web/index.html"))
      (fun _ => Some 2) (fun _ _ => Got "ok") (root_ sample_handler) path a /\
    fields response !! "Content-Type" = Some (content_type path) /\ response_body response = asset_body a /\
    (Get = Head -> fields response !! "Content-Length" = Some (to_string (Z.of_nat (str_length (asset_body a))))).
Proof.
  apply (served_assets_listed sample_canonical (fun _ => true) (fun p => bool_decide (p = "/srv/web/index.html"))
    (fun _ => Some 2) (fun _ _ => Got "ok") sample_canonical "/srv/web" (mkRequest Get "/" 11 "" "")).
  vm_compute. reflexivity.
Defined.

Lemma outside_root_forbidden_witness :
  result (handle sample_canonical sample_handler (mkRequest Get "/../secret" 11 "" "")) = 403.
Proof.
  apply (outside_root_forbidden sample_canonical sample_handler (mkRequest Get "/../secret" 11 "" "") "/../secret" "/srv/secret");
    [by left|vm_compute; reflexivity|vm_compute; reflexivity|].
  intros H%is_within_spec. vm_compute in H. discriminate.
Defined.

Lemma decode_path_roundtrip_witness :
  decode_path (str (encode_component "/a b") +:+ "?" +:+ "x=1") = Some "/a b".
Proof. apply decode_path_roundtrip; [reflexivity|]. cbn. rewrite !not_elem_of_cons. split_and!; try done. apply not_elem_of_nil. Defined.
End StaticFiles.
