(* ===== verification/WebSocket.v ===== *)
(** * WebSocket clients ([src/web/websocket_session.cpp], [src/web/websocket_session.hpp])

    One client of the event stream.  The session runs on the event loop; other
    threads only reach its inbox.  Boost.Asio is seen through the handlers it
    calls: [Socket] has the handlers, [Client] adds which operations are under
    way (an operation that was started calls its handler once), so that a list of
    actions is any order in which the loop may run them. *)

From S2P Require Import Prelude Strings Floats Json ConfigData Diagnostics Events Health ApiState Router.

Module Socket.
Import Channel Inbox.

(** [subscription_id_] is 0 when there is no subscription. *)
Record WebSocketSession := mkSession {
  outgoing_ : EventQueue;
  incoming_ : EventInbox;
  writing_ : string;
  subscription_id_ : Z;
  closed_ : bool;
  stopping_ : bool;
  closing_ : bool;
}.

Definition make_session : WebSocketSession :=
  mkSession (mkEventQueue 32 0 []) (mkInbox (mkEventQueue 32 0 []) false) "" 0 false false false.

(** What a handler starts or calls besides changing the session. *)
Inductive effect :=
  | Write (message : string)
  | Read
  | Timer
  | CancelTimer
  | CloseStream
  | PostDrain
  | Register
  | Unregister
  | Unsubscribe (id : Z)
  | CloseSocket.

Definition with_out (q : EventQueue) (writing : string) (s : WebSocketSession) : WebSocketSession :=
  mkSession q (incoming_ s) writing (subscription_id_ s) (closed_ s) (stopping_ s) (closing_ s).
Definition with_in (i : EventInbox) (s : WebSocketSession) : WebSocketSession :=
  mkSession (outgoing_ s) i (writing_ s) (subscription_id_ s) (closed_ s) (stopping_ s) (closing_ s).
Definition with_state (id : Z) (closed stopping closing : bool) (s : WebSocketSession) : WebSocketSession :=
  mkSession (outgoing_ s) (incoming_ s) (writing_ s) id closed stopping closing.

(** [if (subscription_id_) events_->unsubscribe(...)]. *)
Definition drop_subscription (s : WebSocketSession) : list effect :=
  if subscription_id_ s =? 0 then [] else [Unsubscribe (subscription_id_ s)].

Definition write_next (s : WebSocketSession) : list effect * WebSocketSession :=
  match queue_pop (outgoing_ s) with
  | (None, _) => ([], s)
  | (Some next, q) => ([Write next], with_out q next s)
  end.

Definition enqueue (event : string) (s : WebSocketSession) : list effect * WebSocketSession :=
  if closed_ s || stopping_ s then ([], s)
  else
    let idle := bool_decide (writing_ s = "") in
    let s := with_out (queue_push event (outgoing_ s)) (writing_ s) s in
    if idle then write_next s else ([], s).

Fixpoint enqueue_all (events : list string) (s : WebSocketSession) : list effect * WebSocketSession :=
  match events with
  | [] => ([], s)
  | e :: rest => let '(a, s) := enqueue e s in let '(b, s) := enqueue_all rest s in (a ++ b, s)
  end.

Definition drain_incoming (s : WebSocketSession) : list effect * WebSocketSession :=
  let '(events, i) := drain (incoming_ s) in enqueue_all events (with_in i s).

Definition begin_close (s : WebSocketSession) : list effect * WebSocketSession :=
  if closed_ s || closing_ s then ([], s)
  else ([CloseStream], with_state (subscription_id_ s) (closed_ s) (stopping_ s) true s).

Definition cleanup (s : WebSocketSession) : list effect * WebSocketSession :=
  if closed_ s then ([], s)
  else ([Unregister; CancelTimer] ++ drop_subscription s ++ [CloseSocket],
        with_state 0 true (stopping_ s) (closing_ s) s).

Definition stop (s : WebSocketSession) : list effect * WebSocketSession :=
  if closed_ s || stopping_ s then ([], s)
  else
    let s' := with_state 0 (closed_ s) true (closing_ s) s in
    let '(b, s') := if bool_decide (writing_ s = "") then begin_close s' else ([], s') in
    ([CancelTimer] ++ drop_subscription s ++ b, s').

(** [id]: the subscription the channel hands out; [status] and [gps] are the two
    events every client starts with. *)
Definition on_accept (error : bool) (id : Z) (status gps : string) (s : WebSocketSession) : list effect * WebSocketSession :=
  if error then cleanup s
  else
    let s := with_state id (closed_ s) (stopping_ s) (closing_ s) s in
    let '(a, s) := enqueue status s in
    let '(b, s) := enqueue gps s in
    ([Register] ++ a ++ b ++ [Timer; Read], s).

(** The subscriber: called by the publishing thread. *)
Definition on_event (event : string) (s : WebSocketSession) : list effect * WebSocketSession :=
  let '(schedule, i) := push event (incoming_ s) in (if schedule then [PostDrain] else [], with_in i s).

Definition on_write (error : bool) (s : WebSocketSession) : list effect * WebSocketSession :=
  if error then cleanup s
  else
    let s := with_out (outgoing_ s) "" s in
    if stopping_ s then begin_close s else write_next s.

Definition on_read (error : bool) (s : WebSocketSession) : list effect * WebSocketSession :=
  if error then cleanup s else ([Read], s).

Definition on_timer (error : bool) (status : string) (s : WebSocketSession) : list effect * WebSocketSession :=
  if error || closed_ s then ([], s)
  else let '(a, s) := enqueue status s in (a ++ [Timer], s).

(** *** The two events of a new client *)

Section Data.
Context (show6 show17 : float64 -> string).

Definition encoder_data (e : Status.Encoder) : string :=
  Bodies.out [ js "{'frames_submitted':"; to_string (Status.frames_submitted e);
    js ",'frames_dropped':"; to_string (Status.frames_dropped e);
    js ",'access_units_encoded':"; to_string (Status.access_units_encoded e);
    js ",'access_units_dropped':"; to_string (Status.access_units_dropped e);
    js ",'last_access_unit_age_ms':"; to_string (Status.last_access_unit_age_ms e); "}" ].

Definition status_data (s : Status.RuntimeStatusSnapshot) (detector_enabled : bool)
    (webrtc : option WebRtc.WebRtcDiagnostics) : string :=
  Bodies.out [ js "{'status':'"; Status.status s; js "','uptime_s':"; to_string (Status.uptime_s s);
    js ",'video_fps':"; Bodies.or_null (show6 <$> Status.video_fps s);
    js ",'detector_enabled':"; Bodies.json_bool detector_enabled;
    js ",'detector_fps':"; Bodies.or_null (show6 <$> Status.detector_fps s);
    js ",'last_inference_ms':"; Bodies.or_null (show6 <$> Status.last_inference_ms s);
    js ",'encoder':"; Bodies.or_null (encoder_data <$> Status.encoder s);
    js ",'webrtc':"; Bodies.or_null (Bodies.webrtc_diagnostics_json <$> webrtc); "}" ].

Definition gps_data (fix_ : option Gps.GpsFix) : string :=
  match fix_ with
  | None => js "{'available':false}"
  | Some f =>
    Bodies.out [ js "{'available':true,'valid':"; Bodies.json_bool (Gps.valid f); js ",'source':'";
      Gps.source f; js "','latitude':"; show17 (Gps.fix_latitude f);
      js ",'longitude':"; show17 (Gps.fix_longitude f);
      js ",'altitude_m':"; show17 (Gps.fix_altitude_m f); js ",'hdop':"; show17 (Gps.hdop f);
      js ",'satellites_visible':"; to_string (Gps.satellites_visible f);
      js ",'satellites_used':"; to_string (Gps.satellites_used f); "}" ]
  end.
End Data.
End Socket.

(** ** A client under any order of handlers *)

Module Client.
Import Channel Inbox Socket.

(** The operations under way, whether the server knows the session, and two
    histories: the messages entered for sending while the session was open, and
    the messages whose writing was started. *)
Record Client := mkClient {
  session : WebSocketSession;
  accepting : bool;
  writes : nat;
  reads : nat;
  timers : nat;
  closes : nat;
  drains : nat;
  registered : bool;
  entered : list string;
  wire : list string;
}.

Definition connecting : Client := mkClient make_session true 0 0 0 0 0 false [] [].

Definition start (c : Client) (e : effect) : Client :=
  let keep writes reads timers closes drains registered wire :=
    mkClient (session c) (accepting c) writes reads timers closes drains registered (entered c) wire in
  match e with
  | Write m => keep (S (writes c)) (reads c) (timers c) (closes c) (drains c) (registered c) (wire c ++ [m])
  | Read => keep (writes c) (S (reads c)) (timers c) (closes c) (drains c) (registered c) (wire c)
  | Timer => keep (writes c) (reads c) (S (timers c)) (closes c) (drains c) (registered c) (wire c)
  | CloseStream => keep (writes c) (reads c) (timers c) (S (closes c)) (drains c) (registered c) (wire c)
  | PostDrain => keep (writes c) (reads c) (timers c) (closes c) (S (drains c)) (registered c) (wire c)
  | Register => keep (writes c) (reads c) (timers c) (closes c) (drains c) true (wire c)
  | Unregister => keep (writes c) (reads c) (timers c) (closes c) (drains c) false (wire c)
  | CancelTimer | Unsubscribe _ | CloseSocket => c
  end.

(** A handler ran: its effects are started on the new session. *)
Definition ran (r : list effect * WebSocketSession) (more : list string) (c : Client) : Client :=
  foldl start (mkClient r.2 (accepting c) (writes c) (reads c) (timers c) (closes c) (drains c) (registered c)
                 (entered c ++ more) (wire c)) r.1.

Definition is_open (s : WebSocketSession) : bool := negb (closed_ s || stopping_ s).

Inductive action :=
  | Accepted (error : bool) (id : Z) (status gps : string)
  | Published (event : string)
  | DrainRuns
  | WriteDone (error : bool)
  | ReadDone (error : bool)
  | TimerDone (error : bool) (status : string)
  | CloseDone
  | Stop.

(** One handler finishes its operation: one fewer is under way. *)
Definition less (writes_ reads_ timers_ closes_ drains_ : nat) (c : Client) : Client :=
  mkClient (session c) false (writes c - writes_) (reads c - reads_) (timers c - timers_) (closes c - closes_)
    (drains c - drains_) (registered c) (entered c) (wire c).

Definition step (a : action) (c : Client) : option Client :=
  let s := session c in
  let entering events := if is_open s then events else [] in
  match a with
  | Accepted error id status gps =>
    if accepting c
    then Some (ran (on_accept error id status gps s) (if error then [] else entering [status; gps]) (less 0 0 0 0 0 c))
    else None
  | Published e => if accepting c then None else Some (ran (on_event e s) [] c)
  | DrainRuns =>
    if (0 <? drains c)%nat
    then Some (ran (drain_incoming s) (entering (events_ (events (incoming_ s)))) (less 0 0 0 0 1 c)) else None
  | WriteDone error => if (0 <? writes c)%nat then Some (ran (on_write error s) [] (less 1 0 0 0 0 c)) else None
  | ReadDone error => if (0 <? reads c)%nat then Some (ran (on_read error s) [] (less 0 1 0 0 0 c)) else None
  | TimerDone error status =>
    if (0 <? timers c)%nat
    then Some (ran (on_timer error status s) (if error || closed_ s then [] else entering [status]) (less 0 0 1 0 0 c))
    else None
  | CloseDone => if (0 <? closes c)%nat then Some (ran (cleanup s) [] (less 0 0 0 1 0 c)) else None
  | Stop => if registered c then Some (ran (stop s) [] c) else None
  end.

Fixpoint execute (actions : list action) (c : Client) : option Client :=
  match actions with
  | [] => Some c
  | a :: rest => c' ← step a c; execute rest c'
  end.

(** Events are never empty strings: they are JSON objects. *)
Definition proper (a : action) : Prop :=
  match a with
  | Accepted _ id status gps => id <> 0 /\ status <> "" /\ gps <> ""
  | Published e | TimerDone _ e => e <> ""
  | _ => True
  end.

Lemma event_proper now type data : make_event_json now type data <> "".
Proof. done. Qed.

(** *** The queue and the write under way *)

Definition inflight (s : WebSocketSession) : nat := if bool_decide (writing_ s = "") then 0%nat else 1%nat.

(** A message is queued only behind one that is being written. *)
Definition flowing (s : WebSocketSession) : Prop :=
  Forall (fun e => e <> "") (events_ (outgoing_ s)) /\
  (is_open s = true -> writing_ s = "" -> events_ (outgoing_ s) = []).

(** What sending does: messages [ws] go out, the rest stays in order. *)
Definition sends (ws events : list string) (s s' : WebSocketSession) : Prop :=
  flowing s' /\ inflight s' = (inflight s + length ws)%nat /\
  ws ++ events_ (outgoing_ s') `sublist_of` events_ (outgoing_ s) ++ events /\
  incoming_ s' = incoming_ s /\ subscription_id_ s' = subscription_id_ s /\
  closed_ s' = closed_ s /\ stopping_ s' = stopping_ s /\ closing_ s' = closing_ s.

Lemma sends_refl s : flowing s -> sends [] [] s s.
Proof. intros H. split; [done|]. split; [simpl; lia|]. split; [by rewrite app_nil_r|done]. Qed.

Lemma sends_trans ws1 ws2 es1 es2 s1 s2 s3 : sends ws1 es1 s1 s2 -> sends ws2 es2 s2 s3 -> sends (ws1 ++ ws2) (es1 ++ es2) s1 s3.
Proof.
  intros (A1 & A2 & A3 & A4 & A5 & A6 & A7 & A8) (B1 & B2 & B3 & B4 & B5 & B6 & B7 & B8).
  split; [done|]. split; [rewrite length_app; lia|]. split; [|split_and!; congruence].
  rewrite <- app_assoc. etrans; [by apply sublist_app, B3|]. rewrite !app_assoc. by apply sublist_app.
Qed.

Lemma push_events e q : exists l, events_ (queue_push e q) = l ++ [e] /\ l `sublist_of` events_ q.
Proof.
  unfold queue_push. case_match; simpl; eexists; (split; [done|]); [|done].
  destruct (events_ q); simpl; [done|by apply sublist_cons].
Qed.

Lemma enqueue_sends e s : flowing s -> is_open s = true -> e <> "" ->
  exists ws, (enqueue e s).1 = Write <$> ws /\ sends ws [e] s (enqueue e s).2.
Proof.
  intros [Hf Hq] Ho He. unfold enqueue. unfold is_open in Ho. apply negb_true_iff in Ho as Ho'. rewrite Ho'.
  destruct (push_events e (outgoing_ s)) as (l & El & Hl).
  assert (Hfl : Forall (fun e => e <> "") l) by (by eapply sublist_Forall).
  case_bool_decide as Hw.
  - unfold write_next, queue_pop. cbn [outgoing_ with_out].
    rewrite (Hq Ho Hw) in Hl. apply sublist_nil_r in Hl as ->. rewrite El. cbn [app].
    exists [e]. split; [done|]. split; [|split; [|split; [|done]]].
    + split; [constructor|done].
    + unfold inflight. cbn. by rewrite Hw, bool_decide_false.
    + cbn. by rewrite (Hq Ho Hw).
  - exists []. split; [done|]. split; [|split; [|split; [|done]]].
    + split; [cbn; rewrite El; apply Forall_app; split; [done|by constructor]|]. by intros _ Hx.
    + unfold inflight. cbn. by rewrite bool_decide_false.
    + cbn. rewrite El. by apply sublist_app.
Qed.

Lemma enqueue_closed e s : is_open s = false -> enqueue e s = ([], s).
Proof. unfold is_open, enqueue. intros H%negb_false_iff. by rewrite H. Qed.

Lemma is_open_sends ws es s s' : sends ws es s s' -> is_open s' = is_open s.
Proof. intros (_ & _ & _ & _ & _ & E1 & E2 & _). unfold is_open. congruence. Qed.

(** Entering several events, or none when the session is not open. *)
Lemma enqueue_all_sends es s : flowing s -> Forall (fun e => e <> "") es ->
  exists ws, (enqueue_all es s).1 = Write <$> ws /\ (is_open s = false -> ws = []) /\
    sends ws (if is_open s then es else []) s (enqueue_all es s).2.
Proof.
  revert s. induction es as [|e es IH]; intros s Hs He; cbn [enqueue_all].
  { exists []. split; [done|]. split; [done|]. destruct (is_open s); by apply sends_refl. }
  apply Forall_cons in He as [He Hes]. destruct (is_open s) eqn:Ho.
  - destruct (enqueue_sends e s Hs Ho He) as (ws1 & E1 & S1). destruct (enqueue e s) as [a s1]. cbn [fst snd] in *.
    destruct (IH s1 (proj1 S1) Hes) as (ws2 & E2 & _ & S2). rewrite (is_open_sends _ _ _ _ S1), Ho in S2.
    destruct (enqueue_all es s1) as [b s2]. cbn [fst snd] in *. exists (ws1 ++ ws2).
    split; [by rewrite E1, E2, fmap_app|]. split; [done|]. by apply (sends_trans ws1 ws2 [e] es s s1 s2).
  - rewrite enqueue_closed by done. destruct (IH s Hs Hes) as (ws & E & Hn & S). rewrite Ho in S.
    destruct (enqueue_all es s) as [b s']. cbn [fst snd app] in *. eauto.
Qed.

(** *** The invariant *)

(** Messages: what is being written, and that nothing is lost but what the
    bounded queue drops. *)
Definition flow (c : Client) : Prop :=
  let s := session c in
  flowing s /\ (writes c <= inflight s)%nat /\ (closed_ s = false -> writes c = inflight s) /\
  wire c ++ events_ (outgoing_ s) `sublist_of` entered c.

(** The inbox of the publishing threads and its drain. *)
Definition inbox (c : Client) : Prop :=
  let i := incoming_ (session c) in
  Inbox.wf i /\ Forall (fun e => e <> "") (events_ (events i)) /\ drains c = (if drain_scheduled_ i then 1 else 0)%nat.

(** Closing: never over a write, and always under way once asked for. *)
Definition ends (c : Client) : Prop :=
  let s := session c in
  (closing_ s = true -> stopping_ s = true /\ writes c = 0%nat /\ (closed_ s = false -> closes c = 1%nat)) /\
  (closing_ s = false -> closes c = 0%nat) /\ (closes c <= 1)%nat /\
  (stopping_ s = true -> closed_ s = false -> writes c = 1%nat \/ closes c = 1%nat).

(** The read that notices the end of the connection, and the server's list. *)
Definition known (c : Client) : Prop :=
  let s := session c in
  (accepting c = true -> s = make_session /\ registered c = false /\ reads c = 0%nat /\ writes c = 0%nat /\
     closes c = 0%nat /\ timers c = 0%nat) /\
  (accepting c = false -> closed_ s = false -> reads c = 1%nat /\ registered c = true) /\
  (closed_ s = true -> registered c = false).

Definition inv (c : Client) : Prop := flow c /\ inbox c /\ ends c /\ known c.

Lemma start_writes ws c : foldl start c (Write <$> ws) =
  mkClient (session c) (accepting c) (writes c + length ws) (reads c) (timers c) (closes c) (drains c) (registered c)
    (entered c) (wire c ++ ws).
Proof.
  revert c. induction ws as [|w ws IH]; intros c; cbn [fmap list_fmap foldl length].
  - destruct c; cbn. f_equal; [lia|by rewrite app_nil_r].
  - rewrite IH. cbn. f_equal; [lia|by rewrite <- app_assoc].
Qed.

(** The messages of a handler that only sends. *)
Lemma flow_sends c s' ws es : flow c -> sends ws es (session c) s' ->
  flow (mkClient s' (accepting c) (writes c + length ws) (reads c) (timers c) (closes c) (drains c) (registered c)
          (entered c ++ es) (wire c ++ ws)).
Proof.
  intros (F1 & F2 & F3 & F4) (S1 & S2 & S3 & S4 & S5 & S6 & S7 & S8).
  split; [exact S1|]. split; [cbn; lia|]. split; [cbn; intros; rewrite F3 by congruence; lia|]. cbn.
  rewrite <- app_assoc. etrans; [by apply sublist_app, S3|]. rewrite app_assoc. by apply sublist_app.
Qed.

(** The flags and the other operations are not its business. *)
Lemma ends_sends c s' ws es k : ends c -> sends ws es (session c) s' -> (is_open (session c) = false -> ws = []) ->
  ends (mkClient s' (accepting c) (writes c + length ws) (reads c) k (closes c) (drains c) (registered c)
          (entered c ++ es) (wire c ++ ws)).
Proof.
  intros (E1 & E2 & E3 & E4) (S1 & S2 & S3 & S4 & S5 & S6 & S7 & S8) Hw. unfold ends. cbn.
  rewrite S6, S7, S8. unfold is_open in Hw. split_and!; [|done|done|].
  - intros Hc. destruct (E1 Hc) as (H1 & H2 & H3). rewrite Hw by (by rewrite H1, orb_true_r). split_and!; try done. simpl. lia.
  - intros Hs Hcl. rewrite Hw by (by rewrite Hs, orb_true_r). destruct (E4 Hs Hcl); [left|right]; simpl; lia.
Qed.

Lemma inv_published e c : inv c -> accepting c = false -> e <> "" -> inv (ran (on_event e (session c)) [] c).
Proof.
  intros (F & (I1 & I2 & I3) & E & K) Ha He. unfold on_event.
  pose proof (Inbox.inbox_wf_call (Inbox.Push e) _ I1) as Hwf. cbn in Hwf.
  destruct (push_events e (events (incoming_ (session c)))) as (l & El & Hl).
  assert (Hfl : Forall (fun e => e <> "") (events_ (queue_push e (events (incoming_ (session c)))))).
  { rewrite El. apply Forall_app. split; [by eapply sublist_Forall|by constructor]. }
  assert (Hcommon : forall n, inv (mkClient (with_in (mkInbox (queue_push e (events (incoming_ (session c)))) true) (session c))
    (accepting c) (writes c) (reads c) (timers c) (closes c) n (registered c) (entered c ++ []) (wire c)) \/ n <> 1%nat).
  { intros n. destruct (decide (n = 1%nat)) as [->|Hn]; [left|by right]. rewrite app_nil_r.
    split; [exact F|]. split; [|split; [exact E|]].
    - split; [|split; [exact Hfl|done]]. unfold Inbox.push in Hwf. by destruct (drain_scheduled_ _).
    - destruct K as (K1 & K2 & K3). split_and!; [by rewrite Ha|exact K2|exact K3]. }
  unfold Inbox.push in *. unfold ran. destruct (drain_scheduled_ (incoming_ (session c))) eqn:Ed; cbn in *.
  - rewrite I3. destruct (Hcommon 1%nat); done.
  - rewrite I3. destruct (Hcommon 1%nat); done.
Qed.

(** What is left of the invariant when an operation has failed: enough for
    [cleanup] to restore it. *)
Definition failing (c : Client) : Prop :=
  let s := session c in
  flowing s /\ (writes c <= inflight s)%nat /\ wire c ++ events_ (outgoing_ s) `sublist_of` entered c /\ inbox c /\
  (closing_ s = true -> stopping_ s = true /\ writes c = 0%nat) /\ (closing_ s = false -> closes c = 0%nat) /\
  (closes c <= 1)%nat /\ accepting c = false /\ (closed_ s = true -> registered c = false).

Lemma closed_inv c : closed_ (session c) = true -> registered c = false -> accepting c = false ->
  flowing (session c) -> (writes c <= inflight (session c))%nat ->
  wire c ++ events_ (outgoing_ (session c)) `sublist_of` entered c -> inbox c ->
  (closing_ (session c) = true -> stopping_ (session c) = true /\ writes c = 0%nat) ->
  (closing_ (session c) = false -> closes c = 0%nat) -> (closes c <= 1)%nat -> inv c.
Proof.
  intros Hc Hr Ha F1 F2 F3 I E1 E2 E3. split; [|split; [exact I|split]].
  - split; [exact F1|]. split; [exact F2|]. split; [congruence|exact F3].
  - split; [|split; [exact E2|split; [exact E3|congruence]]].
    intros H. destruct (E1 H). split_and!; [done|done|congruence].
  - split_and!; [congruence|congruence|done].
Qed.

Lemma cleanup_restores c : failing c -> inv (ran (cleanup (session c)) [] c).
Proof.
  intros (F1 & F2 & F3 & I & E1 & E2 & E3 & A & K). unfold cleanup, ran.
  destruct (closed_ (session c)) eqn:Hc; cbn [fst snd foldl].
  - rewrite app_nil_r. apply closed_inv; cbn; try done; first [exact I|by apply K].
  - assert (Hd : forall l c, foldl start c (drop_subscription (session l)) = c)
      by (intros l c'; unfold drop_subscription; by destruct (_ =? 0)).
    rewrite !foldl_app, Hd. cbn. rewrite app_nil_r. apply closed_inv; try done; first [exact I|split; [apply F1|done]].
Qed.

Lemma inv_failing c w r t k d : inv c -> (w <= writes c)%nat -> (k <= closes c)%nat -> d = 0%nat ->
  failing (less w r t k d c).
Proof.
  intros ((F1 & F2 & F3 & F4) & I & (E1 & E2 & E3 & E4) & (K1 & K2 & K3)) Hw Hk ->. unfold failing, less. cbn.
  split_and!; try done; try lia; [| |].
  - destruct I as (I1 & I2 & I3). split_and!; try done. cbn. lia.
  - intros Hc. destruct (E1 Hc) as (? & ? & ?). split; [done|lia].
  - intros Hc. rewrite E2 by done. lia.
Qed.

(** Handlers that enter messages. *)
Lemma inv_drain c : inv c -> drains c = 1%nat -> accepting c = false ->
  inv (ran (drain_incoming (session c)) (if is_open (session c) then events_ (events (incoming_ (session c))) else [])
         (less 0 0 0 0 1 c)).
Proof.
  intros (F & (I1 & I2 & I3) & E & K) Hd Ha. unfold drain_incoming. rewrite drain_spec.
  set (s0 := with_in _ (session c)).
  destruct (enqueue_all_sends (events_ (events (incoming_ (session c)))) s0) as (ws & Ew & Hn & S); [apply F|done|].
  change (is_open s0) with (is_open (session c)) in *.
  destruct (enqueue_all _ s0) as [a s']. cbn [fst snd] in *. unfold ran. cbn [fst snd]. rewrite Ew, start_writes. cbn.
  rewrite !Nat.sub_0_r, Hd.
  set (c0 := mkClient s0 (accepting c) (writes c) (reads c) (timers c) (closes c) 0 (registered c) (entered c) (wire c)).
  assert (F0 : flow c0) by exact F. assert (E0 : ends c0) by exact E.
  pose proof (flow_sends c0 s' ws _ F0 S) as F'. pose proof (ends_sends c0 s' ws _ (timers c) E0 S Hn) as E'.
  destruct S as (S1 & S2 & S3 & S4 & S5 & S6 & S7 & S8).
  split; [exact F'|]. split; [|split; [exact E'|]].
  - unfold inbox. cbn. rewrite S4. destruct I1 as (C1 & C2 & C3). split; [|done].
    split; [exact C1|]. split; [|done]. change (Z.of_nat 0 <= capacity_ (events (incoming_ (session c)))). lia.
  - destruct K as (K1 & K2 & K3). unfold known. cbn. rewrite S6. cbn. split_and!; [done|auto|exact K3].
Qed.

Lemma inv_timer status c : inv c -> accepting c = false -> closed_ (session c) = false -> status <> "" ->
  inv (ran (on_timer false status (session c)) (if is_open (session c) then [status] else []) (less 0 0 1 0 0 c)).
Proof.
  intros (F & I & E & K) Ha Hc Hs. unfold on_timer. rewrite Hc. cbn [orb].
  destruct (enqueue_all_sends [status] (session c)) as (ws & Ew & Hn & HS); [apply F|by constructor|].
  cbn [enqueue_all] in Ew, HS. destruct (enqueue status (session c)) as [a s']. cbn [fst snd] in *. rewrite app_nil_r in Ew.
  unfold ran. cbn [fst snd]. rewrite foldl_app, Ew, start_writes. cbn. rewrite !Nat.sub_0_r.
  pose proof (flow_sends c s' ws _ F HS) as F'.
  pose proof (ends_sends c s' ws _ (Datatypes.S (timers c - 1)) E HS Hn) as E'.
  destruct HS as (S1 & S2 & S3 & S4 & S5 & S6 & S7 & S8).
  split; [exact F'|]. split; [|split; [exact E'|]].
  - unfold inbox in *. cbn. rewrite S4. exact I.
  - destruct K as (K1 & K2 & K3). unfold known. cbn. rewrite S6. split_and!; [done|auto|auto].
Qed.

Lemma inv_accepted id status gps c : inv c -> accepting c = true -> status <> "" -> gps <> "" ->
  inv (ran (on_accept false id status gps (session c)) (if is_open (session c) then [status; gps] else [])
         (less 0 0 0 0 0 c)).
Proof.
  intros (F & I & E & (K1 & K2 & K3)) Ha Hs Hg. destruct (K1 Ha) as (Es & Hr & Hrd & Hw & Hcl & Htm).
  destruct c as [s acc w r t k d reg en wi]. cbn in Es, Ha, Hr, Hrd, Hw, Hcl, Htm. subst.
  set (s0 := with_state id false false false make_session).
  destruct (enqueue_all_sends [status; gps] s0) as (ws & Ew & Hn & HS);
    [split; cbn; [constructor|done]|by constructor; [|constructor]|].
  cbn [session]. unfold on_accept. cbn [closed_ stopping_ closing_ make_session]. fold s0. cbn [enqueue_all] in Ew, HS.
  destruct (enqueue status s0) as [a s1], (enqueue gps s1) as [b s2]. cbn [fst snd] in *. rewrite app_nil_r in Ew.
  unfold ran. cbn [fst snd app foldl start]. rewrite app_assoc, foldl_app, Ew, start_writes. cbn.
  set (c0 := mkClient s0 false 0 0 0 0 d true en wi).
  assert (F0 : flow c0) by (destruct F as (? & ? & ? & ?); by repeat split; try constructor).
  assert (E0 : ends c0) by done.
  pose proof (flow_sends c0 s2 ws _ F0 HS) as F'. pose proof (ends_sends c0 s2 ws _ 1%nat E0 HS Hn) as E'.
  destruct HS as (S1 & S2 & S3 & S4 & S5 & S6 & S7 & S8). rewrite !Nat.sub_0_r.
  split; [exact F'|]. split; [|split; [exact E'|]].
  - unfold inbox in *. cbn. rewrite S4. exact I.
  - unfold known. cbn. rewrite S6. cbn. split_and!; done.
Qed.

Lemma inv_write c : inv c -> accepting c = false -> (0 < writes c)%nat ->
  inv (ran (on_write false (session c)) [] (less 1 0 0 0 0 c)).
Proof.
  intros ((F1 & F2 & F3 & F4) & I & (E1 & E2 & E3 & E4) & (K1 & K2 & K3)) Ha Hw.
  assert (Hone : writes c = 1%nat) by (unfold inflight in F2; case_match; lia).
  assert (Hcg : closing_ (session c) = false).
  { destruct (closing_ (session c)) eqn:Hx; [|done]. destruct (E1 eq_refl) as (_ & ? & _). lia. }
  unfold on_write, begin_close, write_next, queue_pop, ran. cbn [with_out stopping_ closed_ closing_ outgoing_]. rewrite Hcg.
  destruct F1 as [F1 F1'].
  destruct (stopping_ (session c)) eqn:Hst; [destruct (closed_ (session c)) eqn:Hcd|]; cbn [orb].
  1,2: cbn; rewrite !Nat.sub_0_r, Hone, app_nil_r; split; [|split; [exact I|split]]; unfold flow, flowing, ends, known, is_open, inflight in *; cbn;
    rewrite ?Hcd, ?Hst, ?Hcg, ?orb_true_r in *; cbn.
  - split_and!; try done; lia.
  - split_and!; try done; lia || auto.
  - split_and!; auto; done.
  - split_and!; try done; lia.
  - rewrite E2 by done. split_and!; auto; lia.
  - split_and!; auto; done.
  - destruct (events_ (outgoing_ (session c))) as [|next rest] eqn:Eq; cbn; rewrite !Nat.sub_0_r, Hone, app_nil_r;
      (split; [|split; [exact I|split]]); unfold flow, flowing, ends, known, is_open, inflight in *; cbn;
      rewrite ?Hst, ?Hcg, ?orb_false_r, ?Eq in *; cbn.
    + split_and!; try done; lia.
    + split_and!; try done; lia || auto.
    + split_and!; auto; done.
    + apply Forall_cons in F1 as [Fn Fr]. rewrite bool_decide_false by done. split_and!; try done; try lia.
      by rewrite <- app_assoc.
    + split_and!; try done; lia || auto.
    + split_and!; auto; done.
Qed.

Lemma ran_nothing c : ran ([], session c) [] c = c.
Proof. unfold ran. cbn. rewrite app_nil_r. by destruct c. Qed.

Lemma client_inv_stop c : inv c -> registered c = true -> inv (ran (stop (session c)) [] c).
Proof.
  intros Hinv. pose proof Hinv as ((F1 & F2 & F3 & F4) & I & (E1 & E2 & E3 & E4) & (K1 & K2 & K3)). intros Hr.
  assert (Ha : accepting c = false).
  { destruct (accepting c); [|done]. destruct (K1 eq_refl) as (_ & ? & _). congruence. }
  assert (Hcd : closed_ (session c) = false).
  { destruct (closed_ (session c)); [|done]. specialize (K3 eq_refl). congruence. }
  specialize (F3 Hcd). destruct (K2 Ha Hcd) as [Hrd _]. unfold stop. rewrite Hcd. cbn [orb].
  destruct (stopping_ (session c)) eqn:Hst.
  { rewrite ran_nothing. exact Hinv. }
  assert (Hcg : closing_ (session c) = false) by (destruct (closing_ (session c)); [by destruct (E1 eq_refl)|done]).
  assert (Hd : forall l c, foldl start c (drop_subscription l) = c)
    by (intros l c'; unfold drop_subscription; by destruct (_ =? 0)).
  unfold begin_close, ran. cbn [with_state closed_ closing_]. rewrite Hcg. cbn [orb]. unfold inflight in F3.
  destruct F1 as [F1 F1'].
  case_bool_decide as Hwr; cbn [fst snd]; rewrite !foldl_app, Hd; cbn; rewrite app_nil_r;
    (split; [|split; [exact I|split]]); unfold flow, flowing, ends, known, is_open, inflight in *; cbn;
    rewrite ?Hst, ?Hcg, ?Hcd, ?Hr, ?Ha, ?Hrd, ?(E2 Hcg); cbn.
  - rewrite bool_decide_true by done. split_and!; try done; lia.
  - split_and!; auto; lia.
  - split_and!; auto; done.
  - rewrite bool_decide_false by done. split_and!; try done; lia.
  - split_and!; auto; done.
  - split_and!; auto; done.
Qed.

Lemma inv_connecting : inv connecting.
Proof. unfold inv, flow, flowing, inbox, Inbox.wf, ends, known. cbn. split_and!; by try constructor. Qed.

(** A write or a close only finishes after the handshake. *)
Lemma pending_accepted c : inv c ->
  (0 < writes c)%nat \/ (0 < reads c)%nat \/ (0 < closes c)%nat \/ (0 < drains c)%nat \/ (0 < timers c)%nat -> accepting c = false.
Proof.
  intros (_ & (_ & _ & I) & _ & (K & _)) H. destruct (accepting c); [|done].
  destruct (K eq_refl) as (Es & _ & ? & ? & ? & ?). rewrite Es in I. cbn in I. lia.
Qed.

Lemma inv_less_timers n c : inv c -> accepting c = false -> inv (less 0 0 n 0 0 c).
Proof.
  intros (F & I & E & (K1 & K2 & K3)) Ha. unfold less. rewrite !Nat.sub_0_r.
  split; [exact F|]. split; [exact I|]. split; [exact E|]. split; [done|]. split; [|exact K3]. intros _. by apply K2.
Qed.

Lemma inv_reading c : inv c -> (0 < reads c)%nat -> accepting c = false ->
  ran (on_read false (session c)) [] (less 0 1 0 0 0 c) = c.
Proof.
  intros _ Hr Ha. unfold ran. cbn. rewrite app_nil_r, !Nat.sub_0_r. destruct c; cbn in *. subst. f_equal. lia.
Qed.

Lemma client_inv_step a c c' : inv c -> proper a -> step a c = Some c' -> inv c'.
Proof.
  intros H Hp Hs. destruct a as [error id status gps|e| |error|error|error status| |]; cbn [step proper] in Hs, Hp;
    case_match eqn:Hg; simplify_eq; try apply Nat.ltb_lt in Hg.
  - destruct error.
    + cbn [on_accept]. change (session c) with (session (less 0 0 0 0 0 c)). apply cleanup_restores, inv_failing; [done|lia|lia|done].
    + destruct Hp as (_ & Hst & Hgp). by apply inv_accepted.
  - by apply inv_published.
  - apply inv_drain; [done| |apply pending_accepted; [done|lia]].
    destruct H as (_ & (_ & _ & Hd) & _). case_match; lia.
  - destruct error.
    + cbn [on_write]. change (session c) with (session (less 1 0 0 0 0 c)). apply cleanup_restores, inv_failing; [done|lia|lia|done].
    + apply inv_write; [done|apply pending_accepted; [done|lia]|done].
  - destruct error.
    + cbn [on_read]. change (session c) with (session (less 0 1 0 0 0 c)). apply cleanup_restores, inv_failing; [done|lia|lia|done].
    + rewrite inv_reading; [done|done|done|apply pending_accepted; [done|lia]].
  - assert (Ha : accepting c = false) by (apply pending_accepted; [done|lia]).
    destruct error; [|destruct (closed_ (session c)) eqn:Hc]; cbn [orb].
    + change (session c) with (session (less 0 0 1 0 0 c)). cbn [on_timer orb]. rewrite ran_nothing. by apply inv_less_timers.
    + unfold on_timer. rewrite Hc. cbn [orb]. change (session c) with (session (less 0 0 1 0 0 c)). rewrite ran_nothing.
      by apply inv_less_timers.
    + by apply inv_timer.
  - change (session c) with (session (less 0 0 0 1 0 c)). apply cleanup_restores, inv_failing; [done|lia|lia|done].
  - by apply client_inv_stop.
Qed.

Lemma client_inv_execute actions c c' : inv c -> Forall proper actions -> execute actions c = Some c' -> inv c'.
Proof.
  revert c. induction actions as [|a actions IH]; intros c H Hp Hx; cbn [execute] in Hx; [by simplify_eq|].
  apply Forall_cons in Hp as [Ha Hp]. apply bind_Some in Hx as (c1 & Hs & Hx). eauto using client_inv_step.
Qed.

Lemma one_operation c : inv c -> (writes c + closes c <= 1)%nat.
Proof.
  intros ((_ & F2 & _) & _ & (E1 & E2 & E3 & _) & _). destruct (closing_ (session c)).
  - destruct (E1 eq_refl) as (_ & -> & _). lia.
  - rewrite E2 by done. unfold inflight in F2. destruct (bool_decide _); lia.
Qed.

Lemma owed c : inv c -> stopping_ (session c) = true -> closed_ (session c) = false -> (writes c + closes c)%nat = 1%nat.
Proof. intros H Hs Hc. pose proof (one_operation c H). destruct H as (_ & _ & (_ & _ & _ & E4) & _). destruct (E4 Hs Hc); lia. Qed.

(** C13.   Whatever the order in which the handlers of one WebSocket client run: at most one write is
    under way and never beside a close; a session with queued messages that is open has its write
    under way, and an inbox with events has its drain posted, so no event is stranded; a session
    that was asked to stop has the write or the close under way that ends it; every session that is
    not closed is in the server's list with exactly one read pending, and a closed one is not; and
    what was written followed by what is queued is, in order, part of what was entered. *)
Theorem websocket_nothing_stranded actions c (Hp : Forall proper actions) (Hx : execute actions connecting = Some c) :
  let s := session c in
  (writes c + closes c <= 1)%nat /\
  (is_open s = true -> events_ (outgoing_ s) <> [] -> writes c = 1%nat) /\
  (events_ (events (incoming_ s)) <> [] -> drains c = 1%nat) /\
  (stopping_ s = true -> closed_ s = false -> (writes c + closes c)%nat = 1%nat) /\
  (accepting c = false -> closed_ s = false -> reads c = 1%nat /\ registered c = true) /\
  (closed_ s = true -> registered c = false) /\
  wire c ++ events_ (outgoing_ s) `sublist_of` entered c.
Proof.
  pose proof (client_inv_execute _ _ _ inv_connecting Hp Hx) as Hi. pose proof (one_operation c Hi). pose proof (owed c Hi).
  destruct Hi as ((F1 & F2 & F3 & F4) & (I1 & I2 & I3) & (E1 & E2 & E3 & E4) & (K1 & K2 & K3)).
  split_and!; try done.
  - intros Ho Hq. unfold is_open in Ho. assert (Hc : closed_ (session c) = false) by (by destruct (closed_ (session c))).
    rewrite F3 by done. unfold inflight. rewrite bool_decide_false; [done|]. intros Hw. by apply Hq, F1.
  - intros Hq. destruct I1 as (_ & _ & Hwf). by rewrite I3, Hwf.
Qed.

(** The state a client is left in once its session is closed. *)
Definition released (c : Client) : Prop :=
  closed_ (session c) = true /\ registered c = false /\ subscription_id_ (session c) = 0.

Lemma cleanup_released c : closed_ (session c) = false -> released (ran (cleanup (session c)) [] c).
Proof.
  intros Hc. unfold cleanup, ran. rewrite Hc. cbn [fst snd]. unfold drop_subscription. by destruct (_ =? 0).
Qed.

(** Stopping a client always comes to an end: in every reachable session that was asked to stop and
    is not closed, the completions that are still owed, the write's when one is under way and then
    the close's, whatever the write's outcome, leave it closed, out of the server's list and with no
    subscription. *)
Theorem websocket_stop_completes actions c error (Hp : Forall proper actions)
    (Hx : execute actions connecting = Some c) (Hs : stopping_ (session c) = true) (Hc : closed_ (session c) = false) :
  exists c', released c' /\
    execute (if (0 <? writes c)%nat then WriteDone error :: (if error then [] else [CloseDone]) else [CloseDone]) c
      = Some c'.
Proof.
  pose proof (client_inv_execute _ _ _ inv_connecting Hp Hx) as (_ & _ & (E1 & E2 & _ & E4) & _).
  destruct (Nat.ltb_spec 0 (writes c)) as [Hw|Hw]; cbn [execute step mbind option_bind].
  - rewrite (proj2 (Nat.ltb_lt _ _)) by done. cbn [mbind option_bind]. destruct error; cbn [execute].
    + eexists. split; [|done]. cbn [on_write]. by apply (cleanup_released (less 1 0 0 0 0 c)).
    + assert (Hcg : closing_ (session c) = false).
      { destruct (closing_ (session c)); [|done]. destruct (E1 eq_refl) as (_ & ? & _). lia. }
      unfold on_write, begin_close. cbn [with_out stopping_ closed_ closing_]. rewrite Hs, Hc, Hcg. cbn [orb].
      cbn [mbind option_bind]. set (c1 := ran _ [] _). assert (Hk : (0 <? closes c1)%nat = true) by done.
      cbn [step]. rewrite Hk. eexists. split; [|done]. by apply (cleanup_released (less 0 0 0 1 0 c1)).
  - assert (Hk : closes c = 1%nat) by (destruct (E4 Hs Hc); lia). rewrite Hk. cbn [Nat.ltb Nat.leb mbind option_bind].
    eexists. split; [|done]. by apply (cleanup_released (less 0 0 0 1 0 c)).
Qed.

(** A client that is told three things while the first is being written, and is
    then stopped. *)
Definition busy : list action :=
  [Accepted false 7 "status" "gps"; Published "detections"; DrainRuns; WriteDone false; Published "alert"; Stop].
Definition busy_client : Client := default connecting (execute busy connecting).

Lemma busy_proper : Forall proper busy.
Proof. by repeat constructor. Qed.

Lemma busy_executes : execute busy connecting = Some busy_client.
Proof. vm_compute. reflexivity. Qed.

Lemma websocket_nothing_stranded_witness :
  writes busy_client = 1%nat /\ events_ (outgoing_ (session busy_client)) = ["detections"] /\
  ["status"; "gps"; "detections"] `sublist_of` entered busy_client.
Proof.
  destruct (websocket_nothing_stranded busy busy_client busy_proper busy_executes) as (_ & _ & _ & _ & _ & _ & H).
  split; [by vm_compute|]. split; [by vm_compute|]. vm_compute in H |- *. exact H.
Defined.

Lemma websocket_stop_completes_witness : exists c, released c /\ execute [WriteDone false; CloseDone] busy_client = Some c.
Proof.
  apply (websocket_stop_completes busy busy_client false busy_proper busy_executes); by vm_compute.
Defined.
End Client.
