(* ===== verification/HttpServer.v ===== *)
(** * The HTTP server ([src/web/http_server.cpp], [include/skai/web/http_server.hpp])

    [Connection] is one HTTP connection: what a read request leads to, the job a
    WHEP offer becomes, and the answer's write.  [Signaling] runs many connections
    and the signaling pool together.  [Registry] is the server's list of WebSocket
    clients with the clients of [WebSocket], and [Server] the module itself.
    Boost.Asio is seen through its handlers; reading the clock and the system
    counters gives an argument. *)

From S2P Require Import Prelude Strings Floats Json ConfigData AlertRepository Recording Diagnostics Events Health ApiState.
From S2P Require Import Router RouterFacts StaticFiles WebSocket.

Module Connection.
Import Http Bodies Router.

(** The errors of a read that [on_read] tells apart. *)
Inductive read_error := NoError | BodyLimit | HeaderLimit | OtherError.

(** What the sessions share: the objects behind the routes and the number of
    signaling jobs ([std::atomic_size_t]). *)
Record Shared {manager : Type} := mkShared {
  backends : @Backends manager;
  signaling_jobs : Z;
}.
Arguments Shared : clear implicits.
Arguments mkShared {_}.

(** What a connection does next. *)
Inductive outcome :=
  | Close
  | Upgrade (request : Request)
  | Posted (request : Request) (status : Status.RuntimeStatusSnapshot)
  | Answer (response : Response).

Definition json_error (status : Z) (message : string) : Response :=
  set "Content-Type" "application/json"
    (mkResponse status 11 ∅ (js "{'error':'" +:+ message +:+ js "'}" +:+ newline)).

Definition with_uptime (seconds : Z) (s : Status.RuntimeStatusSnapshot) : Status.RuntimeStatusSnapshot :=
  Status.mkSnapshot (Status.status s) (u64 seconds) (Status.video_fps s) (Status.detector_fps s)
    (Status.last_inference_ms s) (Status.last_inference_age_ms s) (Status.encoder s).

Definition whep_path : string := "/api/v1/webrtc/whep".

(** What [snapshot_metrics] reads besides the alert database: the metrics of the
    provider and the channel's errors (either may be absent), the number of
    WebSocket clients and the system counters. *)
Record Readings := mkReadings {
  provided : option Metrics.MetricsSnapshot;
  errors : option (list string);
  clients : Z;
  sampled : Metrics.SystemMetrics;
}.

Definition snapshot_metrics {manager} (r : Readings) (b : @Backends manager) : Metrics.MetricsSnapshot * @Backends manager :=
  let m := default Metrics.default_metrics (provided r) in
  let '(count, b) :=
    match alerts b with
    | None => (Metrics.alert_count m, b)
    | Some d => let '(counted, d) := Repository.count d in
                (match counted with inr n => Some n | inl _ => None end, set_alerts d b)
    end in
  (Metrics.mkMetrics (sampled r) (Metrics.rtsp m) (Metrics.inference_queue m) (Metrics.inference_queue_depth m)
     (Metrics.encoded_queue m) (Metrics.encoded_queue_depth m) (clients r) (Metrics.whip m) count
     (Metrics.encoder_fps m) (default (Metrics.recent_errors m) (errors r)), b).

Section Session.
Context {manager : Type} (ops : WebRtcOps manager) (show6 show17 : float64 -> string).
(** [beast::websocket::is_upgrade]; the static files, with the file system they
    are checked against; [signaling_limit_]. *)
Context (is_upgrade : Request -> bool) (canonical : string -> option string)
        (static_files : StaticFiles.StaticFileHandler) (signaling_limit : Z).

#[local] Abbreviation route := (route_request ops show6 show17).

Definition dispatch_whep (request : Request) (status : Status.RuntimeStatusSnapshot) (s : Shared manager)
    : outcome * Shared manager :=
  let before := signaling_jobs s in
  let s := mkShared (backends s) (u64 (before + 1)) in
  if signaling_limit <=? before then
    (Answer (json_error 429 "signaling queue is full"), mkShared (backends s) (u64 (signaling_jobs s - 1)))
  else (Posted request status, s).

Definition answering (s : Shared manager) (r : Response * @Backends manager) : outcome * Shared manager :=
  (Answer r.1, mkShared r.2 (signaling_jobs s)).

Definition on_read (readings : Readings) (health_provider : option Watchdog.HealthSnapshot) (error : read_error)
    (request : Request) (snapshot : Status.RuntimeStatusSnapshot) (uptime : Z) (s : Shared manager) : outcome * Shared manager :=
  match error with
  | BodyLimit => (Answer (json_error 413 "payload too large"), s)
  | HeaderLimit => (Answer (json_error 431 "headers too large"), s)
  | OtherError => (Close, s)
  | NoError =>
    if is_upgrade request && bool_decide (target request = "/ws") then (Upgrade request, s)
    else
      let path := path_of (target request) in
      if negb (bool_decide (path = "/health")) && negb (starts_with "/api/" path) && negb (bool_decide (path = "/ws"))
      then (Answer (StaticFiles.handle canonical static_files request), s)
      else
        let status := with_uptime uptime snapshot in
        if bool_decide (path = whep_path) && bool_decide (method request = Post) &&
           bool_decide (is_Some (webrtc (backends s)))
        then dispatch_whep request status s
        else if bool_decide (path = "/api/v1/metrics") && bool_decide (method request = Get) then
          let '(metrics, b) := snapshot_metrics readings (backends s) in
          answering s (route request status b (Some metrics) None)
        else if bool_decide (path = "/health") && bool_decide (method request = Get) &&
                bool_decide (is_Some health_provider)
        then answering s (route request status (backends s) None health_provider)
        else answering s (route request status (backends s) None None)
  end.

(** The signaling job up to [fetch_sub], and that. *)
Definition job (request : Request) (status : Status.RuntimeStatusSnapshot) (s : Shared manager) : Response * Shared manager :=
  let '(response, b) := route request status (backends s) None None in (response, mkShared b (signaling_jobs s)).
Definition job_done (s : Shared manager) : Shared manager := mkShared (backends s) (u64 (signaling_jobs s - 1)).

(** [send]: the id to withdraw when the write fails ([pending_session_id_]). The
    response is written without keep-alive. *)
Definition send (response : Response) (pending : string) : string :=
  let location := default "" (fields response !! "Location") in
  if bool_decide (result response = 201) && starts_with Query.session_prefix location
  then substr location (str_length Query.session_prefix) None else pending.

(** The write's handler: the session it closes in the manager, and the call.  The
    connection is closed after it. *)
Definition withdraws (error : bool) (pending : string) (b : @Backends manager) : option string :=
  if error && negb (bool_decide (pending = "")) && bool_decide (is_Some (webrtc b)) then Some pending else None.
Definition on_written (error : bool) (pending : string) (b : @Backends manager) : @Backends manager :=
  match withdraws error pending b, webrtc b with
  | Some id, Some m => set_webrtc (close_session ops id m).2 b
  | _, _ => b
  end.
End Session.
End Connection.

(** ** Connections and the signaling pool *)

Module Signaling.
Import Http Router Connection.
#[local] Existing Instance WebRtc.CreateSessionError_eq.

(** Jobs wait in the pool, then have their response, then have posted it to the
    event loop; [writing] has the pending ids of the answers being written.
    [created], [delivered] and [withdrawn] are histories: the ids the manager
    handed out, those whose answer was written, and those closed again. *)
Record World {manager : Type} := mkWorld {
  shared : Shared manager;
  jobs : list (Request * Status.RuntimeStatusSnapshot);
  routed : list Response;
  posted : list Response;
  writing : list string;
  created : list string;
  delivered : list string;
  withdrawn : list string;
}.
Arguments World : clear implicits.
Arguments mkWorld {_}.

Definition starting {manager} (b : @Backends manager) : World manager := mkWorld (mkShared b 0) [] [] [] [] [] [] [].

Inductive action :=
  | ReadDone (readings : Readings) (health : option Watchdog.HealthSnapshot) (error : read_error) (request : Request)
      (snapshot : Status.RuntimeStatusSnapshot) (uptime : Z)
  | Routes (k : nat)
  | Finishes (k : nat)
  | Sends (k : nat)
  | Written (k : nat) (error : bool).

Section World.
Context {manager : Type} (ops : WebRtcOps manager) (show6 show17 : float64 -> string).
Context (is_upgrade : Request -> bool) (canonical : string -> option string)
        (static_files : StaticFiles.StaticFileHandler) (signaling_limit : Z).

(** The session the manager creates for a request, read off the manager. *)
Definition creates (request : Request) (b : @Backends manager) : list string :=
  match webrtc b with
  | Some m =>
    let r := (create_session ops (body request) m).1 in
    if bool_decide (content_type request = "application/sdp") && bool_decide (WebRtc.error r = WebRtc.None_)
    then [WebRtc.session_id r] else []
  | None => []
  end.

Definition named (pending : string) : list string := if bool_decide (pending = "") then [] else [pending].

Definition step (a : action) (w : World manager) : option (World manager) :=
  let s := shared w in
  match a with
  | ReadDone readings health error request snapshot uptime =>
    let '(next, s) := on_read ops show6 show17 is_upgrade canonical static_files signaling_limit readings health
                        error request snapshot uptime s in
    match next with
    | Posted request status => Some (mkWorld s (jobs w ++ [(request, status)]) (routed w) (posted w) (writing w)
        (created w) (delivered w) (withdrawn w))
    | Answer r => Some (mkWorld s (jobs w) (routed w) (posted w) (writing w ++ [send r ""])
        (created w) (delivered w) (withdrawn w))
    | _ => Some (mkWorld s (jobs w) (routed w) (posted w) (writing w) (created w) (delivered w) (withdrawn w))
    end
  | Routes k =>
    '(request, status) ← jobs w !! k;
    let '(r, s') := job ops show6 show17 request status s in
    Some (mkWorld s' (delete k (jobs w)) (routed w ++ [r]) (posted w) (writing w)
      (created w ++ creates request (backends s)) (delivered w) (withdrawn w))
  | Finishes k =>
    r ← routed w !! k;
    Some (mkWorld (job_done s) (jobs w) (delete k (routed w)) (posted w ++ [r]) (writing w)
      (created w) (delivered w) (withdrawn w))
  | Sends k =>
    r ← posted w !! k;
    Some (mkWorld s (jobs w) (routed w) (delete k (posted w)) (writing w ++ [send r ""])
      (created w) (delivered w) (withdrawn w))
  | Written k error =>
    pending ← writing w !! k;
    Some (mkWorld (mkShared (on_written ops error pending (backends s)) (signaling_jobs s))
      (jobs w) (routed w) (posted w) (delete k (writing w)) (created w)
      (if error then delivered w else delivered w ++ named pending)
      (withdrawn w ++ option_list (withdraws error pending (backends s))))
  end.

Fixpoint execute (actions : list action) (w : World manager) : option (World manager) :=
  match actions with
  | [] => Some w
  | a :: rest => w' ← step a w; execute rest w'
  end.

(** *** Which requests create a session *)

Lemma static_not_created r : result (StaticFiles.handle canonical static_files r) <> 201.
Proof. unfold StaticFiles.handle. repeat case_match; cbn; lia. Qed.

#[local] Abbreviation route := (route_request ops show6 show17).

Definition is_whep (request : Request) : bool :=
  bool_decide (path_of (target request) = whep_path) && bool_decide (method request = Post).

Lemma route_whep request status b metrics health : is_whep request = true ->
  route request status b metrics health = handle_whep ops request b.
Proof.
  intros [Hp Hm]%andb_true_iff. apply bool_decide_eq_true in Hp, Hm. unfold route_request. rewrite Hp, Hm. reflexivity.
Qed.

(** Neither a creation nor the end of the manager. *)
Definition quiet (b : @Backends manager) (r : Response * @Backends manager) : Prop :=
  result r.1 <> 201 /\ (is_Some (webrtc b) -> is_Some (webrtc r.2)).

Lemma quiet_alerts request path b : quiet b (handle_alerts show17 request path b).
Proof. unfold quiet, handle_alerts, handle_alert, handle_alert_list. repeat case_match; simplify_eq/=; split; (lia || done). Qed.

Lemma quiet_recording version path b : quiet b (handle_recording version path b).
Proof. unfold quiet, handle_recording. repeat case_match; simplify_eq/=; split; (lia || done). Qed.

Lemma quiet_delete version path b : quiet b (handle_delete ops version path b).
Proof. unfold quiet, handle_delete. repeat case_match; simplify_eq/=; split; (lia || done). Qed.

(** Only an offer is ever answered 201. *)
Lemma route_quiet request status b metrics health : is_whep request = false ->
  quiet b (route request status b metrics health).
Proof.
  intros Hw. unfold route_request. set (path := path_of (target request)).
  assert (Hd : forall r, result r <> 201 -> quiet b (r, b)) by (intros r Hr; by split).
  destruct (negb (get_route path) && _ && _); [by apply Hd|].
  destruct (bool_decide (method request = expected path)) eqn:Hm; cbn [negb]; [|by apply Hd].
  repeat (match goal with |- context [if bool_decide (path = ?p) then _ else _] =>
    destruct (bool_decide (path = p)) eqn:? end; [try (by apply Hd)|]).
  - apply Hd. unfold handle_health. repeat case_match; done.
  - case_match; by apply Hd.
  - case_match; by apply Hd.
  - exfalso. bools. unfold is_whep in Hw. fold path in Hw.
    rewrite bool_decide_true in Hw by done. apply bool_decide_eq_false in Hw.
    apply Hw. rewrite Hm. match goal with H : path = _ |- _ => rewrite H end. reflexivity.
  - destruct (delete_route path); [apply quiet_delete|]. destruct (Query.alert_route path); [apply quiet_alerts|].
    apply Hd. unfold handle_recordings. repeat case_match; done.
  - destruct (delete_route path); [apply quiet_delete|]. destruct (Query.alert_route path); [apply quiet_alerts|].
    destruct (_ || _); [|apply quiet_recording]. unfold handle_detector. case_match; by apply Hd.
Qed.

Lemma route_unless_offered request status b metrics health : is_whep request = false \/ webrtc b = None ->
  quiet b (route request status b metrics health).
Proof.
  destruct (is_whep request) eqn:Hw; [|by intros _; apply route_quiet]. intros [?|Hn]; [done|].
  rewrite route_whep by done. unfold handle_whep. rewrite Hn. split; [cbn; lia|]. by rewrite Hn.
Qed.

Lemma whep_kept request status b metrics health : is_whep request = true ->
  is_Some (webrtc b) -> is_Some (webrtc (route request status b metrics health).2).
Proof. intros Hw. rewrite route_whep by done. unfold handle_whep. intros [m E]. rewrite E. repeat case_match; simplify_eq/=; rewrite ?E; done. Qed.

(** A failed or refused offer names no session, a successful one its own. *)
Lemma whep_names request status b metrics health : is_whep request = true ->
  (forall offer m, WebRtc.error (create_session ops offer m).1 = WebRtc.None_ ->
     WebRtc.session_id (create_session ops offer m).1 <> "") ->
  named (send (route request status b metrics health).1 "") = creates request b.
Proof.
  intros Hw Hid. rewrite route_whep by done. unfold handle_whep, creates. destruct (webrtc b) as [m|]; [|done].
  destruct (bool_decide (content_type request = "application/sdp")); [|done]. cbn [negb andb].
  specialize (Hid (body request) m). destruct (create_session ops (body request) m) as [r m']. cbn [fst] in *.
  case_bool_decide as He; cbn [negb].
  - unfold send, set. cbn [fst result fields]. rewrite lookup_insert_eq. cbn [default].
    rewrite (proj2 (starts_with_spec _ _)) by eauto. unfold str_length.
    rewrite (substr_rest _ (chars Query.session_prefix) (chars (WebRtc.session_id r))) by apply chars_app.
    rewrite str_chars. cbn [andb]. unfold named. rewrite bool_decide_false by auto. done.
  - unfold send. cbn. by destruct (WebRtc.error r).
Qed.

(** *** The invariant *)

Hypothesis Hlimit : 1 <= signaling_limit <= u64_max.

Definition ids (rs : list Response) : list string := rs ≫= fun r => named (send r "").
Definition outstanding (w : World manager) : Z := Z.of_nat (length (jobs w) + length (routed w)).

Definition inv (w : World manager) : Prop :=
  Forall (fun j => is_whep j.1 = true) (jobs w) /\
  signaling_jobs (shared w) = outstanding w /\ outstanding w <= signaling_limit /\
  (created w <> [] -> is_Some (webrtc (backends (shared w)))) /\
  created w ≡ₚ delivered w ++ withdrawn w ++ ids (routed w) ++ ids (posted w) ++ (writing w ≫= named).

Lemma not_created_unnamed r : result r <> 201 -> named (send r "") = [].
Proof. intros H. unfold send. by rewrite bool_decide_false. Qed.

(** What the handler of a read does, apart from the body of the answer. *)
Definition read_spec (request : Request) (s : Shared manager) (r : outcome * Shared manager) : Prop :=
  match r.1 with
  | Posted request' _ => request' = request /\ is_whep request = true /\ signaling_jobs s < signaling_limit /\
      backends r.2 = backends s /\ signaling_jobs r.2 = signaling_jobs s + 1
  | Answer response => result response <> 201 /\ signaling_jobs r.2 = signaling_jobs s /\
      (is_Some (webrtc (backends s)) -> is_Some (webrtc (backends r.2)))
  | _ => r.2 = s
  end.

Lemma answering_spec request s b r : webrtc b = webrtc (backends s) -> quiet b r -> read_spec request s (answering s r).
Proof. intros Hb [H1 H2]. split_and!; [done|done|]. cbn. by rewrite <- Hb. Qed.

Lemma snapshot_webrtc readings (b : @Backends manager) : webrtc (snapshot_metrics readings b).2 = webrtc b.
Proof. unfold snapshot_metrics. by repeat case_match; simplify_eq/=. Qed.

Lemma on_read_spec readings health error request snapshot uptime s :
  0 <= signaling_jobs s <= signaling_limit ->
  read_spec request s
    (on_read ops show6 show17 is_upgrade canonical static_files signaling_limit readings health error request snapshot uptime s).
Proof.
  intros Hj. unfold on_read. destruct error; try (by cbn).
  destruct (is_upgrade request && _); [by cbn|]. set (path := path_of (target request)).
  destruct (negb _ && negb _ && negb _); [by split_and!; [apply static_not_created| |]|].
  destruct (_ && bool_decide (is_Some _)) eqn:Hw.
  - apply andb_true_iff in Hw as [Hw _]. unfold dispatch_whep.
    destruct (Z.leb_spec signaling_limit (signaling_jobs s)); cbn.
    + split_and!; [lia| |done]. unfold u64 in *. rewrite Zminus_mod_idemp_l, Z.mod_small; lia.
    + split_and!; try done. rewrite u64_small; lia.
  - assert (Hq : forall status b metrics health', webrtc b = webrtc (backends s) ->
      read_spec request s (answering s (route request status b metrics health'))).
    { intros status b metrics health' Hb. apply (answering_spec _ _ b); [done|]. apply route_unless_offered.
      rewrite Hb. apply andb_false_iff in Hw as [Hw|Hw]; [by left|right]. apply bool_decide_eq_false in Hw.
      by apply eq_None_not_Some. }
    destruct (bool_decide (path = "/api/v1/metrics") && _); [|destruct (_ && bool_decide (is_Some health)); by apply Hq].
    pose proof (snapshot_webrtc readings (backends s)) as Hb. destruct (snapshot_metrics readings (backends s)). by apply Hq.
Qed.

(** The manager's sessions have a name ([make_session_id] gives 32 hexadecimal digits). *)
Hypothesis Hid : forall offer m, WebRtc.error (create_session ops offer m).1 = WebRtc.None_ ->
  WebRtc.session_id (create_session ops offer m).1 <> "".

Lemma ids_delete k r rs : rs !! k = Some r -> ids rs ≡ₚ named (send r "") ++ ids (delete k rs).
Proof. intros H. unfold ids. by rewrite (delete_Permutation rs k r H) at 1. Qed.

Lemma ids_snoc rs r : ids (rs ++ [r]) = ids rs ++ named (send r "").
Proof. unfold ids. rewrite bind_app. cbn. by rewrite app_nil_r. Qed.

Lemma writing_snoc (ps : list string) p : (ps ++ [p]) ≫= named = (ps ≫= named) ++ named p.
Proof. rewrite bind_app. cbn. by rewrite app_nil_r. Qed.

Lemma inv_read readings health error request snapshot uptime w w' :
  inv w -> step (ReadDone readings health error request snapshot uptime) w = Some w' -> inv w'.
Proof.
  intros (J1 & J2 & J3 & J4 & J5) Hs. cbn [step] in Hs.
  pose proof (on_read_spec readings health error request snapshot uptime (shared w)) as Hr.
  destruct (on_read _ _ _ _ _ _ _ _ _ _ _ _ _ _) as [next s]. cbn [fst snd] in *.
  assert (Hj : 0 <= signaling_jobs (shared w) <= signaling_limit) by (unfold outstanding in *; lia). specialize (Hr Hj).
  destruct next as [|request'|request' status|r]; simplify_eq; unfold inv, outstanding in *; cbn in *.
  - destruct Hr. by split_and!.
  - destruct Hr. by split_and!.
  - destruct Hr as (-> & Hw & Hlt & Hb & Hn). rewrite length_app, Hb, Hn. cbn. split_and!; try done; try lia.
    apply Forall_app. split; [done|by constructor].
  - destruct Hr as (H201 & Hn & Hk). rewrite Hn. split_and!; auto.
    by rewrite writing_snoc, not_created_unnamed, app_nil_r.
Qed.

Lemma inv_routes k w w' : inv w -> step (Routes k) w = Some w' -> inv w'.
Proof.
  intros (J1 & J2 & J3 & J4 & J5) Hs. cbn [step] in Hs. apply bind_Some in Hs as ([request status] & Hk & Hs).
  pose proof (Forall_lookup_1 _ _ _ _ J1 Hk) as Hw. cbn in Hw.
  pose proof (whep_names request status (backends (shared w)) None None Hw Hid) as Hn. unfold job in Hs.
  pose proof (whep_kept request status (backends (shared w)) None None Hw) as Hkeep.
  destruct (route request status (backends (shared w)) None None) as [r b]. cbn in Hn, Hkeep. simplify_eq.
  unfold inv, outstanding in *. cbn. pose proof (lookup_lt_Some _ _ _ Hk). rewrite length_delete, length_app by done. cbn.
  split_and!; [by apply Forall_delete|lia|lia| |].
  - intros Hc. apply Hkeep. destruct (created w); [|by apply J4]. cbn in Hc. unfold creates in Hc. by destruct (webrtc _).
  - rewrite ids_snoc, J5, <- Hn. solve_Permutation.
Qed.

Lemma inv_finishes k w w' : inv w -> step (Finishes k) w = Some w' -> inv w'.
Proof.
  intros (J1 & J2 & J3 & J4 & J5) Hs. cbn [step] in Hs. apply bind_Some in Hs as (r & Hk & Hs). simplify_eq.
  unfold inv, outstanding in *. cbn. pose proof (lookup_lt_Some _ _ _ Hk). rewrite length_delete by done.
  split_and!; [done|rewrite u64_small; lia|lia|done|]. rewrite ids_snoc, J5, (ids_delete k r) by done. solve_Permutation.
Qed.

Lemma inv_sends k w w' : inv w -> step (Sends k) w = Some w' -> inv w'.
Proof.
  intros (J1 & J2 & J3 & J4 & J5) Hs. cbn [step] in Hs. apply bind_Some in Hs as (r & Hk & Hs). simplify_eq.
  unfold inv, outstanding in *. cbn. split_and!; [done..|].
  rewrite writing_snoc, J5, (ids_delete k r (posted w)) by done. solve_Permutation.
Qed.

Lemma inv_written k error w w' : inv w -> step (Written k error) w = Some w' -> inv w'.
Proof.
  intros (J1 & J2 & J3 & J4 & J5) Hs. cbn [step] in Hs. apply bind_Some in Hs as (pending & Hk & Hs). simplify_eq.
  unfold inv, outstanding in *. cbn.
  assert (Hp : created w ≡ₚ named pending ++ delivered w ++ withdrawn w ++ ids (routed w) ++ ids (posted w) ++
                             (delete k (writing w) ≫= named)).
  { rewrite J5. rewrite (delete_Permutation _ _ _ Hk) at 1. cbn. solve_Permutation. }
  split_and!; [done..| |].
  - intros Hc. specialize (J4 Hc). unfold on_written. by repeat case_match.
  - rewrite Hp. unfold withdraws. destruct error; cbn [andb option_list]; [|rewrite app_nil_r; solve_Permutation].
    unfold named in *. case_bool_decide as Hx; cbn [negb andb option_list app]; [by rewrite app_nil_r|].
    rewrite bool_decide_true; [cbn; solve_Permutation|]. apply J4. intros E. rewrite E in Hp. cbn in Hp.
    by apply Permutation_nil_cons in Hp.
Qed.

Lemma signaling_inv_execute actions w w' : inv w -> execute actions w = Some w' -> inv w'.
Proof.
  revert w. induction actions as [|a actions IH]; intros w H Hx; cbn [execute] in Hx; [by simplify_eq|].
  apply bind_Some in Hx as (w1 & Hs & Hx). apply (IH w1); [|done].
  destruct a; eauto using inv_read, inv_routes, inv_finishes, inv_sends, inv_written.
Qed.

Lemma inv_starting b : inv (starting b).
Proof. unfold inv, outstanding. cbn. split_and!; try done; try constructor; lia. Qed.


(** The limit on signaling jobs is exact and never leaks: in every reachable state the atomic
    counter is the number of offers handed to the pool and not yet finished, at most the limit; and
    the next offer is refused with 429 when that number has reached the limit and handed to the pool
    otherwise. *)
Theorem whep_admission_exact actions b w request status (Hx : execute actions (starting b) = Some w) :
  signaling_jobs (shared w) = outstanding w /\ outstanding w <= signaling_limit /\
  dispatch_whep signaling_limit request status (shared w) =
    (if outstanding w =? signaling_limit then (Answer (json_error 429 "signaling queue is full"), shared w)
     else (Posted request status, mkShared (backends (shared w)) (outstanding w + 1))).
Proof.
  destruct (signaling_inv_execute _ _ _ (inv_starting b) Hx) as (_ & Hn & Hl & _). split; [done|]. split; [done|].
  unfold dispatch_whep. cbn. rewrite Hn. pose proof (Nat2Z.is_nonneg (length (jobs w) + length (routed w))) as H0.
  fold (outstanding w) in H0. destruct (Z.leb_spec signaling_limit (outstanding w)), (Z.eqb_spec (outstanding w) signaling_limit); try lia.
  - do 2 f_equal. destruct (shared w) as [b' n]. cbn in *. f_equal. unfold u64. rewrite Zminus_mod_idemp_l, Z.mod_small; lia.
  - rewrite u64_small by lia. done.
Qed.
End World.

(** A manager that numbers its sessions. *)
Definition numbering : WebRtcOps nat :=
  mkOps nat (fun _ => WebRtc.no_diagnostics)
    (fun _ n => (WebRtc.mkResult WebRtc.None_ ("s" +:+ to_string (Z.of_nat n)) "answer" "", S n)) (fun _ n => (true, n)).

Definition sample_world : World nat :=
  starting (mkBackends (Api.make_api None None) None None (Some 0%nat)).
Definition offer : Request := mkRequest Post whep_path 11 "application/sdp" "v=0".
Definition no_readings : Readings := mkReadings None None 0 (Metrics.mkSystem None None None None).
Definition reads_offer : action := ReadDone no_readings None NoError offer RouterFacts.sample_status 0.
Definition no_files : StaticFiles.StaticFileHandler := StaticFiles.mkHandler "" ∅ "".

(** Two offers; the first answer cannot be written, the second can. *)
Definition two_offers : list action :=
  [reads_offer; Routes 0; reads_offer; Finishes 0; Sends 0; Written 0 true; Routes 0; Finishes 0; Sends 0; Written 0 false].

Definition run_offers (actions : list action) : option (World nat) :=
  execute numbering RouterFacts.show_nothing RouterFacts.show_nothing (fun _ => false) (fun _ => None) no_files 2
    actions sample_world.
Definition served : World nat := default sample_world (run_offers two_offers).

Lemma numbering_named offer n : WebRtc.session_id (create_session numbering offer n).1 <> "".
Proof. done. Qed.


Definition busy : World nat := default sample_world (run_offers [reads_offer; reads_offer]).

Lemma whep_admission_exact_witness :
  outstanding busy = 2 /\
  (dispatch_whep 2 offer RouterFacts.sample_status (shared busy)).1 = Answer (json_error 429 "signaling queue is full").
Proof.
  assert (Hx : run_offers [reads_offer; reads_offer] = Some busy) by (vm_compute; reflexivity).
  destruct (whep_admission_exact numbering RouterFacts.show_nothing RouterFacts.show_nothing (fun _ => false)
    (fun _ => None) no_files 2 ltac:(lia) (fun o m _ => numbering_named o m) [reads_offer; reads_offer] _ busy offer
    RouterFacts.sample_status Hx) as (_ & _ & H).
  split; [by vm_compute|]. rewrite H. by vm_compute.
Defined.
End Signaling.
