(* ===== verification/WebServer.v ===== *)
(** * The server's clients and its lifecycle ([src/web/http_server.cpp])

    [Registry] is the list of WebSocket clients the server keeps (weak pointers)
    together with the clients themselves, under any order of their handlers;
    [Server] is the module: [initialize], [start], [stop] with the handler it
    posts, and [wait]. *)

From S2P Require Import Prelude Strings Floats ConfigData Diagnostics Events Health ApiState Router StaticFiles WebSocket HttpServer.

Module Registry.
Import Socket Client.

(** Live session objects by identity, and [State::sessions]; a weak pointer has
    expired when its object is not live. *)
Record Registry := mkRegistry {
  clients : gmap nat Client;
  sessions : list nat;
}.

Definition live (r : Registry) (id : nat) : bool := bool_decide (is_Some (clients r !! id)).

(** [sessions.erase(std::remove_if(... weak.expired()))]. *)
Definition prune (r : Registry) : list nat := filter (fun id => live r id = true) (sessions r).

Definition register_session (id : nat) (r : Registry) : Registry := mkRegistry (clients r) (prune r ++ [id]).
Definition unregister_session (id : nat) (r : Registry) : Registry :=
  mkRegistry (clients r) (filter (fun i => i <> id) (prune r)).

(** The part of [snapshot_metrics] that counts clients. *)
Definition count_clients (r : Registry) : Z * Registry :=
  (Z.of_nat (length (prune r)), mkRegistry (clients r) (prune r)).

(** The part of the stop handler that stops the clients. *)
Definition stop_client (cs : gmap nat Client) (id : nat) : gmap nat Client :=
  match cs !! id with
  | Some c => match step Stop c with Some c' => <[id := c']> cs | None => cs end
  | None => cs
  end.
Definition stop_clients (r : Registry) : bool * Registry :=
  (negb (bool_decide (prune r = [])), mkRegistry (foldl stop_client (clients r) (prune r)) (prune r)).

(** What a handler of client [id] does to the list: [on_accept] registers, and
    [cleanup] unregisters when it closes the session. *)
Definition update (id : nat) (c c' : Client) (r : Registry) : Registry :=
  let r := mkRegistry (<[id := c']> (clients r)) (sessions r) in
  if negb (closed_ (session c)) && closed_ (session c') then unregister_session id r
  else if negb (registered c) && registered c' then register_session id r else r.

(** Nothing holds the object: no operation that would call one of its handlers. *)
Definition unused (c : Client) : bool :=
  negb (accepting c) && (writes c + reads c + timers c + closes c + drains c =? 0)%nat.

Inductive action :=
  | Connects (id : nat)
  | Handles (id : nat) (a : Client.action)
  | Destroyed (id : nat)
  | Counts
  | StopsAll.

Definition step (a : action) (r : Registry) : option Registry :=
  match a with
  | Connects id => if live r id then None else Some (mkRegistry (<[id := connecting]> (clients r)) (sessions r))
  | Handles id a => c ← clients r !! id; c' ← Client.step a c; Some (update id c c' r)
  | Destroyed id =>
    c ← clients r !! id; if unused c then Some (mkRegistry (delete id (clients r)) (sessions r)) else None
  | Counts => Some (count_clients r).2
  | StopsAll => Some (stop_clients r).2
  end.

Fixpoint execute (actions : list action) (r : Registry) : option Registry :=
  match actions with
  | [] => Some r
  | a :: rest => r' ← step a r; execute rest r'
  end.

(** [Stop] comes from the server only. *)
Definition proper (a : action) : Prop :=
  match a with Handles _ Client.Stop => False | Handles _ a => Client.proper a | _ => True end.

(** *** The list is exact *)

Definition inv (r : Registry) : Prop :=
  map_Forall (fun _ c => Client.inv c) (clients r) /\ NoDup (sessions r) /\
  forall id, id ∈ sessions r <-> exists c, clients r !! id = Some c /\ registered c = true.

Lemma prune_all r : inv r -> prune r = sessions r.
Proof.
  intros (_ & _ & H). unfold prune. apply filter_everything, Forall_forall. intros id Hid.
  apply H in Hid as (c & Hc & _). unfold live. rewrite Hc. done.
Qed.

Lemma accepting_foldl es c : accepting (foldl start c es) = accepting c.
Proof. revert c. induction es as [|e es IH]; intros c; [done|]. cbn. rewrite IH. by destruct e. Qed.

Lemma accepted_stays a c c' : Client.step a c = Some c' -> accepting c = false -> accepting c' = false.
Proof.
  intros Hs Ha. destruct a; cbn [Client.step] in Hs; case_match; simplify_eq; unfold ran; rewrite accepting_foldl; done.
Qed.

(** Who is in the server's list. *)
Lemma registered_spec c : Client.inv c -> registered c = true <-> accepting c = false /\ closed_ (session c) = false.
Proof.
  intros (_ & _ & _ & (K1 & K2 & K3)). split.
  - intros Hr. destruct (accepting c); [destruct (K1 eq_refl) as (_ & ? & _); congruence|].
    destruct (closed_ (session c)); [specialize (K3 eq_refl); congruence|done].
  - intros [Ha Hc]. by apply K2.
Qed.

Lemma inv_update id a c c' r : inv r -> clients r !! id = Some c -> Client.proper a -> Client.step a c = Some c' ->
  inv (update id c c' r).
Proof.
  intros H Hc Hp Hs. pose proof H as (I1 & I2 & I3). pose proof (map_Forall_lookup_1 _ _ _ _ I1 Hc) as Ic. cbn in Ic.
  pose proof (Client.client_inv_step _ _ _ Ic Hp Hs) as Ic'.
  pose proof (registered_spec c Ic) as Rc. pose proof (registered_spec c' Ic') as Rc'.
  pose proof (accepted_stays _ _ _ Hs) as Ha.
  set (r0 := mkRegistry (<[id := c']> (clients r)) (sessions r)).
  assert (J1 : map_Forall (fun _ c => Client.inv c) (clients r0)) by (by apply map_Forall_insert_2).
  assert (Hpr : prune r0 = sessions r).
  { unfold prune. apply filter_everything, Forall_forall. intros i Hi. unfold live. cbn.
    apply bool_decide_eq_true. destruct (decide (i = id)) as [->|Hne]; [by rewrite lookup_insert_eq|].
    rewrite lookup_insert_ne by done. apply I3 in Hi as (x & Hx & _). eauto. }
  assert (Hin : id ∈ sessions r <-> registered c = true).
  { rewrite I3. split; [|eauto]. intros (x & Hx & Hr). congruence. }
  assert (Hothers : forall i, i <> id -> (i ∈ sessions r <-> exists x, clients r0 !! i = Some x /\ registered x = true)).
  { intros i Hi. rewrite I3. cbn. by rewrite lookup_insert_ne. }
  assert (Hself : (exists x, clients r0 !! id = Some x /\ registered x = true) <-> registered c' = true).
  { cbn. rewrite lookup_insert_eq. split; [intros (x & Hx & ?); by simplify_eq|eauto]. }
  unfold update. fold r0. destruct (negb (closed_ (session c)) && closed_ (session c')) eqn:E1.
  { assert (Hr' : registered c' = false).
    { apply not_true_iff_false. intros Hr'. apply Rc' in Hr' as [_ Hr']. rewrite Hr', andb_false_r in E1. done. }
    unfold unregister_session. rewrite Hpr. split; [exact J1|]. split; [by apply NoDup_filter|].
    intros i. cbn [sessions clients]. rewrite list_elem_of_filter. destruct (decide (i = id)) as [->|Hne].
    - cbn in Hself |- *. rewrite Hself, Hr'. by split; [intros []|].
    - rewrite (Hothers i Hne). tauto. }
  destruct (negb (registered c) && registered c') eqn:E2.
  { apply andb_true_iff in E2 as [Hr%negb_true_iff Hr']. unfold register_session. rewrite Hpr. split; [exact J1|].
    split.
    - apply NoDup_app. split_and!; [done| |apply NoDup_singleton].
      intros i Hi ->%list_elem_of_singleton. apply Hin in Hi. congruence.
    - intros i. cbn [sessions clients]. rewrite elem_of_app, list_elem_of_singleton.
      destruct (decide (i = id)) as [->|Hne]; [cbn in Hself |- *; rewrite Hself; tauto|]. rewrite (Hothers i Hne). tauto. }
  assert (Hsame : registered c = registered c').
  { destruct (registered c) eqn:Hr, (registered c') eqn:Hr'; try done. destruct (proj1 Rc eq_refl) as [Hac Hcl].
    rewrite Hcl in E1. cbn in E1. assert (false = true) by (apply Rc'; auto). done. }
  split; [exact J1|]. split; [exact I2|]. intros i. destruct (decide (i = id)) as [->|Hne].
  - rewrite Hself, <- Hsame. exact Hin.
  - by apply Hothers.
Qed.

Lemma inv_destroyed id c r : inv r -> clients r !! id = Some c -> unused c = true ->
  inv (mkRegistry (delete id (clients r)) (sessions r)).
Proof.
  intros (I1 & I2 & I3) Hc Hu. pose proof (map_Forall_lookup_1 _ _ _ _ I1 Hc) as Ic. cbn in Ic.
  apply andb_true_iff in Hu as [Ha%negb_true_iff Hu%Nat.eqb_eq].
  assert (Hr : registered c = false).
  { apply not_true_iff_false. intros [_ Hcl]%registered_spec; [|done]. destruct Ic as (_ & _ & _ & (_ & K & _)).
    destruct (K Ha Hcl). lia. }
  split; [by apply map_Forall_delete|]. split; [done|]. intros i. cbn. rewrite I3.
  destruct (decide (i = id)) as [->|Hne]; [|by rewrite lookup_delete_ne].
  rewrite lookup_delete_eq. split; intros (x & Hx & Hrx); congruence.
Qed.

(** *** Stopping every client *)

Lemma session_foldl es c : session (foldl start c es) = session c.
Proof. revert c. induction es as [|e es IH]; intros c; [done|]. cbn. rewrite IH. by destruct e. Qed.

Lemma stop_flags s : closed_ s = false -> closed_ (stop s).2 = false /\ stopping_ (stop s).2 = true.
Proof.
  intros Hc. unfold stop, begin_close. rewrite Hc. destruct (stopping_ s) eqn:Hs; cbn; [by rewrite Hc, Hs|].
  destruct (bool_decide _); [destruct (closing_ s)|]; done.
Qed.

Lemma stop_step c : Client.inv c -> registered c = true ->
  exists c', Client.step Stop c = Some c' /\ Client.inv c' /\ registered c' = true /\ stopping_ (session c') = true.
Proof.
  intros Hi Hr. destruct (proj1 (registered_spec c Hi) Hr) as [Ha Hc]. destruct (stop_flags _ Hc) as [Hc' Hs'].
  cbn [Client.step]. rewrite Hr. eexists. split; [done|]. pose proof (Client.client_inv_stop c Hi Hr) as Hi'.
  split; [done|]. split; [|unfold ran; by rewrite session_foldl].
  apply registered_spec; [done|]. split; [|unfold ran; by rewrite session_foldl]. unfold ran. by rewrite accepting_foldl.
Qed.

(** The clients after some were stopped. *)
Definition stopped_some (cs cs' : gmap nat Client) : Prop :=
  forall id, match cs !! id, cs' !! id with
             | Some c, Some c' => Client.inv c' /\ registered c' = registered c /\
                                  (stopping_ (session c) = true -> stopping_ (session c') = true)
             | None, None => True
             | _, _ => False
             end.

Lemma stopped_some_refl cs : map_Forall (fun _ c => Client.inv c) cs -> stopped_some cs cs.
Proof. intros H id. destruct (cs !! id) eqn:E; [|done]. split; [exact (H _ _ E)|done]. Qed.

Lemma stopped_some_trans cs1 cs2 cs3 : stopped_some cs1 cs2 -> stopped_some cs2 cs3 -> stopped_some cs1 cs3.
Proof.
  intros H1 H2 id. specialize (H1 id). specialize (H2 id). destruct (cs1 !! id), (cs2 !! id), (cs3 !! id); try done.
  destruct H1 as (? & ? & ?), H2 as (? & ? & ?). split_and!; [done|congruence|auto].
Qed.

Lemma stopped_some_inv cs cs' : stopped_some cs cs' -> map_Forall (fun _ c => Client.inv c) cs'.
Proof. intros H id c Hc. specialize (H id). rewrite Hc in H. destruct (cs !! id); [apply H|done]. Qed.

Lemma stop_client_spec cs id : map_Forall (fun _ c => Client.inv c) cs ->
  (exists c, cs !! id = Some c /\ registered c = true) ->
  stopped_some cs (stop_client cs id) /\
  (forall c', stop_client cs id !! id = Some c' -> stopping_ (session c') = true).
Proof.
  intros H (c & Hc & Hr). destruct (stop_step c (H _ _ Hc) Hr) as (c' & Hs & Hi & Hr' & Hst).
  unfold stop_client. rewrite Hc, Hs. split.
  - intros i. destruct (decide (i = id)) as [->|Hne].
    + rewrite Hc, lookup_insert_eq. split_and!; [done|congruence|done].
    + rewrite lookup_insert_ne by done. apply stopped_some_refl, H.
  - intros x. rewrite lookup_insert_eq. by intros [= <-].
Qed.

Lemma stop_all_spec l cs : map_Forall (fun _ c => Client.inv c) cs ->
  Forall (fun id => exists c, cs !! id = Some c /\ registered c = true) l ->
  stopped_some cs (foldl stop_client cs l) /\
  (forall id c', id ∈ l -> foldl stop_client cs l !! id = Some c' -> stopping_ (session c') = true).
Proof.
  revert cs. induction l as [|i l IH]; intros cs H Hl; cbn [foldl].
  { split; [by apply stopped_some_refl|]. by intros id c' ?%elem_of_nil. }
  apply Forall_cons in Hl as [Hi Hl]. destruct (stop_client_spec cs i H Hi) as [S1 S2].
  assert (Hl' : Forall (fun id => exists c, stop_client cs i !! id = Some c /\ registered c = true) l).
  { eapply Forall_impl; [exact Hl|]. intros id (c & Hc & Hr). specialize (S1 id). rewrite Hc in S1.
    destruct (stop_client cs i !! id) as [c'|]; [|done]. exists c'. split; [done|]. destruct S1 as (_ & -> & _). done. }
  destruct (IH _ (stopped_some_inv _ _ S1) Hl') as [S3 S4]. split; [by eapply stopped_some_trans|].
  intros id c' [->|Hid]%elem_of_cons Hc'; [|by eapply S4].
  specialize (S3 i). rewrite Hc' in S3. destruct (stop_client cs i !! i) as [x|] eqn:Hx; [|done].
  apply S3. by apply S2.
Qed.

Lemma inv_stop_clients r : inv r -> inv (stop_clients r).2.
Proof.
  intros H. unfold stop_clients. rewrite (prune_all r H). destruct H as (I1 & I2 & I3).
  destruct (stop_all_spec (sessions r) (clients r) I1) as [S _]; [apply Forall_forall; intros id; apply I3|].
  split; [by eapply stopped_some_inv|]. split; [done|]. intros id. cbn. rewrite I3. specialize (S id).
  destruct (clients r !! id) as [c|], (foldl _ _ _ !! id) as [c'|]; try done.
  destruct S as (_ & S & _). split; intros (x & Hx & Hrx); simplify_eq; eexists; (split; [done|congruence]).
Qed.

Lemma registry_inv_step a r r' : inv r -> proper a -> step a r = Some r' -> inv r'.
Proof.
  intros H Hp Hs. destruct a as [id|id a|id| |]; cbn [step proper] in *.
  - unfold live in Hs. case_bool_decide as Hl; [done|]. simplify_eq. destruct H as (I1 & I2 & I3).
    apply eq_None_not_Some in Hl.
    split; [apply map_Forall_insert_2; [apply inv_connecting|done]|]. split; [done|]. intros i. cbn. rewrite I3.
    destruct (decide (i = id)) as [->|Hne]; [|by rewrite lookup_insert_ne]. rewrite lookup_insert_eq, Hl.
    split; [by intros (? & ? & ?)|]. intros (x & Hx & Hr). by simplify_eq.
  - apply bind_Some in Hs as (c & Hc & Hs). apply bind_Some in Hs as (c' & Hs & Hr). simplify_eq.
    apply (inv_update id a); try done. by destruct a.
  - apply bind_Some in Hs as (c & Hc & Hs). destruct (unused c) eqn:Hu; [|done]. simplify_eq. by eapply inv_destroyed.
  - simplify_eq. cbn. rewrite (prune_all r H). by destruct r.
  - simplify_eq. by apply inv_stop_clients.
Qed.

Lemma registry_inv_execute actions r r' : inv r -> Forall proper actions -> execute actions r = Some r' -> inv r'.
Proof.
  revert r. induction actions as [|a actions IH]; intros r H Hp Hx; cbn [execute] in Hx; [by simplify_eq|].
  apply Forall_cons in Hp as [Ha Hp]. apply bind_Some in Hx as (r1 & Hs & Hx). eauto using registry_inv_step.
Qed.

Definition no_clients : Registry := mkRegistry ∅ [].

Lemma inv_no_clients : inv no_clients.
Proof.
  split; [apply map_Forall_empty|]. split; [constructor|]. intros id. cbn. rewrite elem_of_nil.
  split; [done|]. intros (c & Hc & _). by rewrite lookup_empty in Hc.
Qed.

(** The clients that are connected: the handshake succeeded and nothing closed them. *)
Definition connected (c : Client) : Prop := accepting c = false /\ closed_ (session c) = false.

#[local] Instance connected_dec c : Decision (connected c).
Proof. apply _. Defined.

Lemma listed r : inv r -> forall id, id ∈ sessions r <-> exists c, clients r !! id = Some c /\ connected c.
Proof.
  intros (I1 & _ & I3) id. rewrite I3. unfold connected.
  split; intros (c & Hc & H); exists c; (split; [done|]); by apply (registered_spec c (I1 _ _ Hc)).
Qed.

(** The server's list of WebSocket clients is exact: whatever the order in which clients connect,
    their handlers run, they are destroyed, counted and stopped, the list has no duplicates, holds
    exactly the clients that are connected, and never an expired pointer; so [websocket_clients] in
    the metrics is the number of connected clients. *)
Theorem websocket_list_exact actions r (Hp : Forall proper actions) (Hx : execute actions no_clients = Some r) :
  NoDup (sessions r) /\ prune r = sessions r /\
  (forall id, id ∈ sessions r <-> exists c, clients r !! id = Some c /\ connected c) /\
  (count_clients r).1 = Z.of_nat (size (filter (fun p => connected p.2) (clients r))).
Proof.
  pose proof (registry_inv_execute _ _ _ inv_no_clients Hp Hx) as H. pose proof (listed r H) as Hl.
  pose proof (prune_all r H) as Hpr. destruct H as (_ & H2 & _). split_and!; try done.
  cbn. rewrite Hpr. f_equal. rewrite <- (size_list_to_set (C := gset nat) (sessions r)) by done.
  rewrite <- size_dom. f_equal. apply leibniz_equiv. intros id. rewrite elem_of_list_to_set, Hl, elem_of_dom.
  unfold is_Some. setoid_rewrite map_lookup_filter_Some. done.
Qed.

(** Stopping the server reaches every WebSocket client: the handler it posts reports clients exactly
    when one is connected, and leaves every connected one asked to stop with exactly one operation
    under way, the write or the close that ends it. *)
Theorem server_stop_reaches_clients actions r (Hp : Forall proper actions) (Hx : execute actions no_clients = Some r) :
  let '(has_websockets, r') := stop_clients r in
  (has_websockets = true <-> exists id c, clients r !! id = Some c /\ connected c) /\
  (forall id c', clients r' !! id = Some c' -> connected c' ->
     stopping_ (session c') = true /\ (writes c' + closes c')%nat = 1%nat).
Proof.
  pose proof (registry_inv_execute _ _ _ inv_no_clients Hp Hx) as H. pose proof (listed r H) as Hl.
  pose proof (inv_stop_clients r H) as H'. pose proof (listed _ H') as Hl'. unfold stop_clients in *. cbn [fst snd] in *.
  rewrite (prune_all r H) in *. destruct H as (I1 & I2 & I3).
  destruct (stop_all_spec (sessions r) (clients r) I1) as [S1 S2]; [apply Forall_forall; intros id; apply I3|]. split.
  - rewrite negb_true_iff, bool_decide_eq_false. split.
    + destruct (sessions r) as [|id l] eqn:E; [done|]. intros _. exists id. apply Hl. constructor.
    + intros (id & Hid) E. apply Hl in Hid. rewrite E in Hid. by apply elem_of_nil in Hid.
  - intros id c' Hc' Hcon. assert (Hid : id ∈ sessions r) by (apply Hl'; eauto).
    pose proof (S2 id c' Hid Hc') as Hst. split; [exact Hst|].
    destruct H' as (J1 & _). apply (Client.owed c'); [exact (J1 _ _ Hc')|exact Hst|apply Hcon].
Qed.

(** Two clients, one of which fails in the handshake. *)
Definition two_clients : list action :=
  [Connects 0; Connects 1; Handles 0 (Accepted false 7 "status" "gps"); Handles 1 (Accepted true 8 "s" "g"); Destroyed 1].
Definition two_registry : Registry := default no_clients (execute two_clients no_clients).

Lemma two_proper : Forall proper two_clients.
Proof. by repeat constructor. Qed.

Lemma two_executes : execute two_clients no_clients = Some two_registry.
Proof. vm_compute. reflexivity. Qed.

Lemma websocket_list_exact_witness : sessions two_registry = [0%nat] /\ (count_clients two_registry).1 = 1.
Proof.
  destruct (websocket_list_exact two_clients two_registry two_proper two_executes) as (_ & _ & _ & H).
  split; [by vm_compute|]. rewrite H. by vm_compute.
Defined.

Lemma server_stop_reaches_clients_witness :
  (stop_clients two_registry).1 = true /\
  exists c, clients (stop_clients two_registry).2 !! 0%nat = Some c /\ stopping_ (session c) = true.
Proof.
  pose proof (server_stop_reaches_clients two_clients two_registry two_proper two_executes) as H.
  split; [by vm_compute|].
  destruct (stop_clients two_registry) as [has r'] eqn:E. destruct H as [_ H].
  assert (Hc : exists c, clients r' !! 0%nat = Some c /\ connected c)
    by (apply (f_equal snd) in E; cbn in E; rewrite <- E; eexists; split; [vm_compute; reflexivity|by vm_compute]).
  destruct Hc as (c & Hc & Hcon). exists c. split; [exact Hc|]. apply (H 0%nat c Hc Hcon).
Defined.
End Registry.

(** ** The module *)

Module Server.
Import Http Router.

(** [HttpServer::State]: the parts the lifecycle depends on.  [stopped] is the
    event loop's own flag ([context.stop()]); [finished]: [context.run()] has
    returned in the worker. *)
Record State := mkState {
  port : Z;
  signaling_limit : Z;
  acceptor_open : bool;
  stopped : bool;
  joinable : bool;
  finished : bool;
  stop_posted : nat;
  timer_pending : bool;
  started : Z;
  registry : Registry.Registry;
}.

Record HttpServer {manager : Type} := mkServer {
  backends_ : @Backends manager;
  state_ : option State;
  serving_ : bool;
  log : list string;
}.
Arguments HttpServer : clear implicits.
Arguments mkServer {_}.

Section Module_.
Context {manager : Type} (configure_manager : Cfg.WebrtcConfig -> manager -> manager) (shutdown_manager : manager -> manager).

Definition on_webrtc (f : manager -> manager) (b : @Backends manager) : @Backends manager :=
  match webrtc b with Some m => set_webrtc (f m) b | None => b end.

(** The constructor binds the status board to the API state. *)
Definition make_server (b : @Backends manager) (status : Status.RuntimeStatus) : HttpServer manager :=
  mkServer (set_api (Api.bind_runtime_status (Some status) (api b)) b) None false [].

(** [files]: the handler made for [web.root]; [address]: whether [make_address]
    reads [web.bind]; [listen]: opening, binding and listening on a port, with the
    port that was bound. *)
Definition initialize (c : Cfg.Config) (files : StaticFiles.StaticFileHandler) (address : bool) (listen : Z -> throws Z)
    (h : HttpServer manager) : bool * HttpServer manager :=
  match state_ h with
  | Some _ => (false, h)
  | None =>
    let b := set_api (Api.configure c (api (backends_ h))) (backends_ h) in
    let fails message := (false, mkServer b None (serving_ h) (log h ++ [message])) in
    if negb (StaticFiles.valid files) then fails (StaticFiles.error files)
    else if negb address then fails "web.bind must be an IP address"
    else match listen (Cfg.port (Cfg.web c) mod 65536) with
         | inl e => fails ("cannot listen: " +:+ e)
         | inr bound =>
           (true, mkServer (on_webrtc (configure_manager (Cfg.webrtc c)) b)
              (Some (mkState bound (Z.max 1 (Cfg.max_peers (Cfg.webrtc c))) true false false false 0 false 0
                 Registry.no_clients)) (serving_ h) (log h))
         end
  end.

Definition with_state (st : State) (serving : bool) (h : HttpServer manager) : HttpServer manager :=
  mkServer (backends_ h) (Some st) serving (log h).

Definition start (now : Z) (h : HttpServer manager) : bool * HttpServer manager :=
  match state_ h with
  | None => (false, h)
  | Some st =>
    if joinable st then (false, h)
    else (true, mkServer (backends_ h)
            (Some (mkState (port st) (signaling_limit st) (acceptor_open st) (stopped st) true false (stop_posted st)
               (timer_pending st) now (registry st))) true
            (log h ++ ["HTTP server started on port " +:+ to_string (port st)]))
  end.

(** [throws]: posting the handler threw. *)
Definition stop (throws : bool) (h : HttpServer manager) : HttpServer manager :=
  let h := mkServer (on_webrtc shutdown_manager (backends_ h)) (state_ h) (serving_ h) (log h) in
  match state_ h with
  | None => h
  | Some st =>
    let keep acceptor stopped posted :=
      with_state (mkState (port st) (signaling_limit st) acceptor stopped (joinable st) (finished st) posted
                    (timer_pending st) (started st) (registry st)) (serving_ h) h in
    if negb (joinable st) then keep false true (stop_posted st)
    else if throws then keep (acceptor_open st) true (stop_posted st)
    else keep (acceptor_open st) (stopped st) (S (stop_posted st))
  end.

(** The posted handler. *)
Definition on_stop (st : State) : State :=
  let '(has_websockets, r) := Registry.stop_clients (registry st) in
  mkState (port st) (signaling_limit st) false (negb has_websockets || stopped st) (joinable st) (finished st)
    (stop_posted st - 1) (has_websockets || timer_pending st) (started st) r.

(** [wait] blocks while the worker runs. *)
Definition wait (h : HttpServer manager) : option (HttpServer manager) :=
  match state_ h with
  | None => Some h
  | Some st => if joinable st && negb (finished st) then None else Some (mkServer (backends_ h) None (serving_ h) (log h))
  end.

Definition get_port (h : HttpServer manager) : Z := match state_ h with Some st => port st | None => 0 end.
Definition serving (h : HttpServer manager) : bool := serving_ h.

(** *** Calls and the event loop *)

Inductive action :=
  | Initialize (c : Cfg.Config) (files : StaticFiles.StaticFileHandler) (address : bool) (listen : Z -> throws Z)
  | Start (now : Z)
  | Stop (throws : bool)
  | Wait
  | LoopClient (a : Registry.action)
  | LoopStop
  | LoopTimer
  | LoopReturns.

(** The loop runs handlers until it is stopped. *)
Definition looping (st : State) : bool := joinable st && negb (finished st) && negb (stopped st).

Definition with_registry (r : Registry.Registry) (st : State) : State :=
  mkState (port st) (signaling_limit st) (acceptor_open st) (stopped st) (joinable st) (finished st) (stop_posted st)
    (timer_pending st) (started st) r.
Definition on_timer (st : State) : State :=
  mkState (port st) (signaling_limit st) (acceptor_open st) true (joinable st) (finished st) (stop_posted st)
    false (started st) (registry st).
Definition returned (st : State) : State :=
  mkState (port st) (signaling_limit st) (acceptor_open st) (stopped st) (joinable st) true (stop_posted st)
    (timer_pending st) (started st) (registry st).

Definition step (a : action) (h : HttpServer manager) : option (HttpServer manager) :=
  let on_loop f := st ← state_ h; if looping st then st' ← f st; Some (with_state st' (serving_ h) h) else None in
  match a with
  | Initialize c files address listen => Some (initialize c files address listen h).2
  | Start now => Some (start now h).2
  | Stop throws => Some (stop throws h)
  | Wait => wait h
  | LoopClient a => on_loop (fun st => r ← Registry.step a (registry st); Some (with_registry r st))
  | LoopStop => on_loop (fun st => if (0 <? stop_posted st)%nat then Some (on_stop st) else None)
  | LoopTimer => on_loop (fun st => if timer_pending st then Some (on_timer st) else None)
  | LoopReturns =>
    st ← state_ h;
    if joinable st && negb (finished st) && stopped st then Some (with_state (returned st) false h) else None
  end.

Fixpoint execute (actions : list action) (h : HttpServer manager) : option (HttpServer manager) :=
  match actions with
  | [] => Some h
  | a :: rest => h' ← step a h; execute rest h'
  end.

(** [serving()] tells whether the worker runs. *)
Definition runs (h : HttpServer manager) : bool :=
  match state_ h with Some st => joinable st && negb (finished st) | None => false end.
Definition inv (h : HttpServer manager) : Prop := serving_ h = runs h.

Lemma server_inv_step a h h' : inv h -> step a h = Some h' -> inv h'.
Proof.
  unfold inv, runs, step, initialize, start, stop, wait, on_stop.
  intros H Hs. destruct a; repeat (case_match; simplify_eq/=); simplify_option_eq; try done.
  - by rewrite H1.
  - by rewrite andb_false_r.
Qed.

Lemma server_inv_execute actions h h' : inv h -> execute actions h = Some h' -> inv h'.
Proof.
  revert h. induction actions as [|a actions IH]; intros h H Hx; cbn [execute] in Hx; [by simplify_eq|].
  apply bind_Some in Hx as (h1 & Hs & Hx). eauto using server_inv_step.
Qed.

Definition loop_event (a : action) : bool := match a with LoopStop | LoopTimer | LoopReturns => true | _ => false end.

(** The loop's own handlers that end the worker once [stop] was called. *)
Lemma worker_ends throws h : exists rest, Forall (fun a => loop_event a = true) rest /\ (length rest <= 3)%nat /\
  exists h', execute rest (stop throws h) = Some h' /\ runs h' = false.
Proof.
  destruct (runs (stop throws h)) eqn:Hr; [|by exists []; split_and!; [constructor|simpl; lia|eauto]].
  unfold runs, stop in Hr. cbn in Hr. destruct (state_ h) as [st|] eqn:Hst; [|done].
  assert (Hrun : joinable st && negb (finished st) = true) by (by destruct (joinable st), throws).
  pose proof Hrun as [Hj Hf%negb_true_iff]%andb_true_iff. unfold stop. cbn [state_]. rewrite Hst, Hj. cbn [negb].
  destruct throws.
  { exists [LoopReturns]. split_and!; [by repeat constructor|simpl; lia|]. cbn. rewrite Hf. cbn. eauto. }
  destruct (stopped st) eqn:Hs.
  { exists [LoopReturns]. split_and!; [by repeat constructor|simpl; lia|]. cbn. rewrite Hf. cbn. eauto. }
  destruct (Registry.stop_clients (registry st)) as [has r] eqn:Hc. destruct has.
  - exists [LoopStop; LoopTimer; LoopReturns]. split_and!; [by repeat constructor|simpl; lia|].
    cbn -[Registry.stop_clients]. unfold looping, on_stop. cbn -[Registry.stop_clients]. rewrite Hf. cbn -[Registry.stop_clients]. rewrite Hc. cbn. rewrite ?Hf. cbn. eauto.
  - exists [LoopStop; LoopReturns]. split_and!; [by repeat constructor|simpl; lia|].
    cbn -[Registry.stop_clients]. unfold looping, on_stop. cbn -[Registry.stop_clients]. rewrite Hf. cbn -[Registry.stop_clients]. rewrite Hc. cbn. rewrite ?Hf. cbn. eauto.
Qed.

(** C14.   The server can always be shut down: after any sequence of calls and of handlers of the
    event loop, [stop] followed by at most three handlers of the loop (the one it posted, the timer
    that bounds the clients' goodbye, the return of the loop) lets [wait] return, and the server
    then has no state, reports port 0 and does not claim to serve. This holds whether posting the
    handler throws, whether clients are connected, and when the server never ran. *)
Theorem server_shutdown_completes actions b status throws h (Hx : execute actions (make_server b status) = Some h) :
  exists rest h', Forall (fun a => loop_event a = true) rest /\ (length rest <= 3)%nat /\
    execute (rest ++ [Wait]) (stop throws h) = Some h' /\
    state_ h' = None /\ get_port h' = 0 /\ serving h' = false.
Proof.
  assert (H : inv h) by (by apply (server_inv_execute _ _ _ (eq_refl : inv (make_server b status)) Hx)).
  assert (H0 : inv (stop throws h)) by (by apply (server_inv_step (Stop throws) h)).
  destruct (worker_ends throws h) as (rest & Hl & Hn & h1 & H1 & Hr). pose proof (server_inv_execute _ _ _ H0 H1) as Hi.
  exists rest, (mkServer (backends_ h1) None (serving_ h1) (log h1)). split; [done|]. split; [done|].
  assert (Happ : forall l h0, execute l h0 = Some h1 -> execute (l ++ [Wait]) h0 = execute [Wait] h1).
  { clear. intros l. induction l as [|a l IH]; intros h0 Hx; [cbn in Hx; by simplify_eq|].
    cbn [execute app] in *. apply bind_Some in Hx as (h2 & -> & Hx). by apply IH. }
  rewrite (Happ _ _ H1). unfold inv in Hi. rewrite Hr in Hi. split_and!; try done.
  cbn. unfold wait, runs in *. destruct (state_ h1) as [st|] eqn:Hst; [by rewrite Hr|]. cbn. by destruct h1; cbn in *; subst.
Qed.

(** [initialize] succeeds exactly when the server has no state yet, its assets
    loaded, the address was read and the port bound; a failure leaves the state and
    the WebRTC manager as they were. *)
Theorem initialize_exact c files address listen h :
  let '(done_, h') := initialize c files address listen h in
  (done_ = true <-> state_ h = None /\ StaticFiles.valid files = true /\ address = true /\
     exists p, listen (Cfg.port (Cfg.web c) mod 65536) = inr p /\ get_port h' = p) /\
  (done_ = false -> state_ h' = state_ h /\ webrtc (backends_ h') = webrtc (backends_ h)).
Proof.
  unfold initialize. destruct (state_ h) eqn:Hs; [by split; [split; [|intros [? _]]|]|].
  destruct (StaticFiles.valid files); cbn [negb]; [|by split; [split; [|intros (_ & ? & _)]|]].
  destruct address; cbn [negb]; [|by split; [split; [|intros (_ & _ & ? & _)]|]].
  destruct (listen _) as [e|p] eqn:Hl; (split; [split|]); try done.
  - intros (_ & _ & _ & x & Hx & _). congruence.
  - intros _. by split_and!; eauto.
Qed.
End Module_.

(** A started server with a connected client. *)
Definition sample_server : HttpServer unit :=
  make_server (mkBackends (Api.make_api None None) None None (Some tt)) Status.make_status.
Definition running_actions : list action :=
  [Initialize Cfg.default_config Signaling.no_files true (fun p => inr p); Start 0;
   LoopClient (Registry.Connects 0); LoopClient (Registry.Handles 0 (Client.Accepted false 7 "status" "gps"))].
Definition running_server : HttpServer unit :=
  default sample_server (execute (fun _ m => m) (fun m => m) running_actions sample_server).

Lemma server_shutdown_completes_witness :
  get_port running_server = 8080 /\
  exists rest h', (length rest <= 3)%nat /\ execute (fun _ m => m) (fun m => m) (rest ++ [Wait]) (stop (fun m => m) false running_server) = Some h' /\
    state_ h' = None.
Proof.
  assert (Hx : execute (fun _ m => m) (fun m => m) running_actions sample_server = Some running_server)
    by (vm_compute; reflexivity).
  split; [by vm_compute|].
  destruct (server_shutdown_completes (fun _ m => m) (fun m => m) running_actions _ _ false running_server Hx)
    as (rest & h' & _ & Hn & He & Hs & _).
  exists rest, h'. done.
Defined.
End Server.
