(* ===== verification/Cli.v ===== *)
(** * Command line ([src/cli.cpp], [include/skai/cli.hpp])

    The version string is a definition of the build and a parameter here. *)

From S2P Require Import Prelude Strings.

Module Cli.

Inductive CliAction := Run | Exit.

Record CliResult := mkResult {
  action : CliAction;
  exit_code : Z;
  message : string;
  config_path : string;
  rtsp_test : bool;
}.

Definition newline : string := str [chr 10].
Definition usage : string := "Usage: skai-edge [--help | --version | --rtsp-test] [--config PATH]" +:+ newline.

(** [{CliAction::Exit, code, message}] *)
Definition exits (code : Z) (message : string) : CliResult := mkResult Exit code message "" false.

Definition starts_with_dash (s : string) : bool := bool_decide (front s = Some "-"%char).

(** The loop over the arguments; [--config] consumes the next one. *)
Fixpoint parse_loop (arguments : list string) (config_path : string) (rtsp_test : bool) : CliResult :=
  match arguments with
  | [] => mkResult Run 0 "" config_path rtsp_test
  | argument :: rest =>
    if bool_decide (argument = "--rtsp-test") && negb rtsp_test then parse_loop rest config_path true
    else if bool_decide (argument = "--rtsp-test") then
      exits 2 ("--rtsp-test may be specified only once" +:+ newline +:+ usage)
    else if bool_decide (argument = "--config") && bool_decide (config_path = "") then
      match rest with
      | path :: rest =>
        if bool_decide (path = "") || starts_with_dash path then
          exits 2 ("--config requires a file path" +:+ newline +:+ usage)
        else parse_loop rest path rtsp_test
      | [] => exits 2 ("--config requires a file path" +:+ newline +:+ usage)
      end
    else if bool_decide (argument = "--config") then
      exits 2 ("--config may be specified only once" +:+ newline +:+ usage)
    else exits 2 ("Unknown option or arguments: " +:+ argument +:+ newline +:+ usage)
  end.

Definition parse_command_line (version : string) (arguments : list string) : CliResult :=
  if bool_decide (arguments = []) then mkResult Run 0 "" "" false
  else if bool_decide ("--help" ∈ arguments) then exits 0 usage
  else if bool_decide ("--version" ∈ arguments) then exits 0 ("skai-edge " +:+ version +:+ newline)
  else parse_loop arguments "" false.

(** A file path that [--config] accepts. *)
Definition file_path (p : string) : Prop := p <> "" /\ starts_with_dash p = false.

(** The command lines that start the program. *)
Inductive runs : list string -> string -> bool -> Prop :=
  | runs_plain : runs [] "" false
  | runs_test : runs ["--rtsp-test"] "" true
  | runs_config p : file_path p -> runs ["--config"; p] p false
  | runs_test_config p : file_path p -> runs ["--rtsp-test"; "--config"; p] p true
  | runs_config_test p : file_path p -> runs ["--config"; p; "--rtsp-test"] p true.

Definition is_run (r : CliResult) (p : string) (t : bool) : Prop := r = mkResult Run 0 "" p t.

Lemma not_run code m p t : ~ is_run (exits code m) p t.
Proof. done. Qed.

(** What is left when the options up to now were these. *)
Lemma parse_loop_done p t args q u : file_path p ->
  is_run (parse_loop args p t) q u <->
  (args = [] /\ q = p /\ u = t) \/ (args = ["--rtsp-test"] /\ t = false /\ q = p /\ u = true).
Proof.
  intros [Hp _]. destruct args as [|a rest]; simpl.
  { unfold is_run. naive_solver. }
  destruct (bool_decide (a = "--rtsp-test")) eqn:Ea; bools; cbn [andb].
  - subst. destruct t; cbn [negb]; [split; [done|naive_solver]|].
    destruct rest as [|b rest]; simpl; [unfold is_run; naive_solver|].
    destruct (bool_decide (b = "--rtsp-test")); cbn [andb negb]; [split; [done|naive_solver]|].
    rewrite (bool_decide_false (p = "")) by done. rewrite andb_false_r.
    destruct (bool_decide (b = "--config")); (split; [done|naive_solver]).
  - rewrite (bool_decide_false (p = "")) by done. rewrite andb_false_r.
    destruct (bool_decide (a = "--config")); (split; [done|naive_solver]).
Qed.

Lemma parse_loop_config t args q u :
  is_run (parse_loop ("--config" :: args) "" t) q u <->
  exists p rest, args = p :: rest /\ file_path p /\ is_run (parse_loop rest p t) q u.
Proof.
  cbn [parse_loop]. rewrite bool_decide_false by done. cbn [andb]. rewrite !bool_decide_true by done. cbn [andb].
  destruct args as [|p rest]; [split; [done|naive_solver]|].
  unfold file_path. destruct (bool_decide (p = "")) eqn:E; bools; cbn [orb].
  { split; [done|]. intros (q0 & r & [= <- <-] & [? ?] & _). congruence. }
  destruct (starts_with_dash p) eqn:Ed.
  { split; [done|]. intros (q0 & r & [= <- <-] & [? ?] & _). congruence. }
  split; [by intros H; exists p, rest|]. by intros (q0 & r & [= <- <-] & _ & H).
Qed.

Lemma parse_loop_fresh t args q u : is_run (parse_loop args "" t) q u ->
  args = [] \/ (exists rest, args = "--config" :: rest) \/ (t = false /\ exists rest, args = "--rtsp-test" :: rest).
Proof.
  destruct args as [|a rest]; [auto|]. cbn [parse_loop].
  destruct (bool_decide (a = "--rtsp-test")) eqn:Ea; bools; cbn [andb].
  - subst. destruct t; cbn [negb]; [done|]. eauto 6.
  - destruct (bool_decide (a = "--config")) eqn:Ec; bools; cbn [andb]; [subst; eauto|done].
Qed.

(** The loop ends by running or with status 2. *)
Lemma parse_loop_total n l p t : (length l <= n)%nat ->
  (exists q u, parse_loop l p t = mkResult Run 0 "" q u) \/ exists m, parse_loop l p t = exits 2 m.
Proof.
  revert l p t. induction n as [|n IH]; intros [|a rest] p t Hn; cbn [parse_loop length] in *; eauto; [lia|].
  destruct (_ && negb t); [apply IH; lia|]. destruct (bool_decide _); [eauto|].
  destruct (_ && _); [|destruct (bool_decide _); eauto].
  destruct rest as [|q rest]; [eauto|]. destruct (_ || _); [eauto|]. apply IH. cbn in Hn. lia.
Qed.

Lemma command_line_runs version args p t : is_run (parse_command_line version args) p t -> runs args p t.
Proof.
  unfold parse_command_line. case_bool_decide as E0; [subst; intros [= <- <-]; constructor|].
  case_bool_decide; [done|]. case_bool_decide; [done|]. intros H1.
  destruct (parse_loop_fresh _ _ _ _ H1) as [->|[[rest ->]|[_ [rest ->]]]]; [done| |].
  - apply parse_loop_config in H1 as (q & rest' & -> & Hq & H1).
    apply (parse_loop_done q false rest' p t Hq) in H1 as [(-> & -> & ->)|(-> & _ & -> & ->)]; by constructor.
  - change (parse_loop ("--rtsp-test" :: rest) "" false) with (parse_loop rest "" true) in H1.
    destruct (parse_loop_fresh _ _ _ _ H1) as [->|[[rest' ->]|[? _]]]; [by injection H1 as <- <-; constructor| |done].
    apply parse_loop_config in H1 as (q & rest & -> & Hq & H1).
    apply (parse_loop_done q true rest p t Hq) in H1 as [(-> & -> & ->)|(_ & ? & _)]; [by constructor|done].
Qed.

Lemma runs_command_line version args p t : runs args p t -> is_run (parse_command_line version args) p t.
Proof.
  assert (Hp : forall q, file_path q -> q <> "--help" /\ q <> "--version" /\ q <> "--rtsp-test").
  { intros q [_ H]. split_and!; intros ->; done. }
  intros H. unfold parse_command_line. destruct H as [| |q Hq|q Hq|q Hq]; [done|done|..];
    rewrite bool_decide_false by done; destruct (Hp q Hq) as (? & ? & ?);
    rewrite !bool_decide_false by (rewrite !elem_of_cons, elem_of_nil; naive_solver).
  - apply parse_loop_config. exists q, []. split_and!; [done|done|]. apply parse_loop_done; auto.
  - change (parse_loop ("--rtsp-test" :: ["--config"; q]) "" false) with (parse_loop ["--config"; q] "" true).
    apply parse_loop_config. exists q, []. split_and!; [done|done|]. apply parse_loop_done; auto.
  - apply parse_loop_config. exists q, ["--rtsp-test"]. split_and!; [done|done|]. apply parse_loop_done; auto 6.
Qed.

(** The command line is parsed exactly: the program runs, with a given configuration path and test
    flag, precisely for the five forms of the usage text (each option at most once, in either order,
    the path not empty and not starting with a dash); every other command line exits, with status 0
    exactly when it asks for help or the version. *)
Theorem command_line_exact version args :
  (forall p t, parse_command_line version args = mkResult Run 0 "" p t <-> runs args p t) /\
  (action (parse_command_line version args) = Exit ->
   exit_code (parse_command_line version args) = 0 <-> "--help" ∈ args \/ "--version" ∈ args).
Proof.
  split; [intros p t; split; [apply command_line_runs|apply runs_command_line]|].
  unfold parse_command_line. case_bool_decide as E0; [done|]. case_bool_decide as Eh; [cbn; tauto|].
  case_bool_decide as Ev; [cbn; tauto|]. intros Ha. split; [|tauto].
  destruct (parse_loop_total (length args) args "" false ltac:(lia)) as [(q & u & E)|[m E]]; rewrite E in *; done.
Qed.

Lemma command_line_exact_witness :
  exit_code (parse_command_line "1.0" ["--version"]) = 0 <-> "--help" ∈ ["--version"] \/ "--version" ∈ ["--version"].
Proof. apply (command_line_exact "1.0" ["--version"]). reflexivity. Defined.
End Cli.
