(* ===== verification/WebRtcSession.v ===== *)
(** * WebRTC sessions ([src/webrtc/webrtc_manager.cpp], [include/skai/webrtc/webrtc_manager.hpp])

    One viewer: which offers are accepted ([Offer]), the retransmission buffer
    ([Nack]), and the session object with its callbacks, calls and closing
    ([Session]).  libdatachannel is seen through what it hands over: a parsed
    description, the states it reports, the messages that pass the media handler
    and the layout of their headers. *)

From S2P Require Import Prelude Strings Floats Json Paths BoundedQueue RtspRecovery.
From S2P Require Import WhipPolicy Diagnostics.

(** ** Access units ([include/skai/video/encoded_access_unit.hpp]) *)

Module Media.

Record EncodedAccessUnit := mkUnit {
  sequence : Z;
  pts_ns : Z;
  dts_ns : Z;
  has_pts : bool;
  has_dts : bool;
  keyframe : bool;
  discontinuity : bool;
  source_generation : Z;
  bytes : list Z;
}.
End Media.

(** ** Offers *)

Module Offer.

Definition to_upper (c : ascii) : ascii :=
  let b := byte_of c in if (97 <=? b) && (b <=? 122) then chr (b - 32) else c.
Definition to_lower (c : ascii) : ascii :=
  let b := byte_of c in if (65 <=? b) && (b <=? 90) then chr (b + 32) else c.

(** [s.find(t)] for a string [t]. *)
Fixpoint find_from (t l : list ascii) (pos : nat) : option nat :=
  if bool_decide (take (length t) l = t) then Some pos
  else match l with [] => None | _ :: rest => find_from t rest (S pos) end.
Definition find_text (t s : list ascii) : option nat := find_from t s 0.

Record RtpMap := mkRtpMap {
  format : string;
  fmtps : list string;
}.

(** One set of format parameters: baseline profile, packetization mode 1 and a
    level of at most 3.1. *)
Definition compatible_parameters (text : string) : bool :=
  let parameters := to_lower <$> chars text in
  match find_text (chars "profile-level-id=42") parameters with
  | None => false
  | Some profile =>
    if (length parameters <? profile + 17 + 6)%nat || bool_decide (find_text (chars "packetization-mode=1") parameters = None)
    then false
    else match hex_value <$> parameters !! (profile + 17 + 4)%nat, hex_value <$> parameters !! (profile + 17 + 5)%nat with
         | Some (Some hi), Some (Some lo) => hi * 16 + lo <=? 31
         | _, _ => false
         end
  end.

Definition is_compatible_h264 (map : option RtpMap) : bool :=
  match map with
  | None => false
  | Some m => bool_decide (to_upper <$> chars (format m) = chars "H264") && existsb compatible_parameters (fmtps m)
  end.

Definition endpoint_address (endpoint : string) : string :=
  if bool_decide (endpoint = "") then ""
  else if bool_decide (front endpoint = Some "["%char) then
    match find_char "]" endpoint 0 with
    | None => ""
    | Some close => substr endpoint 1 (Some (close - 1)%nat)
    end
  else match rfind_char ":" endpoint with
       | None => endpoint
       | Some colon => str_take colon endpoint
       end.

Inductive Direction := SendOnly | RecvOnly | SendRecv | Inactive | Unknown.

#[export] Instance Direction_eq : EqDecision Direction.
Proof. solve_decision. Defined.

(** A media section: its payload types with their maps, in order. *)
Record Section_ := mkSection {
  removed : bool;
  direction : Direction;
  payloads : list (Z * option RtpMap);
}.

(** A parsed description; an entry that is no media section is [None]. *)
Record Description := mkDescription {
  attributes : list string;
  media : list (option Section_);
}.

(** The direction the session attributes give; the last one counts. *)
Fixpoint session_direction (attributes : list string) (d : Direction) : Direction :=
  match attributes with
  | [] => d
  | a :: rest =>
    session_direction rest
      (if bool_decide (a = "sendonly") then SendOnly
       else if bool_decide (a = "recvonly") then RecvOnly
       else if bool_decide (a = "inactive") then Inactive else d)
  end.

Definition first_compatible (payloads : list (Z * option RtpMap)) : option Z :=
  fst <$> List.find (fun p => is_compatible_h264 p.2) payloads.

Definition effective (default_direction : Direction) (m : Section_) : Direction :=
  if bool_decide (direction m = Unknown) then default_direction else direction m.

(** What the calls into libdatachannel may throw. *)
Inductive Thrown := InvalidArgument (what : string) | OtherException (what : string).

(** How the negotiation ends early: the offer is refused, or a call throws. *)
Inductive Ending := Refused (message : string) | Raised (t : Thrown).

(** The loop over the media sections: the payload type of the track that was
    added, if any, or the early ending.  [track] is what adding a track for a
    payload type throws. *)
Fixpoint choose (track : Z -> option Thrown) (d : Direction) (sections : list (option Section_)) (added : option Z)
    : Ending + option Z :=
  match sections with
  | [] => inr added
  | None :: rest => choose track d rest added
  | Some m :: rest =>
    if removed m then choose track d rest added
    else if bool_decide (effective d m = SendOnly) || bool_decide (effective d m = Inactive) then
      inl (Refused "WHEP media must be recvonly or sendrecv")
    else match first_compatible (payloads m), added with
         | Some p, None =>
           match track p with Some t => inl (Raised t) | None => choose track d rest (Some p) end
         | _, _ => choose track d rest added
         end
  end.

(** The part of [accept_offer] up to [setRemoteDescription]: the payload type
    of the video track, or the early ending. *)
Definition negotiate (track : Z -> option Thrown) (o : Description) : Ending + Z :=
  match choose track (session_direction (attributes o) SendRecv) (media o) None with
  | inl e => inl e
  | inr None => inl (Refused "WHEP offer must contain recvonly H.264 video")
  | inr (Some p) => inr p
  end.

(** *** Which offers are accepted *)

Definition active_sections (o : Description) : list Section_ :=
  List.filter (fun m => negb (removed m)) (omap id (media o)).

Definition receives (o : Description) (m : Section_) : Prop :=
  let d := effective (session_direction (attributes o) SendRecv) m in d <> SendOnly /\ d <> Inactive.

Abbreviation no_throw := (fun _ : Z => @None Thrown).

Lemma choose_spec d sections added r :
  choose no_throw d sections added = inr r <->
  Forall (fun m => effective d m <> SendOnly /\ effective d m <> Inactive)
    (List.filter (fun m => negb (removed m)) (omap id sections)) /\
  r = match added with
      | Some p => Some p
      | None => head (omap (fun m => first_compatible (payloads m))
                  (List.filter (fun m => negb (removed m)) (omap id sections)))
      end.
Proof.
  revert added. induction sections as [|[m|] sections IH]; intros added; cbn [choose omap list_omap id].
  - split; [intros [= <-]; split; [constructor|by destruct added]|]. intros [_ ->]. by destruct added.
  - cbn [List.filter]. destruct (removed m) eqn:Er; cbn [negb]; [apply IH|]. rewrite Forall_cons.
    destruct (bool_decide (effective d m = SendOnly) || bool_decide (effective d m = Inactive)) eqn:Ed.
    { split; [done|]. intros [[[H1 H2] _] _]. apply orb_true_iff in Ed as [E|E]; bools; done. }
    bools. cbn [omap list_omap]. destruct (first_compatible (payloads m)) as [p|] eqn:Ep, added as [q|];
      rewrite IH; cbn [head]; naive_solver.
  - apply IH.
Qed.

(** Offers are judged exactly: negotiation succeeds precisely when every active media section lets
    the viewer receive and some active section offers compatible H.264, and the payload type chosen
    is then the first compatible one of the first such section; a section that only sends or is
    inactive, by its own or the session's direction, refuses the whole offer. (The library calls are
    taken to succeed.) *)
Theorem negotiate_exact o p :
  negotiate no_throw o = inr p <->
  Forall (receives o) (active_sections o) /\
  head (omap (fun m => first_compatible (payloads m)) (active_sections o)) = Some p.
Proof.
  unfold negotiate, active_sections, receives.
  pose proof (choose_spec (session_direction (attributes o) SendRecv) (media o) None) as H.
  destruct (choose _ _ (media o) None) as [e|[q|]] eqn:E.
  - split; [done|]. intros [Hf Hh]. specialize (H (Some p)). cbn in H. rewrite Hh in H.
    discriminate (proj2 H (conj Hf eq_refl)).
  - destruct (proj1 (H _) eq_refl) as [Hf Hh]. rewrite <- Hh. naive_solver.
  - destruct (proj1 (H _) eq_refl) as [Hf Hh]. rewrite <- Hh. naive_solver.
Qed.
End Offer.

(** ** The retransmission buffer ([CountingNackResponder])

    A message of libdatachannel is its kind and its bytes.  The layouts of its
    packet headers are parameters: the sizes of the headers, the sequence number
    of an RTP packet, and what a feedback packet at an offset says. *)

Module Nack.

Record Message := mkMessage {
  control : bool;
  data : list Z;
}.

Definition msize (m : Message) : Z := Z.of_nat (length (data m)).

(** A feedback packet: its length, type, report count and the sequence numbers
    its parts ask for, in order. *)
Record Feedback := mkFeedback {
  length_in_bytes : Z;
  payload_type : Z;
  report_count : Z;
  requested : list Z;
}.

Record Layout := mkLayout {
  rtp_header_size : Z;
  nack_size : Z;
  seq_number : Message -> Z;
  feedback_at : Message -> Z -> Feedback;
}.

Record Responder := mkResponder {
  bytes_ : Z;
  packet_count_ : Z;
  retransmissions_ : Z;
  order_ : list Z;
  packets_ : gmap Z Message;
}.

Definition make_responder : Responder := mkResponder 0 0 0 [] ∅.

Section Responder.
Context (L : Layout).

(** [while (order_.size() > 512)]: at most one round, since one entry was added. *)
Fixpoint trim (fuel : nat) (order : list Z) (packets : gmap Z Message) : list Z * gmap Z Message :=
  match fuel, order with
  | S fuel, front :: rest =>
    if Z.of_nat (length order) >? 512 then trim fuel rest (delete front packets) else (order, packets)
  | _, _ => (order, packets)
  end.

Definition cacheable (m : Message) : bool := negb (control m || (msize m <? rtp_header_size L)).

(** One message of [outgoing]. *)
Definition store (m : Message) (r : Responder) : Responder :=
  if cacheable m then
    let s := seq_number L m in
    let order := if bool_decide (packets_ r !! s = None) then order_ r ++ [s] else order_ r in
    let '(order, packets) := trim (length order) order (<[s := m]> (packets_ r)) in
    mkResponder (bytes_ r) (packet_count_ r) (retransmissions_ r) order packets
  else r.

Definition sizes (messages : list Message) : Z := foldl (fun n m => u64 (n + msize m)) 0 messages.

Definition outgoing (messages : list Message) (r : Responder) : Responder :=
  let r := foldl (flip store) r messages in
  mkResponder (u64 (bytes_ r + sizes messages)) (u64 (packet_count_ r + Z.of_nat (length messages)))
    (retransmissions_ r) (order_ r) (packets_ r).

(** One requested sequence number: the copy that is sent, if it is still there. *)
Definition retransmit (s : Z) (r : Responder) : list Message * Responder :=
  match packets_ r !! s with
  | None => ([], r)
  | Some m =>
    ([m], mkResponder (u64 (bytes_ r + msize m)) (u64 (packet_count_ r + 1)) (u64 (retransmissions_ r + 1))
            (order_ r) (packets_ r))
  end.

Fixpoint retransmit_all (ss : list Z) (r : Responder) : list Message * Responder :=
  match ss with
  | [] => ([], r)
  | s :: rest => let '(a, r) := retransmit s r in let '(b, r) := retransmit_all rest r in (a ++ b, r)
  end.

(** The [while] over the feedback packets of one control message; the result is
    [None] when the fuel does not reach its end. *)
Fixpoint feedback_loop (fuel : nat) (m : Message) (offset : Z) (r : Responder) : option (list Message * Responder) :=
  match fuel with
  | O => None
  | S fuel =>
    if offset + nack_size L <=? msize m then
      let f := feedback_at L m offset in
      if (length_in_bytes f =? 0) || (offset + length_in_bytes f >? msize m) then Some ([], r)
      else
        let offset := offset + length_in_bytes f in
        if negb (payload_type f =? 205) || negb (report_count f =? 1) then feedback_loop fuel m offset r
        else
          let '(a, r) := retransmit_all (requested f) r in
          match feedback_loop fuel m offset r with
          | None => None
          | Some (b, r) => Some (a ++ b, r)
          end
    else Some ([], r)
  end.

Fixpoint incoming (messages : list Message) (r : Responder) : option (list Message * Responder) :=
  match messages with
  | [] => Some ([], r)
  | m :: rest =>
    if control m then
      match feedback_loop (S (length (data m))) m 0 r with
      | None => None
      | Some (a, r) =>
        match incoming rest r with None => None | Some (b, r) => Some (a ++ b, r) end
      end
    else incoming rest r
  end.

(** *** What can be retransmitted *)

Definition lastn {A} (n : nat) (l : list A) : list A := drop (length l - n) l.

(** The media messages of a history, oldest first. *)
Definition history (batches : list (list Message)) : list Message := List.filter cacheable (concat batches).

(** Sequence numbers do not repeat within 513 consecutive packets. *)
Definition spaced (h : list Message) : Prop :=
  forall i j a b, h !! i = Some a -> h !! j = Some b -> (i < j <= i + 512)%nat -> seq_number L a <> seq_number L b.

Lemma lastn_snoc {A} n (l : list A) x : lastn (S n) (l ++ [x]) = lastn n l ++ [x].
Proof.
  unfold lastn. rewrite length_app. simpl. rewrite drop_snoc by lia. do 2 f_equal. lia.
Qed.

Lemma lastn_elem {A} n (l : list A) x : x ∈ lastn n l <-> exists i, l !! i = Some x /\ (length l <= i + n)%nat.
Proof.
  unfold lastn. rewrite list_elem_of_lookup. split.
  - intros [i Hi]. rewrite lookup_drop in Hi. exists (length l - n + i)%nat. split; [done|lia].
  - intros (i & Hi & Hn). apply lookup_lt_Some in Hi as Hl. exists (i - (length l - n))%nat.
    rewrite lookup_drop. rewrite <- Hi. f_equal. lia.
Qed.

(** The cache after a history: its last 512 packets. *)
Definition caches (h : list Message) (r : Responder) : Prop :=
  order_ r = seq_number L <$> lastn 512 h /\
  packets_ r = list_to_map ((fun m => (seq_number L m, m)) <$> lastn 512 h) /\
  NoDup (seq_number L <$> lastn 512 h).

Lemma trim_short fuel order packets : (length order <= 512)%nat -> trim fuel order packets = (order, packets).
Proof.
  intros H. destruct fuel, order as [|x o]; try done. cbn [trim].
  case_match eqn:E; [|done]. apply Z.gtb_lt in E. lia.
Qed.

Lemma trim_one x order packets : length order = 512%nat ->
  trim (length (x :: order)) (x :: order) packets = (order, delete x packets).
Proof.
  intros H. cbn [length trim]. rewrite H. cbn [Z.of_nat]. change (Z.of_nat 513 >? 512) with true. cbn iota.
  apply trim_short. lia.
Qed.

Lemma lastn_length {A} n (l : list A) : length (lastn n l) = Nat.min n (length l).
Proof. unfold lastn. rewrite length_drop. lia. Qed.

(** The window moves on by one packet. *)
Lemma lastn_shift (h : list Message) m : lastn 512 (h ++ [m]) =
  if bool_decide (length h < 512)%nat then lastn 512 h ++ [m] else tail (lastn 512 h) ++ [m].
Proof.
  rewrite (lastn_snoc 511). unfold lastn. case_bool_decide; [|rewrite tail_drop]; do 2 f_equal; lia.
Qed.

Lemma fresh_seq h m x : spaced (h ++ [m]) -> x ∈ lastn 512 h -> seq_number L x <> seq_number L m.
Proof.
  intros Hs (i & Hi & Hn)%lastn_elem. apply lookup_lt_Some in Hi as Hl.
  apply (Hs i (length h) x m); [by rewrite lookup_app_l|by rewrite list_lookup_middle|lia].
Qed.

Lemma window_absent h m : spaced (h ++ [m]) -> seq_number L m ∉ seq_number L <$> lastn 512 h.
Proof. intros Hs (x & Hx & Hin)%list_elem_of_fmap. by eapply fresh_seq. Qed.

Lemma store_caches h m r : caches h r -> cacheable m = true -> spaced (h ++ [m]) -> caches (h ++ [m]) (store m r).
Proof.
  intros (Ho & Hp & Hd) Hc Hs. pose proof (window_absent h m Hs) as Hab. unfold store. rewrite Hc.
  assert (Hn : packets_ r !! seq_number L m = None).
  { rewrite Hp. apply not_elem_of_list_to_map_1. by rewrite <- list_fmap_compose. }
  rewrite bool_decide_true by done. unfold caches. rewrite lastn_shift.
  pose proof (lastn_length 512 h) as Hlen.
  assert (Hd' : NoDup (seq_number L <$> lastn 512 h ++ [m])).
  { rewrite fmap_app. apply NoDup_app. split_and!; [done| |apply NoDup_singleton]. set_solver. }
  assert (Hm : <[seq_number L m := m]> (packets_ r) =
    (list_to_map ((fun m => (seq_number L m, m)) <$> lastn 512 h ++ [m]) : gmap Z Message)).
  { rewrite fmap_app. simpl. rewrite list_to_map_snoc by (by rewrite <- list_fmap_compose). by rewrite Hp. }
  case_bool_decide as Hsz.
  - rewrite trim_short; [|rewrite Ho, length_app, length_fmap; simpl; lia].
    cbn [order_ packets_]. split_and!; [by rewrite Ho, fmap_app|exact Hm|exact Hd'].
  - destruct (lastn 512 h) as [|x w] eqn:Ew; [cbn [length] in Hlen; lia|]. cbn [length] in Hlen. rewrite Ho. cbn [fmap list_fmap app].
    change (seq_number L <$> x :: w) with (seq_number L x :: (seq_number L <$> w)). cbn [app].
    rewrite trim_one by (rewrite length_app, length_fmap; simpl; lia).
    cbn [tail]. rewrite <- app_comm_cons, fmap_cons, NoDup_cons in Hd'. destruct Hd' as [Hx Hd'].
    cbn [order_ packets_]. split_and!; [by rewrite fmap_app| |done].
    rewrite Hm, <- app_comm_cons, fmap_cons. cbn [list_to_map foldr uncurry].
    apply delete_insert_id. apply not_elem_of_list_to_map_1. by rewrite <- list_fmap_compose.
Qed.

Lemma spaced_prefix h k : spaced (h ++ k) -> spaced h.
Proof. intros Hs i j a b Hi Hj. apply Hs; by apply lookup_app_l_Some. Qed.

Lemma stores_cache ms h r : caches h r -> spaced (h ++ List.filter cacheable ms) ->
  caches (h ++ List.filter cacheable ms) (foldl (flip store) r ms).
Proof.
  revert h r. induction ms as [|m ms IH]; intros h r Hr Hs; simpl in *; [by rewrite app_nil_r|].
  destruct (cacheable m) eqn:Hc.
  - rewrite cons_middle, app_assoc in Hs |- *. apply IH; [|done]. apply store_caches; [done|done|].
    by eapply spaced_prefix.
  - apply IH; [|done]. unfold store. by rewrite Hc.
Qed.

Definition after (batches : list (list Message)) : Responder := foldl (flip outgoing) make_responder batches.

Lemma after_caches batches : spaced (history batches) -> caches (history batches) (after batches).
Proof.
  induction batches as [|b batches IH] using rev_ind; intros Hs; [by split_and!; [| |constructor]|].
  unfold history, after in *. rewrite concat_app, List.filter_app, foldl_app in *. simpl in *. rewrite app_nil_r in *.
  apply (stores_cache b _ (foldl (flip outgoing) make_responder batches)); [|done].
  apply IH. by eapply spaced_prefix.
Qed.

(** *** What a viewer asks for *)

(** The sequence numbers a control message asks for. *)
Fixpoint asked (fuel : nat) (m : Message) (offset : Z) : list Z :=
  match fuel with
  | O => []
  | S fuel =>
    let f := feedback_at L m offset in
    if (offset + nack_size L <=? msize m) && negb (length_in_bytes f =? 0) && (offset + length_in_bytes f <=? msize m)
    then (if (payload_type f =? 205) && (report_count f =? 1) then requested f else []) ++
         asked fuel m (offset + length_in_bytes f)
    else []
  end.
Definition requests (messages : list Message) : list Z :=
  messages ≫= (fun m => if control m then asked (S (length (data m))) m 0 else []).

(** Answering requests: copies of what the cache holds, counted once each. *)
Definition answers (ss : list Z) (r : Responder) : list Message := omap (fun s => packets_ r !! s) ss.
Definition counted (sent : list Message) (r r' : Responder) : Prop :=
  order_ r' = order_ r /\ packets_ r' = packets_ r /\
  u64 (retransmissions_ r') = u64 (retransmissions_ r + Z.of_nat (length sent)) /\
  u64 (packet_count_ r') = u64 (packet_count_ r + Z.of_nat (length sent)).

Lemma counted_app a b r r1 r2 : counted a r r1 -> counted b r1 r2 -> counted (a ++ b) r r2.
Proof.
  intros (O1 & P1 & R1 & C1) (O2 & P2 & R2 & C2). rewrite <- u64_add_l in R2, C2. rewrite R1 in R2. rewrite C1 in C2.
  autorewrite with wrap in R2, C2. split_and!; [congruence|congruence|rewrite R2|rewrite C2]; rewrite length_app; f_equal; lia.
Qed.

Lemma counted_refl r : counted [] r r.
Proof. split_and!; [done|done|..]; f_equal; simpl; lia. Qed.

Lemma retransmit_all_spec ss r : exists r', retransmit_all ss r = (answers ss r, r') /\ counted (answers ss r) r r'.
Proof.
  revert r. induction ss as [|s ss IH]; intros r; cbn [retransmit_all answers omap list_omap].
  { exists r. split; [done|apply counted_refl]. }
  assert (H : exists r1, retransmit s r = (match packets_ r !! s with Some m => [m] | None => [] end, r1) /\
    counted (match packets_ r !! s with Some m => [m] | None => [] end) r r1).
  { unfold retransmit. destruct (packets_ r !! s) as [m|]; eexists; (split; [done|]); [|apply counted_refl].
    split_and!; [done|done|..]; simpl; unfold u64; by rewrite Z.mod_mod. }
  destruct H as (r1 & -> & H1). destruct (IH r1) as (r2 & -> & H2). exists r2.
  assert (E : answers ss r1 = answers ss r) by (unfold answers; by rewrite (proj1 (proj2 H1))).
  rewrite E in *. fold (answers ss r). pose proof (counted_app _ _ _ _ _ H1 H2).
  by destruct (packets_ r !! s).
Qed.

Hypothesis nack_positive : 0 < nack_size L.
Hypothesis length_nonneg : forall m o, 0 <= length_in_bytes (feedback_at L m o).

Lemma feedback_loop_spec fuel m offset r : 0 <= msize m - offset < Z.of_nat fuel ->
  exists r', feedback_loop fuel m offset r = Some (answers (asked fuel m offset) r, r') /\
    counted (answers (asked fuel m offset) r) r r'.
Proof.
  revert offset r. induction fuel as [|fuel IH]; intros offset r Hf; [lia|]. cbn [feedback_loop asked].
  pose proof (length_nonneg m offset) as Hn. set (f := feedback_at L m offset) in *.
  assert (Hstop : exists r', Some (@nil Message, r) = Some ([], r') /\ counted [] r r')
    by (exists r; split; [done|apply counted_refl]).
  destruct (offset + nack_size L <=? msize m) eqn:E1; cbn [andb]; [|exact Hstop].
  destruct (length_in_bytes f =? 0) eqn:E2; cbn [orb negb andb]; [exact Hstop|].
  rewrite Z.gtb_ltb, Z.ltb_antisym.
  destruct (offset + length_in_bytes f <=? msize m) eqn:E3; cbn [negb]; [|exact Hstop]. bools.
  rewrite <- negb_andb. destruct ((payload_type f =? 205) && (report_count f =? 1)); cbn [negb].
  - destruct (retransmit_all_spec (requested f) r) as (r1 & -> & H1).
    destruct (IH (offset + length_in_bytes f) r1 ltac:(lia)) as (r2 & -> & H2). exists r2.
    unfold answers in *. rewrite omap_app. rewrite (proj1 (proj2 H1)) in H2 |- *.
    split; [done|]. by eapply counted_app.
  - apply IH. lia.
Qed.

Lemma incoming_spec messages r :
  exists r', incoming messages r = Some (answers (requests messages) r, r') /\
    counted (answers (requests messages) r) r r'.
Proof.
  revert r. induction messages as [|m rest IH]; intros r; cbn [incoming].
  { exists r. split; [done|apply counted_refl]. }
  unfold requests. cbn [mbind list_bind]. destruct (control m); [|apply IH].
  destruct (feedback_loop_spec (S (length (data m))) m 0 r) as (r1 & -> & H1); [unfold msize; lia|].
  destruct (IH r1) as (r2 & -> & H2). exists r2. fold (requests rest).
  unfold answers in *. rewrite omap_app. rewrite (proj1 (proj2 H1)) in H2 |- *.
  split; [done|]. by eapply counted_app.
Qed.

(** C28.   Retransmission is exact: as long as sequence numbers do not repeat within 513 consecutive
    packets, a viewer's feedback is always read to its end and every sequence number it asks for is
    answered with the one packet of the last 512 sent that carries it, in the order asked, or with
    nothing when that packet is older; each answer is counted once and the buffer is unchanged. *)
Theorem retransmission_window batches messages :
  spaced (history batches) ->
  exists sent r', incoming messages (after batches) = Some (sent, r') /\ counted sent (after batches) r' /\
    exists held : Z -> option Message,
      (forall s m, held s = Some m <-> m ∈ lastn 512 (history batches) /\ seq_number L m = s) /\
      sent = omap held (requests messages).
Proof using nack_positive length_nonneg.
  intros Hs. destruct (incoming_spec messages (after batches)) as (r' & Hi & Hc).
  destruct (after_caches batches Hs) as (_ & Hp & Hd).
  eexists _, r'. split_and!; [exact Hi|exact Hc|]. exists (fun s => packets_ (after batches) !! s). split; [|done].
  intros s m. rewrite Hp, <- elem_of_list_to_map by (by rewrite <- list_fmap_compose).
  rewrite list_elem_of_fmap. naive_solver.
Qed.
End Responder.

Lemma nodup_spaced L h : NoDup (seq_number L <$> h) -> spaced L h.
Proof.
  intros Hd i j a b Hi Hj Hij E. rewrite NoDup_alt in Hd.
  assert (i = j); [|lia]. apply (Hd i j (seq_number L a)); rewrite list_lookup_fmap, ?Hi, ?Hj; simpl; congruence.
Qed.

(** The layout of RFC 3550 and RFC 4585. *)
Definition byte_at (m : Message) (i : Z) : Z := default 0 (data m !! Z.to_nat i).
Definition be16 (m : Message) (i : Z) : Z := byte_at m i * 256 + byte_at m (i + 1).
Definition part_numbers (m : Message) (i : Z) : list Z :=
  be16 m i :: omap (fun k => if Z.testbit (be16 m (i + 2)) (Z.of_nat k)
                             then Some ((be16 m i + Z.of_nat k + 1) mod 65536) else None) (seq 0 16).
Definition rfc_layout : Layout :=
  mkLayout 12 16 (fun m => be16 m 2)
    (fun m o => mkFeedback (4 * (be16 m (o + 2) mod 65536 + 1)) (byte_at m (o + 1)) (Z.land (byte_at m o) 31)
       (seq 0 (Z.to_nat (be16 m (o + 2) - 2)) ≫= (fun k => part_numbers m (o + 12 + 4 * Z.of_nat k)))).

Lemma retransmission_window_witness :
  let packet n := mkMessage false ([128; 96; n / 256; n mod 256] ++ replicate 8 0 ++ [n]) in
  let nack := mkMessage true [129; 205; 0; 3; 0; 0; 0; 0; 0; 0; 0; 0; 1; 44; 0; 5] in
  let batches := [packet <$> seqZ 290 15; packet <$> seqZ 305 5] in
  exists sent r', incoming rfc_layout [nack] (after rfc_layout batches) = Some (sent, r') /\
    sent = [packet 300; packet 301; packet 303].
Proof.
  intros packet nack batches.
  assert (Hs : spaced rfc_layout (history rfc_layout batches)).
  { apply nodup_spaced. apply (bool_decide_unpack _). vm_compute. exact I. }
  destruct (retransmission_window rfc_layout ltac:(reflexivity)
    ltac:(intros m o; cbn; Z.to_euclidean_division_equations; lia) batches [nack] Hs) as (sent & r' & E & _).
  exists sent, r'. split; [exact E|].
  assert (E' : fst <$> incoming rfc_layout [nack] (after rfc_layout batches) = Some [packet 300; packet 301; packet 303])
    by (vm_compute; reflexivity).
  rewrite E in E'. by injection E'.
Defined.
End Nack.

(** ** One session

    The members that [mutex_] protects, grouped; atomics and the media queue
    beside them.  Time points are nanoseconds, [time_point{}] is 0. *)

Module Session.
Import Media Offer.

Record Times := mkTimes {
  last_activity_ : Z;
  connected_at_ : Z;
  connection_wait_started_ : Z;
}.

Record Texts := mkTexts {
  peer_state_ : string;
  ice_state_ : string;
  local_candidate_ : string;
  local_interface_ : string;
  failure_stage_ : string;
  close_reason_ : string;
  last_error_ : string;
}.

Record Flags := mkFlags {
  local_description_ready_ : bool;
  gathering_complete_ : bool;
  connected_ : bool;
  answer_ready_ : bool;
  failed_ : bool;
  closed_ : bool;
  cleanup_started_ : bool;
}.

Record Counters := mkCounters {
  bytes_sent_ : Z;
  packets_sent_ : Z;
  packets_retransmitted_ : Z;
  keyframe_events_ : Z;
}.

(** [peer_]: whether the pointer is set; [media_worker_]: whether the thread is
    joinable; [media_errors]: what the session added to the manager's counter. *)
Record WebRtcSession := mkSession {
  id_ : string;
  peer_ : bool;
  media_queue_ : Queue.BoundedQueue EncodedAccessUnit;
  media_worker_ : bool;
  media_running_ : bool;
  times : Times;
  texts : Texts;
  flags : Flags;
  counters : Counters;
  media_errors : Z;
}.

(** The constructor; the queue's constructor throws on capacity 0. *)
Definition make_session (id : string) (queue_capacity now : Z) : throws WebRtcSession :=
  match Queue.make_queue queue_capacity with
  | inl e => inl e
  | inr q => inr (mkSession id true q false false (mkTimes now 0 0) (mkTexts "new" "new" "" "" "" "" "")
                    (mkFlags false false false false false false false) (mkCounters 0 0 0 0) 0)
  end.

Definition with_times (t : Times) (s : WebRtcSession) : WebRtcSession :=
  mkSession (id_ s) (peer_ s) (media_queue_ s) (media_worker_ s) (media_running_ s) t (texts s) (flags s)
    (counters s) (media_errors s).
Definition with_texts (t : Texts) (s : WebRtcSession) : WebRtcSession :=
  mkSession (id_ s) (peer_ s) (media_queue_ s) (media_worker_ s) (media_running_ s) (times s) t (flags s)
    (counters s) (media_errors s).
Definition with_flags (f : Flags) (s : WebRtcSession) : WebRtcSession :=
  mkSession (id_ s) (peer_ s) (media_queue_ s) (media_worker_ s) (media_running_ s) (times s) (texts s) f
    (counters s) (media_errors s).
Definition with_media (q : Queue.BoundedQueue EncodedAccessUnit) (worker running : bool) (s : WebRtcSession) : WebRtcSession :=
  mkSession (id_ s) (peer_ s) q worker running (times s) (texts s) (flags s) (counters s) (media_errors s).

Definition active_at (now : Z) (s : WebRtcSession) : WebRtcSession :=
  with_times (mkTimes now (connected_at_ (times s)) (connection_wait_started_ (times s))) s.

(** The failure: its flag, stage and text. *)
Definition set_failure (stage error : string) (s : WebRtcSession) : WebRtcSession :=
  let t := texts s in let f := flags s in
  with_texts (mkTexts (peer_state_ t) (ice_state_ t) (local_candidate_ t) (local_interface_ t) stage (close_reason_ t) error)
    (with_flags (mkFlags (local_description_ready_ f) (gathering_complete_ f) (connected_ f) (answer_ready_ f) true
                   (closed_ f) (cleanup_started_ f)) s).
Definition set_failed (s : WebRtcSession) : WebRtcSession :=
  set_failure (failure_stage_ (texts s)) (last_error_ (texts s)) s.

(** *** Callbacks of the peer connection ([create]) *)

Definition on_local_description (now : Z) (s : WebRtcSession) : WebRtcSession :=
  let f := flags s in
  active_at now (with_flags (mkFlags true (gathering_complete_ f) (connected_ f) (answer_ready_ f) (failed_ f)
                               (closed_ f) (cleanup_started_ f)) s).

(** [getifaddrs]: the name and the printed address of each interface, [None]
    when the call fails; a name that is empty does not end the search. *)
Fixpoint find_interface (address : string) (table : list (string * option string)) : string :=
  match table with
  | [] => ""
  | (name, text) :: rest =>
    if bool_decide (text = Some address) && negb (bool_decide (name = "")) then name else find_interface address rest
  end.
Definition interface_for_address (table : option (list (string * option string))) (address : string) : string :=
  match table with None => "" | Some t => find_interface address t end.

Definition on_local_candidate (table : option (list (string * option string))) (candidate : string)
    (address : option string) (s : WebRtcSession) : WebRtcSession :=
  let t := texts s in
  with_texts (mkTexts (peer_state_ t) (ice_state_ t) candidate
                (match address with Some a => interface_for_address table a | None => local_interface_ t end)
                (failure_stage_ t) (close_reason_ t) (last_error_ t)) s.

Definition on_gathering_state_change (complete : bool) (now : Z) (s : WebRtcSession) : WebRtcSession :=
  if negb complete then s
  else
    let f := flags s in
    active_at now (with_flags (mkFlags (local_description_ready_ f) true (connected_ f) (answer_ready_ f) (failed_ f)
                                 (closed_ f) (cleanup_started_ f)) s).

(** States of the connection and of ICE, with the names libdatachannel prints. *)
Inductive PeerState := New | Connecting | Connected | Disconnected | Failed | Closed.
Inductive IceState := IceNew | IceChecking | IceConnected | IceCompleted | IceFailed | IceDisconnected | IceClosed.

Definition peer_state_name (st : PeerState) : string :=
  match st with
  | New => "new" | Connecting => "connecting" | Connected => "connected"
  | Disconnected => "disconnected" | Failed => "failed" | Closed => "closed"
  end.
Definition ice_state_name (st : IceState) : string :=
  match st with
  | IceNew => "new" | IceChecking => "checking" | IceConnected => "connected" | IceCompleted => "completed"
  | IceFailed => "failed" | IceDisconnected => "disconnected" | IceClosed => "closed"
  end.

Definition set_states (peer ice : string) (s : WebRtcSession) : WebRtcSession :=
  let t := texts s in
  with_texts (mkTexts peer ice (local_candidate_ t) (local_interface_ t) (failure_stage_ t) (close_reason_ t)
                (last_error_ t)) s.

Definition on_state_change (st : PeerState) (now : Z) (s : WebRtcSession) : WebRtcSession :=
  let s := set_states (peer_state_name st) (ice_state_ (texts s)) s in
  let f := flags s in
  let broken error :=
    if bool_decide (failure_stage_ (texts s) = "") then set_failure "peer_connection" error s else set_failed s in
  match st with
  | Connected =>
    with_times (mkTimes now now (connection_wait_started_ (times s)))
      (with_flags (mkFlags (local_description_ready_ f) (gathering_complete_ f) true (answer_ready_ f) (failed_ f)
                     (closed_ f) (cleanup_started_ f)) s)
  | Failed => broken "PeerConnection failed"
  | Disconnected => broken "PeerConnection disconnected"
  | Closed =>
    with_flags (mkFlags (local_description_ready_ f) (gathering_complete_ f) (connected_ f) (answer_ready_ f) (failed_ f)
                  true (cleanup_started_ f)) s
  | New | Connecting => s
  end.

Definition on_ice_state_change (st : IceState) (s : WebRtcSession) : WebRtcSession :=
  let s := set_states (peer_state_ (texts s)) (ice_state_name st) s in
  let broken error :=
    if bool_decide (failure_stage_ (texts s) = "") || bool_decide (failure_stage_ (texts s) = "peer_connection")
    then set_failure "ice" error s else set_failed s in
  match st with
  | IceFailed => broken "ICE connectivity failed"
  | IceDisconnected => broken "ICE disconnected"
  | _ => s
  end.

(** The keyframe requests of the viewer. *)
Definition on_pli (s : WebRtcSession) : WebRtcSession :=
  let c := counters s in
  mkSession (id_ s) (peer_ s) (media_queue_ s) (media_worker_ s) (media_running_ s) (times s) (texts s) (flags s)
    (mkCounters (bytes_sent_ c) (packets_sent_ c) (packets_retransmitted_ c) (u64 (keyframe_events_ c + 1)))
    (media_errors s).

(** *** Failing and closing *)

Definition record_failure (stage error : string) (preserve_specific : bool) (s : WebRtcSession) : WebRtcSession :=
  if preserve_specific && negb (bool_decide (failure_stage_ (texts s) = "")) then s else set_failure stage error s.

Definition record_media_error (error : string) (s : WebRtcSession) : WebRtcSession :=
  let s := record_failure "media" error false s in
  mkSession (id_ s) (peer_ s) (media_queue_ s) (media_worker_ s) (media_running_ s) (times s) (texts s) (flags s)
    (counters s) (u64 (media_errors s + 1)).

(** The critical section of [close_with_reason], the queue's shutdown and the
    join of the worker. *)
Definition close_with_reason (reason : string) (s : WebRtcSession) : WebRtcSession :=
  if cleanup_started_ (flags s) then s
  else
    let f := flags s in let t := texts s in
    mkSession (id_ s) false (Queue.shutdown (media_queue_ s)) false false (times s)
      (mkTexts "closed" (ice_state_ t) (local_candidate_ t) (local_interface_ t) (failure_stage_ t)
         (if bool_decide (close_reason_ t = "") then reason else close_reason_ t) (last_error_ t))
      (mkFlags (local_description_ready_ f) (gathering_complete_ f) (connected_ f) (answer_ready_ f) (failed_ f)
         true true) (counters s) (media_errors s).
Definition close (s : WebRtcSession) : WebRtcSession := close_with_reason "session_closed" s.

(** *** Media *)

(** [thread_starts]: the worker's thread could be created. *)
Definition activate_media (initial_keyframe : option EncodedAccessUnit) (thread_starts : bool) (s : WebRtcSession)
    : bool * WebRtcSession :=
  if closed_ (flags s) || cleanup_started_ (flags s) then (false, s)
  else
    let q := Queue.reset (media_queue_ s) in
    let q := match initial_keyframe with Some u => (Queue.push u q).2 | None => q end in
    if thread_starts then (true, with_media q true true s)
    else (false, with_media (Queue.shutdown q) (media_worker_ s) false s).

Definition enqueue (u : EncodedAccessUnit) (s : WebRtcSession) : WebRtcSession :=
  if media_running_ s then with_media (Queue.push u (media_queue_ s)).2 (media_worker_ s) (media_running_ s) s else s.

(** The media loop ends itself after a unit could not be delivered. *)
Definition media_failed (error : string) (s : WebRtcSession) : WebRtcSession :=
  let s := record_media_error error s in with_media (media_queue_ s) (media_worker_ s) false s.

(** The loop takes the next unit. *)
Definition take_unit (s : WebRtcSession) : option EncodedAccessUnit * WebRtcSession :=
  let '(u, q) := Queue.pop_for (media_queue_ s) in (u, with_media q (media_worker_ s) (media_running_ s) s).

(** *** What other threads do to a session *)

Inductive Event :=
  | LocalDescription (now : Z)
  | LocalCandidate (table : option (list (string * option string))) (candidate : string) (address : option string)
  | GatheringState (complete : bool) (now : Z)
  | StateChange (st : PeerState) (now : Z)
  | IceStateChange (st : IceState)
  | Pli
  | TrackError (error : string)
  | SignalingFailed (message : string)
  | CloseWith (reason : string)
  | Activate (initial_keyframe : option EncodedAccessUnit) (thread_starts : bool)
  | Enqueue (u : EncodedAccessUnit)
  | Take
  | DeliveryFailed (error : string).

(** The worker's own steps happen only while there is a worker. *)
Definition handle (s : WebRtcSession) (e : Event) : WebRtcSession :=
  match e with
  | LocalDescription now => on_local_description now s
  | LocalCandidate table c a => on_local_candidate table c a s
  | GatheringState complete now => on_gathering_state_change complete now s
  | StateChange st now => on_state_change st now s
  | IceStateChange st => on_ice_state_change st s
  | Pli => on_pli s
  | TrackError e => record_media_error e s
  | SignalingFailed m => record_failure "signaling" m true s
  | CloseWith reason => close_with_reason reason s
  | Activate k starts => (activate_media k starts s).2
  | Enqueue u => enqueue u s
  | Take => if media_worker_ s then (take_unit s).2 else s
  | DeliveryFailed e => if media_worker_ s then media_failed e s else s
  end.

Definition handle_all (es : list Event) (s : WebRtcSession) : WebRtcSession := foldl handle s es.

(** *** Accepting an offer

    What the call meets: the parsed description, what the library calls throw,
    what happens to the session before the wait ends and before the answer is
    returned, whether the wait timed out, and the local description (whether it
    is an answer, and its text). *)
Record OfferWorld := mkOfferWorld {
  parsed : Thrown + Description;
  add_track : Z -> option Thrown;
  set_remote : option Thrown;
  while_waiting : list Event;
  timed_out : bool;
  ready_at : Z;
  local : Thrown + option (bool * string);
  while_answering : list Event;
  answered_at : Z;
}.

Definition refusal (e : WebRtc.CreateSessionError) (message : string) : WebRtc.CreateSessionResult :=
  WebRtc.mkResult e "" "" message.
Definition raised (t : Thrown) : WebRtc.CreateSessionResult :=
  match t with
  | InvalidArgument what => refusal WebRtc.InvalidOffer what
  | OtherException what => refusal WebRtc.Internal what
  end.

(** The first [try] block: [None] when it completes. *)
Definition offer_phase (w : OfferWorld) (s : WebRtcSession) : option WebRtc.CreateSessionResult :=
  match parsed w with
  | inl t => Some (raised t)
  | inr o =>
    if closed_ (flags s) || negb (peer_ s) then
      Some (refusal WebRtc.Internal "PeerConnection closed while accepting the offer")
    else match negotiate (add_track w) o with
         | inl (Refused message) => Some (refusal WebRtc.InvalidOffer message)
         | inl (Raised t) => Some (raised t)
         | inr _ => raised <$> set_remote w
         end
  end.

(** The predicate of the wait. *)
Definition answerable (s : WebRtcSession) : bool :=
  (local_description_ready_ (flags s) && gathering_complete_ (flags s)) || failed_ (flags s) || closed_ (flags s).

Definition gone : WebRtc.CreateSessionResult :=
  refusal WebRtc.Internal "PeerConnection closed while creating the answer".

(** The second [try] block. *)
Definition answer_phase (w : OfferWorld) (s : WebRtcSession) : WebRtc.CreateSessionResult * WebRtcSession :=
  match local w with
  | inl (InvalidArgument what) | inl (OtherException what) => (refusal WebRtc.Internal what, s)
  | inr (Some (true, answer)) =>
    let s := handle_all (while_answering w) s in
    let f := flags s in
    if closed_ f || failed_ f then (gone, s)
    else
      (WebRtc.mkResult WebRtc.None_ (id_ s) answer "",
       with_times (mkTimes (last_activity_ (times s)) (connected_at_ (times s)) (answered_at w))
         (with_flags (mkFlags (local_description_ready_ f) (gathering_complete_ f) (connected_ f) true (failed_ f)
                        (closed_ f) (cleanup_started_ f)) s))
  | inr _ => (refusal WebRtc.Internal "PeerConnection did not produce an SDP answer", s)
  end.

(** [None]: the call is still waiting. *)
Definition accept_offer (w : OfferWorld) (s : WebRtcSession) : option (WebRtc.CreateSessionResult * WebRtcSession) :=
  match offer_phase w s with
  | Some r => Some (r, s)
  | None =>
    let s := handle_all (while_waiting w) s in
    if answerable s then
      if failed_ (flags s) || closed_ (flags s) then Some (gone, s)
      else Some (answer_phase w (active_at (ready_at w) s))
    else if timed_out w then Some (refusal WebRtc.GatheringTimeout "ICE gathering timed out", s)
    else None
  end.

(** *** Reporting *)

(** [pair]: the selected candidate pair ([None]: the query throws). *)
Definition diagnostics (now : Z) (table : option (list (string * option string)))
    (pair : option (option (string * option string))) (local_address : option string) (s : WebRtcSession)
    : WebRtc.WebRtcPeerDiagnostics :=
  let t := texts s in let c := counters s in
  let connected_at := connected_at_ (times s) in
  let age := if connected_at =? 0 then 0 else u64 ((now - connected_at) ÷ 1000000000) in
  let result candidate selected :=
    WebRtc.mkPeer (id_ s) (peer_state_ t) (ice_state_ t) candidate (local_interface_ t) selected age
      (bytes_sent_ c) (packets_sent_ c) (packets_retransmitted_ c) (Queue.dropped (Queue.stats (media_queue_ s)))
      (keyframe_events_ c) (failure_stage_ t) (close_reason_ t) (last_error_ t) in
  if negb (peer_ s) then result (local_candidate_ t) ""
  else match pair with
       | None => result (local_candidate_ t) ""
       | Some (Some (candidate, address)) =>
         result candidate (match address with Some a => interface_for_address table a | None => "" end)
       | Some None =>
         match local_address with
         | None => result (local_candidate_ t) ""
         | Some a =>
           result (if bool_decide (local_candidate_ t = "") then a else local_candidate_ t)
             (interface_for_address table (endpoint_address a))
         end
       end.

Definition stale_reason (now timeout : Z) (s : WebRtcSession) : string :=
  let f := flags s in let t := texts s in
  if failed_ f then
    if bool_decide (failure_stage_ t = "") then "peer_failure" else failure_stage_ t +:+ "_failure"
  else if closed_ f then
    if bool_decide (close_reason_ t = "") then "peer_closed" else close_reason_ t
  else if answer_ready_ f && negb (connected_ f) && (timeout <=? now - connection_wait_started_ (times s)) then
    "connection_timeout"
  else "".

(** *** Invariants *)

(** A failed session names the stage; a session being cleaned up has let go of
    its connection, its worker and its queue for good. *)
Definition inv (s : WebRtcSession) : Prop :=
  (failed_ (flags s) = true -> failure_stage_ (texts s) <> "") /\
  (if cleanup_started_ (flags s)
   then closed_ (flags s) = true /\ peer_ s = false /\ media_running_ s = false /\ media_worker_ s = false /\
        Queue.is_shutdown (media_queue_ s) = true
   else peer_ s = true).

(** What closing fixes: nothing below changes any more. *)
Definition sealed (s : WebRtcSession) : string * bool * Queue.BoundedQueue EncodedAccessUnit * bool * bool :=
  (close_reason_ (texts s), cleanup_started_ (flags s), media_queue_ s, media_running_ s, media_worker_ s).

Ltac open_session s :=
  destruct s as [sid sp sq sw sr [stt1 st2 st3] [sx1 sx2 sx3 sx4 sx5 sx6 sx7] [sf1 sf2 sf3 sf4 sf5 sf6 sf7] sc sm].

Lemma inv_handle s e : inv s -> inv (handle s e).
Proof.
  open_session s. unfold inv. intros [H1 H2]. destruct e as [| |[]|[]|[]| | | |r|k []| | |]; simpl in *;
    unfold record_failure, close_with_reason, activate_media, enqueue, take_unit, media_failed, set_failure in *;
    simpl in *; try (split; assumption); repeat (case_match; simpl in *; simplify_eq/=); try done; naive_solver.
Qed.

Lemma inv_handle_all es s : inv s -> inv (handle_all es s).
Proof. revert s. induction es as [|e es IH]; intros s H; simpl; [done|]. by apply IH, inv_handle. Qed.

Lemma inv_fresh id capacity now s : make_session id capacity now = inr s -> inv s.
Proof. unfold make_session. case_match; [done|]. intros [= <-]. done. Qed.

Lemma sealed_handle s e : inv s -> cleanup_started_ (flags s) = true -> sealed (handle s e) = sealed s.
Proof.
  open_session s. unfold inv, sealed. simpl. intros [H1 H2] ->. destruct H2 as (-> & -> & -> & -> & Hq).
  destruct e as [| |[]|[]|[]| | | |r|k []| | |]; simpl in *;
    unfold record_failure, close_with_reason, activate_media, enqueue, set_failure in *; simpl in *; repeat case_match; done.
Qed.

Lemma sealed_handle_all es s : inv s -> cleanup_started_ (flags s) = true -> sealed (handle_all es s) = sealed s.
Proof.
  revert s. induction es as [|e es IH]; intros s Hi Hc; [done|].
  pose proof (sealed_handle s e Hi Hc) as E. change (handle_all (e :: es) s) with (handle_all es (handle s e)).
  rewrite IH; [done|by apply inv_handle|].
  unfold sealed in E. congruence.
Qed.

Lemma close_seals reason s : inv s -> inv (close_with_reason reason s) /\
  cleanup_started_ (flags (close_with_reason reason s)) = true.
Proof. intros H. split; [by apply (inv_handle s (CloseWith reason))|]. unfold close_with_reason. by case_match. Qed.

(** No other thread marks the answer as ready. *)
Lemma answer_ready_handle s e : answer_ready_ (flags (handle s e)) = answer_ready_ (flags s).
Proof.
  open_session s. destruct e as [| |[]|[]|[]| | | |r|k []| | |]; simpl in *;
    unfold record_failure, close_with_reason, activate_media, enqueue, take_unit, media_failed, set_failure in *;
    simpl in *; repeat (case_match; simpl in *; simplify_eq/=); done.
Qed.

Lemma answer_ready_handle_all es s : answer_ready_ (flags (handle_all es s)) = answer_ready_ (flags s).
Proof.
  revert s. induction es as [|e es IH]; intros s; [done|].
  change (handle_all (e :: es) s) with (handle_all es (handle s e)). by rewrite IH, answer_ready_handle.
Qed.

Lemma ready_handle s e : local_description_ready_ (flags s) && gathering_complete_ (flags s) = true ->
  local_description_ready_ (flags (handle s e)) && gathering_complete_ (flags (handle s e)) = true.
Proof.
  open_session s. destruct e as [| |[]|[]|[]| | | |r|k []| | |]; simpl in *;
    unfold record_failure, close_with_reason, activate_media, enqueue, take_unit, media_failed, set_failure in *;
    simpl in *; repeat (case_match; simpl in *; simplify_eq/=); intros; bools; subst; done.
Qed.

Lemma ready_handle_all es s : local_description_ready_ (flags s) && gathering_complete_ (flags s) = true ->
  local_description_ready_ (flags (handle_all es s)) && gathering_complete_ (flags (handle_all es s)) = true.
Proof. revert s. induction es as [|e es IH]; intros s; simpl; [done|]. intros H. by apply IH, ready_handle. Qed.

(** C29.   An answer is handed out exactly when the session can use it: the call returns as soon as
    the wait has timed out at the latest; it reports success precisely when it leaves the session
    marked as answered, and then the offer was acceptable, the local description and all candidates
    were gathered, and the session had neither failed nor been closed when the answer was taken -
    however the callbacks of other threads were interleaved. *)
Theorem offer_answered_iff_ready w s : answer_ready_ (flags s) = false ->
  (timed_out w = true -> accept_offer w s <> None) /\
  forall r s', accept_offer w s = Some (r, s') ->
    (WebRtc.error r = WebRtc.None_ <-> answer_ready_ (flags s') = true) /\
    (answer_ready_ (flags s') = true ->
       closed_ (flags s') = false /\ failed_ (flags s') = false /\
       local_description_ready_ (flags s') = true /\ gathering_complete_ (flags s') = true /\
       WebRtc.session_id r = id_ s' /\ connection_wait_started_ (times s') = answered_at w /\
       exists o p, parsed w = inr o /\ negotiate (add_track w) o = inr p).
Proof.
  intros Ha. unfold accept_offer. destruct (offer_phase w s) as [r0|] eqn:Eo.
  - split; [done|]. intros r s' [= <- <-]. rewrite Ha. split; [|done].
    enough (WebRtc.error r0 <> WebRtc.None_) by (split; [done|discriminate]).
    unfold offer_phase, raised, refusal in Eo. repeat (case_match; simplify_eq/=); try discriminate.
    destruct (set_remote w) as [[]|]; simplify_eq/=; discriminate.
  - pose proof (answer_ready_handle_all (while_waiting w) s) as Hw. rewrite Ha in Hw.
    set (s1 := handle_all (while_waiting w) s) in *. split; [intros Ht; rewrite Ht; by repeat case_match|].
    intros r s'. destruct (answerable s1) eqn:Es; [|case_match; [|done]; intros [= <- <-]; by rewrite Hw].
    destruct (failed_ (flags s1) || closed_ (flags s1)) eqn:Ef; [intros [= <- <-]; by rewrite Hw|].
    assert (Hr : local_description_ready_ (flags s1) && gathering_complete_ (flags s1) = true)
      by (unfold answerable in Es; rewrite <- orb_assoc, Ef, orb_false_r in Es; done).
    intros [= E]. unfold answer_phase in E. pose proof (answer_ready_handle_all (while_answering w) (active_at (ready_at w) s1)) as H2.
    pose proof (ready_handle_all (while_answering w) (active_at (ready_at w) s1) Hr) as H3.
    change (flags (active_at (ready_at w) s1)) with (flags s1) in H2. rewrite Hw in H2.
    destruct (local w) as [[]|[[[] answer]|]]; try (injection E as <- <-; simpl; by rewrite Hw).
    set (s2 := handle_all (while_answering w) (active_at (ready_at w) s1)) in *.
    destruct (closed_ (flags s2) || failed_ (flags s2)) eqn:E2; injection E as <- <-; [by rewrite H2|].
    bools. simpl. split; [done|]. intros _. split_and!; try done.
    unfold offer_phase in Eo. repeat (case_match; simplify_eq/=). eauto.
Qed.

(** Closing is final: once a session has been told to close, no callback, request or media unit
    changes its close reason or its queue, restarts its worker or lets an offer through, and it
    counts as stale from then on, so that the manager drops it. *)
Theorem closed_session_inert id capacity now s es es' reason w : make_session id capacity now = inr s ->
  let s1 := close_with_reason reason (handle_all es s) in
  let s2 := handle_all es' s1 in
  sealed s2 = sealed s1 /\ media_running_ s2 = false /\ (activate_media None true s2).1 = false /\
  (forall r s3, accept_offer w s2 = Some (r, s3) -> WebRtc.error r <> WebRtc.None_) /\
  (forall t timeout, stale_reason t timeout s2 <> "").
Proof.
  intros Hm s1 s2. pose proof (inv_handle_all es s (inv_fresh _ _ _ _ Hm)) as Hi.
  destruct (close_seals reason _ Hi) as [Hi1 Hc1]. fold s1 in Hi1, Hc1.
  pose proof (sealed_handle_all es' s1 Hi1 Hc1) as Hs. fold s2 in Hs.
  pose proof (inv_handle_all es' s1 Hi1) as [Hfail Hclean]. fold s2 in Hfail, Hclean.
  assert (Hc2 : cleanup_started_ (flags s2) = true) by (unfold sealed in Hs; congruence).
  rewrite Hc2 in Hclean. destruct Hclean as (Hcl & Hp & Hr & Hwk & Hq).
  split_and!; [done|done|unfold activate_media; by rewrite Hcl| |].
  - intros r s3. unfold accept_offer, offer_phase. rewrite Hcl. cbn [orb].
    destruct (parsed w) as [[]|]; intros [= <- _]; discriminate.
  - intros t timeout. unfold stale_reason. rewrite Hcl. repeat case_match; bools; try done.
    by destruct (failure_stage_ (texts s2)).
Qed.

Definition sample_offer : Description :=
  mkDescription ["recvonly"]
    [Some (mkSection false Unknown [(97, Some (mkRtpMap "VP8" [])); (102, Some (mkRtpMap "h264"
       ["level-asymmetry-allowed=1;packetization-mode=1;profile-level-id=42e01f"]))])].

Definition sample_world (es : list Event) : OfferWorld :=
  mkOfferWorld (inr sample_offer) no_throw None [LocalDescription 5; GatheringState true 6] false 7
    (inr (Some (true, "v=0 answer"))) es 8.

Definition sample_session : WebRtcSession := default (mkSession "" false (Queue.mkQueue 0 [] Queue.stats_zero false) false
  false (mkTimes 0 0 0) (mkTexts "" "" "" "" "" "" "") (mkFlags false false false false false false false)
  (mkCounters 0 0 0 0) 0) (match make_session "ab12" 8 1 with inr s => Some s | inl _ => None end).

Lemma offer_answered_iff_ready_witness :
  (exists r s', accept_offer (sample_world []) sample_session = Some (r, s') /\ WebRtc.error r = WebRtc.None_ /\
     gathering_complete_ (flags s') = true) /\
  (exists r s', accept_offer (sample_world [StateChange Failed 9]) sample_session = Some (r, s') /\
     WebRtc.error r <> WebRtc.None_).
Proof.
  destruct (offer_answered_iff_ready (sample_world []) sample_session eq_refl) as [_ H].
  destruct (offer_answered_iff_ready (sample_world [StateChange Failed 9]) sample_session eq_refl) as [_ H'].
  destruct (accept_offer (sample_world []) sample_session) as [[r s']|] eqn:E; [|vm_compute in E; discriminate].
  destruct (accept_offer (sample_world [StateChange Failed 9]) sample_session) as [[r2 s2]|] eqn:E2;
    [|vm_compute in E2; discriminate].
  split.
  - exists r, s'. destruct (H r s' eq_refl) as [H1 H2].
    assert (Ha : answer_ready_ (flags s') = true) by (vm_compute in E; by injection E as <- <-).
    split_and!; [done|by apply H1|apply H2, Ha].
  - exists r2, s2. split; [done|]. rewrite (proj1 (H' r2 s2 eq_refl)).
    vm_compute in E2. by injection E2 as <- <-.
Defined.

Lemma closed_session_inert_witness :
  let s1 := close_with_reason "client_delete" (handle_all [Activate None true] sample_session) in
  close_reason_ (texts (handle_all [CloseWith "service_shutdown"; Activate None true; StateChange Connected 9] s1)) =
    "client_delete" /\
  media_running_ (handle_all [CloseWith "service_shutdown"; Activate None true; StateChange Connected 9] s1) = false.
Proof.
  destruct (closed_session_inert "ab12" 8 1 sample_session [Activate None true]
    [CloseWith "service_shutdown"; Activate None true; StateChange Connected 9] "client_delete" (sample_world []) eq_refl)
    as (Hs & Hr & _).
  split; [exact (f_equal (fun x => x.1.1.1.1) Hs)|exact Hr].
Defined.
End Session.
