(* ===== verification/GstPipeline.v ===== *)
(** * GStreamer pipelines ([src/video/gstreamer_runtime.cpp])

    The wrapper around a pipeline: starting it with a deadline, polling its bus,
    stopping it, and releasing it.  GStreamer's answers are inputs; [actual] is the
    last state it reported for the element, unknown after a request. *)

From S2P Require Import Prelude Strings.

Module Gst.

Inductive GstState := VoidPending | Null | Ready | Paused | Playing.
#[export] Instance GstState_eq : EqDecision GstState.
Proof. solve_decision. Defined.

Definition state_name (s : GstState) : string :=
  match s with
  | VoidPending => "VOID_PENDING"
  | Null => "NULL"
  | Ready => "READY"
  | Paused => "PAUSED"
  | Playing => "PLAYING"
  end.

(** [initialize_once]: the first answer of [gst_init_check] is kept. *)
Definition initialize_once (answer : option string + unit) (once : option (throws unit)) : throws unit * option (throws unit) :=
  match once with
  | Some r => (r, once)
  | None =>
    let r := match answer with
             | inl message => throw (default "GStreamer initialization failed" message)
             | inr _ => inr tt
             end in
    (r, Some r)
  end.

Definition second : Z := 1000000000.
Definition ms (n : Z) : Z := n * 1000000.

(** [clock_time]. *)
Definition clock_time (timeout_ms : Z) : Z := ms (Z.max 0 timeout_ms).

Record Pipeline := mkPipeline {
  stopped_ : bool;
  last_error_ : string;
  flushing : bool;
  actual : option GstState;
  log : list string;
}.

(** A new element is in state NULL. *)
Definition created : Pipeline := mkPipeline false "" false (Some Null) [].

Definition create_empty (initialized element bus : bool) : throws Pipeline :=
  if negb initialized then throw "GStreamer must be initialized before creating a pipeline"
  else if negb element then throw "could not create GstPipeline"
  else if negb bus then throw "pipeline has no GstBus"
  else inr created.

(** [parsed]: what [gst_parse_launch] reports, else whether it made a pipeline. *)
Definition from_launch (initialized : bool) (parsed : throws bool) (bus : bool) : throws Pipeline :=
  if negb initialized then throw "GStreamer must be initialized before creating a pipeline"
  else match parsed with
  | inl e => throw e
  | inr made =>
    if negb made then throw "launch description must create a GstPipeline"
    else if negb bus then throw "pipeline has no GstBus"
    else inr created
  end.

Definition fails (error : string) (p : Pipeline) : Pipeline :=
  mkPipeline (stopped_ p) error (flushing p) (actual p) (log p ++ [error]).
Definition sees (s : GstState) (p : Pipeline) : Pipeline :=
  mkPipeline (stopped_ p) (last_error_ p) (flushing p) (Some s) (log p).
Definition notes (m : string) (p : Pipeline) : Pipeline :=
  mkPipeline (stopped_ p) (last_error_ p) (flushing p) (actual p) (log p ++ [m]).

(** One turn of the wait: whether the caller cancels, the clock before the question,
    GStreamer's answer, and the clock at the check. *)
Record Turn := mkTurn {
  cancelled : bool;
  asked_at : Z;
  failure : bool;
  seen : GstState;
  checked_at : Z;
}.

(** How long a turn asks for, in milliseconds. *)
Definition slice (deadline asked : Z) : Z := Z.max 0 (Z.min 50 (Z.quot (deadline - asked) 1000000)).

(** [None]: still waiting. *)
Fixpoint wait_playing (deadline : Z) (turns : list Turn) (p : Pipeline) : option (bool * Pipeline) :=
  match turns with
  | [] => None
  | t :: rest =>
    if cancelled t then
      Some (false, mkPipeline (stopped_ p) "pipeline startup cancelled" (flushing p) (actual p) (log p))
    else
      let p := sees (seen t) p in
      if failure t then Some (false, fails "pipeline failed while entering PLAYING" p)
      else if bool_decide (seen t = Playing) then Some (true, notes "pipeline entered PLAYING" p)
      else if deadline <=? checked_at t then Some (false, fails "pipeline did not enter PLAYING before timeout" p)
      else wait_playing deadline rest p
  end.

(** [requested]: whether the state could be requested. *)
Definition start (begun timeout_ms : Z) (requested : bool) (turns : list Turn) (p : Pipeline) : option (bool * Pipeline) :=
  let p := mkPipeline false "" false None (log p ++ ["pipeline state PLAYING requested"]) in
  if negb requested then Some (false, fails "failed to request PLAYING state" p)
  else wait_playing (begun + ms timeout_ms) turns p.

Inductive BusEvent :=
  | NoEvent
  | StateChanged (old new : GstState)
  | Eos
  | BusError (detail : string).

Inductive message :=
  | ErrorMessage (text : option string)
  | EosMessage
  | StateMessage (old new : GstState) (own : bool).

Definition poll (m : option message) (p : Pipeline) : BusEvent * Pipeline :=
  match m with
  | None => (NoEvent, p)
  | Some (ErrorMessage text) =>
    let detail := default "unknown GStreamer error" text in (BusError detail, fails detail p)
  | Some EosMessage => (Eos, notes "end of stream" p)
  | Some (StateMessage old new own) =>
    (StateChanged old new,
     if own then notes ("pipeline state " +:+ state_name old +:+ " -> " +:+ state_name new) p else p)
  end.

(** [requested] and [settled]: whether the request and the wait failed; [state]: the
    state reported at the end. *)
Definition stop (requested settled : bool) (state : GstState) (p : Pipeline) : bool * Pipeline :=
  if stopped_ p then (true, p)
  else
    let p := sees state (notes "pipeline state NULL requested" p) in
    if requested || settled || negb (bool_decide (state = Null)) then
      (false, fails (if requested || settled then "pipeline failed while entering NULL"
                     else "pipeline did not enter NULL before timeout") p)
    else (true, mkPipeline true "" true (actual p) (log p ++ ["pipeline entered NULL"])).

(** The destructor: stop, once more if that failed, and release the element only
    when it is stopped.  [true]: released. *)
Definition destroy (first again : bool * bool * GstState) (p : Pipeline) : bool * Pipeline :=
  let '(r1, s1, st1) := first in
  let '(r2, s2, st2) := again in
  let '(done, p) := stop r1 s1 st1 p in
  let p := if done then p else (stop r2 s2 st2 p).2 in
  if stopped_ p then (true, p)
  else (false, notes "pipeline remains referenced after repeated NULL failure" p).

(** ** Any use of a pipeline *)

Inductive use :=
  | Starts (begun timeout_ms : Z) (requested : bool) (turns : list Turn)
  | Polls (m : option message)
  | Stops (requested settled : bool) (state : GstState).

(** A start that is still waiting has not returned. *)
Definition apply_use (u : use) (p : Pipeline) : option Pipeline :=
  match u with
  | Starts begun timeout_ms requested turns => snd <$> start begun timeout_ms requested turns p
  | Polls m => Some (poll m p).2
  | Stops requested settled state => Some (stop requested settled state p).2
  end.
Fixpoint uses (us : list use) (p : Pipeline) : option Pipeline :=
  match us with [] => Some p | u :: rest => p' ← apply_use u p; uses rest p' end.

(** A stopped pipeline is in state NULL. *)
Definition settled_ (p : Pipeline) : Prop := stopped_ p = true -> actual p = Some Null.

Lemma wait_settled deadline turns : forall p b p', stopped_ p = false -> wait_playing deadline turns p = Some (b, p') -> stopped_ p' = false.
Proof.
  induction turns as [|t turns IH]; intros p b p' Hs H; cbn [wait_playing] in H; [done|].
  destruct (cancelled t); [by injection H as _ <-|]. destruct (failure t); [by injection H as _ <-|].
  destruct (bool_decide _); [by injection H as _ <-|]. destruct (_ <=? _); [by injection H as _ <-|]. by eapply IH; [|exact H].
Qed.

Lemma stop_settled r s st p : settled_ p -> settled_ (stop r s st p).2.
Proof.
  intros H. unfold stop. destruct (stopped_ p) eqn:E; [done|]. unfold settled_. destruct (r || s); cbn [orb]; [cbn; by rewrite E|].
  case_bool_decide as Hn; cbn; [by rewrite Hn|by rewrite E].
Qed.

Lemma uses_settled us : forall p p', settled_ p -> uses us p = Some p' -> settled_ p'.
Proof.
  induction us as [|u us IH]; intros p p' H Hu; cbn [uses] in Hu; [by injection Hu as <-|].
  apply bind_Some in Hu as (p1 & Ha & Hu). apply (IH p1); [|done]. clear IH Hu. destruct u as [begun timeout requested turns|m|r s st]; cbn in Ha.
  - apply fmap_Some in Ha as ([b p2] & Hs & ->). unfold start in Hs. cbn. intros Hp. destruct requested; cbn in Hs; [|by simplify_eq].
    apply wait_settled in Hs; [congruence|done].
  - injection Ha as <-. destruct m as [[t| |o n []]|]; done.
  - injection Ha as <-. by apply stop_settled.
Qed.

(** A pipeline is released only in state NULL: however it was started, polled and stopped before,
    the destructor gives up its reference only when GStreamer reported NULL, and keeps it, with an
    error in the log, when both its attempts failed. *)
Theorem released_in_null us p first again (Hu : uses us created = Some p) :
  let '(released, p') := destroy first again p in
  (released = true -> actual p' = Some Null) /\
  (released = false -> last (log p') = Some "pipeline remains referenced after repeated NULL failure").
Proof.
  assert (Hs : settled_ p) by (by apply (uses_settled us created)).
  unfold destroy. destruct first as [[r1 s1] st1], again as [[r2 s2] st2]. pose proof (stop_settled r1 s1 st1 p Hs) as H1.
  destruct (stop r1 s1 st1 p) as [done p1]. cbn [snd] in H1. set (p2 := if done then p1 else _).
  assert (H2 : settled_ p2) by (unfold p2; destruct done; [done|by apply stop_settled]). clearbody p2.
  destruct (stopped_ p2) eqn:E; (split; [|done || (intros _; cbn; by rewrite last_snoc)]); [by intros _; apply H2|done].
Qed.

(** Starting a pipeline is decided by its deadline: once the clock of a check has reached the
    deadline the call has returned; it returns [true] only when the element was seen in state
    PLAYING, and [false] always with an error text. *)
Theorem start_decided begun timeout_ms turns p (Hd : exists t, t ∈ turns /\ begun + ms timeout_ms <= checked_at t) :
  exists b p', start begun timeout_ms true turns p = Some (b, p') /\
    (b = true -> actual p' = Some Playing /\ last_error_ p' = "") /\ (b = false -> last_error_ p' <> "").
Proof.
  unfold start. cbn [negb]. set (p0 := mkPipeline _ _ _ _ _). assert (He : last_error_ p0 = "") by done. clearbody p0.
  revert p0 He. induction turns as [|t turns IH]; intros p0 He; [destruct Hd as (t & Ht & _); by apply not_elem_of_nil in Ht|].
  cbn [wait_playing]. destruct (cancelled t); [by eexists _, _; split|]. destruct (failure t); [by eexists _, _; split|].
  case_bool_decide as Hp; [eexists _, _; split; [done|]; by cbn; rewrite Hp|].
  destruct (Z.leb_spec (begun + ms timeout_ms) (checked_at t)); [by eexists _, _; split|].
  apply IH; [|done]. destruct Hd as (t' & [->|Ht']%elem_of_cons & Hl); [lia|eauto].
Qed.

(** *** A pipeline that does not stop at the first attempt *)

Definition sample_uses : list use := [Starts 0 6000 true [mkTurn false 0 false Paused (ms 50); mkTurn false (ms 50) false Playing (ms 90)]; Polls None].

Lemma released_in_null_witness : exists p, uses sample_uses created = Some p /\
  let '(released, p') := destroy (true, false, Playing) (false, false, Null) p in released = true /\ actual p' = Some Null.
Proof.
  eexists. split; [vm_compute; reflexivity|].
  pose proof (released_in_null sample_uses _ (true, false, Playing) (false, false, Null) eq_refl) as H.
  match goal with |- context [destroy ?a ?b ?p] => change (uses sample_uses created) with (Some p) in H end.
  destruct H as [H _]. split; [by vm_compute|by apply H; vm_compute].
Defined.

Lemma start_decided_witness : exists b p',
  start 0 100 true [mkTurn false 0 false Ready (ms 50); mkTurn false (ms 50) false Paused (ms 101)] created = Some (b, p') /\
  b = false /\ last_error_ p' <> "".
Proof.
  destruct (start_decided 0 100 [mkTurn false 0 false Ready (ms 50); mkTurn false (ms 50) false Paused (ms 101)] created) as (b & p' & H & _ & H2).
  - eexists. split; [right; left|by vm_compute].
  - exists b, p'. vm_compute in H. injection H as <- <-. split_and!; [by vm_compute|done|by apply H2].
Defined.
End Gst.
