(* ===== verification/RtspSource.v ===== *)
(** * The RTSP source ([src/video/rtsp_source.cpp], [include/skai/video/rtsp_source.hpp])

    What the capture thread does with the samples, pads and statistics GStreamer
    gives it.  GStreamer itself is an input: caps, buffers, which plugins exist,
    whether linking worked.  [Source] has the state and every operation, [Capture]
    the loop over attempts, [Gate] the protocol that keeps signal handlers away from
    a pipeline that is torn down. *)

From S2P Require Import Prelude Strings Json Floats ConfigData BoundedQueue RtspRecovery Diagnostics Health Preprocess YoloPostprocess Annotator WebRtcSession.

Module Source.
Import Recovery Rtsp.

Inductive DecodeMode := Auto | Software.
Record ElementNames := mkNames { depay : string; parser : string; software_decoder : string }.

Definition elements_for (codec : string) : ElementNames :=
  if bool_decide (codec = "H265") then mkNames "rtph265depay" "h265parse" "avdec_h265"
  else mkNames "rtph264depay" "h264parse" "avdec_h264".

Definition supported_levels : list string := ["1"; "1b"; "1.1"; "1.2"; "1.3"; "2"; "2.1"; "2.2"; "3"; "3.1"].

(** Caps of a sample: the profile and level of the first structure, if any. *)
Definition Caps : Type := option (option string * option string).

Definition browser_compatible_h264_caps (caps : Caps) : throws unit :=
  match caps with
  | None => throw "source H.264 caps are unavailable"
  | Some (profile, level) =>
    if negb (bool_decide (profile = Some "constrained-baseline")) then
      throw "source H.264 must use constrained-baseline profile"
    else match level with
         | None => throw "source H.264 level is unavailable"
         | Some level =>
           if bool_decide (level ∈ supported_levels) then inr tt
           else throw "source H.264 must use level 3.1 or lower"
         end
  end.

(** The objects given to the constructor. *)
Record Setup := mkSetup {
  decode_mode_ : DecodeMode;
  enqueue_frames_ : bool;
  has_status : bool;
  has_queue : bool;
  has_unit_sink : bool;
  has_media_sink : bool;
}.

(** Sinks are borrowed pointers into the pipeline: present or not.  A time point is
    nanoseconds.  [units], [pushed] and [told] are histories: the access units
    published, the frames pushed and the calls of the media status sink. *)
Record RtspSource := mkSource {
  config_ : Cfg.VideoConfig;
  frames_ : Queue.BoundedQueue Annotator.Frame;
  encoded_access_units_ : Queue.BoundedQueue Media.EncodedAccessUnit;
  status_ : Status.RuntimeStatus;
  pipeline_ : bool;
  sink_ : bool;
  encoded_sink_ : bool;
  diagnostics_ : RtspDiagnostics;
  last_frame_time_ : option Z;
  ingest_rate_ : Metrics.IngestRate;
  jitterbuffer_ : bool;
  pipeline_packets_lost_ : MonotonicCounter;
  pipeline_packets_late_ : MonotonicCounter;
  access_unit_sequence_ : Z;
  first_access_unit_ : bool;
  pipeline_generation_ : Z;
  media_status_ : option (bool * string);
  units : list Media.EncodedAccessUnit;
  pushed : list Annotator.Frame;
  told : list (bool * string);
  log : list string;
}.

(** *** Setters *)

Definition set_queues frames encoded (s : RtspSource) : RtspSource :=
  mkSource (config_ s) frames encoded (status_ s) (pipeline_ s) (sink_ s) (encoded_sink_ s) (diagnostics_ s)
    (last_frame_time_ s) (ingest_rate_ s) (jitterbuffer_ s) (pipeline_packets_lost_ s) (pipeline_packets_late_ s)
    (access_unit_sequence_ s) (first_access_unit_ s) (pipeline_generation_ s) (media_status_ s) (units s) (pushed s)
    (told s) (log s).
Definition set_report status diagnostics last rate (s : RtspSource) : RtspSource :=
  mkSource (config_ s) (frames_ s) (encoded_access_units_ s) status (pipeline_ s) (sink_ s) (encoded_sink_ s) diagnostics
    last rate (jitterbuffer_ s) (pipeline_packets_lost_ s) (pipeline_packets_late_ s)
    (access_unit_sequence_ s) (first_access_unit_ s) (pipeline_generation_ s) (media_status_ s) (units s) (pushed s)
    (told s) (log s).
Definition set_pipeline pipeline sink encoded_sink generation first (s : RtspSource) : RtspSource :=
  mkSource (config_ s) (frames_ s) (encoded_access_units_ s) (status_ s) pipeline sink encoded_sink (diagnostics_ s)
    (last_frame_time_ s) (ingest_rate_ s) (jitterbuffer_ s) (pipeline_packets_lost_ s) (pipeline_packets_late_ s)
    (access_unit_sequence_ s) first generation (media_status_ s) (units s) (pushed s) (told s) (log s).
Definition set_jitter jitter lost late (s : RtspSource) : RtspSource :=
  mkSource (config_ s) (frames_ s) (encoded_access_units_ s) (status_ s) (pipeline_ s) (sink_ s) (encoded_sink_ s)
    (diagnostics_ s) (last_frame_time_ s) (ingest_rate_ s) jitter lost late
    (access_unit_sequence_ s) (first_access_unit_ s) (pipeline_generation_ s) (media_status_ s) (units s) (pushed s)
    (told s) (log s).
Definition set_units sequence first units_ (s : RtspSource) : RtspSource :=
  mkSource (config_ s) (frames_ s) (encoded_access_units_ s) (status_ s) (pipeline_ s) (sink_ s) (encoded_sink_ s)
    (diagnostics_ s) (last_frame_time_ s) (ingest_rate_ s) (jitterbuffer_ s) (pipeline_packets_lost_ s)
    (pipeline_packets_late_ s) sequence first (pipeline_generation_ s) (media_status_ s) units_ (pushed s) (told s) (log s).
Definition set_trace media pushed_ told_ log_ (s : RtspSource) : RtspSource :=
  mkSource (config_ s) (frames_ s) (encoded_access_units_ s) (status_ s) (pipeline_ s) (sink_ s) (encoded_sink_ s)
    (diagnostics_ s) (last_frame_time_ s) (ingest_rate_ s) (jitterbuffer_ s) (pipeline_packets_lost_ s)
    (pipeline_packets_late_ s) (access_unit_sequence_ s) (first_access_unit_ s) (pipeline_generation_ s) media (units s)
    pushed_ told_ log_.

Definition set_diagnostics d (s : RtspSource) : RtspSource := set_report (status_ s) d (last_frame_time_ s) (ingest_rate_ s) s.
Definition log_message m (s : RtspSource) : RtspSource := set_trace (media_status_ s) (pushed s) (told s) (log s ++ [m]) s.

Definition with_health h count error (d : RtspDiagnostics) : RtspDiagnostics :=
  mkRtsp h (codec d) (decoder d) (width d) (height d) (fps_num d) (fps_den d) (fps_in d) (url_configured d) (transport d)
    (frames_dropped d) (frames_discarded d) (last_frame_age_ms d) (packets_lost d) (packets_late d) (avg_jitter_ns d)
    (frames_received d) count error.
Definition with_codec c dec (d : RtspDiagnostics) : RtspDiagnostics :=
  mkRtsp (health d) c dec (width d) (height d) (fps_num d) (fps_den d) (fps_in d) (url_configured d) (transport d)
    (frames_dropped d) (frames_discarded d) (last_frame_age_ms d) (packets_lost d) (packets_late d) (avg_jitter_ns d)
    (frames_received d) (reconnect_count d) (last_error d).
Definition with_fps fps (d : RtspDiagnostics) : RtspDiagnostics :=
  mkRtsp (health d) (codec d) (decoder d) (width d) (height d) (fps_num d) (fps_den d) fps (url_configured d) (transport d)
    (frames_dropped d) (frames_discarded d) (last_frame_age_ms d) (packets_lost d) (packets_late d) (avg_jitter_ns d)
    (frames_received d) (reconnect_count d) (last_error d).
Definition with_packets lost late jitter (d : RtspDiagnostics) : RtspDiagnostics :=
  mkRtsp (health d) (codec d) (decoder d) (width d) (height d) (fps_num d) (fps_den d) (fps_in d) (url_configured d)
    (transport d) (frames_dropped d) (frames_discarded d) (last_frame_age_ms d) lost late jitter
    (frames_received d) (reconnect_count d) (last_error d).
Definition with_frame w h n den received (d : RtspDiagnostics) : RtspDiagnostics :=
  mkRtsp (health d) (codec d) (decoder d) w h n den (fps_in d) (url_configured d)
    (transport d) (frames_dropped d) (frames_discarded d) (last_frame_age_ms d) (packets_lost d) (packets_late d)
    (avg_jitter_ns d) received (reconnect_count d) (last_error d).

Definition no_diagnostics : RtspDiagnostics :=
  mkRtsp Stopped "" "" 0 0 0 1 f64_zero false "" 0 0 (-1) 0 0 0 0 0 "".

(** The constructor, with the queues and the status board it refers to. *)
Definition make_source (frames : Queue.BoundedQueue Annotator.Frame) (encoded : Queue.BoundedQueue Media.EncodedAccessUnit)
    (status : Status.RuntimeStatus) : RtspSource :=
  mkSource Cfg.default_video frames encoded status false false false no_diagnostics None Metrics.make_rate false
    make_counter make_counter 0 true 0 None [] [] [] [].

(** [serialize_rtsp_metrics]; [show] is how a stream prints a [double]. *)
Definition serialize_rtsp_metrics (show : float64 -> string) (d : RtspDiagnostics) : string :=
  let streams := bool_decide (health d = Connected) || bool_decide (health d = Degraded) in
  js "{'url_configured':" +:+ (if url_configured d then "true" else "false") +:+
  js ",'connected':" +:+ (if streams then "true" else "false") +:+
  js ",'health':'" +:+ source_health_name (health d) +:+ js "','transport':'" +:+ transport d +:+
  js "','codec':'" +:+ codec d +:+ js "','width':" +:+ to_string (width d) +:+ js ",'height':" +:+ to_string (height d) +:+
  js ",'fps_in':" +:+ show (fps_in d) +:+ js ",'frames_received':" +:+ to_string (frames_received d) +:+
  js ",'frames_dropped':" +:+ to_string (frames_dropped d) +:+ js ",'frames_discarded':" +:+ to_string (frames_discarded d) +:+
  js ",'last_frame_age_ms':" +:+ to_string (last_frame_age_ms d) +:+ js ",'reconnect_count':" +:+ to_string (reconnect_count d) +:+
  js ",'packets_lost':" +:+ to_string (packets_lost d) +:+ js ",'packets_late':" +:+ to_string (packets_late d) +:+
  js ",'avg_jitter_ns':" +:+ to_string (avg_jitter_ns d) +:+ "}".

Section Operations.
Context (setup : Setup).

(** [if (status_) status_->...]. *)
Definition update_status (u : Status.update) (s : RtspSource) : RtspSource :=
  if has_status setup
  then set_report (Status.apply (status_ s) u) (diagnostics_ s) (last_frame_time_ s) (ingest_rate_ s) s else s.

(** [failure]: what the media status sink throws. *)
Definition publish_media_status (failure : option string) (available : bool) (reason : string) (s : RtspSource) : RtspSource :=
  if bool_decide (media_status_ s = Some (available, reason)) then s
  else
    let s := set_trace (Some (available, reason)) (pushed s)
               (if has_media_sink setup then told s ++ [(available, reason)] else told s) (log s) s in
    match failure with
    | Some e => if has_media_sink setup then log_message e s else s
    | None => s
    end.

Definition set_error (error : string) (s : RtspSource) : RtspSource :=
  let s := set_diagnostics (with_health Error (reconnect_count (diagnostics_ s)) error (diagnostics_ s)) s in
  log_message error (update_status Status.ClearVideo s).

Definition publish_recovery (r : RtspRecovery) (s : RtspSource) : RtspSource :=
  let d := diagnostics_ s in
  let error := if bool_decide (health_ r = Connected) then "" else last_error d in
  let s := set_diagnostics (with_health (health_ r) (reconnect_count_ r) error d) s in
  if streaming (health_ r) then s else update_status Status.ClearVideo s.

Definition diagnostics (now : Z) (s : RtspSource) : RtspDiagnostics :=
  let d := diagnostics_ s in
  let stats := Queue.stats (frames_ s) in
  mkRtsp (health d) (codec d) (decoder d) (width d) (height d) (fps_num d) (fps_den d) (fps_in d) (url_configured d)
    (transport d) (Queue.dropped stats) (Queue.discarded stats)
    (match last_frame_time_ s with Some t => Z.quot (now - t) 1000000 | None => last_frame_age_ms d end)
    (packets_lost d) (packets_late d) (avg_jitter_ns d) (frames_received d) (reconnect_count d) (last_error d).

(** [stop], once the thread is joined. *)
Definition stop (s : RtspSource) : RtspSource :=
  let d := diagnostics_ s in
  update_status Status.ClearVideo (set_diagnostics (with_health Stopped (reconnect_count d) (last_error d) d) s).

(** The part of [start] before the thread is created; [failure] of the sink. *)
Definition start (valid : throws unit) (gst_ready joinable : bool) (failure : option string) (c : Cfg.VideoConfig)
    (s : RtspSource) : throws RtspSource :=
  if joinable then throw "RTSP source is already running"
  else match valid with
  | inl e => throw e
  | inr _ =>
    if negb gst_ready then throw "GStreamer must be initialized before the RTSP source"
    else
      let s := mkSource c (frames_ s) (encoded_access_units_ s) (status_ s) (pipeline_ s) false false (diagnostics_ s)
                 (last_frame_time_ s) (ingest_rate_ s) (jitterbuffer_ s) (pipeline_packets_lost_ s)
                 (pipeline_packets_late_ s) 0 (first_access_unit_ s) (pipeline_generation_ s) (media_status_ s) (units s)
                 (pushed s) (told s) (log s) in
      let s := update_status Status.ClearVideo s in
      let s := publish_media_status failure false "waiting for a browser-compatible H.264 source" s in
      let d := no_diagnostics in
      let d := mkRtsp Connecting (codec d) (decoder d) (width d) (height d) (fps_num d) (fps_den d) (fps_in d)
                 (negb (bool_decide (Cfg.rtsp_url c = ""))) (Cfg.transport c) (frames_dropped d) (frames_discarded d)
                 (last_frame_age_ms d) (packets_lost d) (packets_late d) (avg_jitter_ns d) (frames_received d)
                 (reconnect_count d) (last_error d) in
      inr (set_report (status_ s) d None (Metrics.reset_rate (ingest_rate_ s)) s)
  end.

Definition close_pipeline (s : RtspSource) : RtspSource :=
  let s := set_jitter false (reset (pipeline_packets_lost_ s)) (reset (pipeline_packets_late_ s)) s in
  set_pipeline false false false (pipeline_generation_ s) (first_access_unit_ s) s.

(** [created]: the empty pipeline; [made]: the [rtspsrc] element, made and added;
    [started]: whether the pipeline came up, with the detail it reports. *)
Definition open_pipeline (failure : option string) (created made started : throws unit) (s : RtspSource)
    : throws unit * RtspSource :=
  let s := set_pipeline (pipeline_ s) false false (u64 (pipeline_generation_ s + 1)) true s in
  let s := set_report (status_ s) (with_fps f64_zero (diagnostics_ s)) (last_frame_time_ s)
             (Metrics.reset_rate (ingest_rate_ s)) s in
  let s := publish_media_status failure false "RTSP source is reconnecting" s in
  match created, made with
  | inl e, _ => (throw e, s)
  | inr _, inl e => (throw e, close_pipeline s)
  | inr _, inr _ =>
    let s := set_pipeline true (sink_ s) (encoded_sink_ s) (pipeline_generation_ s) (first_access_unit_ s) s in
    match started with
    | inl detail =>
      let last := last_error (diagnostics_ s) in
      (throw (if bool_decide (last = "") then detail else last), close_pipeline s)
    | inr _ => (inr tt, s)
    end
  end.

(** A pad with the name of its first structure and its encoding, when its caps are
    known and specific. *)
Definition connect_rtp_pad (caps : option (string * option string)) (available : string -> bool)
    (chain_linked pad_linked : bool) (failure : option string) (s : RtspSource) : RtspSource :=
  match caps with
  | None => s
  | Some (name, encoding) =>
    let codec := default "" encoding in
    if negb (bool_decide (name = "application/x-rtp") && bool_decide (codec ∈ ["H264"; "H265"])) || sink_ s then s
    else
      let names := elements_for codec in
      let use_hardware := match decode_mode_ setup with Auto => true | Software => false end &&
        available "nvv4l2decoder" && (available "nvvidconv" || available "nvvideoconvert") in
      let decoder := if use_hardware then "nvv4l2decoder" else software_decoder names in
      let converter := if use_hardware then (if available "nvvidconv" then "nvvidconv" else "nvvideoconvert")
                       else "identity" in
      let publish_h264 := bool_decide (codec = "H264") && (has_queue setup || has_unit_sink setup) in
      let elements := [depay names; parser names; decoder; converter; "videoconvert"; "capsfilter"; "appsink"] ++
        (if publish_h264 then ["capsfilter"; "tee"; "queue"; "queue"; "appsink"] else []) in
      if negb (forallb available elements) then
        set_error ("RTSP " +:+ codec +:+ " depay, parser, decoder, or color plugin is unavailable") s
      else if negb chain_linked then set_error ("could not link RTSP " +:+ codec +:+ " decode chain") s
      else if negb pad_linked then set_error ("could not link RTSP " +:+ codec +:+ " RTP pad") s
      else
        let s := set_pipeline (pipeline_ s) true publish_h264 (pipeline_generation_ s) (first_access_unit_ s) s in
        let s := set_diagnostics (with_codec codec decoder (diagnostics_ s)) s in
        if bool_decide (codec = "H264") then s
        else publish_media_status failure false "recording and WebRTC require H.264 input" s
  end.

(** [on_new_jitterbuffer]. *)
Definition new_jitterbuffer (s : RtspSource) : RtspSource :=
  set_jitter true (reset (pipeline_packets_lost_ s)) (reset (pipeline_packets_late_ s)) s.

(** [stats]: lost, late and average jitter, when the buffer answers. *)
Definition read_jitter_stats (now : Z) (stats : option (Z * Z * Z)) (r : RtspRecovery) (s : RtspSource)
    : RtspRecovery * RtspSource :=
  match (if jitterbuffer_ s then stats else None) with
  | None => (r, s)
  | Some (lost, late, jitter) =>
    let '(added_lost, c1) := observe lost (pipeline_packets_lost_ s) in
    let '(added_late, c2) := observe late (pipeline_packets_late_ s) in
    let s := set_jitter (jitterbuffer_ s) c1 c2 s in
    let r := if 0 <? added_lost then packet_loss now r else r in
    let d := diagnostics_ s in
    let s := set_diagnostics (with_packets (u64 (packets_lost d + added_lost)) (u64 (packets_late d + added_late)) jitter d) s in
    (r, if bool_decide (health_ r = Degraded) then publish_recovery r s else s)
  end.

(** A mapped video sample: dimensions, stride and bytes of the first plane. *)
Record VideoSample := mkSample {
  sample_width : Z;
  sample_height : Z;
  sample_stride : Z;
  sample_pixels : list Z;
  sample_pts : option Z;
  sample_fps_n : Z;
  sample_fps_d : Z;
}.

(** The rows of the plane, without their padding. *)
Definition packed_rows (v : VideoSample) : list Z :=
  mjoin ((fun row : nat => take (Z.to_nat (sample_width v * 3))
                             (drop (row * Z.to_nat (sample_stride v)) (sample_pixels v)))
           <$> seq 0 (Z.to_nat (sample_height v))).

Definition capture_sample (now : Z) (sample : option VideoSample) (r : RtspRecovery) (s : RtspSource)
    : bool * RtspRecovery * RtspSource :=
  match sample with
  | None => (false, r, s)
  | Some v =>
    if (0 <? sample_width v) && (0 <? sample_height v) && (sample_width v * 3 <=? sample_stride v) then
      let r := frame now r in
      let d := diagnostics_ s in
      let sequence := u64 (frames_received d + 1) in
      let d := with_frame (sample_width v) (sample_height v) (sample_fps_n v) (sample_fps_d v) sequence d in
      let '(fps, rate) := Metrics.observe_frame now (ingest_rate_ s) in
      let d := match fps with Some fps => with_fps fps d | None => d end in
      let s := set_report (status_ s) d (Some now) rate s in
      let s := if flt f64_zero (fps_in d) then update_status (Status.UpdateVideo (fps_in d)) s else s in
      let f := Annotator.mkFrame sequence now (default 0 (sample_pts v)) (pipeline_generation_ s) (sample_width v)
                 (sample_height v) (sample_width v * 3) (packed_rows v) in
      let s := if enqueue_frames_ setup
               then set_trace (media_status_ s) (pushed s ++ [f]) (told s) (log s)
                      (set_queues (Queue.push f (frames_ s)).2 (encoded_access_units_ s) s)
               else s in
      (true, r, publish_recovery r s)
    else (false, r, s)
  end.

(** A compressed sample: its caps, and its buffer when it can be mapped. *)
Record UnitSample := mkUnitSample {
  unit_caps : Caps;
  unit_buffer : option (option Z * option Z * bool * bool * list Z);   (* pts, dts, delta unit, discont, bytes *)
}.

Definition succeeded (r : throws unit) : bool := match r with inl _ => false | inr _ => true end.
Definition reason_of (r : throws unit) : string := match r with inl reason => reason | inr _ => "" end.

(** [failure]: what the media status sink throws; [refused]: what the access unit
    sink or the queue throws.  [true]: published. *)
Definition capture_access_unit (failure refused : option string) (u : UnitSample) (s : RtspSource) : bool * RtspSource :=
  let compatible := browser_compatible_h264_caps (unit_caps u) in
  let s := publish_media_status failure (succeeded compatible) (reason_of compatible) s in
  match compatible, unit_buffer u with
  | inr _, Some (pts, dts, delta, discont, bytes) =>
    let sequence := u64 (access_unit_sequence_ s + 1) in
    let unit := Media.mkUnit sequence (default 0 pts) (default 0 dts) (bool_decide (is_Some pts)) (bool_decide (is_Some dts))
                  (negb delta) (first_access_unit_ s || discont) (pipeline_generation_ s) bytes in
    let s := set_units sequence (first_access_unit_ s) (units s) s in
    if bool_decide (bytes = []) then (false, s)
    else match refused with
         | Some e => (false, log_message e s)
         | None =>
           let s := if has_queue setup
                    then set_queues (frames_ s) (Queue.push unit (encoded_access_units_ s)).2 s else s in
           (true, set_units sequence false (units s ++ [unit]) s)
         end
  | _, _ => (false, s)
  end.
End Operations.

(** ** Any sequence of operations *)

(** The operations of one run, each with what GStreamer answered.  [Recovers] is
    [publish_recovery] with any recovery state, [Discards] empties the queues. *)
Inductive op :=
  | Opens (failure : option string) (created made started : throws unit)
  | Closes
  | Pad (caps : option (string * option string)) (available : string -> bool) (chain_linked pad_linked : bool)
      (failure : option string)
  | Jitterbuffer
  | Stats (now : Z) (stats : option (Z * Z * Z)) (r : RtspRecovery)
  | Video (now : Z) (sample : option VideoSample) (r : RtspRecovery)
  | Unit (failure refused : option string) (u : UnitSample)
  | Fails (error : string)
  | Recovers (r : RtspRecovery)
  | ForgetsCodec
  | Warns (message : string)
  | Discards.

Definition apply_op (setup : Setup) (s : RtspSource) (o : op) : RtspSource :=
  match o with
  | Opens failure created made started => (open_pipeline setup failure created made started s).2
  | Closes => close_pipeline s
  | Pad caps available chain_linked pad_linked failure => connect_rtp_pad setup caps available chain_linked pad_linked failure s
  | Jitterbuffer => new_jitterbuffer s
  | Stats now stats r => (read_jitter_stats setup now stats r s).2
  | Video now sample r => (capture_sample setup now sample r s).2
  | Unit failure refused u => (capture_access_unit setup failure refused u s).2
  | Fails error => set_error setup error s
  | Recovers r => publish_recovery setup r s
  | ForgetsCodec => set_diagnostics (with_codec "" "" (diagnostics_ s)) s
  | Warns message => log_message message s
  | Discards => set_queues (Queue.discard_all (frames_ s)).2
                  (if has_queue setup then (Queue.discard_all (encoded_access_units_ s)).2 else encoded_access_units_ s) s
  end.

Definition run_ops (setup : Setup) (ops : list op) (s : RtspSource) : RtspSource := foldl (apply_op setup) s ops.

(** *** What the downstream can rely on *)

(** The counters and histories that number the units and the frames. *)
Definition ledger (s : RtspSource) :=
  (units s, pushed s, access_unit_sequence_ s, first_access_unit_ s, pipeline_generation_ s,
   frames_received (diagnostics_ s)).
(** What the media status sink was told. *)
Definition media (s : RtspSource) := (media_status_ s, told s).

Section Facts.
Context (setup : Setup).

Lemma ledger_status u s : ledger (update_status setup u s) = ledger s.
Proof. unfold update_status. by destruct (has_status setup). Qed.
Lemma media_status u s : media (update_status setup u s) = media s.
Proof. unfold update_status. by destruct (has_status setup). Qed.
Lemma ledger_media failure b r s : ledger (publish_media_status setup failure b r s) = ledger s.
Proof. unfold publish_media_status. case_bool_decide; [done|]. by destruct failure, (has_media_sink setup). Qed.
Lemma ledger_error e s : ledger (set_error setup e s) = ledger s.
Proof. unfold set_error. change (ledger (log_message e ?x)) with (ledger x). by rewrite ledger_status. Qed.
Lemma media_error e s : media (set_error setup e s) = media s.
Proof. unfold set_error. change (media (log_message e ?x)) with (media x). by rewrite media_status. Qed.
Lemma ledger_recovery r s : ledger (publish_recovery setup r s) = ledger s.
Proof. unfold publish_recovery. destruct (streaming _); [done|]. by rewrite ledger_status. Qed.
Lemma media_recovery r s : media (publish_recovery setup r s) = media s.
Proof. unfold publish_recovery. destruct (streaming _); [done|]. by rewrite media_status. Qed.

(** Neighbours of a list are related. *)
Definition chain {A} (R : A -> A -> Prop) (l : list A) : Prop :=
  forall i x y, l !! i = Some x -> l !! S i = Some y -> R x y.

Lemma chain_nil {A} (R : A -> A -> Prop) : chain R [].
Proof. intros i x y H. by rewrite lookup_nil in H. Qed.

Lemma chain_snoc {A} (R : A -> A -> Prop) l y : chain R l -> (forall x, last l = Some x -> R x y) -> chain R (l ++ [y]).
Proof.
  intros H Hy i a b Ha Hb. destruct (decide (S i < length l)%nat) as [Hi|Hi].
  - rewrite lookup_app_l in Ha, Hb by lia. eauto.
  - pose proof (lookup_lt_Some _ _ _ Hb) as Hlt. rewrite length_app in Hlt. cbn in Hlt.
    assert (Hlen : length l = S i) by lia.
    rewrite lookup_app_r in Hb by lia. rewrite Hlen, Nat.sub_diag in Hb. injection Hb as <-.
    rewrite lookup_app_l in Ha by lia. apply Hy. by rewrite last_lookup, Hlen.
Qed.

(** The status sink is told every change and nothing else. *)
Definition informed (s : RtspSource) : Prop :=
  has_media_sink setup = true -> last (told s) = media_status_ s /\ chain (fun x y => x <> y) (told s).

Lemma informed_media s s' : media s' = media s -> informed s -> informed s'.
Proof. unfold informed, media. intros [= -> ->]. done. Qed.

Lemma informed_publish failure b r s : informed s -> informed (publish_media_status setup failure b r s).
Proof.
  intros H. unfold publish_media_status. case_bool_decide as E; [done|].
  assert (H' : informed (set_trace (Some (b, r)) (pushed s) (if has_media_sink setup then told s ++ [(b, r)] else told s) (log s) s)).
  { intros Hs. destruct (H Hs) as [Hl Ha]. cbn. rewrite Hs. split; [by rewrite last_snoc|].
    apply chain_snoc; [done|]. intros x Hx ->. congruence. }
  destruct failure, (has_media_sink setup); try done; exact H'.
Qed.

(** The units: numbered upwards over all pipelines, and one that is not marked as a
    discontinuity follows a unit of its own pipeline. *)
Definition follows (u v : Media.EncodedAccessUnit) : Prop :=
  Media.sequence u < Media.sequence v /\ Media.source_generation u <= Media.source_generation v /\
  (Media.discontinuity v = false -> Media.source_generation u = Media.source_generation v).
Definition later (f g : Annotator.Frame) : Prop :=
  Annotator.sequence f < Annotator.sequence g /\ Annotator.source_generation f <= Annotator.source_generation g.

(** [n] bounds the counters, so that none has wrapped. *)
Definition numbered (n : Z) (s : RtspSource) : Prop :=
  0 <= access_unit_sequence_ s <= n /\ 0 <= frames_received (diagnostics_ s) <= n /\ 0 <= pipeline_generation_ s <= n /\
  chain follows (units s) /\ chain later (pushed s) /\
  (forall u, head (units s) = Some u -> Media.discontinuity u = true) /\
  (forall u, last (units s) = Some u -> Media.sequence u <= access_unit_sequence_ s /\
     Media.source_generation u <= pipeline_generation_ s /\
     (first_access_unit_ s = false -> Media.source_generation u = pipeline_generation_ s)) /\
  (units s = [] -> first_access_unit_ s = true) /\
  (forall f, last (pushed s) = Some f -> Annotator.sequence f <= frames_received (diagnostics_ s) /\
     Annotator.source_generation f <= pipeline_generation_ s).

Lemma numbered_ledger n n' s s' : ledger s' = ledger s -> n <= n' -> numbered n s -> numbered n' s'.
Proof.
  unfold numbered, ledger. intros [= E1 E2 E3 E4 E5 E6] Hn (H1 & H2 & H3 & H4). rewrite E1, E2, E3, E4, E5, E6.
  split_and!; (lia || apply H4).
Qed.

Lemma numbered_opens n failure created made started s : numbered n s -> n < u64_max ->
  numbered (n + 1) (open_pipeline setup failure created made started s).2.
Proof.
  intros (H1 & H2 & H3 & H4 & H5 & H6 & H7 & H8 & H9) Hn.
  set (s1 := set_pipeline (pipeline_ s) false false (u64 (pipeline_generation_ s + 1)) true s).
  assert (N : numbered (n + 1) s1).
  { unfold numbered. cbn. rewrite u64_small by lia. split_and!; try done; try lia.
    - intros u Hu. destruct (H7 u Hu) as (? & ? & _). split_and!; [done|lia|done].
    - intros f Hf. destruct (H9 f Hf). split; [done|lia]. }
  apply (numbered_ledger (n + 1) (n + 1) s1); [|lia|done]. unfold open_pipeline. fold s1.
  match goal with |- context [publish_media_status setup failure false _ ?x] =>
    pose proof (ledger_media failure false "RTSP source is reconnecting" x) as Hl;
    set (s2 := publish_media_status setup failure false _ x) in * end.
  assert (Hs2 : ledger s2 = ledger s1) by exact Hl. clearbody s2.
  destruct created, made, started; exact Hs2.
Qed.

Lemma numbered_video n now sample r s : numbered n s -> n < u64_max ->
  numbered (n + 1) (capture_sample setup now sample r s).2.
Proof.
  intros H Hn. unfold capture_sample. destruct sample as [v|]; [|by apply (numbered_ledger n _ s); [|lia|]].
  destruct (_ && _ && _); [|by apply (numbered_ledger n _ s); [|lia|]]. pose proof H as (H1 & H2 & H3 & H4 & H5 & H6 & H7 & H8 & H9).
  destruct (Metrics.observe_frame now (ingest_rate_ s)) as [fps rate]. cbn [snd].
  match goal with |- context [set_trace (media_status_ ?x) (pushed ?x ++ [?g])] => set (s1 := x) end.
  assert (L : ledger s1 = (units s, pushed s, access_unit_sequence_ s, first_access_unit_ s, pipeline_generation_ s,
                           frames_received (diagnostics_ s) + 1)).
  { unfold s1. destruct (flt _ _); rewrite ?ledger_status; unfold ledger; cbn; rewrite u64_small by lia; by destruct fps. }
  clearbody s1. unfold ledger in L. injection L as L1 L2 L3 L4 L5 L6.
  match goal with |- numbered _ (publish_recovery _ _ ?x) =>
    apply (numbered_ledger (n + 1) (n + 1) x); [apply ledger_recovery|lia|] end.
  destruct (enqueue_frames_ setup); unfold numbered; cbn; rewrite ?L1, ?L2, ?L3, ?L4, ?L5, ?L6; split_and!; try done; try lia.
  - apply chain_snoc; [done|]. intros x Hx. destruct (H9 x Hx). split; cbn; rewrite ?u64_small by lia; lia.
  - intros x. rewrite last_snoc. intros [= <-]. cbn. rewrite u64_small by lia. lia.
  - intros x Hx. destruct (H9 x Hx). split; lia.
Qed.

Lemma numbered_unit n failure refused u s : numbered n s -> n < u64_max ->
  numbered (n + 1) (capture_access_unit setup failure refused u s).2.
Proof.
  intros H Hn. unfold capture_access_unit.
  set (s1 := publish_media_status setup failure _ _ s).
  assert (L : ledger s1 = ledger s) by apply ledger_media.
  clearbody s1. assert (N : numbered n s1) by (by apply (numbered_ledger n n s)). clear H L s.
  assert (Hsame : numbered (n + 1) s1) by (by apply (numbered_ledger n _ s1); [|lia|]).
  destruct (browser_compatible_h264_caps _); [done|]. destruct (unit_buffer u) as [[[[[pts dts] delta] discont] bytes]|]; [|done].
  destruct N as (H1 & H2 & H3 & H4 & H5 & H6 & H7 & H8 & H9).
  set (s2 := set_units _ (first_access_unit_ s1) (units s1) s1).
  assert (N2 : numbered (n + 1) s2).
  { unfold numbered. cbn. rewrite u64_small by lia. split_and!; try done; try lia.
    intros x Hx. destruct (H7 x Hx) as (? & ? & ?). split_and!; [lia|done|done]. }
  case_bool_decide; [exact N2|]. destruct refused as [e|]; [exact N2|]. cbn [snd]. set (unit := Media.mkUnit _ _ _ _ _ _ _ _ _).
  assert (Hg : Media.source_generation unit = pipeline_generation_ s1) by done.
  assert (Hq : Media.sequence unit = access_unit_sequence_ s1 + 1) by (cbn; rewrite u64_small by lia; done).
  assert (Hd : Media.discontinuity unit = first_access_unit_ s1 || discont) by done. clearbody unit.
  destruct (has_queue setup); unfold numbered; cbn; rewrite u64_small by lia; split_and!; try done; try lia.
  1,5: apply chain_snoc; [done|]; intros x Hx; destruct (H7 x Hx) as (? & ? & ?); unfold follows; rewrite Hg, Hq, Hd;
    (split_and!; [lia|done|]); destruct (first_access_unit_ s1); [done|auto].
  1,4: intros x Hx; destruct (units s1) eqn:E; [cbn in Hx; injection Hx as <-; rewrite Hd, H8 by done; done|apply H6; done].
  1,3: intros x; rewrite last_snoc; intros [= <-]; split_and!; [lia|lia|done].
  all: by destruct (units s1).
Qed.

Lemma numbered_op n o s : numbered n s -> n < u64_max -> numbered (n + 1) (apply_op setup s o).
Proof.
  intros H Hn. destruct o; cbn [apply_op].
  1: by apply numbered_opens.
  5: by apply numbered_video.
  5: by apply numbered_unit.
  all: apply (numbered_ledger n _ s); [|lia|done].
  - done.
  - unfold connect_rtp_pad. destruct caps as [[name encoding]|]; [|done]. cbn zeta. destruct (_ || sink_ s); [done|].
    destruct (negb (forallb _ _)); [apply ledger_error|]. destruct (negb chain_linked); [apply ledger_error|].
    destruct (negb pad_linked); [apply ledger_error|]. case_bool_decide; [done|]. by rewrite ledger_media.
  - done.
  - unfold read_jitter_stats. destruct (if jitterbuffer_ s then stats else None) as [[[lost late] jitter]|]; [|done].
    destruct (observe lost _), (observe late _). cbn [snd]. destruct (bool_decide _); [by rewrite ledger_recovery|done].
  - apply ledger_error.
  - apply ledger_recovery.
  - done.
  - done.
  - done.
Qed.

Lemma informed_op o s : informed s -> informed (apply_op setup s o).
Proof.
  intros H. destruct o; cbn [apply_op].
  - unfold open_pipeline.
    match goal with |- context [publish_media_status setup failure false ?m ?x] =>
      assert (H1 : informed (publish_media_status setup failure false m x)) by (by apply informed_publish, (informed_media s));
      set (s2 := publish_media_status setup failure false m x) in * end.
    clearbody s2. destruct created, made, started; exact H1.
  - exact H.
  - unfold connect_rtp_pad. destruct caps as [[name encoding]|]; [|done]. cbn zeta. destruct (_ || sink_ s); [done|].
    assert (He : forall e, informed (set_error setup e s)) by (intros e; apply (informed_media s); [apply media_error|done]).
    destruct (negb (forallb _ _)); [apply He|]. destruct (negb chain_linked); [apply He|].
    destruct (negb pad_linked); [apply He|]. case_bool_decide; [done|]. by apply informed_publish, (informed_media s).
  - exact H.
  - unfold read_jitter_stats. destruct (if jitterbuffer_ s then stats else None) as [[[lost late] jitter]|]; [|done].
    destruct (observe lost _), (observe late _). cbn [snd].
    destruct (bool_decide _); apply (informed_media s); try done. by rewrite media_recovery.
  - unfold capture_sample. destruct sample as [v|]; [|done]. destruct (_ && _ && _); [|done].
    destruct (Metrics.observe_frame now (ingest_rate_ s)) as [fps rate]. cbn [snd].
    apply (informed_media s); [|done]. rewrite media_recovery.
    match goal with |- media (if _ then set_trace (media_status_ ?x) _ _ _ _ else _) = _ => assert (M : media x = media s) end.
    { destruct (flt _ _); by rewrite ?media_status. }
    destruct (enqueue_frames_ setup); exact M.
  - unfold capture_access_unit. set (s1 := publish_media_status setup failure _ _ s).
    assert (H1 : informed s1) by (by apply informed_publish).
    clearbody s1. destruct (browser_compatible_h264_caps _); [done|].
    destruct (unit_buffer u) as [[[[[pts dts] delta] discont] bytes]|]; [|done].
    case_bool_decide; [exact H1|]. destruct refused as [e|]; [exact H1|]. destruct (has_queue setup); exact H1.
  - apply (informed_media s); [apply media_error|done].
  - apply (informed_media s); [apply media_recovery|done].
  - exact H.
  - exact H.
  - exact H.
Qed.

Lemma numbered_run ops : forall n s, numbered n s -> n + Z.of_nat (length ops) <= u64_max ->
  numbered (n + Z.of_nat (length ops)) (run_ops setup ops s).
Proof.
  induction ops as [|o ops IH]; intros n s H Hn; cbn [run_ops foldl length] in *; [by rewrite Z.add_0_r|].
  replace (n + Z.of_nat (S (length ops))) with ((n + 1) + Z.of_nat (length ops)) by lia.
  apply IH; [apply numbered_op; [done|lia]|lia].
Qed.

Lemma informed_run ops s : informed s -> informed (run_ops setup ops s).
Proof. revert s. induction ops as [|o ops IH]; intros s H; [done|]. cbn. apply IH, informed_op, H. Qed.

(** *** A captured frame *)

Lemma concat_rows (rows : list (list Z)) k : Forall (fun row => length row = k) rows ->
  length (mjoin rows) = (length rows * k)%nat /\
  forall r i row, rows !! r = Some row -> (i < k)%nat -> mjoin rows !! (r * k + i)%nat = row !! i.
Proof.
  induction 1 as [|row rows Hrow Hrows [IHl IHi]]; [done|].
  change (mjoin (row :: rows)) with (row ++ mjoin rows). split; [rewrite length_app, IHl; cbn; lia|].
  intros [|r] i x Hx Hi.
  - injection Hx as <-. cbn. by rewrite lookup_app_l by lia.
  - rewrite lookup_app_r by (cbn; lia). replace (S r * k + i - length row)%nat with (r * k + i)%nat by (cbn; lia). by apply IHi.
Qed.

(** A plane is as long as its dimensions and stride say. *)
Definition whole (v : VideoSample) : Prop :=
  0 < sample_width v <= int_max / 3 /\ 0 < sample_height v <= int_max /\
  sample_width v * 3 <= sample_stride v <= int_max /\
  (sample_height v - 1) * sample_stride v + sample_width v * 3 <= Z.of_nat (length (sample_pixels v)).

Lemma packed_rows_spec v : whole v ->
  length (packed_rows v) = (Z.to_nat (sample_height v) * Z.to_nat (sample_width v * 3))%nat /\
  forall r i, (r < Z.to_nat (sample_height v))%nat -> (i < Z.to_nat (sample_width v * 3))%nat ->
    packed_rows v !! (r * Z.to_nat (sample_width v * 3) + i)%nat = sample_pixels v !! (r * Z.to_nat (sample_stride v) + i)%nat.
Proof.
  intros (Hw & Hh & Hs & Hl). unfold packed_rows. set (k := Z.to_nat (sample_width v * 3)).
  set (st := Z.to_nat (sample_stride v)). set (rows := _ <$> _).
  assert (Hk : Forall (fun row => length row = k) rows).
  { apply Forall_fmap, Forall_forall. intros r Hr. apply elem_of_seq in Hr. cbn. rewrite length_take, length_drop.
    assert (r * st + k <= length (sample_pixels v))%nat; [|lia]. unfold st, k. nia. }
  destruct (concat_rows rows k Hk) as [C1 C2]. split; [rewrite C1; unfold rows; by rewrite length_fmap, length_seq|].
  intros r i Hr Hi. erewrite C2; [|unfold rows; rewrite list_lookup_fmap, lookup_seq_lt by done; reflexivity|done].
  rewrite lookup_take_lt by done. rewrite lookup_drop. done.
Qed.

Lemma packed_frame_valid seq now pts g v : whole v ->
  Annotator.valid_frame (Annotator.mkFrame seq now pts g (sample_width v) (sample_height v) (sample_width v * 3) (packed_rows v))
    = inr tt.
Proof.
  intros Hw. destruct (packed_rows_spec v Hw) as [Hl _]. destruct Hw as (Hw & Hh & _). unfold Annotator.valid_frame.
  cbn [Annotator.width Annotator.height Annotator.stride Annotator.bgr]. rewrite Hl.
  set (w := sample_width v) in *. set (h := sample_height v) in *. clearbody w h.
  assert (Hw3 : w * 3 <= int_max) by (change (int_max / 3) with 715827882 in Hw; lia).
  assert (Hp : h * (w * 3) <= int_max * int_max) by nia.
  destruct (_ || _ || _ || _) eqn:E1; [exfalso; rewrite !orb_true_iff, !Z.leb_le, !Z.ltb_lt in E1; lia|].
  rewrite (u64_small (w * 3)), (u64_small (h - 1)) by lia. rewrite Z.ltb_irrefl.
  assert (Hd : h - 1 <= (18446744073709551615 - w * 3) / (w * 3)) by (apply Z.div_le_lower_bound; nia).
  rewrite (u64_small ((h - 1) * (w * 3))) by nia. rewrite u64_small by nia.
  rewrite (proj2 (Z.ltb_ge _ _) Hd). cbn [orb]. rewrite (proj2 (Z.ltb_ge _ _)); [done|].
  rewrite Nat2Z.inj_mul, !Z2Nat.id by lia. lia.
Qed.

(** A captured frame is exactly the picture GStreamer decoded, without the padding of its rows: when
    the sample's plane is as long as its dimensions say, the frame pushed to the inference queue
    passes the checks of the annotator, has the sample's size and the generation of the pipeline,
    carries the next number, and its byte at row [r] and offset [i] is the plane's; the source then
    reports itself connected or degraded. *)
Theorem captured_frame_packed now v r s (Hv : whole v) (He : enqueue_frames_ setup = true) :
  let '(captured, r', s') := capture_sample setup now (Some v) r s in
  captured = true /\ streaming (health_ r') = true /\ health (diagnostics_ s') = health_ r' /\
  exists f, pushed s' = pushed s ++ [f] /\ frames_ s' = (Queue.push f (frames_ s)).2 /\
    Annotator.valid_frame f = inr tt /\ Annotator.width f = sample_width v /\ Annotator.height f = sample_height v /\
    Annotator.source_generation f = pipeline_generation_ s /\
    Annotator.sequence f = u64 (frames_received (diagnostics_ s) + 1) /\
    forall row i, (row < Z.to_nat (sample_height v))%nat -> (i < Z.to_nat (sample_width v * 3))%nat ->
      Annotator.bgr f !! (row * Z.to_nat (Annotator.stride f) + i)%nat =
      sample_pixels v !! (row * Z.to_nat (sample_stride v) + i)%nat.
Proof.
  unfold capture_sample. pose proof Hv as (Hw & Hh & Hs & _).
  assert (Hc : (0 <? sample_width v) && (0 <? sample_height v) && (sample_width v * 3 <=? sample_stride v) = true)
    by (rewrite !andb_true_iff, !Z.ltb_lt, Z.leb_le; lia).
  rewrite Hc, He. destruct (Metrics.observe_frame now (ingest_rate_ s)) as [fps rate].
  match goal with |- context [set_trace (media_status_ ?x) (pushed ?x ++ [?g])] => set (s1 := x) end.
  assert (E1 : pushed s1 = pushed s /\ frames_ s1 = frames_ s /\ pipeline_generation_ s1 = pipeline_generation_ s).
  { unfold s1. destruct (flt _ _); unfold update_status; by destruct (has_status setup). }
  destruct E1 as (E1 & E2 & E3). clearbody s1.
  assert (Hpub : forall r s, pushed (publish_recovery setup r s) = pushed s /\ frames_ (publish_recovery setup r s) = frames_ s /\
    health (diagnostics_ (publish_recovery setup r s)) = health_ r).
  { intros r0 s0. unfold publish_recovery, update_status. by destruct (streaming _), (has_status setup). }
  split; [done|]. split; [unfold frame; cbn; by repeat case_match|].
  match goal with |- health (diagnostics_ (publish_recovery setup ?r0 ?s0)) = _ /\ _ => destruct (Hpub r0 s0) as (P1 & P2 & P3) end.
  split; [exact P3|]. rewrite P1, P2. cbn. rewrite E1, E2, E3. eexists. split; [reflexivity|]. split; [reflexivity|].
  split; [by apply packed_frame_valid|]. split_and!; try done. intros row i Hr Hi. cbn. by apply packed_rows_spec.
Qed.

Definition fresh (s : RtspSource) : Prop :=
  units s = [] /\ pushed s = [] /\ told s = [] /\ media_status_ s = None /\ first_access_unit_ s = true /\
  access_unit_sequence_ s = 0 /\ frames_received (diagnostics_ s) = 0.

(** What consumers of the source can rely on after any operations: access units carry increasing
    numbers and generations that never decrease, the first unit is marked as a discontinuity, and a
    unit that is not marked follows a unit of its own pipeline; frames carry increasing numbers and
    generations that never decrease; and the media status sink is told exactly the changes. *)
Lemma stream_of_ops ops s (Hs : fresh s) (Hg : 0 <= pipeline_generation_ s)
    (Hn : pipeline_generation_ s + Z.of_nat (length ops) <= u64_max) :
  let s' := run_ops setup ops s in
  chain follows (units s') /\ (forall u, head (units s') = Some u -> Media.discontinuity u = true) /\
  chain later (pushed s') /\ informed s'.
Proof.
  destruct Hs as (S1 & S2 & S3 & S4 & S5 & S6 & S7).
  assert (N : numbered (pipeline_generation_ s) s).
  { unfold numbered. rewrite S1, S2, S6, S7. split_and!; try done; try lia; apply chain_nil. }
  assert (I : informed s) by (intros _; rewrite S3, S4; split; [done|apply chain_nil]).
  pose proof (numbered_run ops _ s N Hn) as (_ & _ & _ & H4 & H5 & H6 & _). pose proof (informed_run ops s I) as H. done.
Qed.
End Facts.
End Source.

(** ** The capture loop *)

Module Capture.
Import Recovery Rtsp Source.

Inductive signal :=
  | PadAdded (caps : option (string * option string)) (available : string -> bool) (chain_linked pad_linked : bool)
      (failure : option string)
  | NewJitterbuffer.

Definition signal_op (x : signal) : op :=
  match x with
  | PadAdded caps available chain_linked pad_linked failure => Pad caps available chain_linked pad_linked failure
  | NewJitterbuffer => Jitterbuffer
  end.

(** A compressed sample with what the sinks throw for it. *)
Definition PulledUnit : Type := option string * option string * UnitSample.
Definition unit_op (x : PulledUnit) : op := let '(failure, refused, u) := x in Unit failure refused u.

(** What one turn of the inner loop meets: the signals that came in, an error or end
    of stream on the bus, the samples pulled before and after the video sample, the
    jitter statistics and the clock. *)
Record Turn := mkTurn {
  signals : list signal;
  bus : option string;
  before : list PulledUnit;
  video : option (Z * option VideoSample);
  after : list PulledUnit;
  now : Z;
  stats_at : Z;
  stats : option (Z * Z * Z);
}.

Inductive verdict := Runs | Breaks (error : string).

Section Loop.
Context (setup : Setup).

Definition no_frame : string := "RTSP source did not receive a video frame before timeout".
Definition stalled : string := "RTSP source stalled: no fresh frames".

Definition turn (started : Z) (t : Turn) (received : bool) (r : RtspRecovery) (s : RtspSource)
    : verdict * bool * RtspRecovery * RtspSource :=
  let s := run_ops setup (signal_op <$> signals t) s in
  if bool_decide (health (diagnostics_ s) = Error) then (Breaks (last_error (diagnostics_ s)), received, r, s)
  else match bus t with
  | Some detail => (Breaks detail, received, r, s)
  | None =>
    let '(sink, encoded_sink) := (sink_ s, encoded_sink_ s) in
    let s := if encoded_sink then run_ops setup (unit_op <$> before t) s else s in
    let '(captured, r, s) :=
      match (if sink then video t else None) with
      | Some (at_, sample) => capture_sample setup at_ sample r s
      | None => (false, r, s)
      end in
    let received := captured || received in
    let s := if encoded_sink then run_ops setup (unit_op <$> after t) s else s in
    let '(r, s) := read_jitter_stats setup (stats_at t) (stats t) r s in
    if negb received && (ms (Cfg.first_frame_timeout_ms (config_ s)) <=? now t - started)
    then (Breaks no_frame, received, r, s)
    else match check_stall (now t) r with
         | (true, r) => (Breaks stalled, received, r, log_message stalled (publish_recovery setup r s))
         | (false, r) => (Runs, received, r, s)
         end
  end.

(** The turns of an attempt, until one breaks. *)
Fixpoint attempt (started : Z) (turns : list Turn) (received : bool) (r : RtspRecovery) (s : RtspSource)
    : verdict * RtspRecovery * RtspSource :=
  match turns with
  | [] => (Runs, r, s)
  | t :: rest =>
    match turn started t received r s with
    | (Breaks e, _, r, s) => (Breaks e, r, s)
    | (Runs, received, r, s) => attempt started rest received r s
    end
  end.

(** Around an attempt: the reset before, and the clean-up after it broke. *)
Definition prepare (r : RtspRecovery) (s : RtspSource) : RtspSource :=
  publish_recovery setup r (apply_op setup s ForgetsCodec).
Definition fail_attempt (now : Z) (error : string) (r : RtspRecovery) (s : RtspSource) : RtspRecovery * RtspSource :=
  let s := apply_op setup (close_pipeline s) Discards in
  let s := set_error setup error s in
  let r := fail now r in
  (r, publish_recovery setup r s).

(** After the last pass: [running_] is false. *)
Definition finish (r : RtspRecovery) (s : RtspSource) : RtspRecovery * RtspSource :=
  let r := Recovery.stop r in (r, publish_recovery setup r (close_pipeline s)).

(** *** The loop only uses the operations *)

Lemma run_ops_app l1 l2 s : run_ops setup (l1 ++ l2) s = run_ops setup l2 (run_ops setup l1 s).
Proof. unfold run_ops. by rewrite foldl_app. Qed.

(** By at most [n] operations. *)
Definition by_ops (n : nat) (s s' : RtspSource) : Prop := exists ops, (length ops <= n)%nat /\ s' = run_ops setup ops s.

Lemma by_ops_refl n s : by_ops n s s.
Proof. exists []. split; [cbn; lia|done]. Qed.
Lemma by_ops_trans m n s1 s2 s3 : by_ops m s1 s2 -> by_ops n s2 s3 -> by_ops (m + n) s1 s3.
Proof. intros (l1 & H1 & ->) (l2 & H2 & ->). exists (l1 ++ l2). rewrite run_ops_app, length_app. split; [lia|done]. Qed.
Lemma by_ops_le m n s s' : by_ops m s s' -> (m <= n)%nat -> by_ops n s s'.
Proof. intros (l & H & ->) Hn. exists l. split; [lia|done]. Qed.
Lemma by_op o s : by_ops 1 s (apply_op setup s o).
Proof. by exists [o]. Qed.
Lemma by_ops_run l s : by_ops (length l) s (run_ops setup l s).
Proof. by exists l. Qed.
Lemma by_ops_if (b : bool) l s : by_ops (length l) s (if b then run_ops setup l s else s).
Proof. destruct b; [apply by_ops_run|apply by_ops_refl]. Qed.

(** How many operations a turn can be. *)
Definition weight (t : Turn) : nat := (length (signals t) + length (before t) + length (after t) + 4)%nat.

Lemma turn_by_ops started t received r s : by_ops (weight t) s (turn started t received r s).2.
Proof.
  unfold turn, weight. set (s1 := run_ops setup (signal_op <$> signals t) s).
  assert (H1 : by_ops (length (signals t)) s s1) by (pose proof (by_ops_run (signal_op <$> signals t) s) as H; by rewrite length_fmap in H).
  clearbody s1. case_bool_decide; [eapply by_ops_le; [done|lia]|]. destruct (bus t); [eapply by_ops_le; [done|lia]|].
  set (s2 := if encoded_sink_ s1 then _ else s1). assert (H2 : by_ops (length (signals t) + length (before t)) s s2).
  { eapply by_ops_trans; [done|]. pose proof (by_ops_if (encoded_sink_ s1) (unit_op <$> before t) s1) as Hl. by rewrite length_fmap in Hl. }
  clearbody s2.
  destruct (match (if sink_ s1 then video t else None) with Some (at_, sample) => _ | None => _ end) as [[captured r1] s3] eqn:E.
  assert (H3 : by_ops (length (signals t) + length (before t) + 1) s s3).
  { destruct (if sink_ s1 then video t else None) as [[at_ sample]|]; [|simplify_eq; eapply by_ops_le; [done|lia]].
    eapply by_ops_trans; [exact H2|]. pose proof (by_op (Video at_ sample r) s2) as Hv. cbn in Hv. by rewrite E in Hv. }
  clear E. set (s4 := if encoded_sink_ s1 then _ else s3).
  assert (H4 : by_ops (length (signals t) + length (before t) + 1 + length (after t)) s s4).
  { eapply by_ops_trans; [done|]. pose proof (by_ops_if (encoded_sink_ s1) (unit_op <$> after t) s3) as Hl. by rewrite length_fmap in Hl. }
  clearbody s4. pose proof (by_op (Stats (stats_at t) (stats t) r1) s4) as H5. cbn in H5.
  destruct (read_jitter_stats setup (stats_at t) (stats t) r1 s4) as [r2 s5]. cbn in H5.
  pose proof (by_ops_trans _ _ _ _ _ H4 H5) as H6. destruct (_ && _); [eapply by_ops_le; [exact H6|lia]|].
  destruct (check_stall (now t) r2) as [[] r3]; [|eapply by_ops_le; [exact H6|lia]].
  eapply by_ops_le; [eapply by_ops_trans; [exact H6|]|].
  - exact (by_ops_run [Recovers r3; Warns stalled] s5).
  - cbn. lia.
Qed.

Lemma attempt_by_ops started turns : forall received r s,
  by_ops (sum_list (weight <$> turns)) s (attempt started turns received r s).2.
Proof.
  induction turns as [|t turns IH]; intros received r s; [apply by_ops_refl|]. cbn [attempt].
  pose proof (turn_by_ops started t received r s) as H. destruct (turn started t received r s) as [[[[|e] rec] r1] s1].
  - cbn. eapply by_ops_trans; [exact H|apply IH].
  - eapply by_ops_le; [exact H|]. cbn. lia.
Qed.

Lemma config_op o s : config_ (apply_op setup s o) = config_ s.
Proof.
  assert (U : forall u s, config_ (update_status setup u s) = config_ s) by (intros; unfold update_status; by destruct (has_status setup)).
  assert (M : forall f b r s, config_ (publish_media_status setup f b r s) = config_ s).
  { intros f b r s0. unfold publish_media_status. case_bool_decide; [done|]. by destruct f, (has_media_sink setup). }
  assert (R : forall r s, config_ (publish_recovery setup r s) = config_ s).
  { intros r s0. unfold publish_recovery. destruct (streaming _); [done|]. by rewrite U. }
  assert (E : forall e s, config_ (set_error setup e s) = config_ s).
  { intros e s0. unfold set_error. change (config_ (log_message e ?x)) with (config_ x). by rewrite U. }
  destruct o; cbn [apply_op]; try done.
  - unfold open_pipeline. match goal with |- context [publish_media_status setup failure false ?m ?x] =>
      pose proof (M failure false m x) as H; set (s2 := publish_media_status setup failure false m x) in * end.
    clearbody s2. destruct created, made, started; exact H.
  - unfold connect_rtp_pad. destruct caps as [[name encoding]|]; [|done]. cbn zeta. destruct (_ || sink_ s); [done|].
    destruct (negb (forallb _ _)); [apply E|]. destruct (negb chain_linked); [apply E|].
    destruct (negb pad_linked); [apply E|]. case_bool_decide; [done|]. by rewrite M.
  - unfold read_jitter_stats. destruct (if jitterbuffer_ s then stats0 else None) as [[[lost late] jitter]|]; [|done].
    destruct (observe lost _), (observe late _). cbn [snd]. destruct (bool_decide _); [by rewrite R|done].
  - unfold capture_sample. destruct sample as [v|]; [|done]. destruct (_ && _ && _); [|done].
    destruct (Metrics.observe_frame now0 (ingest_rate_ s)) as [fps rate]. cbn [snd]. rewrite R.
    match goal with |- config_ (if _ then set_trace (media_status_ ?x) _ _ _ _ else _) = _ =>
      assert (C : config_ x = config_ s) by (destruct (flt _ _); by rewrite ?U) end.
    destruct (enqueue_frames_ setup); exact C.
  - unfold capture_access_unit. set (s1 := publish_media_status setup failure _ _ s).
    assert (C : config_ s1 = config_ s) by apply M. clearbody s1. destruct (browser_compatible_h264_caps _); [done|].
    destruct (unit_buffer u) as [[[[[pts dts] delta] discont] bytes]|]; [|done].
    case_bool_decide; [exact C|]. destruct refused as [e|]; [exact C|]. destruct (has_queue setup); exact C.
Qed.

Lemma config_by_ops n s s' : by_ops n s s' -> config_ s' = config_ s.
Proof.
  intros (ops & _ & ->). revert s. induction ops as [|o ops IH]; intros s; [done|]. cbn. unfold run_ops in IH. by rewrite IH, config_op.
Qed.

(** An attempt cannot hang: a turn of the capture loop that goes on has seen no error on the bus and
    none from a signal handler, has a first frame unless the first-frame timeout is still running,
    and its last frame is younger than the stall timeout while the source counts as streaming. Every
    other turn breaks, and the attempt is then failed. *)
Theorem attempt_progress started t received r s received' r' s'
    (Ht : turn started t received r s = (Runs, received', r', s')) :
  bus t = None /\
  (received' = true \/ now t - started < ms (Cfg.first_frame_timeout_ms (config_ s))) /\
  (forall last, last_frame_ r' = Some last -> streaming (health_ r') = true -> now t - last < ms (stall_timeout_ r')).
Proof.
  pose proof (config_by_ops _ _ _ (turn_by_ops started t received r s)) as Hc. rewrite Ht in Hc. cbn in Hc.
  unfold turn in Ht. set (s1 := run_ops setup (signal_op <$> signals t) s) in Ht. clearbody s1.
  case_bool_decide; [done|]. destruct (bus t); [done|]. split; [done|].
  set (s2 := if encoded_sink_ s1 then _ else s1) in Ht. clearbody s2.
  destruct (match (if sink_ s1 then video t else None) with Some (at_, sample) => _ | None => _ end) as [[captured r1] s3].
  set (s4 := if encoded_sink_ s1 then _ else s3) in Ht. clearbody s4.
  destruct (read_jitter_stats setup (stats_at t) (stats t) r1 s4) as [r2 s5].
  destruct (negb (captured || received) && _) eqn:E1; [done|]. unfold check_stall in Ht.
  destruct (last_frame_ r2) as [last|] eqn:E2.
  - destruct (streaming (health_ r2) && (ms (stall_timeout_ r2) <=? now t - last)) eqn:E3; [done|]. simplify_eq. split.
    + rewrite <- Hc. apply andb_false_iff in E1 as [E1|E1]; [left; by apply negb_false_iff in E1|right; by apply Z.leb_gt in E1].
    + intros last' Hl Hs. rewrite E2 in Hl. injection Hl as <-. rewrite Hs in E3. by apply Z.leb_gt in E3.
  - simplify_eq. split; [|by rewrite E2].
    rewrite <- Hc. apply andb_false_iff in E1 as [E1|E1]; [left; by apply negb_false_iff in E1|right; by apply Z.leb_gt in E1].
Qed.

(** A failed attempt leaves nothing behind: the pipeline and its sinks are gone, no frame or access
    unit of it is left in the queues, the error and the state "reconnecting" are reported, the
    status board shows no video, and the next attempt is at most the maximal delay away. *)
Theorem failed_attempt_cleans_up now error r s :
  let '(r', s') := fail_attempt now error r s in
  pipeline_ s' = false /\ sink_ s' = false /\ encoded_sink_ s' = false /\ jitterbuffer_ s' = false /\
  Queue.queue_ (frames_ s') = [] /\ (has_queue setup = true -> Queue.queue_ (encoded_access_units_ s') = []) /\
  health_ r' = Reconnecting /\ health (diagnostics_ s') = Reconnecting /\ last_error (diagnostics_ s') = error /\
  (has_status setup = true -> Status.video_fps (Status.snapshot now (status_ s')) = None) /\
  next_retry_ r' <= now + ms (max_reconnect_delay_ r).
Proof.
  unfold fail_attempt. set (s1 := apply_op setup (close_pipeline s) Discards).
  assert (H : Queue.queue_ (frames_ s1) = [] /\ (has_queue setup = true -> Queue.queue_ (encoded_access_units_ s1) = [])).
  { split; [done|]. intros Hq. unfold s1. cbn. by rewrite Hq. }
  assert (H' : pipeline_ s1 = false /\ sink_ s1 = false /\ encoded_sink_ s1 = false /\ jitterbuffer_ s1 = false) by done.
  clearbody s1. destruct H' as (P1 & P2 & P3 & P4).
  unfold set_error, publish_recovery, update_status, log_message. cbn [fail health_ streaming].
  destruct (has_status setup); cbn; rewrite ?P1, ?P2, ?P3, ?P4; split_and!; try done; try apply H; unfold ms; try lia.
  intros _. by destruct (status_ s1).
Qed.
End Loop.
End Capture.

(** ** Signal handlers and the end of a pipeline *)

Module Gate.

(** [accepting_callbacks_] and [callbacks_in_flight_] behind the mutex; [managers_]: how
    many references the source holds; [alive]: the pipeline and the references the handlers
    use exist; [inside]: handlers past [begin_callback]. *)
Record Gate := mkGate {
  accepting_callbacks_ : bool;
  callbacks_in_flight_ : nat;
  managers_ : nat;
  alive : bool;
  inside : nat;
}.

Definition begin_callback (g : Gate) : bool * Gate :=
  if negb (accepting_callbacks_ g) then (false, g)
  else (true, mkGate (accepting_callbacks_ g) (S (callbacks_in_flight_ g)) (managers_ g) (alive g) (inside g)).
Definition end_callback (g : Gate) : Gate :=
  mkGate (accepting_callbacks_ g) (callbacks_in_flight_ g - 1) (managers_ g) (alive g) (inside g).

(** The part of [on_new_manager] between the two: it takes a reference. *)
Definition on_new_manager (g : Gate) : Gate :=
  mkGate (accepting_callbacks_ g) (callbacks_in_flight_ g) (S (managers_ g)) (alive g) (inside g).

(** A step of a signal thread or of the capture thread: a handler enters or turns
    back, keeps a manager, leaves; [close_pipeline] shuts the gate, passes its wait, gives
    its references back and tears the pipeline down; [open_pipeline] builds one and opens
    the gate. *)
Inductive step : Gate -> Gate -> Prop :=
  | Enters g : (begin_callback g).1 = true ->
      step g (let g' := (begin_callback g).2 in mkGate (accepting_callbacks_ g') (callbacks_in_flight_ g') (managers_ g') (alive g') (S (inside g')))
  | TurnsBack g : (begin_callback g).1 = false -> step g (begin_callback g).2
  | Keeps g : (0 < inside g)%nat -> step g (on_new_manager g)
  | Leaves g : (0 < inside g)%nat ->
      step g (let g' := end_callback g in mkGate (accepting_callbacks_ g') (callbacks_in_flight_ g') (managers_ g') (alive g') (inside g - 1))
  | Shuts g : step g (mkGate false (callbacks_in_flight_ g) (managers_ g) (alive g) (inside g))
  | TearsDown g : accepting_callbacks_ g = false -> callbacks_in_flight_ g = 0%nat -> step g (mkGate false 0 0 false (inside g))
  | Builds g : alive g = false -> step g (mkGate true (callbacks_in_flight_ g) (managers_ g) true (inside g)).

Definition closed_gate : Gate := mkGate false 0 0 false 0.

Definition safe (g : Gate) : Prop := callbacks_in_flight_ g = inside g /\
  (alive g = false -> accepting_callbacks_ g = false /\ inside g = 0%nat /\ managers_ g = 0%nat).

Lemma safe_step g g' : safe g -> step g g' -> safe g'.
Proof.
  unfold safe. intros [H1 H2] Hs. destruct Hs as [g H|g H|g H|g H|g|g Ha Hf|g Ha]; cbn in *.
  - unfold begin_callback in *. destruct (accepting_callbacks_ g) eqn:E; [|done]. cbn. split; [lia|]. intros Hd. by destruct (H2 Hd).
  - unfold begin_callback in *. destruct (accepting_callbacks_ g) eqn:E; [done|]. cbn. rewrite E. auto.
  - split; [done|]. intros Hd. destruct (H2 Hd) as (_ & ? & _). lia.
  - split; [lia|]. intros Hd. destruct (H2 Hd) as (? & ? & ?). lia.
  - split; [done|]. intros Hd. by destruct (H2 Hd) as (_ & ? & ?).
  - split; [lia|]. intros _. split; [done|]. split; [lia|done].
  - split; [done|]. done.
Qed.

(** A handler leaves. *)
Lemma leaves_one g n : accepting_callbacks_ g = false -> callbacks_in_flight_ g = S n -> inside g = S n ->
  step g (mkGate false n (managers_ g) (alive g) n).
Proof.
  intros H1 H2 H3. pose proof (Leaves g ltac:(lia)) as L. cbn in L. rewrite H1, H2, H3 in L. by replace (S n - 1)%nat with n in L by lia.
Qed.

(** No signal handler ever runs on a pipeline that was torn down, and no reference to one of its
    managers outlives it: in every state reachable by any interleaving of handlers, closing and
    opening, the counter is the number of handlers inside, and a handler is only inside, a manager
    only held, while the pipeline is alive; once the gate is shut, every handler that leaves brings
    the wait of [close_pipeline] closer, and it passes when the last one has left. *)
Theorem no_handler_after_teardown g (Hr : rtc step closed_gate g) :
  callbacks_in_flight_ g = inside g /\ (alive g = false -> inside g = 0%nat /\ managers_ g = 0%nat) /\
  (accepting_callbacks_ g = false -> forall g', step g g' -> accepting_callbacks_ g' = false ->
     (callbacks_in_flight_ g' <= callbacks_in_flight_ g)%nat) /\
  (accepting_callbacks_ g = false -> exists g', rtc step g g' /\ alive g' = false /\ inside g' = 0%nat).
Proof.
  assert (H : safe g).
  { revert Hr. apply rtc_ind_r; [split; done|]. intros g1 g2 _ Hs Hg. by eapply safe_step. }
  split; [apply H|]. split; [intros Hd; by destruct (proj2 H Hd)|]. split.
  - intros Ha g' Hs Ha'. destruct Hs as [g Hb|g Hb|g Hb|g Hb|g|g Hb Hf|g Hb]; cbn in *; try done; try lia.
    + unfold begin_callback in Hb. by rewrite Ha in Hb.
    + unfold begin_callback. by rewrite Ha.
  - intros Ha. destruct H as [H _]. remember (inside g) as n eqn:Hn. symmetry in Hn. clear Hr. revert g Ha Hn H.
    induction n as [|n IH]; intros g Ha Hn H.
    + exists (mkGate false 0 0 false (inside g)). split; [apply rtc_once, TearsDown; [done|lia]|done].
    + destruct (IH (mkGate false n (managers_ g) (alive g) n)) as (g' & Hg' & Hd); [done..|].
      exists g'. split; [|done]. eapply rtc_l; [by apply leaves_one|done].
Qed.

Lemma no_handler_after_teardown_witness :
  inside (mkGate false 1 1 true 1) = 1%nat /\
  exists g', rtc step (mkGate false 1 1 true 1) g' /\ alive g' = false /\ inside g' = 0%nat.
Proof.
  assert (Hr : rtc step closed_gate (mkGate false 1 1 true 1)).
  { eapply rtc_l; [exact (Builds closed_gate eq_refl)|]. eapply rtc_l; [exact (Enters (mkGate true 0 0 true 0) eq_refl)|].
    eapply rtc_l; [exact (Keeps (mkGate true 1 0 true 1) ltac:(cbn; lia))|].
    eapply rtc_l; [exact (Shuts (mkGate true 1 1 true 1))|]. apply rtc_refl. }
  split; [reflexivity|]. destruct (no_handler_after_teardown _ Hr) as (_ & _ & _ & H). by apply H.
Defined.
End Gate.

(** ** Examples *)

Module SourceExamples.
Import Recovery Rtsp Source Capture.

Definition sample_setup : Setup := mkSetup Auto true true true true true.
Definition sample_source : RtspSource :=
  make_source (Queue.mkQueue 2 [] Queue.stats_zero false) (Queue.mkQueue 2 [] Queue.stats_zero false) Status.make_status.
Definition sample_recovery : RtspRecovery := begin (make_recovery 5000 1000 30000).

(** A 2 by 2 picture whose rows have two bytes of padding. *)
Definition padded : VideoSample := mkSample 2 2 8 [1; 2; 3; 4; 5; 6; 0; 0; 7; 8; 9; 10; 11; 12] (Some 40) 25 1.

Lemma padded_whole : whole padded.
Proof. vm_compute. split_and!; try done; by intros [=]. Qed.

Lemma captured_frame_packed_witness :
  let '(captured, _, s') := capture_sample sample_setup 100 (Some padded) sample_recovery sample_source in
  captured = true /\ Annotator.bgr <$> pushed s' = [[1; 2; 3; 4; 5; 6; 7; 8; 9; 10; 11; 12]].
Proof.
  pose proof (captured_frame_packed sample_setup 100 padded sample_recovery sample_source padded_whole eq_refl) as H.
  destruct (capture_sample sample_setup 100 (Some padded) sample_recovery sample_source) as [[captured r'] s'] eqn:E.
  destruct H as (H & _). split; [exact H|]. apply (f_equal snd) in E. cbn [snd] in E. rewrite <- E. by vm_compute.
Defined.

(** The first turn of an attempt, 10 ms in. *)
Definition early : Turn := mkTurn [] None [] None [] 10000000 10000000 None.

Lemma attempt_progress_witness : exists received' r' s',
  turn sample_setup 0 early false sample_recovery sample_source = (Runs, received', r', s') /\
  (received' = true \/ now early - 0 < ms (Cfg.first_frame_timeout_ms (config_ sample_source))).
Proof.
  eexists _, _, _. split; [vm_compute; reflexivity|].
  eapply (attempt_progress sample_setup 0 early false sample_recovery sample_source). vm_compute. reflexivity.
Defined.
End SourceExamples.
