(* ===== verification/CaptureLoop.v ===== *)
(** * The capture thread of the RTSP source ([src/video/rtsp_source.cpp], [RtspSource::capture_loop])

    The whole life of the thread: attempts to open a pipeline, the turns of those that
    open ([Capture] of [RtspSource.v]), failures, the waits between attempts, and the
    places where a stop request is noticed. *)

From S2P Require Import Prelude Strings Floats ConfigData BoundedQueue RtspRecovery Diagnostics Health Annotator WebRtcSession RtspSource.

Module CaptureLoop.
Import Recovery Rtsp Source Capture.

(** Where a pass reads [running_] as false, besides the condition of the inner loop,
    which is read as false when the turns of the pass are used up. *)
Inductive stop_point := Never | WhileWaiting | AfterOpening | AfterAttempt.

#[export] Instance stop_point_eq : EqDecision stop_point.
Proof. solve_decision. Defined.

(** What one pass of the outer loop meets.  [wait_until] returns some time after the
    scheduled instant ([late]) unless a stop is requested first. *)
Record Pass := mkPass {
  late : N;
  failure : option string;
  created : throws unit;
  made : throws unit;
  playing : throws unit;
  started : Z;
  turns : list Turn;
  failed_at : Z;
  stopped : stop_point;
}.

Section Thread.
Context (setup : Setup).

(** One pass after its wait: the time of the failure it ended in, or none when a stop
    request was noticed. *)
Definition pass (p : Pass) (r : RtspRecovery) (s : RtspSource) : option Z * RtspRecovery * RtspSource :=
  match open_pipeline setup (failure p) (created p) (made p) (playing p) (prepare setup r s) with
  | (inl e, s) =>
    if bool_decide (stopped p = AfterOpening) then (None, r, s)
    else
      let s := set_error setup e s in
      let r := fail (failed_at p) r in (Some (failed_at p), r, publish_recovery setup r s)
  | (inr _, s) =>
    match attempt setup (started p) (turns p) false r s with
    | (Runs, r, s) => (None, r, close_pipeline s)
    | (Breaks e, r, s) =>
      if bool_decide (stopped p = AfterAttempt) then (None, r, close_pipeline s)
      else let '(r, s) := fail_attempt setup (failed_at p) e r s in (Some (failed_at p), r, s)
    end
  end.

(** The outer loop.  [failed]: the last failure, none on the initial attempt.  The first
    component lists the waits, each with the failure before it and the time it ended. *)
Fixpoint loop (failed : option Z) (passes : list Pass) (r : RtspRecovery) (s : RtspSource)
    : list (Z * Z) * RtspRecovery * RtspSource :=
  match passes with
  | [] => ([], r, s)
  | p :: rest =>
    let now := next_retry_ r + Z.of_N (late p) in
    match failed, stopped p with
    | Some _, WhileWaiting => ([], r, s)
    | _, _ =>
      let '(waits, r) := match failed with Some t => ([(t, now)], retry now r) | None => ([], r) end in
      match pass p r s with
      | (None, r, s) => (waits, r, s)
      | (Some t, r, s) => let '(more, r, s) := loop (Some t) rest r s in (waits ++ more, r, s)
      end
    end
  end.

Definition capture_loop (passes : list Pass) (s : RtspSource) : list (Z * Z) * RtspRecovery * RtspSource :=
  let c := config_ s in
  let r := begin (make_recovery (Cfg.stall_timeout_ms c) (Cfg.reconnect_delay_ms c) (Cfg.max_reconnect_delay_ms c)) in
  let '(waits, r, s) := loop None passes r s in
  let '(r, s) := finish setup r s in (waits, r, s).

(** ** The thread only uses the operations of the source *)

Definition pass_weight (p : Pass) : nat := (sum_list (weight <$> turns p) + 7)%nat.

Lemma pass_by_ops p r s : by_ops setup (pass_weight p) s (pass p r s).2.
Proof.
  unfold pass, pass_weight. pose proof (by_ops_run setup [ForgetsCodec; Recovers r; Opens (failure p) (created p) (made p) (playing p)] s) as H.
  cbn [run_ops foldl length] in H. change (apply_op setup (apply_op setup s ForgetsCodec) (Recovers r)) with (prepare setup r s) in H.
  cbn [apply_op] in H. destruct (open_pipeline _ _ _ _ _ _) as [[e|[]] s1]; cbn [snd] in H.
  - case_bool_decide; [eapply by_ops_le; [exact H|lia]|]. eapply by_ops_le; [eapply by_ops_trans; [exact H|]|].
    + exact (by_ops_run setup [Fails e; Recovers (fail (failed_at p) r)] s1).
    + cbn. lia.
  - pose proof (attempt_by_ops setup (started p) (turns p) false r s1) as Ha.
    destruct (attempt _ _ _ _ _ _) as [[[|e] r2] s2]; cbn [snd] in Ha; pose proof (by_ops_trans _ _ _ _ _ _ H Ha) as H2.
    + eapply by_ops_le; [eapply by_ops_trans; [exact H2|exact (by_op setup Closes s2)]|lia].
    + case_bool_decide; [eapply by_ops_le; [eapply by_ops_trans; [exact H2|exact (by_op setup Closes s2)]|lia]|].
      eapply by_ops_le; [eapply by_ops_trans; [exact H2|]|].
      * exact (by_ops_run setup [Closes; Discards; Fails e; Recovers (fail (failed_at p) r2)] s2).
      * cbn. lia.
Qed.

Lemma loop_by_ops passes : forall failed r s, by_ops setup (sum_list (pass_weight <$> passes)) s (loop failed passes r s).2.
Proof.
  induction passes as [|p passes IH]; intros failed r s; [apply by_ops_refl|]. cbn [loop fmap list_fmap sum_list sum_list_with].
  assert (H : forall waits r1, by_ops setup (pass_weight p + sum_list (pass_weight <$> passes)) s
    (match pass p r1 s with
     | (None, r, s) => (waits, r, s)
     | (Some t, r, s) => let '(more, r, s) := loop (Some t) passes r s in (waits ++ more, r, s)
     end).2).
  { intros waits r1. pose proof (pass_by_ops p r1 s) as H. destruct (pass p r1 s) as [[[t|] r2] s2]; [|eapply by_ops_le; [exact H|lia]].
    specialize (IH (Some t) r2 s2). destruct (loop _ _ _ _) as [[more r3] s3]. eapply by_ops_trans; [exact H|exact IH]. }
  destruct failed as [t|]; [|apply H]. destruct (stopped p); try apply H. apply by_ops_refl.
Qed.

(** ** The recovery state in an attempt *)

(** What no call of an attempt changes. *)
Definition plan (r : RtspRecovery) := (reconnect_count_ r, reconnect_delay_ r, max_reconnect_delay_ r).

Lemma turn_plan t0 t received r s : plan (turn setup t0 t received r s).1.2 = plan r.
Proof.
  unfold turn. set (s1 := run_ops _ _ s). clearbody s1. case_bool_decide; [done|]. destruct (bus t); [done|].
  set (s2 := if encoded_sink_ s1 then _ else s1). clearbody s2.
  destruct (match (if sink_ s1 then video t else None) with Some (at_, sample) => _ | None => _ end) as [[captured r1] s3] eqn:E.
  assert (H1 : plan r1 = plan r).
  { destruct (if sink_ s1 then video t else None) as [[at_ sample]|]; [|by simplify_eq]. unfold capture_sample in E.
    destruct sample as [v|]; [|by simplify_eq]. destruct (_ && _ && _); [|by simplify_eq].
    destruct (Metrics.observe_frame _ _) as [fps rate]. by injection E as <- <- <-. }
  clear E. set (s4 := if encoded_sink_ s1 then _ else s3). clearbody s4.
  destruct (read_jitter_stats setup (stats_at t) (stats t) r1 s4) as [r2 s5] eqn:E.
  assert (H2 : plan r2 = plan r).
  { rewrite <- H1. unfold read_jitter_stats in E. destruct (if jitterbuffer_ s4 then stats t else None) as [[[lost late_] jitter]|]; [|by simplify_eq].
    destruct (observe lost _), (observe late_ _). apply (f_equal fst) in E. cbn [fst] in E. subst r2.
    repeat case_match; try done; unfold packet_loss; by destruct (streaming _). }
  destruct (_ && _); [done|]. unfold check_stall. destruct (last_frame_ r2); [|done]. by destruct (_ && _).
Qed.

Lemma attempt_plan t0 ts : forall received r s, plan (attempt setup t0 ts received r s).1.2 = plan r.
Proof.
  induction ts as [|t ts IH]; intros received r s; [done|]. cbn [attempt].
  pose proof (turn_plan t0 t received r s) as H. destruct (turn setup t0 t received r s) as [[[[|e] rec] r1] s1]; [|done].
  by rewrite IH.
Qed.

Lemma fail_plan now r : plan (fail now r) = plan r.
Proof. done. Qed.

(** A pass that ends in a failure schedules the next attempt. *)
Definition scheduled (failed : option Z) (r : RtspRecovery) : Prop :=
  match failed with
  | Some t => health_ r = Reconnecting /\ t + ms (reconnect_delay_ r) <= next_retry_ r <= t + ms (max_reconnect_delay_ r)
  | None => True
  end.

Lemma fail_scheduled now r : valid_delays r -> scheduled (Some now) (fail now r).
Proof.
  intros Hv. pose proof (backoff_loop_range (Z.to_nat (u32 (failure_streak_ r + 1) - 1)) _ _ Hv). split; [done|].
  cbn. unfold ms. lia.
Qed.

Lemma pass_plan p r s : valid_delays r -> let '(t, r', _) := pass p r s in plan r' = plan r /\ scheduled t r'.
Proof.
  intros Hv. unfold pass. destruct (open_pipeline _ _ _ _ _ _) as [[e|[]] s1].
  - case_bool_decide; [done|]. split; [done|by apply fail_scheduled].
  - pose proof (attempt_plan (started p) (turns p) false r s1) as H. destruct (attempt _ _ _ _ _ _) as [[[|e] r2] s2]; cbn in H; [done|].
    case_bool_decide; [done|]. unfold fail_attempt. split; [done|]. apply fail_scheduled. unfold valid_delays in *.
    injection H as _ -> ->. done.
Qed.

Lemma retry_scheduled t now r : scheduled (Some t) r -> next_retry_ r <= now ->
  plan (retry now r) = (u64 (reconnect_count_ r + 1), reconnect_delay_ r, max_reconnect_delay_ r).
Proof.
  intros [Hh _] Hn. unfold retry, retry_due. rewrite Hh, bool_decide_true by done. destruct (Z.leb_spec (next_retry_ r) now); [done|lia].
Qed.

(** The wait after a failure, for a source with the given delays. *)
Definition backs_off (low high : Z) (lates : list N) (w : Z * Z) : Prop :=
  w.1 + ms low <= w.2 /\ exists l, l ∈ lates /\ w.2 <= w.1 + ms high + Z.of_N l.

Lemma loop_waits passes : forall failed r s, valid_delays r -> scheduled failed r -> is_u64 (reconnect_count_ r) ->
  let '(waits, r', _) := loop failed passes r s in
  Forall (backs_off (reconnect_delay_ r) (max_reconnect_delay_ r) (late <$> passes)) waits /\
  reconnect_count_ r' = u64 (reconnect_count_ r + Z.of_nat (length waits)).
Proof.
  induction passes as [|p passes IH]; intros failed r s Hv Hs Hu; cbn [loop]; [rewrite Z.add_0_r, u64_small by done; by split|].
  assert (H : forall (waits : list (Z * Z)) r1, plan r1 = (reconnect_count_ r1, reconnect_delay_ r, max_reconnect_delay_ r) ->
    Forall (backs_off (reconnect_delay_ r) (max_reconnect_delay_ r) (late <$> p :: passes)) waits ->
    reconnect_count_ r1 = u64 (reconnect_count_ r + Z.of_nat (length waits)) ->
    let '(waits, r', _) := match pass p r1 s with
     | (None, r, s) => (waits, r, s)
     | (Some t, r, s) => let '(more, r, s) := loop (Some t) passes r s in (waits ++ more, r, s)
     end in
    Forall (backs_off (reconnect_delay_ r) (max_reconnect_delay_ r) (late <$> p :: passes)) waits /\
    reconnect_count_ r' = u64 (reconnect_count_ r + Z.of_nat (length waits))).
  { intros waits r1 Hp Hw Hc. assert (Hd : reconnect_delay_ r1 = reconnect_delay_ r /\ max_reconnect_delay_ r1 = max_reconnect_delay_ r)
      by (by injection Hp). destruct Hd as [D1 D2].
    assert (Hv1 : valid_delays r1) by (unfold valid_delays; by rewrite D1, D2).
    pose proof (pass_plan p r1 s Hv1) as H. destruct (pass p r1 s) as [[[t|] r2] s2]; destruct H as [E Hs2]; injection E as E1 E2 E3.
    - assert (Hv2 : valid_delays r2) by (unfold valid_delays; by rewrite E2, E3, D1, D2).
      assert (Hu2 : is_u64 (reconnect_count_ r2)) by (rewrite E1, Hc; apply u64_range).
      specialize (IH (Some t) r2 s2 Hv2 Hs2 Hu2). destruct (loop _ _ _ _) as [[more r3] s3]. destruct IH as [F1 F2].
      rewrite E2, E3, D1, D2 in F1. split.
      + apply Forall_app. split; [done|]. eapply Forall_impl; [exact F1|]. intros w (W1 & l & Wl & W2). split; [done|].
        exists l. split; [by apply list_elem_of_further|done].
      + rewrite F2, E1, length_app, Hc, u64_add_l. f_equal. lia.
    - split; [done|]. by rewrite E1. }
  destruct failed as [t|]; [|by apply H; [| |rewrite Z.add_0_r, u64_small]].
  set (now := next_retry_ r + Z.of_N (late p)). pose proof (retry_scheduled t now r Hs ltac:(lia)) as Hr.
  assert (Hw : Forall (backs_off (reconnect_delay_ r) (max_reconnect_delay_ r) (late <$> p :: passes)) [(t, now)]).
  { apply Forall_singleton. destruct Hs as [_ Hs]. split; cbn [fst snd]; [lia|]. exists (late p). split; [by left|lia]. }
  assert (Hc : reconnect_count_ (retry now r) = u64 (reconnect_count_ r + 1)) by (by injection Hr).
  assert (Hp : plan (retry now r) = (reconnect_count_ (retry now r), reconnect_delay_ r, max_reconnect_delay_ r)) by (by rewrite Hr, Hc).
  destruct (stopped p); try (by apply H). split; [done|]. by rewrite Z.add_0_r, u64_small.
Qed.

(** ** The whole thread *)

Definition loop_weight (passes : list Pass) : Z := Z.of_nat (sum_list (pass_weight <$> passes)) + 2.

Lemma capture_by_ops passes s : by_ops setup (sum_list (pass_weight <$> passes) + 2) s (capture_loop passes s).2.
Proof.
  unfold capture_loop. set (r := begin _). pose proof (loop_by_ops passes None r s) as H. destruct (loop _ _ _ _) as [[waits r1] s1].
  eapply by_ops_trans; [exact H|]. exact (by_ops_run setup [Closes; Recovers (Recovery.stop r1)] s1).
Qed.

(** Nothing of a pipeline is left, and the source reports that it stopped. *)
Definition at_rest (s : RtspSource) : Prop :=
  pipeline_ s = false /\ sink_ s = false /\ encoded_sink_ s = false /\ jitterbuffer_ s = false /\
  health (diagnostics_ s) = Stopped /\ (has_status setup = true -> Status.video_available_ (status_ s) = false).

Lemma finish_at_rest r s : at_rest (finish setup r s).2 /\ reconnect_count (diagnostics_ (finish setup r s).2) = reconnect_count_ r.
Proof.
  unfold at_rest, finish, publish_recovery, update_status. cbn. destruct (has_status setup); split_and!; try done.
  intros _. cbn. by destruct (status_ s).
Qed.

End Thread.

(** ** A stream that ends, a server that is away, and a stop *)

Definition arrives : Turn :=
  let u (delta : bool) : PulledUnit := (None, None, mkUnitSample (Some (Some "constrained-baseline", Some "3.1")) (Some (Some 7, None, delta, false, [0; 0; 1]))) in
  mkTurn [PadAdded (Some ("application/x-rtp", Some "H264")) (fun _ => true) true true None] None [u false; u true] None [] 10000000 10000000 None.
Definition ends_ : Turn := mkTurn [] (Some "end of stream") [] None [] 20000000 20000000 None.
Definition sample_passes : list Pass :=
  [mkPass 0 None (inr tt) (inr tt) (inr tt) 0 [arrives; ends_] 20000000 Never;
   mkPass 7 None (inl "no element rtspsrc") (inr tt) (inr tt) 0 [] 2000000000 Never;
   mkPass 0 None (inr tt) (inr tt) (inr tt) 4000000000 [arrives] 0 Never].

End CaptureLoop.
