(* ===== verification/Encoder.v ===== *)
(** * The H.264 encoder ([src/video/h264_encoder.cpp], [include/skai/video/h264_encoder.hpp])

    The worker that feeds frames to a GStreamer pipeline and publishes what comes
    out.  [Timeline] has the two clocks: presentation times of the input, which
    must increase, and of the output, which continue over rebuilt pipelines.
    [Encoder] has the worker's loop and the handler of encoded samples.  GStreamer
    is an input of the steps. *)

From S2P Require Import Prelude Strings Json Floats ConfigData BoundedQueue Diagnostics Health Preprocess YoloPostprocess Annotator WebRtcSession RtspSource.

Module Timeline.

(** *** Input times *)

Record InputClock := mkInput {
  timestamp_epoch_ : option Z;
  last_input_pts_ns_ : Z;
  has_input_pts_ : bool;
}.

Definition no_input : InputClock := mkInput None 0 false.

(** [capture_time] of a frame: its timestamp, or the clock when it has none. *)
Definition capture_time (timestamp : option Z) (now : Z) : Z := default now timestamp.

(** In [open_pipeline]: the first pipeline fixes the epoch. *)
Definition fix_epoch (timestamp : option Z) (now : Z) (c : InputClock) : InputClock :=
  match timestamp_epoch_ c with
  | Some _ => c
  | None => mkInput (Some (capture_time timestamp now)) (last_input_pts_ns_ c) (has_input_pts_ c)
  end.

(** The presentation time of a submitted frame. *)
Definition input_pts (timestamp : option Z) (now : Z) (c : InputClock) : Z * InputClock :=
  let epoch := default 0 (timestamp_epoch_ c) in
  let elapsed := Z.max 0 (capture_time timestamp now - epoch) in
  let pts := if has_input_pts_ c && (elapsed <=? last_input_pts_ns_ c) then u64 (last_input_pts_ns_ c + 1) else elapsed in
  (pts, mkInput (timestamp_epoch_ c) pts true).

(** *** Output times *)

Record OutputClock := mkOutput {
  has_output_pts_ : bool;
  has_pipeline_output_origin_ : bool;
  last_output_pts_ns_ : Z;
  pipeline_raw_pts_origin_ns_ : Z;
  pipeline_output_pts_origin_ns_ : Z;
}.

Definition no_output : OutputClock := mkOutput false false 0 0 0.

Definition new_pipeline (c : OutputClock) : OutputClock :=
  mkOutput (has_output_pts_ c) false (last_output_pts_ns_ c) (pipeline_raw_pts_origin_ns_ c) (pipeline_output_pts_origin_ns_ c).

(** [gst_util_uint64_scale_int(GST_SECOND, fps_den, fps_num)]. *)
Definition frame_duration (fps_num fps_den : Z) : Z := 1000000000 * fps_den / fps_num.

Definition rebase (c : OutputClock) (raw : Z) : Z :=
  if pipeline_raw_pts_origin_ns_ c <=? raw
  then u64 (pipeline_output_pts_origin_ns_ c + (raw - pipeline_raw_pts_origin_ns_ c))
  else
    let delta := pipeline_raw_pts_origin_ns_ c - raw in
    if delta <? pipeline_output_pts_origin_ns_ c then pipeline_output_pts_origin_ns_ c - delta else 0.

Definition anchor (duration raw : Z) (c : OutputClock) : OutputClock :=
  if has_pipeline_output_origin_ c then c
  else mkOutput (has_output_pts_ c) true (last_output_pts_ns_ c) raw
         (if has_output_pts_ c then Z.max raw (u64 (last_output_pts_ns_ c + duration)) else raw).

(** The outgoing presentation and decoding time of a unit with a presentation time. *)
Definition output_pts (duration raw : Z) (raw_dts : option Z) (c : OutputClock) : Z * option Z * OutputClock :=
  let c := anchor duration raw c in
  let pts := rebase c raw in
  (pts, rebase c <$> raw_dts,
   mkOutput true (has_pipeline_output_origin_ c) pts (pipeline_raw_pts_origin_ns_ c) (pipeline_output_pts_origin_ns_ c)).

(** ** Input times increase *)

Fixpoint input_times (frames : list (option Z * Z)) (c : InputClock) : list Z :=
  match frames with
  | [] => []
  | (timestamp, now) :: rest => let '(pts, c) := input_pts timestamp now c in pts :: input_times rest c
  end.

Definition increasing (l : list Z) : Prop := forall i a b, l !! i = Some a -> l !! S i = Some b -> a < b.

Lemma increasing_cons a l : increasing l -> (forall b, head l = Some b -> a < b) -> increasing (a :: l).
Proof.
  intros H Ha [|i] x y Hx Hy; cbn in *; [|by eapply H]. injection Hx as <-. apply Ha. destruct l; [done|]. by injection Hy as <-.
Qed.

Lemma input_times_from frames : forall c bound, 0 <= last_input_pts_ns_ c <= bound ->
  Forall (fun f => capture_time f.1 f.2 - default 0 (timestamp_epoch_ c) <= bound) frames ->
  bound + Z.of_nat (length frames) <= u64_max ->
  increasing (input_times frames c) /\
  (forall b, head (input_times frames c) = Some b -> has_input_pts_ c = true -> last_input_pts_ns_ c < b).
Proof.
  induction frames as [|[timestamp now] frames IH]; intros c bound Hl Hf Hb; [by split; [intros i a b H|]|].
  apply Forall_cons in Hf as [Hf Hfs]. cbn [fst snd length] in Hf, Hb. cbn [input_times].
  destruct (input_pts timestamp now c) as [pts c'] eqn:E. unfold input_pts in E. injection E as E1 E2.
  assert (Hpts : 0 <= pts <= bound + 1 /\ (has_input_pts_ c = true -> last_input_pts_ns_ c < pts)).
  { subst pts. destruct (has_input_pts_ c) eqn:Eh; cbn [andb]; [|split; [lia|done]].
    match goal with |- context [?a <=? ?b] => destruct (Z.leb_spec a b) end; [rewrite u64_small by lia|]; lia. }
  rewrite E1 in E2. subst c'. destruct (IH (mkInput (timestamp_epoch_ c) pts true) (bound + 1)) as [H1 H2].
  - cbn. lia.
  - eapply Forall_impl; [exact Hfs|]. cbn. intros f Hx. lia.
  - lia.
  - split; [apply increasing_cons; [done|]; intros b Hb'; by apply H2|]. intros b [= <-]. apply Hpts.
Qed.

(** The encoder is fed strictly increasing presentation times, whatever the timestamps of the
    frames: frames with equal, decreasing or missing timestamps, also over rebuilt pipelines, get
    the next nanosecond instead (as long as the run is shorter than 2^64 ns). *)
Theorem encoder_input_times_increase frames epoch bound
    (Hf : Forall (fun f => capture_time f.1 f.2 - default 0 epoch <= bound) frames)
    (Hb : 0 <= bound) (Hn : bound + Z.of_nat (length frames) <= u64_max) :
  increasing (input_times frames (mkInput epoch 0 false)).
Proof. apply (input_times_from frames (mkInput epoch 0 false) bound); [cbn; lia|done|done]. Qed.

(** ** Output times continue over rebuilt pipelines *)

Fixpoint pipeline_times (duration : Z) (raws : list Z) (c : OutputClock) : list Z * OutputClock :=
  match raws with
  | [] => ([], c)
  | raw :: rest =>
    let '(pts, _, c) := output_pts duration raw None c in
    let '(l, c) := pipeline_times duration rest c in (pts :: l, c)
  end.

(** One list of outgoing times for each pipeline. *)
Fixpoint output_times (duration : Z) (pipelines : list (list Z)) (c : OutputClock) : list (list Z) :=
  match pipelines with
  | [] => []
  | raws :: rest => let '(l, c) := pipeline_times duration raws (new_pipeline c) in l :: output_times duration rest c
  end.

(** Within a pipeline, once it has its origin. *)
Lemma pipeline_times_shift duration raws : forall c, has_pipeline_output_origin_ c = true ->
  Forall (fun r => pipeline_raw_pts_origin_ns_ c <= r /\
    pipeline_output_pts_origin_ns_ c + (r - pipeline_raw_pts_origin_ns_ c) <= u64_max) raws ->
  0 <= pipeline_output_pts_origin_ns_ c ->
  (pipeline_times duration raws c).1 = (fun r => pipeline_output_pts_origin_ns_ c + (r - pipeline_raw_pts_origin_ns_ c)) <$> raws /\
  (raws <> [] -> has_output_pts_ (pipeline_times duration raws c).2 = true /\
     Some (last_output_pts_ns_ (pipeline_times duration raws c).2) = last (pipeline_times duration raws c).1).
Proof.
  induction raws as [|raw raws IH]; intros c Hc Hf H0; [done|]. apply Forall_cons in Hf as [[Hr Hm] Hf]. cbn [pipeline_times].
  unfold output_pts, anchor. rewrite Hc. unfold rebase. destruct (Z.leb_spec (pipeline_raw_pts_origin_ns_ c) raw); [|lia].
  rewrite u64_small by lia. set (c1 := mkOutput true _ _ _ _).
  destruct (IH c1) as [H1 H2]; [done|done|done|]. destruct (pipeline_times duration raws c1) as [l c2] eqn:E. cbn [fst snd] in *.
  split; [rewrite H1; done|]. intros _. destruct raws as [|raw' raws]; [cbn in E; by injection E as <- <-|].
  destruct H2 as [H2 H3]; [done|]. split; [done|]. rewrite H3. rewrite H1. cbn. done.
Qed.

Lemma fmap_increasing raws (f : Z -> Z) : (forall a b, a < b -> f a < f b) -> increasing raws -> increasing (f <$> raws).
Proof.
  intros Hf H i a b Ha Hb. rewrite list_lookup_fmap in Ha, Hb. apply fmap_Some in Ha as (x & Hx & ->), Hb as (y & Hy & ->).
  apply Hf. by eapply H.
Qed.

Lemma increasing_tail a l : increasing (a :: l) -> increasing l /\ Forall (fun b => a < b) l.
Proof.
  intros H. split; [intros i x y Hx Hy; by apply (H (S i) x y)|].
  revert a H. induction l as [|b l IH]; intros a H; [constructor|]. assert (a < b) by (by apply (H 0%nat)).
  constructor; [done|]. eapply Forall_impl; [apply (IH b); intros i x y Hx Hy; by apply (H (S i) x y)|]. cbn. lia.
Qed.

Lemma increasing_app l1 l2 : increasing l1 -> increasing l2 ->
  (forall a b, last l1 = Some a -> head l2 = Some b -> a < b) -> increasing (l1 ++ l2).
Proof.
  intros H1 H2 H i a b Ha Hb. destruct (decide (S i < length l1)%nat) as [Hi|Hi].
  - rewrite lookup_app_l in Ha, Hb by lia. by eapply H1.
  - destruct (decide (i < length l1)%nat) as [Hj|Hj].
    + rewrite lookup_app_l in Ha by lia. rewrite lookup_app_r in Hb by lia.
      replace (S i - length l1)%nat with 0%nat in Hb by lia. apply H; [|by destruct l2].
      rewrite last_lookup. by replace (Nat.pred (length l1)) with i by lia.
    + rewrite lookup_app_r in Ha, Hb by lia. apply (H2 (i - length l1)%nat); [done|].
      by replace (S (i - length l1))%nat with (S i - length l1)%nat by lia.
Qed.

Lemma anchor_first duration raw raws c :
  pipeline_times duration (raw :: raws) c = pipeline_times duration (raw :: raws) (anchor duration raw c).
Proof.
  cbn [pipeline_times]. unfold output_pts. replace (anchor duration raw (anchor duration raw c)) with (anchor duration raw c); [done|].
  unfold anchor. destruct (has_pipeline_output_origin_ c) eqn:E; [by rewrite E|done].
Qed.

(** A new pipeline: its times are shifted as a whole, behind everything sent before. *)
Lemma pipeline_times_fresh duration raws c bound limit : has_pipeline_output_origin_ c = false -> increasing raws ->
  Forall (fun r => 0 <= r <= bound) raws -> 0 < duration -> 0 <= bound -> 0 <= last_output_pts_ns_ c <= limit ->
  limit + duration + bound <= u64_max ->
  exists shift, let '(l, c') := pipeline_times duration raws c in
    l = (fun r => r + shift) <$> raws /\
    (forall b, head l = Some b -> has_output_pts_ c = true -> last_output_pts_ns_ c < b) /\
    0 <= last_output_pts_ns_ c' <= limit + duration + bound /\
    (raws = [] -> c' = c) /\
    (raws <> [] -> has_output_pts_ c' = true /\ Some (last_output_pts_ns_ c') = last l).
Proof.
  intros Ho Hi Hr Hd Hb Hl Hm. destruct raws as [|raw raws]; [exists 0; cbn; split_and!; (done || lia)|].
  apply increasing_tail in Hi as Hgt. destruct Hgt as [_ Hgt]. pose proof Hr as [Hr0 Hrs]%Forall_cons.
  rewrite anchor_first. set (c1 := anchor duration raw c).
  assert (E1 : has_pipeline_output_origin_ c1 = true /\ pipeline_raw_pts_origin_ns_ c1 = raw) by (unfold c1, anchor; by rewrite Ho).
  destruct E1 as [E1 E2]. set (origin := pipeline_output_pts_origin_ns_ c1).
  assert (Horigin : raw <= origin /\ origin <= limit + duration + raw /\ (has_output_pts_ c = true -> last_output_pts_ns_ c < origin)).
  { unfold origin, c1, anchor. rewrite Ho. cbn. destruct (has_output_pts_ c); [rewrite u64_small by lia|]; split_and!; (done || lia). }
  destruct (pipeline_times_shift duration (raw :: raws) c1 E1) as [H1 H2]; fold origin; rewrite ?E2; [|lia|].
  { apply Forall_cons. split; [lia|]. rewrite Forall_forall in Hrs, Hgt |- *. intros r Hx. specialize (Hrs r Hx). specialize (Hgt r Hx). lia. }
  fold origin in H1. rewrite E2 in H1. exists (origin - raw).
  destruct (pipeline_times duration (raw :: raws) c1) as [l c2]. cbn [fst snd] in *. destruct (H2 ltac:(done)) as [H3 H4]. clear H2.
  assert (Hl' : l = (fun r => r + (origin - raw)) <$> raw :: raws).
  { rewrite H1. apply list_fmap_ext. intros ? r _. lia. }
  split; [done|]. split; [intros b Hx Hh; rewrite Hl' in Hx; injection Hx as <-; destruct Horigin as (_ & _ & Hx); specialize (Hx Hh); lia|].
  split; [|split; [done|auto]]. rewrite Hl' in H4. symmetry in H4. rewrite fmap_last in H4. apply fmap_Some in H4 as (r & Hlast & ->).
  apply last_Some_elem_of in Hlast. rewrite Forall_forall in Hr. pose proof (Hr r Hlast).
  assert (raw <= r) by (apply elem_of_cons in Hlast as [->|Hx]; [lia|]; rewrite Forall_forall in Hgt; specialize (Hgt r Hx); lia). lia.
Qed.

Lemma output_times_from duration bound pipelines : forall c limit, 0 < duration -> 0 <= bound ->
  Forall (fun raws => increasing raws /\ Forall (fun r => 0 <= r <= bound) raws) pipelines ->
  0 <= last_output_pts_ns_ c <= limit -> limit + Z.of_nat (length pipelines) * (duration + bound) <= u64_max ->
  increasing (mjoin (output_times duration pipelines c)) /\
  Forall2 (fun raws outs => exists shift, outs = (fun r => r + shift) <$> raws) pipelines (output_times duration pipelines c) /\
  (forall b, head (mjoin (output_times duration pipelines c)) = Some b -> has_output_pts_ c = true -> last_output_pts_ns_ c < b).
Proof.
  induction pipelines as [|raws pipelines IH]; intros c limit Hd Hb Hp Hl Hm; [by split_and!; [intros i a b H|constructor|]|].
  apply Forall_cons in Hp as [[Hi Hr] Hp]. cbn [output_times length] in *.
  destruct (pipeline_times_fresh duration raws (new_pipeline c) bound limit) as [shift H]; try done; [nia|].
  destruct (pipeline_times duration raws (new_pipeline c)) as [l c1]. destruct H as (H1 & H2 & H3 & H4 & H5).
  destruct (IH c1 (limit + duration + bound)) as (I1 & I2 & I3); [done..|nia|].
  change (mjoin (l :: output_times duration pipelines c1)) with (l ++ mjoin (output_times duration pipelines c1)).
  destruct raws as [|raw raws].
  - cbn in H1. subst l. rewrite (H4 eq_refl) in *. cbn [app]. split_and!; [done|constructor; [by exists 0|done]|exact I3].
  - destruct H5 as [H5 H6]; [done|]. split_and!.
    + apply increasing_app; [|done|].
      * rewrite H1. apply fmap_increasing; [lia|done].
      * intros a b Ha Hb'. rewrite <- H6 in Ha. injection Ha as <-. by apply I3.
    + constructor; [by exists shift|done].
    + intros b Hx. apply H2. rewrite H1 in Hx |- *. exact Hx.
Qed.

(** The encoded stream has one timeline over rebuilt pipelines: when the presentation times of each
    pipeline increase, the outgoing times increase over all of them, and each pipeline's times are
    its own shifted by a constant, so the distances between its pictures are kept (as long as no sum
    exceeds 64 bits). *)
Theorem encoder_output_times_continue duration bound pipelines (Hd : 0 < duration) (Hb : 0 <= bound)
    (Hp : Forall (fun raws => increasing raws /\ Forall (fun r => 0 <= r <= bound) raws) pipelines)
    (Hm : Z.of_nat (length pipelines) * (duration + bound) <= u64_max) :
  increasing (mjoin (output_times duration pipelines no_output)) /\
  Forall2 (fun raws outs => exists shift, outs = (fun r => r + shift) <$> raws) pipelines
    (output_times duration pipelines no_output).
Proof.
  destruct (output_times_from duration bound pipelines no_output 0) as (H1 & H2 & _); try done; cbn; lia.
Qed.

(** A repeated, a missing and an early timestamp. *)
Lemma encoder_input_times_increase_witness :
  let frames := [(Some 100, 0); (Some 100, 0); (None, 140); (Some 90, 0)] in
  increasing (input_times frames (mkInput (Some 100) 0 false)) /\ input_times frames (mkInput (Some 100) 0 false) = [0; 1; 40; 41].
Proof.
  cbn zeta. split; [|by vm_compute].
  apply (encoder_input_times_increase [(Some 100, 0); (Some 100, 0); (None, 140); (Some 90, 0)] (Some 100) 40);
    [repeat constructor; by vm_compute|lia|by vm_compute].
Defined.

(** The second pipeline starts at zero again. *)
Lemma encoder_output_times_continue_witness :
  increasing (mjoin (output_times 40 [[0; 40; 80]; [0; 40]] no_output)) /\
  output_times 40 [[0; 40; 80]; [0; 40]] no_output = [[0; 40; 80]; [120; 160]].
Proof.
  split; [|by vm_compute]. apply (encoder_output_times_continue 40 80 [[0; 40; 80]; [0; 40]]); [lia|lia| |by vm_compute].
  repeat (constructor || split); try (cbn; lia); intros [|[|i]] a b Ha Hb; cbn in Ha, Hb; try destruct i; cbn in Ha, Hb; simplify_eq; lia.
Defined.
End Timeline.

(** ** The worker *)

Module Encoder.
Import Timeline.

Record H264EncoderConfig := mkConfig {
  bitrate_kbps : Z;
  keyframe_interval : Z;
  fps_num : Z;
  fps_den : Z;
}.
Definition default_config : H264EncoderConfig := mkConfig 2000 30 30 1.

Definition valid_config (c : H264EncoderConfig) : throws unit :=
  if (bitrate_kbps c <=? 0) || (keyframe_interval c <=? 0) || (fps_num c <=? 0) || (fps_den c <=? 0) then
    throw "H.264 encoder bitrate, keyframe interval, and frame rate must be positive"
  else if 14000 <? bitrate_kbps c then throw "H.264 encoder bitrate exceeds constrained-baseline Level 3.1"
  else inr tt.

Definition level_3_1_supports (f : Annotator.Frame) (c : H264EncoderConfig) : throws unit :=
  let macroblocks_wide := Z.quot (Annotator.width f + 15) 16 in
  let macroblocks_high := Z.quot (Annotator.height f + 15) 16 in
  let macroblocks := macroblocks_wide * macroblocks_high in
  if (3600 <? macroblocks) || (108000 * fps_den c <? macroblocks * fps_num c) then
    throw "encoder frame dimensions and rate exceed constrained-baseline Level 3.1"
  else inr tt.

Definition valid_frame (f : Annotator.Frame) : throws unit :=
  if (Annotator.width f <=? 0) || (Annotator.height f <=? 0) || (Annotator.stride f <? 0) ||
     (int_max / 3 <? Annotator.width f) then
    throw "encoder frame dimensions or stride are invalid"
  else
    let row_bytes := u64 (Annotator.width f * 3) in
    let stride := Annotator.stride f in
    let rows_before_last := u64 (Annotator.height f - 1) in
    if (stride <? row_bytes) || ((u64_max - row_bytes) / stride <? rows_before_last) ||
       (Z.of_nat (length (Annotator.bgr f)) <? u64 (u64 (rows_before_last * stride) + row_bytes)) then
      throw "encoder frame buffer is shorter than its BGR dimensions and stride"
    else inr tt.

Record H264EncoderMetrics := mkMetrics {
  frames_submitted : Z;
  frames_rejected : Z;
  appsrc_pressure_dropped : Z;
  access_units_encoded : Z;
  bytes_encoded : Z;
  pipeline_rebuilds : Z;
  last_error : string;
}.
Definition no_metrics : H264EncoderMetrics := mkMetrics 0 0 0 0 0 0 "".

Record Setup := mkSetup { has_status : bool; has_sink : bool }.

(** [epoch] counts the calls of [close_pipeline]; [fed] and [units] are histories:
    the buffers pushed to the pipeline (time, frame number, bytes) and the units
    published, with the epoch they came in. *)
Record H264Encoder := mkEncoder {
  config_ : H264EncoderConfig;
  input_ : Queue.BoundedQueue Annotator.Frame;
  output_ : Queue.BoundedQueue Media.EncodedAccessUnit;
  status_ : Status.RuntimeStatus;
  pipeline_ : bool;
  width_ : Z;
  height_ : Z;
  input_clock : InputClock;
  output_clock : OutputClock;
  next_access_unit_discontinuity_ : bool;
  metrics_ : H264EncoderMetrics;
  last_access_unit_time_ : option Z;
  epoch : Z;
  fed : list (Z * Z * list Z);
  units : list (Z * Media.EncodedAccessUnit);
  log : list string;
}.

Definition set_io input output units_ (e : H264Encoder) : H264Encoder :=
  mkEncoder (config_ e) input output (status_ e) (pipeline_ e) (width_ e) (height_ e) (input_clock e) (output_clock e)
    (next_access_unit_discontinuity_ e) (metrics_ e) (last_access_unit_time_ e) (epoch e) (fed e) units_ (log e).
Definition set_pipe pipeline width height next epoch_ (e : H264Encoder) : H264Encoder :=
  mkEncoder (config_ e) (input_ e) (output_ e) (status_ e) pipeline width height (input_clock e) (output_clock e)
    next (metrics_ e) (last_access_unit_time_ e) epoch_ (fed e) (units e) (log e).
Definition set_clocks input output fed_ (e : H264Encoder) : H264Encoder :=
  mkEncoder (config_ e) (input_ e) (output_ e) (status_ e) (pipeline_ e) (width_ e) (height_ e) input output
    (next_access_unit_discontinuity_ e) (metrics_ e) (last_access_unit_time_ e) (epoch e) fed_ (units e) (log e).
Definition set_metrics metrics last status log_ (e : H264Encoder) : H264Encoder :=
  mkEncoder (config_ e) (input_ e) (output_ e) status (pipeline_ e) (width_ e) (height_ e) (input_clock e) (output_clock e)
    (next_access_unit_discontinuity_ e) metrics last (epoch e) (fed e) (units e) log_.

Definition with_metrics m (e : H264Encoder) : H264Encoder := set_metrics m (last_access_unit_time_ e) (status_ e) (log e) e.

Section Worker.
Context (setup : Setup).

(** [metrics()] as the status board shows it. *)
Definition metrics (now : Z) (e : H264Encoder) : Status.Encoder :=
  let m := metrics_ e in
  Status.mkEncoder (frames_submitted m) (frames_rejected m)
    (u64 (Queue.dropped (Queue.stats (input_ e)) + appsrc_pressure_dropped m)) (appsrc_pressure_dropped m)
    (access_units_encoded m) (bytes_encoded m) (Queue.dropped (Queue.stats (output_ e)))
    (match last_access_unit_time_ e with Some t => Z.quot (now - t) 1000000 | None => -1 end) (last_error m).

Definition publish_metrics (now : Z) (e : H264Encoder) : H264Encoder :=
  if has_status setup
  then set_metrics (metrics_ e) (last_access_unit_time_ e) (Status.apply (status_ e) (Status.UpdateEncoder (metrics now e))) (log e) e
  else e.

Definition set_error (now : Z) (error : string) (e : H264Encoder) : H264Encoder :=
  let m := metrics_ e in
  let m := mkMetrics (frames_submitted m) (frames_rejected m) (appsrc_pressure_dropped m) (access_units_encoded m)
             (bytes_encoded m) (pipeline_rebuilds m) error in
  publish_metrics now (set_metrics m (last_access_unit_time_ e) (status_ e) (log e ++ [error]) e).

Definition count_rejected (e : H264Encoder) : H264Encoder :=
  let m := metrics_ e in
  with_metrics (mkMetrics (frames_submitted m) (u64 (frames_rejected m + 1)) (appsrc_pressure_dropped m)
    (access_units_encoded m) (bytes_encoded m) (pipeline_rebuilds m) (last_error m)) e.
Definition count_submitted (dropped : bool) (e : H264Encoder) : H264Encoder :=
  let m := metrics_ e in
  with_metrics (if dropped
    then mkMetrics (frames_submitted m) (frames_rejected m) (u64 (appsrc_pressure_dropped m + 1)) (access_units_encoded m)
           (bytes_encoded m) (pipeline_rebuilds m) (last_error m)
    else mkMetrics (u64 (frames_submitted m + 1)) (frames_rejected m) (appsrc_pressure_dropped m) (access_units_encoded m)
           (bytes_encoded m) (pipeline_rebuilds m) (last_error m)) e.
Definition count_rebuild (e : H264Encoder) : H264Encoder :=
  let m := metrics_ e in
  with_metrics (mkMetrics (frames_submitted m) (frames_rejected m) (appsrc_pressure_dropped m) (access_units_encoded m)
    (bytes_encoded m) (u64 (pipeline_rebuilds m + 1)) "") e.

(** [start], up to the creation of the thread. *)
Definition start (joinable gst_ready plugins : bool) (now : Z) (c : H264EncoderConfig) (e : H264Encoder) : throws H264Encoder :=
  if joinable then throw "H.264 encoder is already running"
  else match valid_config c with
  | inl error => throw error
  | inr _ =>
    if negb gst_ready then throw "GStreamer must be initialized before the H.264 encoder"
    else if negb plugins then throw "required GStreamer H.264 encoder plugins are unavailable"
    else
      let o := output_clock e in
      inr (publish_metrics now
        (mkEncoder c (input_ e) (Queue.reset (output_ e)) (status_ e) (pipeline_ e) 0 0 no_input
           (mkOutput false false 0 (pipeline_raw_pts_origin_ns_ o) (pipeline_output_pts_origin_ns_ o)) true no_metrics None
           (epoch e) (fed e) (units e) (log e)))
  end.

Definition close_pipeline (e : H264Encoder) : H264Encoder := set_pipe false (width_ e) (height_ e) true (epoch e + 1) e.

(** A frame without a timestamp has the clock's zero. *)
Definition timestamp_of (f : Annotator.Frame) : option Z :=
  if Annotator.timestamp f =? 0 then None else Some (Annotator.timestamp f).

(** [created]: the empty pipeline; [built]: its elements, made and linked; [playing]:
    whether the state could be requested. *)
Definition open_pipeline (created built : throws unit) (playing : bool) (now : Z) (f : Annotator.Frame) (e : H264Encoder)
    : throws unit * H264Encoder :=
  match level_3_1_supports f (config_ e) with
  | inl error => (throw error, e)
  | inr _ =>
    match created, built with
    | inl error, _ => (throw error, e)
    | inr _, inl error => (throw error, close_pipeline e)
    | inr _, inr _ =>
      let e := set_pipe true (Annotator.width f) (Annotator.height f) (next_access_unit_discontinuity_ e) (epoch e) e in
      let e := set_clocks (fix_epoch (timestamp_of f) now (input_clock e)) (new_pipeline (output_clock e)) (fed e) e in
      let e := set_metrics (metrics_ e) (last_access_unit_time_ e) (status_ e)
                 (log e ++ ["H.264 pipeline state PLAYING requested"]) e in
      if playing then (inr tt, e)
      else (throw "failed to request PLAYING state for H.264 encoder pipeline", close_pipeline e)
    end
  end.

(** The rows of the frame without their padding. *)
Definition packed (f : Annotator.Frame) : list Z :=
  mjoin ((fun row : nat => take (Z.to_nat (Annotator.width f * 3))
                             (drop (row * Z.to_nat (Annotator.stride f)) (Annotator.bgr f)))
           <$> seq 0 (Z.to_nat (Annotator.height f))).

(** [queued]: the buffers waiting in the source element; [mapped]: allocating and
    mapping the buffer; [taken]: whether the element took it.  [inr true]: dropped. *)
Definition submit_frame (queued : Z) (mapped : throws unit) (taken : bool) (now : Z) (f : Annotator.Frame) (e : H264Encoder)
    : throws bool * H264Encoder :=
  match valid_frame f with
  | inl error => (throw error, e)
  | inr _ =>
    if negb (Annotator.width f =? width_ e) || negb (Annotator.height f =? height_ e) then
      (throw "encoder frame dimensions changed after the pipeline started", e)
    else if 2 <=? queued then (inr true, e)
    else match mapped with
    | inl error => (throw error, e)
    | inr _ =>
      let '(pts, clock) := input_pts (timestamp_of f) now (input_clock e) in
      let e := set_clocks clock (output_clock e) (fed e ++ [(pts, Annotator.sequence f, packed f)]) e in
      if taken then (inr false, e) else (throw "H.264 encoder rejected input frame", e)
    end
  end.

(** What the worker meets while it handles one frame. *)
Record Surroundings := mkSurroundings {
  bus_error : option string;
  created : throws unit;
  built : throws unit;
  playing : bool;
  queued : Z;
  mapped : throws unit;
  taken : bool;
  clock : Z;
}.

Definition reject (now : Z) (error : string) (e : H264Encoder) : H264Encoder := set_error now error (count_rejected e).

(** The loop's body for a frame. *)
Definition handle_frame (x : Surroundings) (f : Annotator.Frame) (e : H264Encoder) : H264Encoder :=
  let now := clock x in
  match valid_frame f with
  | inl error => reject now error e
  | inr _ =>
    let e := match bus_error x with
             | Some detail => if pipeline_ e then close_pipeline (set_error now detail e) else e
             | None => e
             end in
    let e := if pipeline_ e && (negb (Annotator.width f =? width_ e) || negb (Annotator.height f =? height_ e))
             then publish_metrics now (count_rebuild (close_pipeline e)) else e in
    match (if pipeline_ e then (inr tt, e) else open_pipeline (created x) (built x) (playing x) now f e) with
    | (inl error, e) => reject now error e
    | (inr _, e) =>
      match submit_frame (queued x) (mapped x) (taken x) now f e with
      | (inl error, e) => close_pipeline (reject now error e)
      | (inr dropped, e) => publish_metrics now (count_submitted dropped e)
      end
    end
  end.

(** One turn of [run]: [None] ends the loop. *)
Definition turn (x : Surroundings) (e : H264Encoder) : option H264Encoder :=
  match Queue.pop_for (input_ e) with
  | (Some f, q) => Some (handle_frame x f (set_io q (output_ e) (units e) e))
  | (None, q) => if Queue.is_shutdown q then None else Some (publish_metrics (clock x) e)
  end.

(** An encoded sample: offset, times, flag and bytes. *)
Record Sample := mkSample {
  offset : option Z;
  sample_pts : option Z;
  sample_dts : option Z;
  delta_unit : bool;
  bytes : list Z;
}.

(** [sink_fails]: what the access unit sink throws, with its text when it is an
    [std::exception]. *)
Definition capture_sample (sample : option Sample) (sink_fails : option (option string)) (now : Z) (e : H264Encoder)
    : bool * H264Encoder :=
  match sample with
  | None => (false, e)
  | Some s =>
    if bool_decide (bytes s = []) then (false, e)
    else
      let duration := frame_duration (fps_num (config_ e)) (fps_den (config_ e)) in
      let '(pts, dts, clock) :=
        match sample_pts s with
        | Some raw => output_pts duration raw (sample_dts s) (output_clock e)
        | None => (0, sample_dts s, output_clock e)
        end in
      let unit := Media.mkUnit (default 0 (offset s)) pts (default 0 dts) (bool_decide (is_Some (sample_pts s)))
                    (bool_decide (is_Some (sample_dts s))) (negb (delta_unit s)) (next_access_unit_discontinuity_ e) 0 (bytes s) in
      let e := set_clocks (input_clock e) clock (fed e) e in
      let e := set_pipe (pipeline_ e) (width_ e) (height_ e) false (epoch e) e in
      let e := match sink_fails with
               | Some what => if has_sink setup
                   then set_metrics (metrics_ e) (last_access_unit_time_ e) (status_ e)
                          (log e ++ ["encoded access-unit sink failed" +:+ from_option (String.append ": ") "" what]) e else e
               | None => e
               end in
      let e := set_io (input_ e) (Queue.push unit (output_ e)).2 (units e ++ [(epoch e, unit)]) e in
      let m := metrics_ e in
      let m := mkMetrics (frames_submitted m) (frames_rejected m) (appsrc_pressure_dropped m)
                 (u64 (access_units_encoded m + 1)) (u64 (bytes_encoded m + Z.of_nat (length (bytes s))))
                 (pipeline_rebuilds m) (last_error m) in
      (true, publish_metrics now (set_metrics m (Some now) (status_ e) (log e) e))
  end.
End Worker.

(** [stop], once the worker has ended: its last act is [close_pipeline]. *)
Definition stop (setup : Setup) (now : Z) (e : H264Encoder) : H264Encoder :=
  let e := close_pipeline e in
  publish_metrics setup now (set_io (input_ e) (Queue.shutdown (output_ e)) (units e) e).

(** *** Frames and samples in any order *)

Inductive event :=
  | HandlesFrame (x : Surroundings) (f : Annotator.Frame)
  | NewSample (sample : option Sample) (sink_fails : option (option string)) (now : Z).

Definition apply_event (setup : Setup) (e : H264Encoder) (ev : event) : H264Encoder :=
  match ev with
  | HandlesFrame x f => handle_frame setup x f e
  | NewSample sample sink_fails now => (capture_sample setup sample sink_fails now e).2
  end.
Definition run_events (setup : Setup) (evs : list event) (e : H264Encoder) : H264Encoder := foldl (apply_event setup) e evs.

Section Facts.
Context (setup : Setup).

(** What happened to the frames so far. *)
Definition counts (e : H264Encoder) : Z * Z * Z :=
  let m := metrics_ e in (frames_submitted m, frames_rejected m, appsrc_pressure_dropped m).
(** What decides the marks of the units. *)
Definition marks (e : H264Encoder) := (units e, epoch e, next_access_unit_discontinuity_ e).

Lemma counts_publish now e : counts (publish_metrics setup now e) = counts e.
Proof. unfold publish_metrics. by destruct (has_status setup). Qed.
Lemma marks_publish now e : marks (publish_metrics setup now e) = marks e.
Proof. unfold publish_metrics. by destruct (has_status setup). Qed.
Lemma counts_error now error e : counts (set_error setup now error e) = counts e.
Proof. unfold set_error. by rewrite counts_publish. Qed.
Lemma marks_error now error e : marks (set_error setup now error e) = marks e.
Proof. unfold set_error. by rewrite marks_publish. Qed.
Lemma marks_reject now error e : marks (reject setup now error e) = marks e.
Proof. unfold reject. by rewrite marks_error. Qed.

Definition total (e : H264Encoder) : Z := let '(a, b, c) := counts e in a + b + c.
Definition counters_ok (e : H264Encoder) : Prop := let '(a, b, c) := counts e in 0 <= a /\ 0 <= b /\ 0 <= c.

(** One more frame is accounted for. *)
Definition one_more (e e' : H264Encoder) : Prop :=
  counters_ok e -> total e < u64_max -> counters_ok e' /\ total e' = total e + 1.

Lemma one_more_counts e1 e2 e1' e2' : counts e1 = counts e1' -> counts e2 = counts e2' -> one_more e1' e2' -> one_more e1 e2.
Proof. unfold one_more, counters_ok, total. by intros -> ->. Qed.

Lemma one_more_reject now error e : one_more e (reject setup now error e).
Proof.
  apply (one_more_counts e (reject setup now error e) e (count_rejected e)); [done|unfold reject; apply counts_error|].
  unfold one_more, counters_ok, total. cbn. intros (H1 & H2 & H3) H. rewrite u64_small by lia. lia.
Qed.

Lemma one_more_submitted dropped e : one_more e (count_submitted dropped e).
Proof.
  unfold one_more, counters_ok, total. destruct dropped; cbn; intros (H1 & H2 & H3) H; rewrite u64_small by lia; lia.
Qed.

Lemma open_counts created built playing now f e r e' :
  open_pipeline created built playing now f e = (r, e') -> counts e' = counts e.
Proof. unfold open_pipeline. intros H. repeat case_match; by simplify_eq/=. Qed.

Lemma submit_counts queued mapped taken now f e r e' :
  submit_frame queued mapped taken now f e = (r, e') -> counts e' = counts e.
Proof. unfold submit_frame. intros H. repeat case_match; by simplify_eq/=. Qed.

Lemma handle_one_more x f e : one_more e (handle_frame setup x f e).
Proof.
  unfold handle_frame. destruct (valid_frame f); [apply one_more_reject|].
  set (e1 := match bus_error x with Some _ => _ | None => _ end).
  assert (C1 : counts e1 = counts e).
  { unfold e1. destruct (bus_error x); [|done]. destruct (pipeline_ e); [|done]. exact (counts_error (clock x) _ e). }
  clearbody e1. set (e2 := if _ && _ then _ else e1).
  assert (C2 : counts e2 = counts e) by (unfold e2; destruct (_ && _); [by rewrite counts_publish|done]).
  clearbody e2. destruct (if pipeline_ e2 then _ else _) as [opened e3] eqn:E.
  assert (C3 : counts e3 = counts e).
  { destruct (pipeline_ e2); [by injection E as <- <-|]. apply open_counts in E. congruence. }
  destruct opened as [error|]; [by eapply one_more_counts; [| |apply one_more_reject]|].
  destruct (submit_frame _ _ _ _ _ _) as [submitted e4] eqn:E4. apply submit_counts in E4. rewrite C3 in E4.
  destruct submitted as [error|dropped].
  - apply (one_more_counts _ _ e4 (reject setup (clock x) error e4)); [done|done|apply one_more_reject].
  - apply (one_more_counts _ _ e4 (count_submitted dropped e4)); [done|apply counts_publish|apply one_more_submitted].
Qed.

Lemma sample_counts sample sink_fails now e : counts (capture_sample setup sample sink_fails now e).2 = counts e.
Proof.
  unfold capture_sample. destruct sample as [s|]; [|done]. case_bool_decide; [done|].
  destruct (match sample_pts s with Some _ => _ | None => _ end) as [[pts dts] c]. cbn [snd]. rewrite counts_publish.
  by destruct sink_fails, (has_sink setup).
Qed.

Definition is_frame (ev : event) : bool := match ev with HandlesFrame _ _ => true | NewSample _ _ _ => false end.
Definition frames_of (evs : list event) : Z := Z.of_nat (length (List.filter is_frame evs)).

Lemma counts_events evs : forall e, counters_ok e -> total e + frames_of evs <= u64_max ->
  total (run_events setup evs e) = total e + frames_of evs.
Proof.
  unfold frames_of. induction evs as [|ev evs IH]; intros e Hc Ht; cbn [run_events foldl List.filter length] in *; [lia|].
  change (foldl (apply_event setup) ?e0 evs) with (run_events setup evs e0). destruct ev as [x f|sample fails now]; cbn [is_frame length apply_event] in *.
  - destruct (handle_one_more x f e Hc) as [Hc' Ht']; [lia|]. rewrite IH; [lia|done|lia].
  - pose proof (sample_counts sample fails now e) as E. set (e1 := (capture_sample _ _ _ _ e).2) in *. clearbody e1.
    assert (total e1 = total e) by (unfold total; by rewrite E). rewrite IH; [lia|unfold counters_ok in *; by rewrite E|lia].
Qed.

(** Every frame the worker takes is accounted for exactly once: over any interleaving of frames and
    encoded samples, with every way a frame can fail, the frames submitted, rejected and dropped
    under pressure add up to the frames taken. *)
Theorem encoder_accounts_frames evs e (Hc : counters_ok e) (Ht : total e + frames_of evs <= u64_max) :
  total (run_events setup evs e) = total e + frames_of evs.
Proof. by apply counts_events. Qed.

(** *** Discontinuity marks *)

Definition seen (n : Z) (l : list (Z * Media.EncodedAccessUnit)) : bool := existsb (fun p => p.1 =? n) l.
Definition marks_exact (l : list (Z * Media.EncodedAccessUnit)) : Prop :=
  forall i n u, l !! i = Some (n, u) -> Media.discontinuity u = negb (seen n (take i l)).
Definition marks_ok (m : list (Z * Media.EncodedAccessUnit) * Z * bool) : Prop :=
  let '(l, n, next) := m in marks_exact l /\ Forall (fun p => p.1 <= n) l /\ next = negb (seen n l).

Lemma seen_above n l : Forall (fun p => p.1 < n) l -> seen n l = false.
Proof.
  intros H. apply not_true_iff_false. unfold seen. rewrite existsb_exists. intros (p & Hp & E). rewrite Forall_forall in H.
  apply list_elem_of_In, H in Hp. apply Z.eqb_eq in E. lia.
Qed.

Lemma marks_close e : marks_ok (marks e) -> marks_ok (marks (close_pipeline e)).
Proof.
  intros (H1 & H2 & H3). split_and!; [done| |].
  - eapply Forall_impl; [exact H2|]. cbn. lia.
  - cbn [close_pipeline set_pipe units epoch next_access_unit_discontinuity_]. rewrite seen_above; [done|]. eapply Forall_impl; [exact H2|]. cbn. lia.
Qed.

Lemma marks_snoc l n next u : marks_ok (l, n, next) -> Media.discontinuity u = next -> marks_ok (l ++ [(n, u)], n, false).
Proof.
  intros (H1 & H2 & H3) Hu. split_and!.
  - intros i n' u' Hi. apply lookup_app_Some in Hi as [Hi|[Hi E]].
    + rewrite take_app_le by (apply lookup_lt_Some in Hi; lia). by apply H1.
    + apply list_lookup_singleton_Some in E as [E [= <- <-]]. replace i with (length l) by lia. rewrite take_app_length. congruence.
  - apply Forall_app. split; [done|]. constructor; [cbn; lia|constructor].
  - unfold seen. rewrite existsb_app. cbn. rewrite Z.eqb_refl. by rewrite orb_true_r.
Qed.

Lemma marks_open created built playing now f e : marks_ok (marks e) -> marks_ok (marks (open_pipeline created built playing now f e).2).
Proof.
  intros H. unfold open_pipeline. destruct (level_3_1_supports _ _), created, built; try done; [by apply marks_close|].
  destruct playing; [done|]. by apply marks_close.
Qed.

Lemma marks_submit queued mapped taken now f e : marks (submit_frame queued mapped taken now f e).2 = marks e.
Proof.
  unfold submit_frame. destruct (valid_frame f); [done|]. destruct (_ || _); [done|]. destruct (2 <=? queued); [done|].
  destruct mapped; [done|]. destruct (input_pts _ _ _). by destruct taken.
Qed.

Lemma marks_handle x f e : marks_ok (marks e) -> marks_ok (marks (handle_frame setup x f e)).
Proof.
  intros H. unfold handle_frame. destruct (valid_frame f); [by rewrite marks_reject|].
  set (e1 := match bus_error x with Some _ => _ | None => _ end). assert (H1 : marks_ok (marks e1)).
  { unfold e1. destruct (bus_error x); [|done]. destruct (pipeline_ e); [|done]. apply marks_close. by rewrite marks_error. }
  clearbody e1. set (e2 := if _ && _ then _ else e1). assert (H2 : marks_ok (marks e2)).
  { unfold e2. destruct (_ && _); [|done]. rewrite marks_publish. exact (marks_close e1 H1). }
  clearbody e2. destruct (if pipeline_ e2 then _ else _) as [opened e3] eqn:E. assert (H3 : marks_ok (marks e3)).
  { destruct (pipeline_ e2); [by injection E as <- <-|]. pose proof (marks_open (created x) (built x) (playing x) (clock x) f e2 H2) as H3.
    by rewrite E in H3. }
  destruct opened as [error|]; [by rewrite marks_reject|].
  pose proof (marks_submit (queued x) (mapped x) (taken x) (clock x) f e3) as H4. destruct (submit_frame _ _ _ _ _ _) as [submitted e4].
  cbn [snd] in H4. rewrite <- H4 in H3. destruct submitted; [apply marks_close; by rewrite marks_reject|by rewrite marks_publish].
Qed.

Lemma marks_sample sample fails now e : marks_ok (marks e) -> marks_ok (marks (capture_sample setup sample fails now e).2).
Proof.
  intros H. unfold capture_sample. destruct sample as [s|]; [|done]. case_bool_decide; [done|].
  destruct (match sample_pts s with Some _ => _ | None => _ end) as [[pts dts] c]. cbn [snd]. rewrite marks_publish.
  destruct fails, (has_sink setup); by apply (marks_snoc (units e) (epoch e) (next_access_unit_discontinuity_ e)).
Qed.

(** A unit is marked as discontinuous exactly when it is the first one since a pipeline was closed
    (or since the start): whatever frames, failures, rebuilds and samples happen, in any order, no
    break in the stream goes unmarked and no unit is marked without one. *)
Theorem discontinuity_marks_exact evs e (Hu : units e = []) (Hn : next_access_unit_discontinuity_ e = true) :
  marks_exact (units (run_events setup evs e)).
Proof.
  assert (H : marks_ok (marks e)) by (unfold marks; rewrite Hu, Hn; by split_and!; [intros i n u|constructor|]).
  clear Hu Hn. revert e H. induction evs as [|ev evs IH]; intros e H; [apply H|]. cbn [run_events foldl]. apply IH.
  destruct ev; [by apply marks_handle|by apply marks_sample].
Qed.
End Facts.

(** *** An encoder whose second frame has another size *)

Definition sample_setup : Setup := mkSetup true true.
Definition sample_encoder : H264Encoder :=
  mkEncoder default_config (Queue.mkQueue 2 [] Queue.stats_zero false) (Queue.mkQueue 2 [] Queue.stats_zero false)
    Status.make_status false 0 0 no_input no_output true no_metrics None 0 [] [] [].
Definition picture (n side : Z) : Annotator.Frame :=
  Annotator.mkFrame n (100 + n) 0 0 side side (3 * side) (repeat 0 (Z.to_nat (3 * side * side))).
Definition quiet (queued : Z) : Surroundings := mkSurroundings None (inr tt) (inr tt) true queued (inr tt) true 200.
Definition coded (pts : Z) : event := NewSample (Some (mkSample None (Some pts) None false [0; 0; 1])) None 300.
Definition sample_events : list event :=
  [HandlesFrame (quiet 0) (picture 1 2); coded 0; HandlesFrame (quiet 2) (picture 2 2); coded 1;
   HandlesFrame (quiet 0) (picture 3 4); coded 0; HandlesFrame (quiet 0) (picture 4 0)].

Lemma encoder_accounts_frames_witness :
  total (run_events sample_setup sample_events sample_encoder) = 4 /\
  counts (run_events sample_setup sample_events sample_encoder) = (2, 1, 1).
Proof.
  split; [|by vm_compute]. rewrite (encoder_accounts_frames sample_setup sample_events sample_encoder);
    [by vm_compute|by vm_compute|by vm_compute].
Defined.

Lemma discontinuity_marks_exact_witness :
  marks_exact (units (run_events sample_setup sample_events sample_encoder)) /\
  (fun p => (p.1, Media.discontinuity p.2)) <$> units (run_events sample_setup sample_events sample_encoder) =
    [(0, true); (0, false); (1, true)].
Proof. split; [by apply (discontinuity_marks_exact sample_setup sample_events sample_encoder)|by vm_compute]. Defined.

(** *** The metrics as JSON *)

(** [json_escape] of this file, for one character. *)
Definition json_escape (c : ascii) : list ascii :=
  if Ascii.eqb c backslash || Ascii.eqb c quote then [backslash; c]
  else if byte_of c =? 10 then [backslash; "n"%char]
  else if byte_of c =? 13 then [backslash; "r"%char]
  else if byte_of c =? 9 then [backslash; "t"%char]
  else if byte_of c <? 32 then
    [backslash; "u"%char; "0"%char; "0"%char; hex_digit (Z.land (Z.shiftr (byte_of c) 4) 15); hex_digit (Z.land (byte_of c) 15)]
  else [c].

(** The numbers, then the last error; [rebuilds] is the one number the status board does
    not show. *)
Definition serialize_h264_encoder_metrics (rebuilds : Z) (m : Status.Encoder) : string :=
  js "{'frames_submitted':" +:+ to_string (Status.frames_submitted m) +:+
  js ",'frames_rejected':" +:+ to_string (Status.frames_rejected m) +:+
  js ",'frames_dropped':" +:+ to_string (Status.frames_dropped m) +:+
  js ",'appsrc_pressure_dropped':" +:+ to_string (Status.appsrc_pressure_dropped m) +:+
  js ",'access_units_encoded':" +:+ to_string (Status.access_units_encoded m) +:+
  js ",'bytes_encoded':" +:+ to_string (Status.bytes_encoded m) +:+
  js ",'access_units_dropped':" +:+ to_string (Status.access_units_dropped m) +:+
  js ",'pipeline_rebuilds':" +:+ to_string rebuilds +:+
  js ",'last_access_unit_age_ms':" +:+ to_string (Status.last_access_unit_age_ms m) +:+
  js ",'last_error':'" +:+ str (chars (Status.last_error m) ≫= json_escape) +:+ js "'}".

Lemma read_metrics_escape c k : read_chars (json_escape c ++ k) = (fun p => (c :: p.1, p.2)) <$> read_chars k.
Proof. destruct c as [[] [] [] [] [] [] [] []]; reflexivity. Qed.

(** The last error survives: whatever bytes it has, the text ends in a JSON string literal whose value
    it is, followed by the closing brace alone. *)
Theorem metrics_error_reads_back rebuilds m : exists before body,
  chars (serialize_h264_encoder_metrics rebuilds m) = before ++ quote :: body /\
  read_chars body = Some (chars (Status.last_error m), ["}"%char]).
Proof.
  unfold serialize_h264_encoder_metrics. rewrite !chars_app, chars_str.
  change (chars (js ",'last_error':'")) with (chars (js ",'last_error':") ++ [quote]). rewrite <- (app_assoc _ [quote]). cbn [app].
  change (chars (js "'}")) with [quote; "}"%char].
  eexists _, _. split; [rewrite !app_assoc; reflexivity|]. induction (chars (Status.last_error m)) as [|c l IH]; [done|].
  by rewrite bind_cons, <- app_assoc, read_metrics_escape, IH.
Qed.
End Encoder.
