(* ===== verification/EncoderThread.v ===== *)
(** * The encoder's threads ([src/video/h264_encoder.cpp]: [run], [on_new_sample], [close_pipeline])

    The worker in steps, between which GStreamer's streaming threads deliver samples,
    producers push frames and others request a stop.  [Encoder] has what each step does
    to the encoder; here is when it happens, with the gate that keeps sample handlers out
    of a pipeline that is being closed. *)

From S2P Require Import Prelude Strings BoundedQueue Health Annotator WebRtcSession Encoder.

Module EncoderThread.
Import Timeline Encoder.

(** What the worker goes on with after [close_pipeline]. *)
Inductive after :=
  | ChecksSize (f : Annotator.Frame)
  | Rebuilds (f : Annotator.Frame)
  | Rejects (error : string)
  | NextFrame
  | Ends.

(** Where the worker is; [Closing]: in the wait of [close_pipeline]. *)
Inductive place :=
  | Top
  | Polling (f : Annotator.Frame)
  | Sizing (f : Annotator.Frame)
  | Opening (f : Annotator.Frame)
  | Requesting (f : Annotator.Frame)
  | Submitting (f : Annotator.Frame)
  | Closing (k : after)
  | Ended.

(** [entered]: the handlers that have not looked at their sample yet, each with the
    pipeline that called it (pipelines are numbered as they open); [leaving]: those that
    have; [out]: the units published, with the pipeline they came from; [taken_frames]:
    the frames the worker took from its queue. *)
Record Thread := mkThread {
  encoder : H264Encoder;
  running_ : bool;
  accepting_callbacks_ : bool;
  callbacks_in_flight_ : nat;
  at_ : place;
  pipelines : Z;
  entered : list Z;
  leaving : nat;
  taken_frames : Z;
  out : list (Z * Media.EncodedAccessUnit);
}.

Definition set_worker e accepting at_' number taken (t : Thread) : Thread :=
  mkThread e (running_ t) accepting (callbacks_in_flight_ t) at_' number (entered t) (leaving t) taken (out t).

(** The worker's next place, with the encoder as it left it. *)
Definition goes (p : place) (e : H264Encoder) (t : Thread) : Thread :=
  set_worker e (accepting_callbacks_ t) p (pipelines t) (taken_frames t) t.
Definition shuts (k : after) (e : H264Encoder) (t : Thread) : Thread :=
  set_worker e false (Closing k) (pipelines t) (taken_frames t) t.
Definition takes (p : place) (e : H264Encoder) (t : Thread) : Thread :=
  set_worker e (accepting_callbacks_ t) p (pipelines t) (taken_frames t + 1) t.
Definition builds (p : place) (e : H264Encoder) (t : Thread) : Thread :=
  set_worker e true p (pipelines t + 1) (taken_frames t) t.

#[local] Arguments seen : simpl never.
Create Rewrite HintDb core_db.

Definition not_playing : string := "failed to request PLAYING state for H.264 encoder pipeline".

Section Steps.
Context (setup : Setup).

Definition resumes (k : after) (now : Z) (t : Thread) : Thread :=
  let e := close_pipeline (encoder t) in
  match k with
  | ChecksSize f => goes (Sizing f) e t
  | Rebuilds f => goes (Opening f) (publish_metrics setup now (count_rebuild e)) t
  | Rejects error => goes Top (reject setup now error e) t
  | NextFrame => goes Top e t
  | Ends => goes Ended e t
  end.

(** One step of [run]; [None]: it waits or has ended. *)
Definition worker (x : Surroundings) (t : Thread) : option Thread :=
  let e := encoder t in
  let now := clock x in
  match at_ t with
  | Top =>
    if negb (running_ t) then Some (shuts Ends e t)
    else match Queue.pop_for (input_ e) with
         | (Some f, q) =>
           let e := set_io q (output_ e) (units e) e in
           match valid_frame f with
           | inl error => Some (takes Top (reject setup now error e) t)
           | inr _ => Some (takes (Polling f) e t)
           end
         | (None, q) => if Queue.is_shutdown q then Some (shuts Ends e t) else Some (goes Top (publish_metrics setup now e) t)
         end
  | Polling f =>
    match (if pipeline_ e then bus_error x else None) with
    | Some detail => Some (shuts (ChecksSize f) (set_error setup now detail e) t)
    | None => Some (goes (Sizing f) e t)
    end
  | Sizing f =>
    if pipeline_ e && (negb (Annotator.width f =? width_ e) || negb (Annotator.height f =? height_ e))
    then Some (shuts (Rebuilds f) e t) else Some (goes (Opening f) e t)
  | Opening f =>
    if pipeline_ e then Some (goes (Submitting f) e t)
    else match level_3_1_supports f (config_ e), created x, built x with
         | inl error, _, _ | inr _, inl error, _ => Some (goes Top (reject setup now error e) t)
         | inr _, inr _, inl error => Some (shuts (Rejects error) e t)
         | inr _, inr _, inr _ =>
           Some (builds (Requesting f) (open_pipeline (inr tt) (inr tt) true now f e).2 t)
         end
  | Requesting f => if playing x then Some (goes (Submitting f) e t) else Some (shuts (Rejects not_playing) e t)
  | Submitting f =>
    match submit_frame (queued x) (mapped x) (taken x) now f e with
    | (inl error, e) => Some (shuts NextFrame (reject setup now error e) t)
    | (inr dropped, e) => Some (goes Top (publish_metrics setup now (count_submitted dropped e)) t)
    end
  | Closing k => if (callbacks_in_flight_ t =? 0)%nat then Some (resumes k now t) else None
  | Ended => None
  end.

(** [begin_callback] and [end_callback]. *)
Definition begin_callback (t : Thread) : bool * Thread :=
  if negb (accepting_callbacks_ t) then (false, t)
  else (true, mkThread (encoder t) (running_ t) (accepting_callbacks_ t) (S (callbacks_in_flight_ t)) (at_ t) (pipelines t)
                (entered t ++ [pipelines t]) (leaving t) (taken_frames t) (out t)).
Definition end_callback (t : Thread) : Thread :=
  mkThread (encoder t) (running_ t) (accepting_callbacks_ t) (callbacks_in_flight_ t - 1) (at_ t) (pipelines t)
    (entered t) (leaving t - 1) (taken_frames t) (out t).

(** The handler in between: handler [i] pulls and captures its sample. *)
Definition captures (i : nat) (p : Z) (sample : option Sample) (fails : option (option string)) (now : Z) (t : Thread) : Thread :=
  let '(captured, e) := capture_sample setup sample fails now (encoder t) in
  mkThread e (running_ t) (accepting_callbacks_ t) (callbacks_in_flight_ t) (at_ t) (pipelines t)
    (delete i (entered t)) (S (leaving t)) (taken_frames t)
    (out t ++ (if captured then option_list ((fun u => (p, u.2)) <$> last (units e)) else [])).

Definition requests_stop (t : Thread) : Thread :=
  mkThread (encoder t) false (accepting_callbacks_ t) (callbacks_in_flight_ t) (at_ t) (pipelines t) (entered t) (leaving t)
    (taken_frames t) (out t).
Definition feeds (q : Queue.BoundedQueue Annotator.Frame) (t : Thread) : Thread :=
  goes (at_ t) (set_io q (output_ (encoder t)) (units (encoder t)) (encoder t)) t.
Definition drains (q : Queue.BoundedQueue Media.EncodedAccessUnit) (t : Thread) : Thread :=
  goes (at_ t) (set_io (input_ (encoder t)) q (units (encoder t)) (encoder t)) t.

(** The queues are shared: others may do anything to them. *)
Inductive step : Thread -> Thread -> Prop :=
  | Works x t t' : worker x t = Some t' -> step t t'
  | Enters t : (begin_callback t).1 = true -> step t (begin_callback t).2
  | Captures i p sample fails now t : entered t !! i = Some p -> step t (captures i p sample fails now t)
  | Leaves t : (0 < leaving t)%nat -> step t (end_callback t)
  | StopRequested t : step t (requests_stop t)
  | Fed q t : step t (feeds q t)
  | Drained q t : step t (drains q t).

(** ** What holds in every state *)

(** A frame that is taken but not accounted for. *)
Definition pending (p : place) : Z :=
  match p with
  | Top | Closing NextFrame | Closing Ends | Ended => 0
  | _ => 1
  end.

Definition gate_ok (t : Thread) : Prop :=
  callbacks_in_flight_ t = (length (entered t) + leaving t)%nat /\ Forall (fun p => p = pipelines t) (entered t) /\
  (pipeline_ (encoder t) = false -> accepting_callbacks_ t = false /\ callbacks_in_flight_ t = 0%nat) /\
  (forall k, at_ t = Closing k -> accepting_callbacks_ t = false) /\
  (at_ t = Ended -> pipeline_ (encoder t) = false) /\
  (forall f, at_ t = Requesting f \/ at_ t = Submitting f -> pipeline_ (encoder t) = true).

(** The unit to come is marked exactly when its pipeline has published none. *)
Definition out_ok (t : Thread) : Prop :=
  marks_exact (out t) /\ Forall (fun p => p.1 <= pipelines t) (out t) /\
  next_access_unit_discontinuity_ (encoder t) = (if pipeline_ (encoder t) then negb (seen (pipelines t) (out t)) else true) /\
  snd <$> out t = snd <$> units (encoder t).

Definition counted (t : Thread) : Prop :=
  counters_ok (encoder t) /\ total (encoder t) + pending (at_ t) = taken_frames t.

(** What the marks depend on. *)
Definition core (e : H264Encoder) := (pipeline_ e, next_access_unit_discontinuity_ e, units e).

Lemma core_publish now e : core (publish_metrics setup now e) = core e.
Proof. unfold publish_metrics. by destruct (has_status setup). Qed.
Lemma core_error now error e : core (set_error setup now error e) = core e.
Proof. unfold set_error. by rewrite core_publish. Qed.
Lemma core_reject now error e : core (reject setup now error e) = core e.
Proof. unfold reject. by rewrite core_error. Qed.
Lemma core_submitted dropped e : core (count_submitted dropped e) = core e.
Proof. by destruct dropped. Qed.

Lemma submit_core queued mapped taken now f e r e' :
  submit_frame queued mapped taken now f e = (r, e') -> core e' = core e.
Proof. unfold submit_frame. intros H. repeat case_match; by simplify_eq/=. Qed.

Lemma open_core now f e error : level_3_1_supports f (config_ e) = inr error ->
  core (open_pipeline (inr tt) (inr tt) true now f e).2 = (true, next_access_unit_discontinuity_ e, units e) /\
  counts (open_pipeline (inr tt) (inr tt) true now f e).2 = counts e.
Proof. unfold open_pipeline. intros ->. done. Qed.

Lemma capture_core sample fails now e : let '(captured, e') := capture_sample setup sample fails now e in
  if captured then exists u, core e' = (pipeline_ e, false, units e ++ [(epoch e, u)]) /\ Media.discontinuity u = next_access_unit_discontinuity_ e
  else core e' = core e.
Proof.
  unfold capture_sample. destruct sample as [s|]; [|done]. case_bool_decide; [done|].
  destruct (match sample_pts s with Some _ => _ | None => _ end) as [[pts dts] c]. rewrite core_publish.
  destruct fails, (has_sink setup); (eexists; split; [reflexivity|reflexivity]).
Qed.

(** The invariant of the gate and the marks only looks at these. *)
Definition inv (t : Thread) : Prop := gate_ok t /\ out_ok t.

(** A worker's step that neither opens nor closes a pipeline. *)
Lemma inv_goes t e p taken : inv t -> core e = core (encoder t) ->
  (forall k, p <> Closing k) -> p <> Ended -> (forall f, p = Requesting f \/ p = Submitting f -> pipeline_ (encoder t) = true) ->
  inv (set_worker e (accepting_callbacks_ t) p (pipelines t) taken t).
Proof.
  intros [(G1 & G2 & G3 & G4 & G5 & G6) (O1 & O2 & O3 & O4)] [= C1 C2 C3] Hk He Hf. split; [split_and!|split_and!]; cbn; rewrite ?C1, ?C2, ?C3; auto.
  - intros k ->. by destruct (Hk k).
  - done.
Qed.

Lemma inv_shuts t e k : inv t -> core e = core (encoder t) -> inv (shuts k e t).
Proof.
  intros [(G1 & G2 & G3 & G4 & G5 & G6) (O1 & O2 & O3 & O4)] [= C1 C2 C3]. split; [split_and!|split_and!]; cbn; rewrite ?C1, ?C2, ?C3; auto; try done.
  - intros H. by destruct (G3 H).
  - by intros f [|].
Qed.

Lemma inv_closes t e p : inv t -> callbacks_in_flight_ t = 0%nat -> (exists k, at_ t = Closing k) ->
  core e = core (close_pipeline (encoder t)) -> (forall k, p <> Closing k) -> (forall f, ~ (p = Requesting f \/ p = Submitting f)) ->
  inv (goes p e t).
Proof.
  intros [(G1 & G2 & G3 & G4 & G5 & G6) (O1 & O2 & O3 & O4)] H0 [k Hk] [= C1 C2 C3] Hp Hf. specialize (G4 _ Hk).
  split; [split_and!|split_and!]; cbn; rewrite ?C1, ?C2, ?C3; auto.
  intros f Hp'. by destruct (Hf f).
Qed.

Lemma inv_builds t e f : inv t -> pipeline_ (encoder t) = false -> core e = (true, next_access_unit_discontinuity_ (encoder t), units (encoder t)) ->
  inv (builds (Requesting f) e t).
Proof.
  intros [(G1 & G2 & G3 & G4 & G5 & G6) (O1 & O2 & O3 & O4)] Hp [= C1 C2 C3]. destruct (G3 Hp) as [Ha H0]. rewrite Hp in O3.
  split; [split_and!|split_and!]; cbn; rewrite ?C1, ?C2, ?C3; try done.
  - rewrite H0 in G1. destruct (entered t); [constructor|cbn in G1; lia].
  - eapply Forall_impl; [exact O2|]. cbn. lia.
  - rewrite O3, seen_above; [done|]. eapply Forall_impl; [exact O2|]. cbn. lia.
Qed.

Hint Rewrite core_publish core_error core_reject core_submitted : core_db.
Local Ltac simple_step := first [apply inv_goes | apply inv_shuts]; autorewrite with core_db; try done; by intros ? [|].

Lemma inv_worker x t t' : inv t -> worker x t = Some t' -> inv t'.
Proof.
  intros H. unfold worker. pose proof H as [(G1 & G2 & G3 & G4 & G5 & G6) _]. destruct (at_ t) as [|f|f|f|f|f|k|] eqn:Ep.
  - destruct (negb (running_ t)); [intros [= <-]; simple_step|]. destruct (Queue.pop_for _) as [[f|] q].
    + destruct (valid_frame f); intros [= <-]; simple_step.
    + destruct (Queue.is_shutdown q); intros [= <-]; simple_step.
  - destruct (if pipeline_ _ then _ else _); intros [= <-]; simple_step.
  - destruct (_ && _); intros [= <-]; simple_step.
  - destruct (pipeline_ (encoder t)) eqn:Epl; [intros [= <-]; by apply inv_goes|].
    destruct (level_3_1_supports _ _) eqn:El; [intros [= <-]; simple_step|].
    destruct (created x); [intros [= <-]; simple_step|].
    destruct (built x); intros [= <-]; [simple_step|]. apply inv_builds; [done|done|]. by eapply open_core.
  - destruct (playing x); intros [= <-]; [|simple_step]. apply inv_goes; try done. intros ? _. apply (G6 f). by left.
  - destruct (submit_frame _ _ _ _ _ _) as [[error|dropped] e] eqn:Es; apply submit_core in Es; intros [= <-]; simple_step.
  - destruct (Nat.eqb_spec (callbacks_in_flight_ t) 0) as [E|]; [|done]. intros [= <-].
    destruct k; apply inv_closes; autorewrite with core_db; try done; eauto; by intros ? [|].
  - done.
Qed.

Lemma inv_captures i p sample fails now t : inv t -> entered t !! i = Some p -> inv (captures i p sample fails now t).
Proof.
  intros [(G1 & G2 & G3 & G4 & G5 & G6) (O1 & O2 & O3 & O4)] Hi. unfold captures.
  pose proof (capture_core sample fails now (encoder t)) as H. destruct (capture_sample _ _ _ _ _) as [captured e].
  pose proof (Forall_lookup_1 _ _ _ _ G2 Hi) as ->. pose proof (length_delete (entered t) i ltac:(by eexists)) as Hd.
  pose proof (lookup_lt_Some _ _ _ Hi) as Hl.
  assert (Hp : pipeline_ (encoder t) = true) by (destruct (pipeline_ (encoder t)) eqn:E; [done|destruct (G3 eq_refl); lia]).
  assert (Hg : pipeline_ e = true) by (destruct captured; [destruct H as (u & [= -> _ _] & _)|injection H as -> _ _]; done).
  split; [split_and!|]; cbn; rewrite ?Hg; auto; try done.
  - lia.
  - by apply Forall_delete.
  - intros Ee. specialize (G5 Ee). congruence.
  - destruct captured; [|injection H as H1 H2 H3; unfold out_ok; cbn; rewrite app_nil_r, H1, H2, H3; by split_and!].
    destruct H as (u & [= H1 H2 H3] & Hu). unfold out_ok. cbn. rewrite H3, last_snoc, H1, H2, Hp. cbn [fmap option_fmap option_map option_list snd].
    rewrite Hp in O3. destruct (marks_snoc (out t) (pipelines t) (next_access_unit_discontinuity_ (encoder t)) u) as (M1 & M2 & M3); try done.
    split_and!; try done. rewrite !fmap_app. by rewrite O4.
Qed.

Lemma encoder_inv_step t t' : inv t -> step t t' -> inv t'.
Proof.
  intros H Hs. destruct Hs as [x t t' Hw|t Hb|i p sample fails now t Hi|t Hl|t|q t|q t]; try exact H.
  - by eapply inv_worker.
  - unfold begin_callback in *. destruct (accepting_callbacks_ t) eqn:Ea; [|done]. destruct H as [(G1 & G2 & G3 & G4 & G5 & G6) O].
    split; [|exact O]. split_and!; cbn; rewrite ?length_app; auto.
    + cbn. lia.
    + apply Forall_app. split; [done|by apply Forall_singleton].
    + intros Hp. destruct (G3 Hp). congruence.
    + intros k Hk. specialize (G4 k Hk). congruence.
  - by apply inv_captures.
  - destruct H as [(G1 & G2 & G3 & G4 & G5 & G6) O]. split; [|exact O]. split_and!; cbn; auto; [lia|]. intros Hp. destruct (G3 Hp). split; [done|lia].
Qed.

(** ** Frames are accounted for *)

Lemma counted_same t e accepting p number : counted t -> counts e = counts (encoder t) -> pending p = pending (at_ t) ->
  counted (set_worker e accepting p number (taken_frames t) t).
Proof. intros [H1 H2] Hc Hp. unfold counted, counters_ok, total in *. cbn [set_worker encoder at_ taken_frames]. by rewrite Hc, Hp. Qed.

(** The pending frame is accounted for. *)
Lemma counted_one t e accepting p number : counted t -> taken_frames t <= u64_max -> one_more (encoder t) e -> pending (at_ t) = 1 ->
  pending p = 0 -> counted (set_worker e accepting p number (taken_frames t) t).
Proof.
  intros [H1 H2] Hm Ho H3 H4. destruct (Ho H1) as [Hk Ht]; [lia|]. split; [exact Hk|].
  cbn [set_worker encoder at_ taken_frames]. lia.
Qed.

Hint Rewrite (counts_publish setup) (counts_error setup) : core_db.

Lemma counted_worker x t t' : counted t -> worker x t = Some t' -> taken_frames t' <= u64_max -> counted t'.
Proof.
  intros H. unfold worker. destruct (at_ t) as [|f|f|f|f|f|k|] eqn:Ep.
  - destruct (negb (running_ t)); [intros [= <-] _; apply counted_same; [done|done|by rewrite Ep]|].
    destruct (Queue.pop_for _) as [[f|] q].
    + set (e := set_io _ _ _ _). assert (Hc : counts e = counts (encoder t)) by done.
      destruct H as [H1 H2]. rewrite Ep in H2. cbn [pending] in H2.
      destruct (valid_frame f); intros [= <-]; cbn [takes set_worker taken_frames]; intros Hm.
      * destruct (one_more_reject setup (clock x) s e) as [Hk Ht]; [unfold counters_ok; by rewrite Hc|unfold total; rewrite Hc; unfold total in H2; lia|].
        split; [exact Hk|]. cbn [takes set_worker encoder at_ taken_frames pending]. rewrite Ht. unfold total in *. rewrite Hc. lia.
      * split; cbn [takes set_worker encoder at_ taken_frames pending]; [unfold counters_ok; by rewrite Hc|]. unfold total in *. rewrite Hc. lia.
    + destruct (Queue.is_shutdown q); intros [= <-] _; apply counted_same; autorewrite with core_db; rewrite ?Ep; done.
  - destruct (if pipeline_ _ then _ else _); intros [= <-] _; apply counted_same; autorewrite with core_db; rewrite ?Ep; done.
  - destruct (_ && _); intros [= <-] _; apply counted_same; rewrite ?Ep; done.
  - destruct (pipeline_ (encoder t)); [intros [= <-] _; apply counted_same; rewrite ?Ep; done|].
    destruct (level_3_1_supports _ _) eqn:El; [intros [= <-] Hm; apply counted_one; rewrite ?Ep; try done; apply one_more_reject|].
    destruct (created x); [intros [= <-] Hm; apply counted_one; rewrite ?Ep; try done; apply one_more_reject|].
    destruct (built x); intros [= <-] _; apply counted_same; rewrite ?Ep; try done. by eapply open_core.
  - destruct (playing x); intros [= <-] _; apply counted_same; rewrite ?Ep; done.
  - destruct (submit_frame _ _ _ _ _ _) as [[error|dropped] e] eqn:Es; apply submit_counts in Es; intros [= <-] Hm;
      apply counted_one; rewrite ?Ep; try done; (eapply one_more_counts; [symmetry; exact Es| |]).
    + reflexivity.
    + apply one_more_reject.
    + by autorewrite with core_db.
    + apply one_more_submitted.
  - destruct (_ =? 0)%nat; [|done]. intros [= <-] Hm. destruct k; cbn [resumes goes].
    + apply counted_same; rewrite ?Ep; done.
    + apply counted_same; rewrite ?Ep; autorewrite with core_db; done.
    + apply counted_one; rewrite ?Ep; try done. eapply one_more_counts; [| |apply (one_more_reject setup (clock x) error (close_pipeline (encoder t)))]; done.
    + apply counted_same; rewrite ?Ep; done.
    + apply counted_same; rewrite ?Ep; done.
  - done.
Qed.

Lemma counted_step t t' : counted t -> step t t' -> taken_frames t' <= u64_max -> counted t'.
Proof.
  intros H Hs Hm. destruct Hs as [x t t' Hw|t Hb|i p sample fails now t Hi|t Hl|t|q t|q t]; try exact H.
  - by eapply counted_worker.
  - unfold begin_callback in *. by destruct (negb (accepting_callbacks_ t)).
  - unfold captures. pose proof (sample_counts setup sample fails now (encoder t)) as Hc. destruct (capture_sample _ _ _ _ _) as [captured e].
    cbn [snd] in Hc. destruct H as [H1 H2]. split; unfold counters_ok, total in *; cbn [encoder at_ taken_frames]; by rewrite Hc.
Qed.

Lemma taken_step t t' : step t t' -> taken_frames t <= taken_frames t'.
Proof.
  intros Hs. destruct Hs as [x t t' Hw|t Hb|i p sample fails now t Hi|t Hl|t|q t|q t]; cbn; try lia.
  - unfold worker, resumes in Hw. repeat case_match; simplify_eq; cbn; lia.
  - unfold begin_callback. destruct (negb (accepting_callbacks_ t)); cbn; lia.
  - unfold captures. destruct (capture_sample _ _ _ _ _). cbn. lia.
Qed.

(** ** Every run of the threads *)

(** The thread as [start] creates it. *)
Definition launch (e : H264Encoder) : Thread := mkThread e true false 0 Top 0 [] 0 0 [].

Lemma start_fresh joinable ready plugins now c e0 e : start setup joinable ready plugins now c e0 = inr e ->
  core e = (pipeline_ e0, true, units e0) /\ counts e = (0, 0, 0).
Proof.
  unfold start. destruct joinable; [done|]. destruct (valid_config c); [done|]. destruct (negb ready); [done|]. destruct (negb plugins); [done|].
  intros [= <-]. by rewrite core_publish, counts_publish.
Qed.

Lemma launch_ok joinable ready plugins now c e0 e : start setup joinable ready plugins now c e0 = inr e ->
  pipeline_ e0 = false -> units e0 = [] -> inv (launch e) /\ counted (launch e).
Proof.
  intros Hs Hp Hu. destruct (start_fresh _ _ _ _ _ _ _ Hs) as [[= C1 C2 C3] Hc]. rewrite Hp in C1. rewrite Hu in C3. split; [split|].
  - unfold gate_ok. cbn. rewrite C1. split_and!; try done. by intros f [|].
  - unfold out_ok. cbn. rewrite C1, C2, C3. by split_and!.
  - unfold counted, counters_ok, total. cbn [launch encoder at_ taken_frames pending]. by rewrite Hc.
Qed.

Lemma inv_reach t t' : rtc step t t' -> inv t -> inv t'.
Proof. induction 1; [done|]. intros. eauto using encoder_inv_step. Qed.

Lemma counted_reach t t' : rtc step t t' -> counted t -> taken_frames t' <= u64_max -> counted t'.
Proof.
  intros H H0. revert t' H. refine (rtc_ind_r _ _ _ _); [done|]. intros t1 t2 _ Hs IH Hm. eapply counted_step; [|exact Hs|done].
  apply IH. pose proof (taken_step _ _ Hs). lia.
Qed.

(** C18.   Whatever the worker, the sample handlers, the producers and a stop request do in between
    each other's steps: a unit is marked as a discontinuity exactly when it is the first of the
    pipeline that produced it, since no handler outlives its pipeline; every frame taken from the
    queue, but for the one in hand, is counted once, as submitted, rejected or dropped; and once the
    worker has ended there is no pipeline and no handler inside, and none gets in. *)
Theorem encoder_threads_contract joinable ready plugins now c e0 e t
    (Hs : start setup joinable ready plugins now c e0 = inr e) (Hp : pipeline_ e0 = false) (Hu : units e0 = [])
    (Hr : rtc step (launch e) t) (Ht : taken_frames t <= u64_max) :
  marks_exact (out t) /\ snd <$> out t = snd <$> units (encoder t) /\
  (pipeline_ (encoder t) = false -> callbacks_in_flight_ t = 0%nat) /\
  total (encoder t) + pending (at_ t) = taken_frames t /\
  (at_ t = Ended -> pipeline_ (encoder t) = false /\ accepting_callbacks_ t = false /\ callbacks_in_flight_ t = 0%nat).
Proof.
  destruct (launch_ok _ _ _ _ _ _ _ Hs Hp Hu) as [Hi Hc].
  destruct (inv_reach _ _ Hr Hi) as [(_ & _ & G3 & _ & G5 & _) (O1 & _ & _ & O4)].
  destruct (counted_reach _ _ Hr Hc Ht) as [_ H]. split_and!; try done; [intros Hf; by destruct (G3 Hf)|].
  intros He. pose proof (G5 He) as Hf. by destruct (G3 Hf).
Qed.

(** ** A stop request is carried out *)

(** How far the worker still is from its end. *)
Definition rank (p : place) : nat :=
  match p with
  | Polling _ => 10 | Closing (ChecksSize _) => 9 | Sizing _ => 8 | Closing (Rebuilds _) => 7 | Opening _ => 6
  | Requesting _ => 5 | Submitting _ => 4 | Closing (Rejects _) | Closing NextFrame => 3 | Top => 2 | Closing Ends => 1 | Ended => 0
  end.

Lemma worker_ranked x t t' : running_ t = false -> worker x t = Some t' -> (rank (at_ t') < rank (at_ t))%nat /\ running_ t' = false.
Proof.
  intros Hr Hw. unfold worker, resumes in Hw. rewrite Hr in Hw. repeat case_match; simplify_eq; cbn; split; (lia || done).
Qed.

Lemma worker_blocked x t : worker x t = None -> at_ t = Ended \/ exists k, at_ t = Closing k /\ callbacks_in_flight_ t <> 0%nat.
Proof.
  unfold worker. intros Hw. repeat case_match; simplify_eq; try (by left). right. eexists. split; [done|]. by apply Nat.eqb_neq.
Qed.

(** The handlers inside finish. *)
Lemma handlers_leave n : forall t, (2 * length (entered t) + leaving t <= n)%nat -> inv t ->
  exists t', rtc step t t' /\ callbacks_in_flight_ t' = 0%nat /\ at_ t' = at_ t /\ running_ t' = running_ t.
Proof.
  induction n as [|n IH]; intros t Hn Hi; destruct (leaving t) as [|l] eqn:El; try lia.
  - destruct (entered t) eqn:Ee; cbn in Hn; [|lia]. exists t. split_and!; try done. destruct Hi as [(-> & _) _]. by rewrite Ee, El.
  - destruct (entered t) as [|p rest] eqn:Ee; [exists t; split_and!; try done; destruct Hi as [(-> & _) _]; by rewrite Ee, El|].
    set (t1 := captures 0 p None None 0 t). assert (Hs : step t t1) by (apply Captures; by rewrite Ee).
    destruct (IH t1) as (t' & H1 & H2 & H3 & H4); [cbn; rewrite Ee, El; cbn in *; lia|by eapply encoder_inv_step|].
    exists t'. split_and!; [by eapply rtc_l|done..].
  - assert (Hs : step t (end_callback t)) by (apply Leaves; lia).
    destruct (IH (end_callback t)) as (t' & H1 & H2 & H3 & H4); [cbn; lia|by eapply encoder_inv_step|].
    exists t'. split_and!; [by eapply rtc_l|done..].
Qed.

Lemma stopped_ends (x : Surroundings) n : forall t, (rank (at_ t) <= n)%nat -> inv t -> running_ t = false -> exists t', rtc step t t' /\ at_ t' = Ended.
Proof.
  induction n as [|n IH]; intros t Hn Hi Hr.
  - exists t. split; [done|]. destruct (at_ t) as [| | | | | |[]|]; cbn in Hn; done || lia.
  - destruct (handlers_leave _ t (le_n _) Hi) as (t1 & H1 & H0 & Ha & Hr1). rewrite Hr in Hr1. pose proof (inv_reach _ _ H1 Hi) as Hi1.
    destruct (worker x t1) as [t2|] eqn:Ew.
    + destruct (worker_ranked _ _ _ Hr1 Ew) as [Hk Hr2]. destruct (IH t2) as (t3 & H3 & He); [rewrite Ha in Hk; lia|by eapply encoder_inv_step; [|econstructor]|done|].
      exists t3. split; [|done]. etrans; [exact H1|]. eapply rtc_l; [by econstructor|done].
    + destruct (worker_blocked _ _ Ew) as [He|(k & _ & Hk)]; [by exists t1|done].
Qed.

(** C19.   A stop request is always carried out: from every state the threads can be in, once the
    request is made, each step of the worker brings it closer to its end, at most ten of them are
    left, and the only thing it ever waits for is that handlers inside the gate leave, which nothing
    keeps from leaving while no new one is let in; so the end is reached. *)
Theorem encoder_stop_completes joinable ready plugins now c e0 e t x
    (Hs : start setup joinable ready plugins now c e0 = inr e) (Hp : pipeline_ e0 = false) (Hu : units e0 = [])
    (Hr : rtc step (launch e) t) (Hf : running_ t = false) :
  (rank (at_ t) <= 10)%nat /\
  (forall t', worker x t = Some t' -> (rank (at_ t') < rank (at_ t))%nat /\ running_ t' = false) /\
  (worker x t = None -> at_ t = Ended \/
     (accepting_callbacks_ t = false /\ callbacks_in_flight_ t = (length (entered t) + leaving t)%nat /\ callbacks_in_flight_ t <> 0%nat)) /\
  exists t', rtc step t t' /\ at_ t' = Ended.
Proof.
  pose proof (inv_reach _ _ Hr (proj1 (launch_ok _ _ _ _ _ _ _ Hs Hp Hu))) as Hi. split_and!.
  - destruct (at_ t) as [| | | | | |[]|]; cbn; lia.
  - intros t'. by apply worker_ranked.
  - intros Hw. destruct (worker_blocked _ _ Hw) as [He|(k & Hk & Hn)]; [by left|right]. destruct Hi as [(G1 & _ & _ & G4 & _) _]. eauto.
  - by apply (stopped_ends x _ t (le_n _)).
Qed.

(** ** A frame that nobody interrupts *)

(** Steps of the worker alone. *)
Definition alone (x : Surroundings) : Thread -> Thread -> Prop := rtc (fun t t' => worker x t = Some t').

(** From a place with an encoder to the top with another. *)
Definition leads (x : Surroundings) (p : place) (e e' : H264Encoder) : Prop :=
  forall t, at_ t = p -> encoder t = e -> callbacks_in_flight_ t = 0%nat ->
    exists t', alone x t t' /\ at_ t' = Top /\ encoder t' = e' /\ callbacks_in_flight_ t' = 0%nat.

Lemma leads_top x e : leads x Top e e.
Proof. intros t H1 H2 H3. exists t. by split_and!. Qed.

(** One step, or two with a [close_pipeline] in between. *)
Lemma leads_step x p e p1 e1 e' : (forall t, at_ t = p -> encoder t = e -> exists accepting number,
    worker x t = Some (set_worker e1 accepting p1 number (taken_frames t) t)) -> leads x p1 e1 e' -> leads x p e e'.
Proof.
  intros Hs Hl t H1 H2 H3. destruct (Hs t H1 H2) as (accepting & number & Hw).
  destruct (Hl (set_worker e1 accepting p1 number (taken_frames t) t)) as (t' & Ha & H); [done..|].
  exists t'. split; [|done]. by eapply rtc_l.
Qed.

Lemma leads_closing x k e p1 e1 e' : (forall t, encoder t = e -> resumes k (clock x) t = goes p1 e1 t) -> leads x p1 e1 e' ->
  leads x (Closing k) e e'.
Proof.
  intros Hk Hl t H1 H2 H3. destruct (Hl (goes p1 e1 t)) as (t' & Ha & H); [done..|]. exists t'. split; [|done].
  eapply rtc_l; [|exact Ha]. cbn. unfold worker. by rewrite H1, H3, Hk.
Qed.

Local Ltac resuming := let t := fresh in let H := fresh in intros t H; unfold resumes; rewrite H; reflexivity.
Local Ltac by_step := let t := fresh in let H1 := fresh in let H2 := fresh in
  intros t H1 H2; unfold worker, goes, shuts, builds; rewrite H1, H2.

Lemma leads_submitting x f e : leads x (Submitting f) e
  (match submit_frame (queued x) (mapped x) (taken x) (clock x) f e with
   | (inl error, e) => close_pipeline (reject setup (clock x) error e)
   | (inr dropped, e) => publish_metrics setup (clock x) (count_submitted dropped e)
   end).
Proof.
  destruct (submit_frame _ _ _ _ _ _) as [[error|dropped] e'] eqn:E.
  - eapply leads_step; [by_step; rewrite E; by eauto|]. eapply leads_closing; [by resuming|]. apply leads_top.
  - eapply leads_step; [by_step; rewrite E; by eauto|]. apply leads_top.
Qed.

Lemma leads_opening x f e : leads x (Opening f) e
  (match (if pipeline_ e then (inr tt, e) else open_pipeline (created x) (built x) (playing x) (clock x) f e) with
   | (inl error, e) => reject setup (clock x) error e
   | (inr _, e) =>
     match submit_frame (queued x) (mapped x) (taken x) (clock x) f e with
     | (inl error, e) => close_pipeline (reject setup (clock x) error e)
     | (inr dropped, e) => publish_metrics setup (clock x) (count_submitted dropped e)
     end
   end).
Proof.
  destruct (pipeline_ e) eqn:Ep; [eapply leads_step; [by_step; rewrite Ep; by eauto|apply leads_submitting]|].
  unfold open_pipeline at 1. destruct (level_3_1_supports f (config_ e)) as [error|[]] eqn:El.
  { eapply leads_step; [by_step; rewrite Ep, El; by eauto|apply leads_top]. }
  destruct (created x) as [error|[]] eqn:Ec; [eapply leads_step; [by_step; rewrite Ep, El, Ec; by eauto|apply leads_top]|].
  destruct (built x) as [error|[]] eqn:Eb.
  { eapply leads_step; [by_step; rewrite Ep, El, Ec, Eb; by eauto|]. eapply leads_closing; [by resuming|]. apply leads_top. }
  eapply leads_step; [by_step; rewrite Ep, El, Ec, Eb; by eauto|]. unfold open_pipeline. rewrite El. cbn zeta.
  set (e1 := set_metrics _ _ _ _ _). destruct (playing x) eqn:Epl; cbn [snd].
  - eapply leads_step; [by_step; rewrite Epl; by eauto|]. apply leads_submitting.
  - eapply leads_step; [by_step; rewrite Epl; by eauto|]. eapply leads_closing; [by resuming|]. apply leads_top.
Qed.

Lemma leads_polling x f e : valid_frame f = inr tt -> leads x (Polling f) e (handle_frame setup x f e).
Proof.
  intros Hv. unfold handle_frame. rewrite Hv. cbn zeta.
  set (e1 := match bus_error x with Some _ => _ | None => e end).
  assert (H : leads x (Sizing f) e1 (let e := if pipeline_ e1 && (negb (Annotator.width f =? width_ e1) || negb (Annotator.height f =? height_ e1))
      then publish_metrics setup (clock x) (count_rebuild (close_pipeline e1)) else e1 in
    match (if pipeline_ e then (inr tt, e) else open_pipeline (created x) (built x) (playing x) (clock x) f e) with
    | (inl error, e) => reject setup (clock x) error e
    | (inr _, e) =>
      match submit_frame (queued x) (mapped x) (taken x) (clock x) f e with
      | (inl error, e) => close_pipeline (reject setup (clock x) error e)
      | (inr dropped, e) => publish_metrics setup (clock x) (count_submitted dropped e)
      end
    end)).
  { cbn zeta. destruct (pipeline_ e1 && _) eqn:E.
    - eapply leads_step; [by_step; rewrite E; by eauto|]. eapply leads_closing; [by resuming|]. apply leads_opening.
    - eapply leads_step; [by_step; rewrite E; by eauto|]. apply leads_opening. }
  cbn zeta in H. subst e1. destruct (bus_error x) as [detail|] eqn:Eb, (pipeline_ e) eqn:Ep;
    try (eapply leads_step; [by_step; rewrite Ep, ?Eb; by eauto|exact H]).
  eapply leads_step; [by_step; rewrite Ep, Eb; by eauto|]. eapply leads_closing; [by resuming|exact H].
Qed.

(** The steps for a frame that nothing comes between are, together, the body [handle_frame]. *)
Theorem uninterrupted_frame x t f q (Ht : at_ t = Top) (Hr : running_ t = true) (H0 : callbacks_in_flight_ t = 0%nat)
    (Hq : Queue.pop_for (input_ (encoder t)) = (Some f, q)) :
  exists t', alone x t t' /\ at_ t' = Top /\
    encoder t' = handle_frame setup x f (set_io q (output_ (encoder t)) (units (encoder t)) (encoder t)).
Proof.
  set (e := set_io _ _ _ _). assert (Hw : worker x t = Some (match valid_frame f with
      | inl error => takes Top (reject setup (clock x) error e) t | inr _ => takes (Polling f) e t end)).
  { unfold worker. rewrite Ht, Hr, Hq. cbn [negb]. by destruct (valid_frame f). }
  destruct (valid_frame f) as [error|[]] eqn:Ev.
  - eexists. split; [by apply rtc_once|]. split; [done|]. unfold handle_frame. by rewrite Ev.
  - destruct (leads_polling x f e Ev (takes (Polling f) e t)) as (t' & Ha & H1 & H2 & _); [done..|].
    exists t'. split; [|done]. by eapply rtc_l.
Qed.

(** ** Schedules *)

Inductive action :=
  | Work (x : Surroundings)
  | Enter
  | Capture (i : nat) (sample : option Sample) (fails : option (option string)) (now : Z)
  | Leave
  | Stop
  | Feed (q : Queue.BoundedQueue Annotator.Frame).

Definition perform (a : action) (t : Thread) : option Thread :=
  match a with
  | Work x => worker x t
  | Enter => if (begin_callback t).1 then Some (begin_callback t).2 else None
  | Capture i sample fails now => p ← entered t !! i; Some (captures i p sample fails now t)
  | Leave => if (0 <? leaving t)%nat then Some (end_callback t) else None
  | Stop => Some (requests_stop t)
  | Feed q => Some (feeds q t)
  end.

Definition schedule (l : list action) (t : Thread) : option Thread := foldl (fun t a => t ≫= perform a) (Some t) l.

Lemma schedule_reaches l t t' : schedule l t = Some t' -> rtc step t t'.
Proof.
  unfold schedule. revert t'. induction l as [|a l IH] using rev_ind; intros t'; [by intros [= ->]|]. rewrite foldl_snoc.
  destruct (foldl _ (Some t) l) as [t1|]; [|done]. cbn. intros H. eapply rtc_r; [by apply IH|].
  destruct a; unfold perform in H; [by econstructor|..].
  - destruct (begin_callback t1).1 eqn:E; [|done]. injection H as <-. by constructor.
  - destruct (entered t1 !! i) eqn:E; [|done]. cbn in H. injection H as <-. by constructor.
  - destruct (Nat.ltb_spec 0 (leaving t1)); [|done]. injection H as <-. by constructor.
  - injection H as <-. constructor.
  - injection H as <-. constructor.
Qed.
End Steps.

(** ** A frame of another size arrives while a sample is being handled *)

Definition working : list action := repeat (Work (quiet 0)) 6.
Definition unit_sample (pts : Z) : option Sample := Some (mkSample None (Some pts) None false [0; 0; 1]).
Definition sample_schedule : list action :=
  [Feed (Queue.mkQueue 2 [picture 1 2; picture 2 4] Queue.stats_zero false)] ++ working ++
  [Enter; Capture 0 (unit_sample 0) None 300; Leave; Enter] ++ repeat (Work (quiet 0)) 3 ++
  [Capture 0 (unit_sample 1) None 310; Leave] ++ repeat (Work (quiet 0)) 4 ++
  [Enter; Capture 0 (unit_sample 0) None 320; Stop; Work (quiet 0)].

Definition started : H264Encoder :=
  match start sample_setup false true true 100 default_config sample_encoder with inl _ => sample_encoder | inr e => e end.
Definition scheduled : Thread :=
  match schedule sample_setup sample_schedule (launch started) with Some t => t | None => launch started end.

Lemma encoder_threads_contract_witness :
  at_ scheduled = Closing Ends /\ taken_frames scheduled = 2 /\ marks_exact (out scheduled) /\
  (fun p => (p.1, Media.discontinuity p.2)) <$> out scheduled = [(1, true); (1, false); (2, true)].
Proof.
  assert (Hr : rtc (step sample_setup) (launch started) scheduled) by (apply (schedule_reaches _ sample_schedule); by vm_compute).
  destruct (encoder_threads_contract sample_setup false true true 100 default_config sample_encoder started scheduled)
    as (H & _); [by vm_compute|done|done|exact Hr|by vm_compute|].
  split_and!; [by vm_compute|by vm_compute|exact H|by vm_compute].
Defined.

Lemma encoder_stop_completes_witness :
  callbacks_in_flight_ scheduled = 1%nat /\ exists t', rtc (step sample_setup) scheduled t' /\ at_ t' = Ended.
Proof.
  assert (Hr : rtc (step sample_setup) (launch started) scheduled) by (apply (schedule_reaches _ sample_schedule); by vm_compute).
  split; [by vm_compute|]. apply (encoder_stop_completes sample_setup false true true 100 default_config sample_encoder started scheduled (quiet 0));
    [by vm_compute|done|done|exact Hr|by vm_compute].
Defined.
End EncoderThread.
