(* ===== verification/MediaFeed.v ===== *)
(** * Delivery of access units to a viewer ([src/webrtc/webrtc_manager.cpp], [src/webrtc/whip_publisher.cpp])

    Both senders run the same loop over a bounded queue: take a unit, then read
    the queue's drop counter, wait for a keyframe after a loss, and send.
    [Feed] is that loop with its producer, one step per critical section, so
    that the producer may act between any two of them; [Whep] is the loop of a
    WebRTC session. *)

From S2P Require Import Prelude Strings BoundedQueue WhipPolicy WebRtcSession.

Module Feed.
Import Media.

(** The two variables that decide whether a unit may be sent. *)
Record Gate := mkGate {
  waiting_for_keyframe : bool;
  observed_queue_drops : Z;
}.

(** The tests after a unit was taken; [drops] is the counter just read. *)
Definition look (u : EncodedAccessUnit) (drops : Z) (g : Gate) : Gate :=
  let g := if discontinuity u then mkGate true (observed_queue_drops g) else g in
  if negb (drops =? observed_queue_drops g) then mkGate true drops else g.
Definition admits (u : EncodedAccessUnit) (g : Gate) : bool := negb (waiting_for_keyframe g && negb (keyframe u)).
Definition opened (g : Gate) : Gate := mkGate false (observed_queue_drops g).

(** What becomes of a unit that is let through: sent, not sent because the track
    is not open, or rejected, which ends the loop. *)
Inductive Outcome := Sent | NotOpen | Fatal.

Section Feed.
(** [A] is what else the loop keeps (clocks, pending results), [X] what other
    threads feed into it, [B] what is sent with a unit. *)
Context {A X B : Type} (update : X -> A -> A) (touch : EncodedAccessUnit -> A -> A)
  (send : EncodedAccessUnit -> A -> B * A).

(** Units carry their position in the stream of units pushed; the unit in hand
    also remembers the drop counter at the moment it was taken. *)
Record Run := mkRun {
  queue : Queue.BoundedQueue (nat * EncodedAccessUnit);
  pushed : nat;
  hand : option (nat * EncodedAccessUnit * Z);
  gate : Gate;
  awaiting_resume : bool;
  running : bool;
  aux : A;
  sent : list (nat * EncodedAccessUnit * B);
}.

Inductive event :=
  | Push (u : EncodedAccessUnit)
  | Update (x : X)
  | Pause
  | Pop
  | Look (o : Outcome).

Definition drops (r : Run) : Z := Queue.dropped (Queue.stats (queue r)).

Definition step (r : Run) (e : event) : Run :=
  match e with
  | Push u =>
    let '(ok, q) := Queue.push (pushed r, u) (queue r) in
    mkRun q (if ok then S (pushed r) else pushed r) (hand r) (gate r) (awaiting_resume r) (running r) (aux r) (sent r)
  | Update x => mkRun (queue r) (pushed r) (hand r) (gate r) (awaiting_resume r) (running r) (update x (aux r)) (sent r)
  | Pause =>
    if negb (running r) || bool_decide (hand r <> None) then r
    else mkRun (if awaiting_resume r then queue r else (Queue.discard_all (queue r)).2) (pushed r) (hand r) (gate r) true
           (running r) (aux r) (sent r)
  | Pop =>
    if negb (running r) || bool_decide (hand r <> None) then r
    else
      let g := if awaiting_resume r then mkGate true (observed_queue_drops (gate r)) else gate r in
      let '(u, q) := Queue.pop_for (queue r) in
      mkRun q (pushed r) (option_map (fun u => (u, drops r)) u) g false (running r) (aux r) (sent r)
  | Look o =>
    match hand r with
    | Some (i, u, _) =>
      if negb (running r) then r
      else
        let g := look u (drops r) (gate r) in
        let a := touch u (aux r) in
        if admits u g then
          match o with
          | NotOpen => mkRun (queue r) (pushed r) None g (awaiting_resume r) (running r) a (sent r)
          | Sent => mkRun (queue r) (pushed r) None (opened g) (awaiting_resume r) (running r) (send u a).2
                      (sent r ++ [(i, u, (send u a).1)])
          | Fatal => mkRun (queue r) (pushed r) None (opened g) (awaiting_resume r) false (send u a).2 (sent r)
          end
        else mkRun (queue r) (pushed r) None g (awaiting_resume r) (running r) a (sent r)
    | None => r
    end
  end.

Definition run (es : list event) (r : Run) : Run := foldl step r es.

(** *** What is sent can be decoded *)

(** The first unit is a keyframe, and every other one is a keyframe or the
    very next unit of the stream, without a discontinuity. *)
Fixpoint gap_free (last : option nat) (l : list (nat * EncodedAccessUnit * B)) : Prop :=
  match l with
  | [] => True
  | (i, u, _) :: rest =>
    (keyframe u = true \/ discontinuity u = false /\ exists j, last = Some j /\ i = S j) /\ gap_free (Some i) rest
  end.

Definition last_index (l : list (nat * EncodedAccessUnit * B)) : option nat := (fun x => x.1.1) <$> list.last l.

(** The queue drops nothing between taking a keyframe and reading the counter. *)
Definition quiet_look (r : Run) (e : event) : Prop :=
  match e, hand r with
  | Look _, Some (_, u, d) => keyframe u = true -> drops r = d
  | _, _ => True
  end.
Fixpoint quiet (es : list event) (r : Run) : Prop :=
  match es with [] => True | e :: rest => quiet_look r e /\ quiet rest (step r e) end.

(** A track that was found closed does not open again. *)
Fixpoint stays_closed (closed : bool) (es : list event) : Prop :=
  match es with
  | [] => True
  | Look NotOpen :: rest => stays_closed true rest
  | Look _ :: rest => closed = false /\ stays_closed closed rest
  | _ :: rest => stays_closed closed rest
  end.

(** The position of the front of the queue. *)
Definition front (r : Run) : Z := Z.of_nat (pushed r) - Z.of_nat (length (Queue.queue_ (queue r))).

(** The position at which the stream would go on seamlessly, given the drops. *)
Definition seamless (r : Run) (j : nat) : Prop :=
  match hand r with
  | Some (i, _, d) => Z.of_nat i = Z.of_nat j + 1 + (d - observed_queue_drops (gate r))
  | None => front r = Z.of_nat j + 1 + (drops r - observed_queue_drops (gate r))
  end.

Definition counted (budget : Z) (r : Run) : Prop :=
  0 <= observed_queue_drops (gate r) <= drops r /\ drops r + budget <= u64_max /\
  Z.of_nat (length (Queue.queue_ (queue r))) <= Z.of_nat (pushed r) /\
  (fst <$> Queue.queue_ (queue r)) = seq (Z.to_nat (front r)) (length (Queue.queue_ (queue r))) /\
  match hand r with
  | Some (i, _, d) =>
    awaiting_resume r = false /\ observed_queue_drops (gate r) <= d <= drops r /\
    front r = Z.of_nat i + 1 + (drops r - d)
  | None => True
  end.

Definition inv (closed : bool) (budget : Z) (r : Run) : Prop :=
  counted budget r /\ gap_free None (sent r) /\
  (closed = false -> running r = true -> waiting_for_keyframe (gate r) = false -> awaiting_resume r = false ->
     exists j, last_index (sent r) = Some j /\ seamless r j).

Lemma push_effect {T} (v : T) q :
  let '(ok, q') := Queue.push v q in
  if ok then
    Queue.queue_ q' = Queue.queue_ q ++ [v] /\ Queue.dropped (Queue.stats q') = Queue.dropped (Queue.stats q) \/
    Queue.queue_ q' = tail (Queue.queue_ q ++ [v]) /\
      Queue.dropped (Queue.stats q') = u64 (Queue.dropped (Queue.stats q) + 1)
  else q' = q.
Proof. unfold Queue.push, Queue.stats. repeat case_match; simplify_eq/=; auto. Qed.

Lemma gap_free_snoc last l i u (b : B) :
  gap_free last (l ++ [(i, u, b)]) <->
  gap_free last l /\ (keyframe u = true \/ discontinuity u = false /\ exists j,
    match last_index l with Some k => Some k | None => last end = Some j /\ i = S j).
Proof.
  revert last. induction l as [|[[k v] c] l IH]; intros last; cbn [gap_free app]; [cbn; tauto|].
  rewrite IH. unfold last_index. rewrite last_cons. destruct (list.last l) as [[[? ?] ?]|]; cbn; tauto.
Qed.

Lemma last_index_snoc l i u (b : B) : last_index (l ++ [(i, u, b)]) = Some i.
Proof. unfold last_index. by rewrite last_snoc. Qed.

Lemma counted_push budget u r : 0 <= budget -> counted (budget + 1) r -> counted budget (step r (Push u)) /\
  (forall j, seamless r j -> seamless (step r (Push u)) j).
Proof.
  intros Hbud (Ho & Hb & Hl & Hs & Hh). pose proof (push_effect (pushed r, u) (queue r)) as Hp. simpl.
  destruct (Queue.push (pushed r, u) (queue r)) as [[] q'].
  2:{ subst q'. unfold counted, seamless, front, drops in *. simpl. split; [|done]. split_and!; try lia; done. }
  unfold counted, seamless, front, drops in *. simpl.
  assert (Hseq : fst <$> Queue.queue_ (queue r) ++ [(pushed r, u)] =
    seq (Z.to_nat (Z.of_nat (pushed r) - Z.of_nat (length (Queue.queue_ (queue r))))) (S (length (Queue.queue_ (queue r))))).
  { rewrite fmap_app, Hs, seq_S. simpl. do 2 f_equal. lia. }
  destruct Hp as [[-> ->]|[Hq ->]].
  - rewrite Hseq, !length_app. cbn [length].
    split; [split_and!; try lia; [f_equal; lia|]|]; destruct (hand r) as [[[i v] d]|]; intuition lia.
  - rewrite u64_small by lia. rewrite Hq, length_tail, length_app. simpl.
    assert (Ht : fst <$> tail (Queue.queue_ (queue r) ++ [(pushed r, u)]) = tail (fst <$> Queue.queue_ (queue r) ++ [(pushed r, u)]))
      by (by destruct (Queue.queue_ (queue r))).
    rewrite Ht, Hseq. cbn [seq tail].
    split; [split_and!; try lia; [f_equal; lia|]|]; destruct (hand r) as [[[i v] d]|]; intuition lia.
Qed.

Lemma counted_weaken budget r : counted (budget + 1) r -> counted budget r.
Proof. unfold counted. intros (? & ? & ?). split_and!; try lia; tauto. Qed.

(** Taking a unit: its position is the front's. *)
Lemma counted_pop budget r : counted budget r -> hand r = None -> running r = true ->
  counted budget (step r Pop) /\
  (awaiting_resume r = false -> forall j, seamless r j -> seamless (step r Pop) j) /\
  sent (step r Pop) = sent r /\ awaiting_resume (step r Pop) = false /\
  (waiting_for_keyframe (gate (step r Pop)) = false ->
    waiting_for_keyframe (gate r) = false /\ awaiting_resume r = false).
Proof.
  intros (Ho & Hb & Hl & Hs & _) Hh Hr. simpl. rewrite Hh, Hr. simpl.
  unfold Queue.pop_for, Queue.take_front, counted, seamless, front, drops, Queue.stats in *. rewrite Hh.
  destruct (Queue.wait_ready (queue r)), (Queue.queue_ (queue r)) as [|[i u] rest] eqn:Eq; simpl in *;
    destruct (awaiting_resume r); simpl; rewrite ?Eq; simpl; split_and!; try done; try lia; try (intros; lia);
    try (injection Hs as Hi Hs; first [lia|etransitivity; [exact Hs|f_equal; lia]]).
Qed.

(** The unit in hand after the gate: what the gate knows. *)
Lemma look_gate u n g : observed_queue_drops (look u n g) = n \/ observed_queue_drops (look u n g) = observed_queue_drops g /\
  n = observed_queue_drops g.
Proof. unfold look. destruct (discontinuity u); cbn; destruct (n =? _) eqn:E; cbn; bools; auto. Qed.

Lemma look_not_waiting u n g : waiting_for_keyframe (look u n g) = false ->
  waiting_for_keyframe g = false /\ discontinuity u = false /\ n = observed_queue_drops g.
Proof. unfold look. destruct (discontinuity u); cbn; destruct (n =? _) eqn:E; cbn; intros; bools; done. Qed.

Definition closes (e : event) : bool := match e with Look NotOpen => true | _ => false end.
Definition delivers (e : event) : bool := match e with Look Sent | Look Fatal => true | _ => false end.

Lemma inv_look closed budget o r : inv closed (budget + 1) r -> quiet_look r (Look o) ->
  (delivers (Look o) = true -> closed = false) -> inv (closed || closes (Look o)) budget (step r (Look o)).
Proof.
  intros (Hc & Hg & Hw) Hq Hd. apply counted_weaken in Hc as Hc'. simpl in *.
  destruct (hand r) as [[[i u] d]|] eqn:Eh.
  2:{ split_and!; [done|done|]. intros [H1 _]%orb_false_iff. by apply Hw. }
  destruct (running r) eqn:Er; cbn [negb].
  2:{ split_and!; [done|done|]. intros _. congruence. }
  destruct Hc' as (Ho & Hb & Hl & Hs & Hh). rewrite Eh in Hh. destruct Hh as (Haw & Hd2 & Hf).
  set (g := look u (drops r) (gate r)).
  assert (Hobs : observed_queue_drops g = drops r) by (unfold g; destruct (look_gate u (drops r) (gate r)) as [?|[? ?]]; congruence).
  (* the counters of a run without a unit in hand whose gate has seen all drops *)
  assert (Hcnt : forall g' aw rn a s, observed_queue_drops g' = drops r ->
    counted budget (mkRun (queue r) (pushed r) None g' aw rn a s)).
  { intros g' aw rn a s E. unfold counted, drops, front in *. simpl. rewrite E. split_and!; try lia; done. }
  (* the next unit follows the one in hand *)
  assert (Hnext : forall g' aw rn a s, observed_queue_drops g' = drops r -> drops r = d ->
    seamless (mkRun (queue r) (pushed r) None g' aw rn a s) i).
  { intros g' aw rn a s E E2. unfold seamless, front, drops in *. simpl. lia. }
  destruct (admits u g) eqn:Ea.
  2:{ split_and!; [by apply Hcnt|done|]. intros _ _ Hn. unfold admits in Ea. simpl in Hn. rewrite Hn in Ea. done. }
  assert (Hcase : keyframe u = true /\ drops r = d \/
    waiting_for_keyframe g = false /\ discontinuity u = false /\ drops r = d /\
    (closed = false -> last_index (sent r) = Some (i - 1)%nat /\ (1 <= i)%nat)).
  { destruct (waiting_for_keyframe g) eqn:Ew.
    - left. assert (keyframe u = true) by (unfold admits in Ea; rewrite Ew in Ea; by destruct (keyframe u)). auto.
    - right. destruct (look_not_waiting _ _ _ Ew) as (E1 & E2 & E3). split_and!; [done|done|lia|].
      intros Hcl. destruct (Hw Hcl eq_refl E1 Haw) as (j & Hj & Hsm). unfold seamless in Hsm. rewrite Eh in Hsm.
      assert (i = S j) as -> by lia. rewrite Hj. split; [f_equal; lia|lia]. }
  assert (Hdd : drops r = d) by (destruct Hcase as [[_ ?]|(_ & _ & ? & _)]; done).
  destruct o; simpl in *.
  - split_and!; [by apply Hcnt| |].
    + simpl. apply gap_free_snoc. split; [done|]. destruct Hcase as [[? _]|(_ & ? & _ & Hl')]; [by left|right].
      split; [done|]. destruct (Hl' (Hd eq_refl)) as [-> ?]. exists (i - 1)%nat. split; [done|lia].
    + intros _ _ _ _. exists i. simpl. split; [apply last_index_snoc|by apply Hnext].
  - split_and!; [by apply Hcnt|done|]. rewrite orb_true_r. done.
  - split_and!; [by apply Hcnt|done|]. done.
Qed.

Lemma inv_step closed budget e r : 0 <= budget -> inv closed (budget + 1) r -> quiet_look r e ->
  (delivers e = true -> closed = false) -> inv (closed || closes e) budget (step r e).
Proof.
  intros Hb Hi Hq Hd. destruct e as [u|x| | |o]; cbn [closes]; rewrite ?orb_false_r; [..|by apply inv_look].
  - destruct Hi as (Hc & Hg & Hw). destruct (counted_push budget u r Hb Hc) as [H1 H2].
    assert (E : sent (step r (Push u)) = sent r /\ gate (step r (Push u)) = gate r /\
      running (step r (Push u)) = running r /\ awaiting_resume (step r (Push u)) = awaiting_resume r)
      by (simpl; by destruct (Queue.push _ _)).
    destruct E as (E1 & E2 & E3 & E4). split_and!; [done|by rewrite E1|]. rewrite E1, E2, E3, E4.
    intros ? ? ? ?. destruct Hw as (j & ? & ?); eauto.
  - destruct Hi as (Hc & Hg & Hw). apply counted_weaken in Hc. exact (conj Hc (conj Hg Hw)).
  - destruct Hi as (Hc & Hg & Hw). apply counted_weaken in Hc. simpl.
    destruct (negb (running r) || bool_decide (hand r <> None)) eqn:E; [done|]. bools. apply dec_stable in H0.
    destruct (awaiting_resume r) eqn:Ew; [split_and!; [|done|done]; unfold counted in *; simpl in *; rewrite H0 in *; tauto|]. split_and!; [|done|done].
    destruct Hc as (Ho & Hbu & Hl & Hs & _). unfold counted, drops, front, Queue.stats in *. simpl. rewrite H0. split_and!; try done; lia.
  - destruct (negb (running r) || bool_decide (hand r <> None)) eqn:E.
    { destruct Hi as (Hc & Hg & Hw). apply counted_weaken in Hc. simpl. rewrite E. by split_and!. }
    bools. apply dec_stable in H0. destruct Hi as (Hc & Hg & Hw). apply counted_weaken in Hc.
    destruct (counted_pop budget r Hc H0 H) as (H1 & H2 & H3 & H4 & H5).
    split_and!; [done|by rewrite H3|]. intros Hcl Hr Hwt _. destruct (H5 Hwt) as [H6 H7].
    destruct (Hw Hcl H H6 H7) as (j & Hj & Hsm). exists j. rewrite H3. auto.
Qed.

Lemma inv_run es closed r : inv closed (Z.of_nat (length es)) r -> quiet es r -> stays_closed closed es ->
  gap_free None (sent (run es r)).
Proof.
  revert closed r. induction es as [|e es IH]; intros closed r Hi Hq Hc; [apply Hi|].
  destruct Hq as [Hq1 Hq2]. change (run (e :: es) r) with (run es (step r e)).
  apply (IH (closed || closes e)); [|done|].
  - apply inv_step; [lia| |done|].
    + replace (Z.of_nat (length es) + 1) with (Z.of_nat (length (e :: es))) by (simpl; lia). done.
    + destruct e as [| | | |[]]; simpl in *; intros; try discriminate; tauto.
  - destruct e as [| | | |[]]; simpl in *; rewrite ?orb_false_r, ?orb_true_r; tauto.
Qed.

Lemma sent_Forall (P : EncodedAccessUnit -> B -> Prop) es r : (forall u a, P u (send u a).1) ->
  Forall (fun x => P x.1.2 x.2) (sent r) -> Forall (fun x => P x.1.2 x.2) (sent (run es r)).
Proof.
  intros HP. revert r. induction es as [|e es IH]; intros r Hr; [done|]. apply (IH (step r e)). clear IH.
  destruct e as [u|x| | |o]; simpl; repeat (case_match; simplify_eq/=); try done.
  apply Forall_app. split; [done|]. apply Forall_singleton. simpl.
  apply HP.
Qed.

(** A loop about to start on a queue: units left from before keep their place. *)
Definition begin (q : Queue.BoundedQueue (nat * EncodedAccessUnit)) (a : A) : Run :=
  mkRun q (length (Queue.queue_ q)) None (mkGate true (Queue.dropped (Queue.stats q))) false true a [].

(** A unit dropped behind a keyframe in hand goes unnoticed. *)
Lemma late_drop_run a key lost next :
  keyframe key = true -> discontinuity key = false -> keyframe next = false -> discontinuity next = false ->
  exists b c, sent (run [Push key; Pop; Push lost; Push next; Look Sent; Pop; Look Sent]
    (begin (Queue.mkQueue 1 [] Queue.stats_zero false) a)) = [(0%nat, key, b); (2%nat, next, c)].
Proof.
  destruct key as [? ? ? ? ? k d ? ?], next as [? ? ? ? ? k' d' ? ?]. cbn [keyframe discontinuity].
  intros -> -> -> ->.
  do 2 eexists. vm_compute. reflexivity.
Qed.

Lemma inv_begin q a n : 0 <= Queue.dropped (Queue.stats q) -> Queue.dropped (Queue.stats q) + n <= u64_max ->
  (fst <$> Queue.queue_ q) = seq 0 (length (Queue.queue_ q)) -> inv false n (begin q a).
Proof.
  intros H0 Hn Hs. split_and!; [|done|done]. unfold counted, drops, front. simpl.
  split_and!; try lia. rewrite Hs at 1. f_equal. lia.
Qed.
End Feed.
End Feed.

(** ** The media loop of a WebRTC session ([WebRtcSession::media_loop]) *)

Module Whep.
Import Media Feed.

(** The variables of the loop that concern timestamps. *)
Record Stamps := mkStamps {
  timestamp_initialized : bool;
  last_pts_ns : Z;
  rtp_timestamp : Z;
  last_timestamp_step : Z;
}.

Definition first_stamps : Stamps := mkStamps false 0 0 3000.

(** A discontinuity forgets the timestamp. *)
Definition touch (u : EncodedAccessUnit) (t : Stamps) : Stamps :=
  if discontinuity u then mkStamps false (last_pts_ns t) (rtp_timestamp t) (last_timestamp_step t) else t.

(** 90 kHz ticks of a span; the products stay below 2^64. *)
Definition ticks (delta_ns : Z) : Z := delta_ns / 1000000000 * 90000 + delta_ns mod 1000000000 * 90000 / 1000000000.

(** The timestamp of a unit that is sent; [start] is the packetizer's first one. *)
Definition stamp (start : Z) (u : EncodedAccessUnit) (t : Stamps) : Z * Stamps :=
  let '(ts, step) :=
    if has_pts u then (RtpClock.h264_rtp_timestamp (pts_ns u), last_timestamp_step t)
    else if negb (timestamp_initialized t) then (start, last_timestamp_step t)
    else
      let '(step, last) :=
        if pts_ns u >? last_pts_ns t then
          let step := u32 (Z.max 1 (ticks (pts_ns u - last_pts_ns t))) in
          (step, if step <=? 90000 then step else last_timestamp_step t)
        else (last_timestamp_step t, last_timestamp_step t) in
      (u32 (rtp_timestamp t + step), last) in
  (ts, mkStamps true (pts_ns u) ts step).

(** How the track answered: it never opened (or the session stopped first), it
    took the unit, it refused it, or it threw. *)
Inductive TrackAnswer := Unopened | Took | Rejected | Threw (what : string) | ThrewUnknown.

Definition outcome (a : TrackAnswer) : Outcome :=
  match a with Unopened => NotOpen | Took => Sent | _ => Fatal end.

(** The error that is recorded when the loop ends itself. *)
Definition media_error (a : TrackAnswer) : option string :=
  match a with
  | Unopened | Took => None
  | Rejected => Some "media track rejected an access unit"
  | Threw what => Some what
  | ThrewUnknown => Some "unknown media delivery error"
  end.

(** A step of the session: a unit is published to it, its worker takes a unit,
    or its worker deals with the unit it took. *)
Inductive action := Enqueued (u : EncodedAccessUnit) | Takes | Handles (a : TrackAnswer).

Definition feed_event (a : action) : event (X := Empty_set) :=
  match a with
  | Enqueued u => Push u
  | Takes => Pop
  | Handles answer => Look (outcome answer)
  end.

(** The worker of a session that was just activated: its queue was reset. *)
Definition activated (capacity : Z) : Run (A := Stamps) (B := Z) :=
  begin (Queue.mkQueue capacity [] Queue.stats_zero false) first_stamps.

Definition media_step (start : Z) : Run -> event -> Run :=
  step (fun x : Empty_set => match x with end) touch (stamp start).
Definition media_loop (start : Z) (actions : list action) (r : Run) : Run :=
  run (fun x : Empty_set => match x with end) touch (stamp start) (feed_event <$> actions) r.

(** The two provisos, for a worker's history. *)
Definition undisturbed (start capacity : Z) (actions : list action) : Prop :=
  quiet (fun x : Empty_set => match x with end) touch (stamp start) (feed_event <$> actions) (activated capacity) /\
  stays_closed false (feed_event <$> actions).

(** C10.   What a viewer is sent can be decoded: for every interleaving of the publisher with the
    session's worker, the first unit sent is a keyframe and every later one is a keyframe or the
    very next unit published to the session, with no unit dropped, skipped or discontinuous in
    between; and a unit that has a presentation time is stamped with it on the 90 kHz clock.
    Provided that a closed track does not reopen, and that the queue drops nothing between the
    moment a keyframe is taken and the moment the drop counter is read. *)
Theorem whep_delivery_gap_free start capacity actions : Z.of_nat (length actions) <= u64_max ->
  undisturbed start capacity actions ->
  let r := media_loop start actions (activated capacity) in
  gap_free None (sent r) /\
  Forall (fun x => has_pts x.1.2 = true -> x.2 = RtpClock.h264_rtp_timestamp (pts_ns x.1.2)) (sent r).
Proof.
  intros Hn [Hq Hc] r. split.
  - apply (inv_run _ _ _ _ false); [|done|done]. rewrite length_fmap. by apply inv_begin.
  - apply (sent_Forall _ _ _ (fun u ts => has_pts u = true -> ts = RtpClock.h264_rtp_timestamp (pts_ns u))); [|constructor].
    intros u a Hp. unfold stamp. by rewrite Hp.
Qed.

(** The proviso on drops is needed: the worker reads the drop counter after it has taken a unit.
    When that unit is a keyframe and the full queue drops the unit behind it right then, the
    keyframe is sent, the loss counts as seen, and the viewer is next sent a unit that depends on
    the lost one. *)
Theorem late_drop_leaves_gap start key lost next :
  keyframe key = true -> discontinuity key = false -> keyframe next = false -> discontinuity next = false ->
  let r := media_loop start
    [Enqueued key; Takes; Enqueued lost; Enqueued next; Handles Took; Takes; Handles Took] (activated 1) in
  (fun x => x.1) <$> sent r = [(0%nat, key); (2%nat, next)] /\ ~ gap_free None (sent r).
Proof.
  intros Hk Hd Hk' Hd' r.
  destruct (late_drop_run (fun x : Empty_set => match x with end) touch (stamp start) first_stamps key lost next)
    as (a & b & E); [done..|].
  subst r. unfold media_loop, activated. cbn [fmap list_fmap feed_event outcome]. rewrite E. clear E. split; [done|]. simpl. rewrite Hk'. intros (_ & [?|(_ & j & [= <-] & ?)] & _); done.
Qed.

Definition sample_unit (n : Z) (k : bool) : EncodedAccessUnit := mkUnit n (n * 33333333) 0 true false k false 1 [0; 0; 1; 65].

Lemma late_drop_leaves_gap_witness :
  let r := media_loop 7 [Enqueued (sample_unit 1 true); Takes; Enqueued (sample_unit 2 false);
    Enqueued (sample_unit 3 false); Handles Took; Takes; Handles Took] (activated 1) in
  ~ gap_free None (sent r).
Proof.
  exact (proj2 (late_drop_leaves_gap 7 (sample_unit 1 true) (sample_unit 2 false) (sample_unit 3 false)
    eq_refl eq_refl eq_refl eq_refl)).
Defined.

Lemma whep_delivery_gap_free_witness :
  let actions := [Enqueued (sample_unit 1 true); Enqueued (sample_unit 2 false); Takes; Handles Took; Takes; Handles Took;
    Enqueued (sample_unit 3 false); Enqueued (sample_unit 4 false); Enqueued (sample_unit 5 false); Takes; Handles Took;
    Enqueued (sample_unit 6 true); Takes; Handles Took; Takes; Handles Took] in
  gap_free None (sent (media_loop 7 actions (activated 2))) /\
  (fun x => x.1.1) <$> sent (media_loop 7 actions (activated 2)) = [0; 1; 5]%nat.
Proof.
  intros actions. split; [|vm_compute; reflexivity].
  refine (proj1 (whep_delivery_gap_free 7 2 actions ltac:(vm_compute; discriminate) _)).
  split; [|vm_compute; repeat split]. vm_compute. repeat split; intros; try reflexivity; discriminate.
Defined.
End Whep.
