(* ===== verification/WebRtcManager.v ===== *)
(** * The WebRTC manager ([src/webrtc/webrtc_manager.cpp])

    [Manager] holds the members that [mutex_] protects, with one definition per
    critical section.  [World] puts them together: the session objects, the
    calls that are between two critical sections ([Task]), and the thread that
    configures and shuts down; [perform] is one step of one of them, so that a
    list of actions is an interleaving of all callers. *)

From S2P Require Import Prelude Strings BoundedQueue Diagnostics ConfigData WebRtcSession MediaFeed.

Module Manager.
Import Media Session.

(** The members in groups.  [sessions_] maps an id to the session object. *)
Record Limits := mkLimits {
  enabled_ : bool;
  stopping_ : bool;
  max_peers_ : Z;
  media_queue_capacity_ : Z;
  connection_timeout_ : Z;
}.

Record Source := mkSource {
  media_available_ : bool;
  media_unavailable_reason_ : string;
  latest_keyframe_ : option EncodedAccessUnit;
}.

Record Tally := mkTally {
  sessions_created_ : Z;
  sessions_closed_ : Z;
  signaling_errors_ : Z;
  media_errors_ : Z;
  last_close_reason_ : string;
}.

Record WebRtcManager := mkManager {
  timeout_overridden_ : bool;
  limits : Limits;
  source : Source;
  tally : Tally;
  sessions_ : gmap string nat;
  recently_closed_ : list WebRtc.WebRtcPeerDiagnostics;
}.

(** The constructor; timeouts in milliseconds. *)
Definition make_manager (stale_timeout : Z) : WebRtcManager :=
  mkManager (stale_timeout >? 0)
    (mkLimits false true 0 8 (if stale_timeout >? 0 then stale_timeout else 15000))
    (mkSource true "" None) (mkTally 0 0 0 0 "") ∅ [].

Definition with_limits (l : Limits) (m : WebRtcManager) : WebRtcManager :=
  mkManager (timeout_overridden_ m) l (source m) (tally m) (sessions_ m) (recently_closed_ m).
Definition with_source (s : Source) (m : WebRtcManager) : WebRtcManager :=
  mkManager (timeout_overridden_ m) (limits m) s (tally m) (sessions_ m) (recently_closed_ m).
Definition with_tally (t : Tally) (m : WebRtcManager) : WebRtcManager :=
  mkManager (timeout_overridden_ m) (limits m) (source m) t (sessions_ m) (recently_closed_ m).
Definition with_sessions (s : gmap string nat) (m : WebRtcManager) : WebRtcManager :=
  mkManager (timeout_overridden_ m) (limits m) (source m) (tally m) s (recently_closed_ m).

(** [sessions_closed_ += n] with the reason. *)
Definition count_closed (n : Z) (reason : string) (m : WebRtcManager) : WebRtcManager :=
  let t := tally m in
  with_tally (mkTally (sessions_created_ t) (u64 (sessions_closed_ t + n)) (signaling_errors_ t) (media_errors_ t) reason) m.
Definition count_signaling_error (m : WebRtcManager) : WebRtcManager :=
  let t := tally m in
  with_tally (mkTally (sessions_created_ t) (sessions_closed_ t) (u64 (signaling_errors_ t + 1)) (media_errors_ t)
                (last_close_reason_ t)) m.
Definition count_media_errors (n : Z) (m : WebRtcManager) : WebRtcManager :=
  let t := tally m in
  with_tally (mkTally (sessions_created_ t) (sessions_closed_ t) (signaling_errors_ t) (u64 (media_errors_ t + n))
                (last_close_reason_ t)) m.

(** [CreateSessionResult::operator bool]. *)
Definition succeeded (r : WebRtc.CreateSessionResult) : bool :=
  match WebRtc.error r with WebRtc.None_ => true | _ => false end.

(** *** Ids *)

Definition hex_digit (n : Z) : ascii := chr (if n <? 10 then 48 + n else 87 + n).
Definition make_session_id (random : list Z) : string :=
  str (random ≫= (fun r => let b := u8 r in [hex_digit (b / 16); hex_digit (b mod 16)])).

(** [do id = make_session_id(); while (sessions_.count(id) != 0)] over the ids
    that are drawn. *)
Definition pick_id (drawn : list string) (m : WebRtcManager) : option string :=
  List.find (fun id => bool_decide (sessions_ m !! id = None)) drawn.

(** *** Critical sections *)

Definition disabled (message : string) : WebRtc.CreateSessionResult := refusal WebRtc.Disabled message.

(** The guards of [create_session]. *)
Definition refuse (m : WebRtcManager) : option WebRtc.CreateSessionResult :=
  let l := limits m in let s := source m in
  if negb (enabled_ l) || stopping_ l then Some (disabled "WebRTC is disabled")
  else if negb (media_available_ s) then
    Some (disabled (if bool_decide (media_unavailable_reason_ s = "")
                    then "browser-compatible source H.264 is unavailable" else media_unavailable_reason_ s))
  else if max_peers_ l <=? Z.of_nat (size (sessions_ m)) then
    Some (refusal WebRtc.Capacity "maximum peer count reached")
  else None.

(** The rest of that section: [created] says whether [create_peer_session]
    returned a session; the new object is number [object]. *)
Definition reserve (id : string) (object : nat) (created : bool) (m : WebRtcManager)
    : option WebRtc.CreateSessionResult * WebRtcManager :=
  match refuse m with
  | Some r => (Some r, m)
  | None =>
    if negb created then (Some (refusal WebRtc.Internal "PeerConnection creation failed"), count_signaling_error m)
    else
      let t := tally m in
      (None, with_sessions (<[id := object]> (sessions_ m))
               (with_tally (mkTally (u64 (sessions_created_ t + 1)) (sessions_closed_ t) (signaling_errors_ t)
                              (media_errors_ t) (last_close_reason_ t)) m))
  end.

(** After [accept_offer] failed: the object that was found, if any. *)
Definition drop_failed (id : string) (m : WebRtcManager) : option nat * WebRtcManager :=
  let m := count_signaling_error m in
  match sessions_ m !! id with
  | None => (None, m)
  | Some i => (Some i, count_closed 1 "signaling_failure" (with_sessions (delete id (sessions_ m)) m))
  end.

(** After it succeeded: [None] when the session may not go on, else the
    keyframe it starts from. *)
Definition finalize (id : string) (object : nat) (m : WebRtcManager) : option (option EncodedAccessUnit) :=
  if stopping_ (limits m) || negb (media_available_ (source m)) || negb (bool_decide (sessions_ m !! id = Some object))
  then None else Some (latest_keyframe_ (source m)).

Definition take_one (id : string) (m : WebRtcManager) : option nat * WebRtcManager :=
  match sessions_ m !! id with
  | None => (None, m)
  | Some i => (Some i, count_closed 1 "client_delete" (with_sessions (delete id (sessions_ m)) m))
  end.

(** The loop of [cleanup_stale_sessions] over the sessions, in the order of the
    map; [reason_of] is [stale_reason] of an object. *)
Fixpoint take_stale (reason_of : nat -> string) (order : list (string * nat)) (m : WebRtcManager)
    : list (nat * string) * WebRtcManager :=
  match order with
  | [] => ([], m)
  | (id, i) :: rest =>
    if bool_decide (reason_of i = "") then take_stale reason_of rest m
    else
      let '(l, m) := take_stale reason_of rest
        (count_closed 1 (reason_of i) (with_sessions (delete id (sessions_ m)) m)) in
      ((i, reason_of i) :: l, m)
  end.

(** All sessions leave the map. *)
Definition take_all (reason : string) (m : WebRtcManager) : list nat * WebRtcManager :=
  let taken := snd <$> map_to_list (sessions_ m) in
  (taken,
   with_sessions ∅
     (if bool_decide (taken = []) then m else count_closed (Z.of_nat (length taken)) reason m)).

Definition forget_keyframe (m : WebRtcManager) : WebRtcManager :=
  let s := source m in with_source (mkSource (media_available_ s) (media_unavailable_reason_ s) None) m.

(** [publish_access_unit]: the sessions the unit goes to. *)
Definition publish_locked (u : EncodedAccessUnit) (m : WebRtcManager) : list nat * WebRtcManager :=
  let l := limits m in let s := source m in
  if negb (enabled_ l) || stopping_ l || negb (media_available_ s) then ([], m)
  else
    let kept := if discontinuity u then None else latest_keyframe_ s in
    (snd <$> map_to_list (sessions_ m),
     with_source (mkSource (media_available_ s) (media_unavailable_reason_ s) (if keyframe u then Some u else kept)) m).

Definition set_media_available (available : bool) (reason : string) (m : WebRtcManager) : list nat * WebRtcManager :=
  let s := source m in
  let reason := if available then "" else reason in
  if bool_decide (media_available_ s = available) && bool_decide (media_unavailable_reason_ s = reason) then ([], m)
  else if available then ([], with_source (mkSource true "" (latest_keyframe_ s)) m)
  else take_all "source_media_unavailable" (with_source (mkSource false reason None) m).

(** The two critical sections of [shutdown], and the one of [configure]. *)
Definition begin_shutdown (m : WebRtcManager) : WebRtcManager :=
  let l := limits m in
  with_limits (mkLimits false true (max_peers_ l) (media_queue_capacity_ l) (connection_timeout_ l)) m.
Definition end_shutdown (m : WebRtcManager) : list nat * WebRtcManager :=
  let '(l, m) := take_all "service_shutdown" m in (l, forget_keyframe m).
Definition apply_config (c : Cfg.WebrtcConfig) (m : WebRtcManager) : WebRtcManager :=
  with_limits (mkLimits (Cfg.rtc_enabled c) (negb (Cfg.rtc_enabled c)) (u64 (Cfg.max_peers c)) (u64 (Cfg.media_queue_capacity c))
                 (if timeout_overridden_ m then connection_timeout_ (limits m) else Cfg.connection_timeout_ms c)) m.

(** [while (recently_closed_.size() > 16) recently_closed_.pop_front()]. *)
Definition keep16 (l : list WebRtc.WebRtcPeerDiagnostics) : list WebRtc.WebRtcPeerDiagnostics := drop (length l - 16) l.
Definition remember (snapshot : WebRtc.WebRtcPeerDiagnostics) (m : WebRtcManager) : WebRtcManager :=
  mkManager (timeout_overridden_ m) (limits m) (source m) (tally m) (sessions_ m)
    (keep16 (recently_closed_ m ++ [snapshot])).

Definition session_count (m : WebRtcManager) : Z := Z.of_nat (size (sessions_ m)).

(** [peer] is what a session object reports. *)
Definition diagnostics (peer : nat -> WebRtc.WebRtcPeerDiagnostics) (m : WebRtcManager) : WebRtc.WebRtcDiagnostics :=
  let l := limits m in let s := source m in let t := tally m in
  WebRtc.mkWebRtc (enabled_ l && negb (stopping_ l)) (media_available_ s)
    (match latest_keyframe_ s with Some _ => true | None => false end) (media_unavailable_reason_ s) true (max_peers_ l)
    (sessions_created_ t) (sessions_closed_ t) (signaling_errors_ t) (media_errors_ t) (last_close_reason_ t)
    (peer <$> (snd <$> map_to_list (sessions_ m))) (recently_closed_ m).

(** The pause of [cleanup_loop], in milliseconds. *)
Definition cleanup_interval (m : WebRtcManager) : Z := Z.min 1000 (Z.max 10 (connection_timeout_ (limits m) ÷ 2)).

(** *** Invariant of the protected state *)

(** No more sessions than allowed, every session ever created is counted as
    closed or still there, a bounded history, and a cached unit that a new
    viewer can start from. *)
Definition good (m : WebRtcManager) : Prop :=
  Z.of_nat (size (sessions_ m)) <= max_peers_ (limits m) /\
  u64 (sessions_created_ (tally m)) = u64 (sessions_closed_ (tally m) + Z.of_nat (size (sessions_ m))) /\
  (length (recently_closed_ m) <= 16)%nat /\
  (forall u, latest_keyframe_ (source m) = Some u -> keyframe u = true /\ media_available_ (source m) = true).

(** Sessions leave the map, into the hands of the caller. *)
Definition releases (m : WebRtcManager) (objects : list nat) (m' : WebRtcManager) : Prop :=
  sessions_ m' ⊆ sessions_ m /\
  (forall id i, sessions_ m !! id = Some i -> sessions_ m' !! id = Some i \/ i ∈ objects) /\
  (good m -> good m') /\ limits m' = limits m /\
  (latest_keyframe_ (source m) = None -> latest_keyframe_ (source m') = None).

Lemma releases_refl m : releases m [] m.
Proof. split_and!; auto. Qed.

Lemma u64_idem z : u64 (u64 z) = u64 z.
Proof. unfold u64. by rewrite Z.mod_mod. Qed.

Lemma good_signaling m : good m -> good (count_signaling_error m).
Proof. done. Qed.

Lemma good_media n m : good m -> good (count_media_errors n m).
Proof. done. Qed.

(** One session is taken out and counted. *)
Lemma release_one id i reason m : sessions_ m !! id = Some i ->
  releases m [i] (count_closed 1 reason (with_sessions (delete id (sessions_ m)) m)).
Proof.
  intros Hi. split_and!; [by apply delete_subseteq| |intros (H1 & H2 & H3 & H4)|done|done]; simpl.
  - intros id' j Hj. destruct (decide (id = id')) as [<-|Hne]; [right; set_solver|left; by rewrite lookup_delete_ne].
  - assert (Hs : size (sessions_ m) = S (size (delete id (sessions_ m)))).
    { rewrite <- (insert_delete_id (sessions_ m) id i Hi) at 1. by rewrite map_size_insert_None by apply lookup_delete_eq. }
    split_and!; simpl; [lia| |done|done]. rewrite H2. autorewrite with wrap. f_equal. lia.
Qed.

Lemma take_one_spec id m :
  releases m (match (take_one id m).1 with Some i => [i] | None => [] end) (take_one id m).2 /\
  (forall i, (take_one id m).1 = Some i -> sessions_ m !! id = Some i).
Proof.
  unfold take_one. destruct (sessions_ m !! id) as [i|] eqn:E; simpl.
  - split; [by apply release_one|]. by intros j [= <-].
  - split; [apply releases_refl|done].
Qed.

Lemma drop_failed_spec id m :
  releases m (match (drop_failed id m).1 with Some i => [i] | None => [] end) (drop_failed id m).2 /\
  (forall i, (drop_failed id m).1 = Some i -> sessions_ m !! id = Some i).
Proof.
  unfold drop_failed. cbn [sessions_ count_signaling_error with_tally].
  destruct (sessions_ m !! id) as [i|] eqn:E; simpl.
  - split; [|by intros j [= <-]]. exact (release_one id i "signaling_failure" (count_signaling_error m) E).
  - split; [exact (releases_refl (count_signaling_error m))|done].
Qed.

(** The stale sessions, each with its reason, leave the map. *)
Lemma take_stale_spec reason_of order m :
  NoDup order.*1 -> (forall id i, (id, i) ∈ order -> sessions_ m !! id = Some i) ->
  releases m (take_stale reason_of order m).1.*1 (take_stale reason_of order m).2 /\
  (forall id i, (id, i) ∈ order -> reason_of i <> "" -> sessions_ (take_stale reason_of order m).2 !! id = None).
Proof.
  revert m. induction order as [|[id i] order IH]; intros m Hd Ho; cbn [take_stale].
  { split; [apply releases_refl|]. intros id i H. by apply not_elem_of_nil in H. }
  rewrite fmap_cons, NoDup_cons in Hd. destruct Hd as [Hid Hd].
  destruct (bool_decide (reason_of i = "")) eqn:E; bools.
  - destruct (IH m Hd ltac:(intros; apply Ho; by right)) as [H1 H2]. split; [done|].
    intros id' i' [[= -> ->]|H]%elem_of_cons Hr; [done|by eapply H2].
  - set (m1 := count_closed 1 (reason_of i) (with_sessions (delete id (sessions_ m)) m)).
    assert (Hm1 : releases m [i] m1) by (apply release_one, Ho; left).
    destruct (IH m1 Hd) as [H1 H2].
    { intros id' i' H. unfold m1. simpl. rewrite lookup_delete_ne; [apply Ho; by right|].
      intros ->. apply Hid. apply list_elem_of_fmap. by exists (id', i'). }
    destruct (take_stale reason_of order m1) as [l m'] eqn:Et. cbn [fst snd fmap list_fmap] in *.
    destruct Hm1 as (A1 & A2 & A3 & A4 & A5), H1 as (B1 & B2 & B3 & B4 & B5). split.
    + split_and!; [by etrans| |auto|congruence|auto]. intros id' j Hj.
      destruct (A2 id' j Hj) as [H|H]; [|right; set_solver]. destruct (B2 id' j H); [by left|right; set_solver].
    + intros id' i' [[= -> ->]|H]%elem_of_cons Hr; [|by eapply H2].
      destruct (sessions_ m' !! id) as [j|] eqn:Ej; [|done]. exfalso.
      pose proof (lookup_weaken _ _ _ _ Ej B1) as Hj. unfold m1 in Hj. simpl in Hj. by rewrite lookup_delete_eq in Hj.
Qed.

Lemma take_all_spec reason m : releases m (take_all reason m).1 (take_all reason m).2 /\
  sessions_ (take_all reason m).2 = ∅.
Proof.
  unfold take_all. simpl. split; [|done]. split_and!; simpl; [apply map_empty_subseteq| |intros (H1 & H2 & H3 & H4)| |].
  - intros id i Hi. right. apply list_elem_of_fmap. exists (id, i). split; [done|by apply elem_of_map_to_list].
  - assert (Hlen : length (snd <$> map_to_list (sessions_ m)) = size (sessions_ m))
      by (by rewrite length_fmap, length_map_to_list).
    case_bool_decide as E; split_and!; simpl; rewrite ?map_size_empty; try done; try lia.
    + rewrite H2. rewrite <- Hlen, E. done.
    + rewrite H2, Hlen. autorewrite with wrap. f_equal. lia.
  - by case_bool_decide.
  - by case_bool_decide.
Qed.

Lemma forget_spec m : releases m [] (forget_keyframe m) /\ latest_keyframe_ (source (forget_keyframe m)) = None.
Proof. split; [|done]. split_and!; auto. intros (H1 & H2 & H3 & H4). split_and!; done. Qed.

Lemma end_shutdown_spec m : releases m (end_shutdown m).1 (end_shutdown m).2 /\
  sessions_ (end_shutdown m).2 = ∅ /\ latest_keyframe_ (source (end_shutdown m).2) = None.
Proof.
  unfold end_shutdown. destruct (take_all_spec "service_shutdown" m) as [(H1 & H2 & H3 & H4 & H5) H6].
  destruct (take_all "service_shutdown" m) as [l m']. cbn [fst snd] in *.
  split; [|done]. split; [exact H1|]. split; [exact H2|]. split; [|split; [exact H4|done]].
  intros Hg. apply (forget_spec m'). auto.
Qed.

Lemma set_media_spec available reason m :
  releases m (set_media_available available reason m).1 (set_media_available available reason m).2.
Proof.
  unfold set_media_available. case_match; [apply releases_refl|]. destruct available.
  - split_and!; auto. intros (H1 & H2 & H3 & H4). split_and!; try done. intros u Hu. split; [by apply (H4 u)|done].
  - set (m1 := with_source _ m). destruct (take_all_spec "source_media_unavailable" m1) as [(H1 & H2 & H3 & H4 & H5) _].
    split_and!; try done; [|by auto]. intros (G1 & G2 & G3 & G4). apply H3. by split_and!.
Qed.

Lemma publish_spec u m : let m' := (publish_locked u m).2 in
  sessions_ m' = sessions_ m /\ limits m' = limits m /\ (good m -> good m') /\ (stopping_ (limits m) = true -> m' = m).
Proof.
  unfold publish_locked. destruct (negb (enabled_ (limits m)) || stopping_ (limits m) || _) eqn:E; simpl; [done|]. bools.
  split_and!; [done|done| |congruence]. intros (G1 & G2 & G3 & G4). split_and!; try done. simpl. intros v Hv.
  split; [|done]. destruct (keyframe u) eqn:Ek; [by injection Hv as <-|]. destruct (discontinuity u); [done|]. by apply (G4 v).
Qed.

Lemma reserve_spec id object m : refuse m = None -> sessions_ m !! id = None ->
  let m' := (reserve id object true m).2 in
  sessions_ m' = <[id := object]> (sessions_ m) /\ limits m' = limits m /\ source m' = source m /\ (good m -> good m') /\
  stopping_ (limits m) = false.
Proof.
  intros Hr Hid. unfold reserve. rewrite Hr. simpl. split_and!; [done|done|done| |].
  - intros (G1 & G2 & G3 & G4). unfold good. simpl. rewrite map_size_insert_None by done. split_and!; [| |done|done].
    + unfold refuse in Hr. repeat case_match; try done. bools. lia.
    + rewrite u64_idem, <- u64_add_l, G2. autorewrite with wrap. f_equal. lia.
  - unfold refuse in Hr. repeat case_match; try done. by bools.
Qed.

Lemma keep16_length l : (length (keep16 l) <= 16)%nat.
Proof. unfold keep16. rewrite length_drop. lia. Qed.

Lemma good_remember p m : good m -> good (remember p m).
Proof. intros (H1 & H2 & H3 & H4). split_and!; try done. apply keep16_length. Qed.
End Manager.

(** ** All callers together *)

Module World.
Import Media Session Manager.

(** A call between two critical sections: [create_session] on its way through
    [accept_offer] to [activate_media], [remember_closed] before and after it
    has closed the session, and a unit on its way to a session. *)
Inductive Task :=
  | Offered (o : nat)
  | Waiting (o : nat) (w : OfferWorld)
  | Answering (o : nat) (w : OfferWorld)
  | Accepted (o : nat) (r : WebRtc.CreateSessionResult)
  | Activating (o : nat) (initial : option EncodedAccessUnit)
  | Remember (o : nat) (reason : string)
  | Snapshot (o : nat)
  | Deliver (o : nat) (u : EncodedAccessUnit).

(** The thread that calls [configure] and [shutdown]: the manager runs, is
    being shut down, or is shut down. *)
Inductive Control := Running | ShuttingDown | Down.

Record World := mkWorld {
  manager : WebRtcManager;
  heap : list WebRtcSession;
  tasks : list Task;
  control : Control;
}.

Definition initial (stale_timeout : Z) : World := mkWorld (make_manager stale_timeout) [] [] Down.

(** What the peer connection and the media worker do to a session by
    themselves; the other events are calls of the manager. *)
Definition spontaneous (e : Event) : bool :=
  match e with SignalingFailed _ | CloseWith _ | Activate _ _ | Enqueue _ => false | _ => true end.

Inductive Action :=
  | Create (drawn : list string) (created : bool) (now : Z)
  | Accept (k : nat) (w : OfferWorld)
  | Ready (k : nat)
  | TimeOut (k : nat)
  | Answer (k : nat)
  | Finish (k : nat)
  | ActivateMedia (k : nat) (thread_starts : bool)
  | Delete (id : string)
  | Cleanup (now : Z)
  | Close (k : nat)
  | Keep (k : nat) (now : Z) (table : option (list (string * option string)))
      (pair : option (option (string * option string))) (local_address : option string)
  | Publish (u : EncodedAccessUnit)
  | Hand (k : nat)
  | SetMedia (available : bool) (reason : string)
  | Happens (o : nat) (e : Event)
  | ShutdownBegins
  | ShutdownEnds
  | Configure (c : Cfg.WebrtcConfig).

(** Task [k] is replaced by [ts]. *)
Definition become (k : nat) (ts : list Task) (l : list Task) : list Task := take k l ++ ts ++ drop (S k) l.

Definition remembers (reason : string) (objects : list nat) : list Task := (fun i => Remember i reason) <$> objects.

(** A change of one session; what it adds to its error count goes to the
    manager's counter. *)
Definition change (i : nat) (s s' : WebRtcSession) (w : World) : World :=
  mkWorld (count_media_errors (u64 (media_errors s' - media_errors s)) (manager w)) (<[i := s']> (heap w)) (tasks w)
    (control w).
Definition set_tasks (ts : list Task) (w : World) : World := mkWorld (manager w) (heap w) ts (control w).
Definition set_manager (m : WebRtcManager) (w : World) : World := mkWorld m (heap w) (tasks w) (control w).

Definition milliseconds : Z := 1000000.
Definition reason_at (now : Z) (w : World) (i : nat) : string :=
  match heap w !! i with
  | Some s => stale_reason now (connection_timeout_ (limits (manager w)) * milliseconds) s
  | None => ""
  end.

Definition task (k : nat) (w : World) : option Task := tasks w !! k.
Definition object (i : nat) (w : World) : option WebRtcSession := heap w !! i.

(** One step; [None] when it is not possible. *)
Definition perform (a : Action) (w : World) : option World :=
  let m := manager w in
  let ts := tasks w in
  match a with
  | Create drawn created now =>
    match refuse m with
    | Some _ => Some w
    | None =>
      id ← pick_id drawn m;
      match make_session id (media_queue_capacity_ (limits m)) now with
      | inr s =>
        if created then
          Some (mkWorld (reserve id (length (heap w)) true m).2 (heap w ++ [s]) (ts ++ [Offered (length (heap w))]) (control w))
        else Some (set_manager (reserve id (length (heap w)) false m).2 w)
      | inl _ => Some (set_manager (reserve id (length (heap w)) false m).2 w)
      end
    end
  | Accept k o =>
    match task k w with
    | Some (Offered i) =>
      s ← object i w;
      match offer_phase o s with
      | Some r => Some (set_tasks (become k [Accepted i r] ts) w)
      | None => Some (set_tasks (become k [Waiting i o] ts) w)
      end
    | _ => None
    end
  | Ready k =>
    match task k w with
    | Some (Waiting i o) =>
      s ← object i w;
      if negb (answerable s) then None
      else if failed_ (flags s) || closed_ (flags s) then Some (set_tasks (become k [Accepted i gone] ts) w)
      else Some (set_tasks (become k [Answering i o] ts) (change i s (active_at (ready_at o) s) w))
    | _ => None
    end
  | TimeOut k =>
    match task k w with
    | Some (Waiting i o) =>
      s ← object i w;
      if answerable s then None
      else Some (set_tasks (become k [Accepted i (refusal WebRtc.GatheringTimeout "ICE gathering timed out")] ts) w)
    | _ => None
    end
  | Answer k =>
    match task k w with
    | Some (Answering i o) =>
      s ← object i w;
      let '(r, s') := answer_phase (mkOfferWorld (parsed o) (add_track o) (set_remote o) [] (timed_out o) (ready_at o)
                                      (local o) [] (answered_at o)) s in
      Some (set_tasks (become k [Accepted i r] ts) (change i s s' w))
    | _ => None
    end
  | Finish k =>
    match task k w with
    | Some (Accepted i r) =>
      s ← object i w;
      if succeeded r then
        match finalize (id_ s) i m with
        | Some kf => Some (set_tasks (become k [Activating i kf] ts) w)
        | None => Some (set_tasks (become k [] ts) (change i s (Session.close s) w))
        end
      else
        let '(found, m') := drop_failed (id_ s) m in
        match found with
        | None => Some (set_tasks (become k [] ts) (set_manager m' w))
        | Some j =>
          s' ← object j w;
          Some (set_tasks (become k [Remember j "signaling_failure"] ts)
                  (change j s' (record_failure "signaling" (WebRtc.message r) true s') (set_manager m' w)))
        end
    | _ => None
    end
  | ActivateMedia k starts =>
    match task k w with
    | Some (Activating i kf) =>
      s ← object i w;
      let '(ok, s') := activate_media kf starts s in
      if ok then Some (set_tasks (become k [] ts) (change i s s' w))
      else
        let '(found, m') := take_one (id_ s) m in
        Some (set_tasks (become k (match found with Some j => [Remember j "client_delete"] | None => [] end) ts)
                (change i s s' (set_manager m' w)))
    | _ => None
    end
  | Delete id =>
    let '(found, m') := take_one id m in
    Some (set_tasks (ts ++ match found with Some j => [Remember j "client_delete"] | None => [] end) (set_manager m' w))
  | Cleanup now =>
    let '(stale, m') := take_stale (reason_at now w) (map_to_list (sessions_ m)) m in
    Some (set_tasks (ts ++ ((fun x => Remember x.1 x.2) <$> stale)) (set_manager m' w))
  | Close k =>
    match task k w with
    | Some (Remember i reason) =>
      s ← object i w;
      Some (set_tasks (become k [Snapshot i] ts) (change i s (close_with_reason reason s) w))
    | _ => None
    end
  | Keep k now table selected address =>
    match task k w with
    | Some (Snapshot i) =>
      s ← object i w;
      Some (set_tasks (become k [] ts) (set_manager (remember (Session.diagnostics now table selected address s) m) w))
    | _ => None
    end
  | Publish u =>
    let '(objects, m') := publish_locked u m in
    Some (set_tasks (ts ++ ((fun i => Deliver i u) <$> objects)) (set_manager m' w))
  | Hand k =>
    match task k w with
    | Some (Deliver i u) =>
      s ← object i w;
      Some (set_tasks (become k [] ts) (change i s (enqueue u s) w))
    | _ => None
    end
  | SetMedia available reason =>
    let '(objects, m') := set_media_available available reason m in
    Some (set_tasks (ts ++ remembers "source_media_unavailable" objects) (set_manager m' w))
  | Happens i e =>
    s ← object i w;
    if spontaneous e then Some (change i s (handle s e) w) else None
  | ShutdownBegins => Some (mkWorld (begin_shutdown m) (heap w) ts ShuttingDown)
  | ShutdownEnds =>
    match control w with
    | ShuttingDown =>
      let '(objects, m') := end_shutdown m in
      Some (mkWorld m' (heap w) (ts ++ remembers "service_shutdown" objects) Down)
    | _ => None
    end
  | Configure c =>
    match control w with
    | Down => Some (mkWorld (apply_config c m) (heap w) ts Running)
    | _ => None
    end
  end.

(** An interleaving: every action is possible when its turn comes. *)
Fixpoint execute (actions : list Action) (w : World) : option World :=
  match actions with
  | [] => Some w
  | a :: rest => w' ← perform a w; execute rest w'
  end.

(** *** Every session has an owner *)

(** A session changes but keeps its id, stays closed, and stays well formed. *)
Definition evolves (s s' : WebRtcSession) : Prop :=
  id_ s' = id_ s /\ (cleanup_started_ (flags s) = true -> cleanup_started_ (flags s') = true) /\ Session.inv s'.

Definition target (t : Task) : nat :=
  match t with
  | Offered i | Waiting i _ | Answering i _ | Accepted i _ | Activating i _ | Remember i _ | Snapshot i | Deliver i _ => i
  end.
Definition remembering (i : nat) (ts : list Task) : Prop := exists reason, Remember i reason ∈ ts.

(** The map points to sessions under their own ids, and a session that is not
    in the map is closed or about to be. *)
Definition owned (m : WebRtcManager) (h : list WebRtcSession) (ts : list Task) : Prop :=
  (forall id i, sessions_ m !! id = Some i -> exists s, h !! i = Some s /\ id_ s = id) /\
  (forall i s, h !! i = Some s ->
     cleanup_started_ (flags s) = true \/ sessions_ m !! id_ s = Some i \/ remembering i ts) /\
  Forall Session.inv h /\ Forall (fun t => (target t < length h)%nat) ts.

Definition inv (w : World) : Prop :=
  good (manager w) /\ owned (manager w) (heap w) (tasks w) /\
  (control w <> Running -> stopping_ (limits (manager w)) = true) /\
  (control w = Down -> sessions_ (manager w) = ∅ /\ latest_keyframe_ (source (manager w)) = None).

Lemma handle_evolves s e : Session.inv s -> evolves s (handle s e).
Proof.
  intros Hi. split_and!; [| |by apply inv_handle].
  - destruct e as [| |[]|[]|[]| | | |r|k []| | |]; simpl;
      unfold record_failure, close_with_reason, activate_media, enqueue, media_failed, take_unit,
        on_state_change, on_ice_state_change, record_media_error, record_failure;
      repeat (case_match; simplify_eq/=); done.
  - intros Hc. pose proof (sealed_handle s e Hi Hc) as E. unfold sealed in E. congruence.
Qed.

Lemma owned_change m h ts i s s' : owned m h ts -> h !! i = Some s -> evolves s s' -> owned m (<[i := s']> h) ts.
Proof.
  intros (H1 & H2 & H3 & H4) Hi (E1 & E2 & E3). pose proof (lookup_lt_Some _ _ _ Hi) as Hlt. split_and!.
  - intros id j Hj. destruct (H1 id j Hj) as (t & Ht & Hid). destruct (decide (j = i)) as [->|Hne].
    + rewrite list_lookup_insert_eq by done. exists s'. split; [done|]. rewrite E1. congruence.
    + rewrite list_lookup_insert_ne by done. eauto.
  - intros j t Ht. destruct (decide (j = i)) as [->|Hne].
    + rewrite list_lookup_insert_eq in Ht by done. injection Ht as <-. rewrite E1.
      destruct (H2 i s Hi) as [?|[?|?]]; auto.
    + rewrite list_lookup_insert_ne in Ht by done. auto.
  - by apply Forall_insert.
  - eapply Forall_impl; [exact H4|]. intros t. by rewrite length_insert.
Qed.

(** The tasks may change as long as no session loses the one that closes it. *)
Lemma owned_tasks m h ts ts' : owned m h ts -> (forall i, remembering i ts -> remembering i ts' \/
    exists s, h !! i = Some s /\ cleanup_started_ (flags s) = true) ->
  Forall (fun t => (target t < length h)%nat) ts' -> owned m h ts'.
Proof.
  intros (H1 & H2 & H3 & H4) Hr Hf. split_and!; [done| |done|done]. intros i s Hi.
  destruct (H2 i s Hi) as [?|[?|Hm]]; [by left|by right; left|]. destruct (Hr i Hm) as [?|(t & Ht & ?)]; [by right; right|left; congruence].
Qed.

Lemma owned_release m m' h ts objects ts' : owned m h ts -> releases m objects m' ->
  (forall i, remembering i ts \/ i ∈ objects -> remembering i ts' ) ->
  Forall (fun t => (target t < length h)%nat) ts' -> owned m' h ts'.
Proof.
  intros (H1 & H2 & H3 & H4) (R1 & R2 & _) Ht Hf. split_and!; [|..|done|done].
  - intros id i Hi. apply H1. by eapply lookup_weaken.
  - intros i s Hi. destruct (H2 i s Hi) as [?|[Hm|?]]; [by left| |right; right; auto].
    destruct (R2 _ _ Hm); auto.
Qed.

(** Replacing task [k] by others. *)
Lemma elem_become k ts l t x : l !! k = Some t -> x ∈ become k ts l <-> x ∈ ts \/ x ∈ take k l \/ x ∈ drop (S k) l.
Proof. intros _. unfold become. rewrite !elem_of_app. tauto. Qed.

Lemma elem_split k (l : list Task) t x : l !! k = Some t -> x ∈ l <-> x = t \/ x ∈ take k l \/ x ∈ drop (S k) l.
Proof. intros H. rewrite <- (take_drop_middle l k t H) at 1. rewrite elem_of_app, elem_of_cons. tauto. Qed.

Lemma become_keeps k ts l t i : l !! k = Some t -> (forall reason, t <> Remember i reason) ->
  remembering i l -> remembering i (become k ts l).
Proof.
  intros Hk Ht [r Hr]. exists r. rewrite (elem_split k l t) in Hr by done. rewrite (elem_become k ts l t) by done.
  destruct Hr as [E|Hr]; [|by right]. by destruct (Ht r).
Qed.

Lemma become_Forall (P : Task -> Prop) k ts l : Forall P l -> Forall P ts -> Forall P (become k ts l).
Proof.
  intros Hl Ht. unfold become. rewrite !Forall_app. split_and!; [by apply Forall_take|done|by apply Forall_drop].
Qed.

(** The three kinds of change that keep the invariant. *)
Lemma inv_session w i s s' : inv w -> object i w = Some s -> evolves s s' -> inv (change i s s' w).
Proof.
  intros (G & O & C1 & C2) Hi He. split; [by apply good_media|]. split; [|done]. by apply (owned_change _ _ _ i s s').
Qed.

Lemma inv_tasks w ts' : inv w -> (forall i, remembering i (tasks w) -> remembering i ts' \/
    exists s, heap w !! i = Some s /\ cleanup_started_ (flags s) = true) ->
  Forall (fun t => (target t < length (heap w))%nat) ts' -> inv (set_tasks ts' w).
Proof. intros (G & O & C) Hr Hf. split; [done|]. split; [|done]. by apply (owned_tasks _ _ (tasks w)). Qed.

Lemma inv_release w objects m' ts' : inv w -> releases (manager w) objects m' ->
  (forall i, remembering i (tasks w) \/ i ∈ objects -> remembering i ts') ->
  Forall (fun t => (target t < length (heap w))%nat) ts' -> inv (set_tasks ts' (set_manager m' w)).
Proof.
  intros (G & O & C1 & C2) HR Ht Hf. split; [by apply HR|].
  split; [by apply (owned_release (manager w) _ _ (tasks w) objects)|].
  destruct HR as (R1 & _ & _ & R4 & R5). split; cbn [control manager set_tasks set_manager].
  - rewrite R4. done.
  - intros Hd. destruct (C2 Hd) as [Hs Hk]. split; [|by apply R5]. rewrite Hs in R1.
    apply map_eq. intros id. rewrite lookup_empty. apply eq_None_not_Some. intros [i Hi].
    by eapply lookup_weaken in Hi; [|exact R1].
Qed.

(** A task gives way to tasks on the same session. *)
Lemma inv_become w k t ts : inv w -> task k w = Some t -> (forall i reason, t <> Remember i reason) ->
  Forall (fun t => (target t < length (heap w))%nat) ts -> inv (set_tasks (become k ts (tasks w)) w).
Proof.
  intros Hi Hk Ht Hf. apply inv_tasks; [done| |].
  - intros i Hr. left. eapply become_keeps; eauto.
  - apply become_Forall; [apply Hi|done].
Qed.

Lemma target_valid w k t : inv w -> task k w = Some t -> (target t < length (heap w))%nat.
Proof.
  intros (_ & (_ & _ & _ & H) & _) Hk. rewrite Forall_forall in H. apply H. by eapply list_elem_of_lookup_2.
Qed.

Lemma session_inv w i s : inv w -> object i w = Some s -> Session.inv s.
Proof.
  intros (_ & (_ & _ & H & _) & _) Hi. rewrite Forall_forall in H. apply H. by eapply list_elem_of_lookup_2.
Qed.

(** The objects that leave the map exist. *)
Lemma released_valid w objects m' : inv w -> (forall i, i ∈ objects -> exists id, sessions_ (manager w) !! id = Some i) ->
  releases (manager w) objects m' -> Forall (fun i => (i < length (heap w))%nat) objects.
Proof.
  intros (_ & (H & _) & _) Ho _. apply Forall_forall. intros i Hi. destruct (Ho i Hi) as [id Hid].
  destruct (H id i Hid) as (s & Hs & _). by eapply lookup_lt_Some.
Qed.

Lemma remembers_Forall (P : nat -> Prop) reason objects : Forall P objects -> Forall (fun t => P (target t)) (remembers reason objects).
Proof. intros H. apply Forall_fmap. by eapply Forall_impl. Qed.

Lemma remembers_elem i reason objects : i ∈ objects -> remembering i (remembers reason objects).
Proof. intros H. exists reason. apply list_elem_of_fmap. by exists i. Qed.

Lemma remembering_app i l k : remembering i l \/ remembering i k -> remembering i (l ++ k).
Proof. intros [[r H]|[r H]]; exists r; apply elem_of_app; auto. Qed.

(** Sessions taken out of the map by a caller that will close them. *)
Lemma inv_take w objects m' reason : inv w -> releases (manager w) objects m' ->
  (forall i, i ∈ objects -> exists id, sessions_ (manager w) !! id = Some i) ->
  inv (set_tasks (tasks w ++ remembers reason objects) (set_manager m' w)).
Proof.
  intros Hi HR Ho. apply (inv_release w objects); [done|done| |].
  - intros i [H|H]; apply remembering_app; [by left|right; by apply remembers_elem].
  - apply Forall_app. split; [apply Hi|]. apply (remembers_Forall (fun i => (i < length (heap w))%nat)).
    by eapply released_valid.
Qed.

Lemma all_objects m i : i ∈ (snd <$> map_to_list (sessions_ m)) -> exists id, sessions_ m !! id = Some i.
Proof. intros ([id j] & -> & H)%list_elem_of_fmap. exists id. by apply elem_of_map_to_list. Qed.

(** Other fields of a session than those closing is about. *)
Lemma active_evolves now s : Session.inv s -> evolves s (active_at now s).
Proof. intros H. by split_and!. Qed.

Lemma answer_evolves o s : Session.inv s -> while_answering o = [] -> evolves s (answer_phase o s).2.
Proof.
  intros H Ho. unfold answer_phase. rewrite Ho. cbn [handle_all foldl].
  destruct (local o) as [[]|[[[] ?]|]]; try (by split_and!).
  destruct (closed_ (flags s) || failed_ (flags s)); by split_and!.
Qed.

(** A new session. *)
Lemma inv_create w id s now : inv w -> refuse (manager w) = None -> sessions_ (manager w) !! id = None ->
  make_session id (media_queue_capacity_ (limits (manager w))) now = inr s ->
  inv (mkWorld (reserve id (length (heap w)) true (manager w)).2 (heap w ++ [s])
         (tasks w ++ [Offered (length (heap w))]) (control w)).
Proof.
  intros (G & (H1 & H2 & H3 & H4) & C1 & C2) Hr Hid Hs.
  destruct (reserve_spec id (length (heap w)) (manager w) Hr Hid) as (E1 & E2 & E3 & E4 & E5).
  assert (Hctl : control w = Running) by (destruct (control w); [done|by rewrite C1 in E5..]).
  assert (Hids : id_ s = id) by (unfold make_session in Hs; case_match; [done|by injection Hs as <-]).
  split_and!; cbn [manager heap tasks control]; [by apply E4| |by rewrite Hctl|by rewrite Hctl].
  unfold owned. rewrite E1. split_and!.
  - intros id' i Hi. destruct (decide (id = id')) as [<-|Hne].
    + rewrite lookup_insert_eq in Hi. injection Hi as <-. exists s. by rewrite list_lookup_middle.
    + rewrite lookup_insert_ne in Hi by done. destruct (H1 id' i Hi) as (t & Ht & ?). exists t. by rewrite lookup_app_l_Some with (x := t).
  - intros i t [Ht|[Hge Ht]]%lookup_app_Some.
    + destruct (H2 i t Ht) as [?|[Hm|[r Hm]]]; [by left| |right; right; exists r; set_solver].
      right; left. rewrite lookup_insert_ne; [done|]. intros ->. congruence.
    + apply list_lookup_singleton_Some in Ht as [Ht <-]. right; left. rewrite Hids, lookup_insert_eq. f_equal. lia.
  - apply Forall_app. split; [done|]. apply Forall_singleton. by eapply inv_fresh.
  - rewrite length_app. apply Forall_app. split; [eapply Forall_impl; [exact H4|]; simpl; intros; lia|].
    apply Forall_singleton. simpl. lia.
Qed.

(** The end of [create_session] after the offer was answered or refused. *)
Lemma inv_finish w k w' : inv w -> perform (Finish k) w = Some w' -> inv w'.
Proof.
  intros Hi. cbn [perform]. destruct (task k w) as [[| | |i r| | | |]|] eqn:Hk; try done.
  destruct (object i w) as [s|] eqn:Hs; cbn [mbind option_bind]; [|done].
  pose proof (session_inv w i s Hi Hs) as Hsi. destruct (succeeded r).
  - destruct (finalize (id_ s) i (manager w)) as [kf|]; intros [= <-].
    + eapply inv_become; [done|exact Hk|done|]. apply Forall_singleton. by eapply lookup_lt_Some.
    + refine (inv_become (change i s (Session.close s) w) k _ [] _ Hk _ _); [|done|done].
      apply inv_session; [done|done|]. by apply (handle_evolves s (CloseWith _)).
  - destruct (drop_failed_spec (id_ s) (manager w)) as [HR Hin].
    destruct (drop_failed (id_ s) (manager w)) as [[j|] m'] eqn:Ed; cbn [fst snd] in *.
    + destruct (object j w) as [s'|] eqn:Hj; cbn [mbind option_bind]; [|done]. intros [= <-].
      assert (Hw : inv (set_tasks (become k [Remember j "signaling_failure"] (tasks w)) (set_manager m' w))).
      { apply (inv_release w [j]); [done|done| |].
        - intros x [H|H]; [by eapply become_keeps|]. apply list_elem_of_singleton in H as ->.
          exists "signaling_failure". erewrite elem_become by exact Hk. set_solver.
        - apply become_Forall; [apply Hi|]. apply Forall_singleton. by eapply lookup_lt_Some. }
      refine (inv_session _ j s' _ Hw Hj _). apply (handle_evolves s' (SignalingFailed _)). by eapply session_inv.
    + intros [= <-]. apply (inv_release w []); [done|done| |].
      * intros x [H|H]; [by eapply become_keeps|by apply not_elem_of_nil in H].
      * apply become_Forall; [apply Hi|done].
Qed.

Lemma inv_activate w k starts w' : inv w -> perform (ActivateMedia k starts) w = Some w' -> inv w'.
Proof.
  intros Hi. cbn [perform]. destruct (task k w) as [[| | | |i kf| | |]|] eqn:Hk; try done.
  destruct (object i w) as [s|] eqn:Hs; cbn [mbind option_bind]; [|done].
  pose proof (handle_evolves s (Activate kf starts) (session_inv w i s Hi Hs)) as He. cbn [handle] in He.
  destruct (activate_media kf starts s) as [[] s']; cbn [snd] in He.
  - intros [= <-]. refine (inv_become (change i s s' w) k _ [] _ Hk _ _); [|done|done]. by apply inv_session.
  - destruct (take_one_spec (id_ s) (manager w)) as [HR Hin].
    destruct (take_one (id_ s) (manager w)) as [found m'] eqn:Et; cbn [fst snd] in *. intros [= <-].
    refine (inv_session (set_tasks (become k (match found with Some j => [Remember j "client_delete"] | None => [] end)
      (tasks w)) (set_manager m' w)) i s s' _ Hs He).
    apply (inv_release w (match found with Some j => [j] | None => [] end)); [done|done| |].
    + intros x [H|H]; [by eapply become_keeps|]. destruct found as [j|]; [|by apply not_elem_of_nil in H].
      apply list_elem_of_singleton in H as ->. exists "client_delete". erewrite elem_become by exact Hk. set_solver.
    + apply become_Forall; [apply Hi|]. destruct found as [j|]; [|done]. apply Forall_singleton.
      destruct Hi as (_ & (H1 & _) & _). destruct (H1 _ j (Hin j eq_refl)) as (t & Ht & _). by eapply lookup_lt_Some.
Qed.

Lemma inv_close w k w' : inv w -> perform (Close k) w = Some w' -> inv w'.
Proof.
  intros Hi. cbn [perform]. destruct (task k w) as [[| | | | |i reason| |]|] eqn:Hk; try done.
  destruct (object i w) as [s|] eqn:Hs; cbn [mbind option_bind]; [|done]. intros [= <-].
  pose proof (session_inv w i s Hi Hs) as Hsi. pose proof (lookup_lt_Some _ _ _ Hs) as Hlt.
  apply (inv_tasks (change i s (close_with_reason reason s) w)).
  - apply inv_session; [done|done|]. by apply (handle_evolves s (CloseWith reason)).
  - intros x [r Hr]. cbn [tasks change] in *. rewrite (elem_split k _ _ _ Hk) in Hr. destruct Hr as [[= -> ->]|Hr].
    + right. exists (close_with_reason reason s). cbn [heap change]. rewrite list_lookup_insert_eq by done.
      split; [done|]. by apply close_seals.
    + left. exists r. erewrite elem_become by exact Hk. by right.
  - apply become_Forall; [|apply Forall_singleton]; cbn [heap change]; rewrite length_insert; [apply Hi|done].
Qed.

(** The task and the session an action works on. *)
Ltac at_task Hk Hs :=
  match goal with |- context [task ?k ?w] => destruct (task k w) as [[]|] eqn:Hk end; try discriminate;
  match goal with |- context [object ?i ?w] => destruct (object i w) as [s|] eqn:Hs end; cbn [mbind option_bind];
  [|discriminate].

(** The steps of [create_session] up to the result of [accept_offer]. *)
Lemma inv_signaling a w w' : inv w -> perform a w = Some w' ->
  match a with Create _ _ _ | Accept _ _ | Ready _ | TimeOut _ | Answer _ => inv w' | _ => True end.
Proof.
  intros Hi. destruct a as [drawn created now|k o|k|k|k| | | | | | | | | | | | |]; try done; cbn [perform].
  - destruct (refuse (manager w)) eqn:Er; [by intros [= <-]|].
    destruct (pick_id drawn (manager w)) as [id|] eqn:Ep; cbn [mbind option_bind]; [|done].
    apply List.find_some in Ep as [_ Ep]. bools.
    assert (Hno : inv (set_manager (reserve id (length (heap w)) false (manager w)).2 w))
      by (unfold reserve; rewrite Er; exact Hi).
    destruct (make_session _ _ now) as [e|s] eqn:Es; [by intros [= <-]|]. destruct created; intros [= <-]; [|done].
    by eapply inv_create.
  - at_task Hk Hs. destruct (offer_phase o s); intros [= <-]; (eapply inv_become; [done|exact Hk|done|]);
      apply Forall_singleton; by eapply lookup_lt_Some.
  - at_task Hk Hs. destruct (negb (answerable s)); [done|]. pose proof (lookup_lt_Some _ _ _ Hs) as Hlt.
    destruct (failed_ _ || _); intros [= <-].
    + eapply inv_become; [done|exact Hk|done|]. by apply Forall_singleton.
    + refine (inv_become (change _ s (active_at _ s) w) k _ _ _ Hk _ _); [|done|].
      * apply inv_session; [done|done|]. apply active_evolves. by eapply session_inv.
      * apply Forall_singleton. cbn [heap change target]. by rewrite length_insert.
  - at_task Hk Hs. destruct (answerable s); [done|]. intros [= <-]. eapply inv_become; [done|exact Hk|done|].
    apply Forall_singleton. by eapply lookup_lt_Some.
  - at_task Hk Hs. set (o' := mkOfferWorld _ _ _ _ _ _ _ _ _).
    pose proof (answer_evolves o' s (session_inv w _ s Hi Hs) eq_refl) as He.
    destruct (answer_phase o' s) as [r s']. intros [= <-].
    refine (inv_become (change _ s s' w) k _ _ _ Hk _ _); [by apply inv_session|done|].
    apply Forall_singleton. cbn [heap change target]. rewrite length_insert. by eapply lookup_lt_Some.
Qed.

Lemma inv_stale w now w' : inv w -> perform (Cleanup now) w = Some w' -> inv w'.
Proof.
  intros Hi. cbn [perform].
  destruct (take_stale_spec (reason_at now w) (map_to_list (sessions_ (manager w))) (manager w)) as [HR _].
  { apply NoDup_fst_map_to_list. } { intros id i. apply elem_of_map_to_list. }
  assert (Hin : forall order m i, i ∈ (take_stale (reason_at now w) order m).1.*1 -> i ∈ order.*2).
  { induction order as [|[id j] order IH]; intros m i; cbn [take_stale]; [done|].
    case_match; [intros Hx; right; by eapply IH|]. specialize (IH (count_closed 1 (reason_at now w j)
      (with_sessions (delete id (sessions_ m)) m)) i). destruct (take_stale _ order _). cbn in *. set_solver. }
  specialize (Hin (map_to_list (sessions_ (manager w))) (manager w)).
  destruct (take_stale _ _ _) as [stale m']. cbn [fst snd] in *. intros [= <-].
  apply (inv_release w stale.*1); [done|done| |].
  - intros i [H|([j r] & -> & H)%list_elem_of_fmap]; apply remembering_app; [by left|right].
    exists r. apply list_elem_of_fmap. by exists (j, r).
  - apply Forall_app. split; [apply Hi|]. apply Forall_fmap, Forall_forall. intros [j r] Hj. simpl.
    destruct (all_objects (manager w) j) as [id Hid]; [apply Hin, list_elem_of_fmap; by exists (j, r)|].
    destruct Hi as (_ & (H1 & _) & _). destruct (H1 id j Hid) as (t & Ht & _). by eapply lookup_lt_Some.
Qed.

Lemma inv_shutdown w : inv w -> control w = ShuttingDown ->
  inv (mkWorld (end_shutdown (manager w)).2 (heap w) (tasks w ++ remembers "service_shutdown" (end_shutdown (manager w)).1) Down).
Proof.
  intros Hi Hc. destruct (end_shutdown_spec (manager w)) as (HR & He & Hk).
  assert (Hstop : stopping_ (limits (manager w)) = true) by (apply Hi; by rewrite Hc).
  destruct (inv_take w _ _ "service_shutdown" Hi HR) as (G & O & _).
  { intros i. unfold end_shutdown, take_all. apply all_objects. }
  split; [exact G|]. split; [exact O|]. split; [intros _|done]. cbn [manager]. destruct HR as (_ & _ & _ & -> & _). done.
Qed.

Lemma inv_perform a w w' : inv w -> perform a w = Some w' -> inv w'.
Proof.
  intros Hi Hp. pose proof (inv_signaling a w w' Hi Hp) as Hsig. revert Hp.
  destruct a as [| | | | |k|k starts|id|now|k|k now table sel addr|u|k|available reason|i e| | |c]; try done;
    [by apply inv_finish|by apply inv_activate| |by apply inv_stale|by apply inv_close|..]; cbn [perform].
  - destruct (take_one_spec id (manager w)) as [HR Hin].
    destruct (take_one id (manager w)) as [[j|] m']; cbn [fst snd] in *; intros [= <-].
    + apply (inv_take w [j] m' "client_delete"); [done|done|]. intros i Hj. apply list_elem_of_singleton in Hj as ->. eauto.
    + apply (inv_take w [] m' "client_delete"); [done|done|]. intros i Hj. by apply not_elem_of_nil in Hj.
  - at_task Hk Hs. intros [= <-]. eapply (inv_become (set_manager _ w)); [|exact Hk|done|done].
    destruct Hi as (G & O & C). split; [by apply good_remember|done].
  - destruct (publish_spec u (manager w)) as (E1 & E2 & E3 & E4).
    assert (Hin : forall i, i ∈ (publish_locked u (manager w)).1 -> exists id, sessions_ (manager w) !! id = Some i).
    { unfold publish_locked. case_match; simpl; [intros i H2; by apply not_elem_of_nil in H2|apply all_objects]. }
    destruct (publish_locked u (manager w)) as [objects m']. cbn [fst snd] in *. intros [= <-].
    assert (Hw : inv (set_manager m' w)).
    { destruct Hi as (G & (H1 & H2 & H3 & H4) & C1 & C2).
      split; [by apply E3|]. split; [split_and!; cbn [manager set_manager]; rewrite ?E1; done|].
      cbn [manager control set_manager]. rewrite E2. split; [done|]. intros Hd. rewrite E4; [auto|]. apply C1. by rewrite Hd. }
    apply inv_tasks; [done|intros i Hr; left; apply remembering_app; by left|].
    apply Forall_app. split; [apply Hw|]. apply Forall_fmap, Forall_forall. intros i Ho. simpl.
    destruct (Hin i Ho) as [id Hid]. destruct Hi as (_ & (H1 & _) & _). destruct (H1 id i Hid) as (t & Ht & _).
    by eapply lookup_lt_Some.
  - at_task Hk Hs. intros [= <-]. eapply (inv_become (change _ s _ w)); [|exact Hk|done|done].
    apply inv_session; [done|done|]. apply (handle_evolves s (Enqueue _)). by eapply session_inv.
  - pose proof (set_media_spec available reason (manager w)) as HR.
    assert (Hin : forall i, i ∈ (set_media_available available reason (manager w)).1 -> exists id, sessions_ (manager w) !! id = Some i).
    { unfold set_media_available. case_match; [|case_match]; cbn; try (intros i Hn; by apply not_elem_of_nil in Hn).
      apply all_objects. }
    destruct (set_media_available available reason (manager w)) as [objects m']. intros [= <-]. by apply (inv_take w objects).
  - destruct (object i w) as [s|] eqn:Hs; cbn [mbind option_bind]; [|done]. destruct (spontaneous e); [|done]. intros [= <-].
    apply inv_session; [done|done|]. apply handle_evolves. by eapply session_inv.
  - intros [= <-]. destruct Hi as (G & O & C1 & C2). by split_and!.
  - destruct (control w) eqn:Hc; try done. pose proof (inv_shutdown w Hi Hc) as Hw.
    destruct (end_shutdown (manager w)) as [objects m']. by intros [= <-].
  - destruct (control w) eqn:Hc; try done. intros [= <-]. destruct Hi as (G & O & C1 & C2). destruct (C2 Hc) as [Hs Hk].
    split_and!; [|done|done|done]. destruct G as (G1 & G2 & G3 & G4). split_and!; try done. cbn -[u64]. rewrite Hs, map_size_empty.
    apply u64_range.
Qed.

Lemma manager_inv_execute actions w w' : inv w -> execute actions w = Some w' -> inv w'.
Proof.
  revert w. induction actions as [|a actions IH]; intros w Hi; cbn [execute]; [by intros [= <-]|].
  destruct (perform a w) as [w1|] eqn:E; cbn [mbind option_bind]; [|done]. apply IH. by eapply inv_perform.
Qed.

Lemma inv_initial t : inv (initial t).
Proof.
  split; [split_and!; [vm_compute; discriminate|vm_compute; reflexivity|simpl; lia|done]|].
  split; [|done]. split_and!; [intros id i H|intros i s H|done|done].
  - cbn in H. by rewrite lookup_empty in H.
  - cbn in H. by rewrite lookup_nil in H.
Qed.

(** *** Shutting down *)

Definition all_closed (w : World) : Prop :=
  Forall (fun s => cleanup_started_ (flags s) = true /\ peer_ s = false /\ media_worker_ s = false /\
                   media_running_ s = false) (heap w).

Lemma down_closed w : inv w -> control w = Down -> (forall i reason, Remember i reason ∉ tasks w) -> all_closed w.
Proof.
  intros Hi Hd Ht. apply Forall_forall. intros s Hs. apply list_elem_of_lookup in Hs as [i Hs].
  pose proof (session_inv w i s Hi Hs) as [_ Hc]. destruct Hi as (_ & (_ & H2 & _) & _ & C2). destruct (C2 Hd) as [E _].
  assert (Hcl : cleanup_started_ (flags s) = true).
  { destruct (H2 i s Hs) as [?|[Hm|[r Hr]]]; [done| |by destruct (Ht i r)]. by rewrite E, lookup_empty in Hm. }
  rewrite Hcl in Hc. naive_solver.
Qed.

Definition to_close (ts : list Task) : nat := length (List.filter (fun t => match t with Remember _ _ => true | _ => false end) ts).

Lemma close_progress n w : inv w -> control w = Down -> to_close (tasks w) = n ->
  exists actions w', execute actions w = Some w' /\ control w' = Down /\ (forall i reason, Remember i reason ∉ tasks w') /\
    length (heap w') = length (heap w) /\ length actions = n /\ Forall (fun a => exists k, a = Close k) actions.
Proof.
  revert w. induction n as [|n IH]; intros w Hi Hc Hn.
  { exists [], w. split_and!; try done. intros i r Hr. unfold to_close in Hn. apply nil_length_inv in Hn.
    assert (H : In (Remember i r) (List.filter (fun t => match t with Remember _ _ => true | _ => false end) (tasks w)))
      by (apply List.filter_In; split; [by apply list_elem_of_In|done]). by rewrite Hn in H. }
  assert (Hk : exists k i r, tasks w !! k = Some (Remember i r)).
  { unfold to_close in Hn. destruct (List.filter _ (tasks w)) as [|t l] eqn:E; [done|].
    assert (Ht : In t (List.filter (fun t => match t with Remember _ _ => true | _ => false end) (tasks w))) by (rewrite E; by left).
    apply List.filter_In in Ht as [Ht Hr]. destruct t; try done. apply list_elem_of_In, list_elem_of_lookup in Ht as [k Hk]. eauto. }
  destruct Hk as (k & i & r & Hk). pose proof (target_valid w k _ Hi Hk) as Hlt. cbn in Hlt.
  destruct (lookup_lt_is_Some_2 _ _ Hlt) as [s Hs].
  assert (Hp : perform (Close k) w = Some (set_tasks (become k [Snapshot i] (tasks w)) (change i s (close_with_reason r s) w)))
    by (cbn [perform]; unfold task, object; by rewrite Hk, Hs).
  destruct (IH (set_tasks (become k [Snapshot i] (tasks w)) (change i s (close_with_reason r s) w)))
    as (acts & w' & He & Hd & Hno & Hlen & Hla & Hfa).
  - by eapply inv_perform.
  - done.
  - unfold to_close in *. cbn [tasks set_tasks]. unfold become. rewrite <- (take_drop_middle _ _ _ Hk) in Hn.
    rewrite List.filter_app in Hn |- *. rewrite !length_app in *. simpl in *. lia.
  - exists (Close k :: acts), w'. cbn [execute]. rewrite Hp. cbn [mbind option_bind length]. split_and!; try done; [|lia|].
    + rewrite Hlen. cbn [heap set_tasks change]. apply length_insert.
    + constructor; [by exists k|done].
Qed.

(** C8.   The bookkeeping of the manager is right in every interleaving of viewers joining and
    leaving, the clean-up thread, the media source, the peer connections and the thread that
    configures and shuts down: there are never more sessions than peers allowed, the sessions
    created are those counted as closed plus those present, at most 16 closed ones are remembered,
    the cached unit is a keyframe of a source that is available, and no session is ever lost: each
    one is under its own id in the map, or closed, or in the hands of a call that is about to close
    it. *)
Theorem manager_bookkeeping stale_timeout actions w : execute actions (initial stale_timeout) = Some w ->
  let m := manager w in
  session_count m <= max_peers_ (limits m) /\
  u64 (sessions_created_ (tally m)) = u64 (sessions_closed_ (tally m) + session_count m) /\
  (length (recently_closed_ m) <= 16)%nat /\
  (forall u, latest_keyframe_ (source m) = Some u -> keyframe u = true /\ media_available_ (source m) = true) /\
  (forall i s, heap w !! i = Some s ->
     cleanup_started_ (flags s) = true \/ sessions_ m !! id_ s = Some i \/ remembering i (tasks w)).
Proof.
  intros H. destruct (manager_inv_execute _ _ _ (inv_initial stale_timeout) H) as ((G1 & G2 & G3 & G4) & (_ & O2 & _) & _). by split_and!.
Qed.

(** C9.   Shutdown always completes and leaves nothing behind: from every state the manager can
    reach, with calls in any phase, once both critical sections of [shutdown] have run it takes
    exactly as many more steps as there are sessions waiting to be closed, each of them possible,
    until every session ever created is closed with its connection released and its media worker
    stopped, and the counters of created and closed sessions agree. *)
Theorem shutdown_closes_everything stale_timeout actions w : execute actions (initial stale_timeout) = Some w ->
  exists w1 closing w2, execute [ShutdownBegins; ShutdownEnds] w = Some w1 /\
    length closing = to_close (tasks w1) /\ Forall (fun a => exists k, a = Close k) closing /\
    execute closing w1 = Some w2 /\ length (heap w2) = length (heap w) /\ all_closed w2 /\
    session_count (manager w2) = 0 /\
    u64 (sessions_created_ (tally (manager w2))) = u64 (sessions_closed_ (tally (manager w2))).
Proof.
  intros H. pose proof (manager_inv_execute _ _ _ (inv_initial stale_timeout) H) as Hi.
  assert (H1 : exists w1, execute [ShutdownBegins; ShutdownEnds] w = Some w1 /\ control w1 = Down /\
    length (heap w1) = length (heap w)).
  { cbn [execute perform mbind option_bind control manager heap tasks]. destruct (end_shutdown _) as [l m]. eauto. }
  destruct H1 as (w1 & H1 & Hc & Hl). pose proof (manager_inv_execute _ _ _ Hi H1) as Hi1.
  destruct (close_progress _ w1 Hi1 Hc eq_refl) as (closing & w2 & He & Hd & Hno & Hlen & Hla & Hfa).
  pose proof (manager_inv_execute _ _ _ Hi1 He) as Hi2. exists w1, closing, w2.
  destruct (proj2 (proj2 (proj2 Hi2)) Hd) as [Hs _]. unfold session_count. rewrite Hs, map_size_empty.
  split_and!; try done; [congruence|by apply down_closed|].
  destruct Hi2 as ((_ & G2 & _) & _). rewrite Hs, map_size_empty, Z.add_0_r in G2. exact G2.
Qed.

(** A viewer that joins: the steps of its call, up to the start of its media. *)
Definition joins (k i : nat) (id : string) : list Action :=
  [Create [id] true 1; Accept k (sample_world []); Happens i (LocalDescription 2); Happens i (GatheringState true 3);
   Ready k; Answer k; Finish k; ActivateMedia k true].

(** A viewer that joins in the middle of a group of pictures is sent units it cannot decode: it
    starts from the cached keyframe, but the units published between that keyframe and its arrival
    are gone, and the next unit published is queued directly behind the keyframe, without waiting
    for another one. *)
Theorem late_joiner_misses_units key missed next : keyframe key = true -> keyframe missed = false -> keyframe next = false ->
  discontinuity missed = false ->
  (fun w => (fun s => Queue.queue_ (media_queue_ s)) <$> heap w) <$>
    execute ([Configure Cfg.default_webrtc; Publish key; Publish missed] ++ joins 0 0 "ab" ++ [Publish next; Hand 0]) (initial 0)
  = Some [[key; next]].
Proof.
  destruct key as [? ? ? ? ? k ? ? ?], missed as [? ? ? ? ? k' d' ? ?], next as [? ? ? ? ? k'' d'' ? ?].
  cbn [keyframe discontinuity]. intros -> -> -> ->. vm_compute. reflexivity.
Qed.

Lemma late_joiner_misses_units_witness :
  let u n k := mkUnit n 0 0 false false k false 1 [n] in
  (fun w => (fun s => Queue.queue_ (media_queue_ s)) <$> heap w) <$>
    execute ([Configure Cfg.default_webrtc; Publish (u 1 true); Publish (u 2 false)] ++ joins 0 0 "ab" ++
             [Publish (u 3 false); Hand 0]) (initial 0)
  = Some [[u 1 true; u 3 false]].
Proof. intros u. exact (late_joiner_misses_units (u 1 true) (u 2 false) (u 3 false) eq_refl eq_refl eq_refl eq_refl). Defined.

Lemma manager_bookkeeping_witness :
  exists w, execute ([Configure Cfg.default_webrtc] ++ joins 0 0 "ab" ++ joins 0 1 "cd" ++ [Create ["ef"] true 9]) (initial 0) = Some w /\
    session_count (manager w) <= 2 /\ u64 (sessions_created_ (tally (manager w))) = u64 (0 + session_count (manager w)).
Proof.
  destruct (execute _ (initial 0)) as [w|] eqn:E; [|vm_compute in E; discriminate].
  destruct (manager_bookkeeping 0 _ w E) as (H1 & H2 & _). exists w. split; [reflexivity|].
  vm_compute in E. injection E as <-. split; [exact H1|exact H2].
Defined.

Lemma shutdown_closes_everything_witness :
  exists w w1 closing w2,
    execute ([Configure Cfg.default_webrtc] ++ joins 0 0 "ab" ++ [Create ["cd"] true 9; Delete "ab"]) (initial 0) = Some w /\
    execute [ShutdownBegins; ShutdownEnds] w = Some w1 /\ length closing = 2%nat /\ execute closing w1 = Some w2 /\
    length (heap w2) = 2%nat /\ all_closed w2.
Proof.
  destruct (execute ([Configure Cfg.default_webrtc] ++ joins 0 0 "ab" ++ [Create ["cd"] true 9; Delete "ab"]) (initial 0))
    as [w|] eqn:E; [|vm_compute in E; discriminate].
  destruct (shutdown_closes_everything 0 _ w E) as (w1 & closing & w2 & H1 & H2 & H3 & H4 & H5 & H6 & _).
  exists w, w1, closing, w2. vm_compute in E. injection E as <-. split_and!; try done.
  rewrite H2. vm_compute in H1. injection H1 as <-. reflexivity.
Defined.
End World.
