(* ===== verification/WhipPublisher.v ===== *)
(** * The WHIP publisher ([src/webrtc/whip_publisher.cpp], [include/skai/webrtc/whip_publisher.hpp])

    [Token] and [Http] are the helpers around the HTTP client, [Publisher] the
    module's calls and its retry loop, [Uplink] the media loop of one session on
    top of [Feed], [Attempt] one whole attempt to publish. *)

From S2P Require Import Prelude Strings Floats BoundedQueue WhipPolicy DetectionSei SeiSelector.
From S2P Require Import ConfigData Diagnostics WebRtcSession MediaFeed.

Module Token.

Definition quote : string := str [chr 34].
Definition whitespace : string := str [chr 32; chr 9; chr 13; chr 10].

Definition find_last_not_of (set s : string) : option nat :=
  (fun p => length (chars s) - 1 - p.1)%nat <$> list_find (fun c => negb (in_set set c) = true) (reverse (chars s)).

Definition trim (value : string) : string :=
  match find_first_not_of whitespace value 0, find_last_not_of whitespace value with
  | Some first, Some last => substr value first (Some (last - first + 1)%nat)
  | _, _ => ""
  end.

Definition back (s : string) : option ascii := last (chars s).

(** One pair of quotes around a value is removed. *)
Definition quoted_by (q : ascii) (value : string) : bool :=
  bool_decide (front value = Some q) && bool_decide (back value = Some q).
Definition unquote (value : string) : string :=
  if (2 <=? str_length value)%nat && (quoted_by (chr 34) value || quoted_by (chr 39) value)
  then substr value 1 (Some (str_length value - 2)%nat) else value.

(** A line of the [.env] file: the value, when the line sets the token. *)
Definition token_of_line (line : string) : option string :=
  let line := trim line in
  let line := if starts_with "export " line then trim (substr line 7 None) else line in
  if starts_with "WHIP_TOKEN=" line then Some (unquote (trim (substr line 11 None))) else None.

(** [env]: the variable [WHIP_TOKEN]; [file]: the lines of [.env], none when it
    cannot be read. *)
Definition load_token (env : option string) (file : list string) : string :=
  match env with
  | Some value => if bool_decide (value = "") then default "" (head (omap token_of_line file)) else value
  | None => default "" (head (omap token_of_line file))
  end.

(** *** What is read back *)

Definition printable (c : ascii) : Prop := in_set whitespace c = false.

(** No blanks at either end. *)
Definition trimmed (s : string) : Prop :=
  (forall c, front s = Some c -> printable c) /\ (forall c, back s = Some c -> printable c).

Definition blank (s : string) : Prop := Forall (fun c => in_set whitespace c = true) (chars s).

Abbreviation solid c := (negb (in_set whitespace c) = true) (only parsing).

Lemma find_solid_blank l : Forall (fun c => in_set whitespace c = true) l -> list_find (fun c => solid c) l = None.
Proof. intros H. apply list_find_None. eapply Forall_impl; [exact H|]. intros c Hc. simpl. rewrite Hc. done. Qed.

Lemma find_solid a c l : Forall (fun c => in_set whitespace c = true) a -> solid c ->
  list_find (fun c => solid c) (a ++ c :: l) = Some (length a, c).
Proof.
  intros Ha Hc. rewrite list_find_app_r by (by apply find_solid_blank). cbn [list_find].
  rewrite decide_True by done. done.
Qed.

Lemma trim_blank a : blank a -> trim a = "".
Proof. intros H. unfold trim, find_first_not_of, find_if. rewrite drop_0, find_solid_blank by done. done. Qed.

(** Trimming removes exactly the blanks around. *)
Lemma trim_around a s b : blank a -> blank b -> trimmed s -> trim (a +:+ s +:+ b) = s.
Proof.
  intros Ha Hb [Hf Hl]. destruct (chars s) as [|c t] eqn:Es.
  { assert (s = "") as -> by (by apply chars_inj). apply trim_blank. unfold blank in *. rewrite !chars_app. by apply Forall_app. }
  assert (Hc : solid c) by (apply negb_true_iff, Hf; unfold front; by rewrite Es).
  destruct (last (chars s)) as [d|] eqn:El; [|by rewrite last_None, Es in El].
  assert (Hd : solid d) by (apply negb_true_iff, Hl; unfold back; done).
  apply last_Some in El as [t' Ed]. unfold trim, find_first_not_of, find_if, find_last_not_of. rewrite !chars_app, drop_0.
  assert (E1 : chars a ++ chars s ++ chars b = chars a ++ c :: (t ++ chars b)) by (by rewrite Es).
  assert (E2 : reverse (chars a ++ chars s ++ chars b) = reverse (chars b) ++ d :: reverse (chars a ++ t')).
  { rewrite Ed, !reverse_app. cbn [reverse rev_append]. by rewrite <- !app_assoc. }
  rewrite E2, find_solid by (try done; by apply Forall_reverse). rewrite E1, find_solid by done. rewrite <- E1.
  cbn [fmap option_fmap option_map fst]. rewrite length_reverse, !length_app. unfold substr, str_take, str_drop.
  rewrite chars_str, !chars_app. apply chars_inj. rewrite chars_str, Nat.add_0_l, drop_app_length.
  assert (Hlen : length (chars s) <> 0%nat) by (rewrite Es; done).
  apply take_app_length'. lia.
Qed.

Lemma trim_id s : trimmed s -> trim s = s.
Proof.
  intros H. transitivity (trim ("" +:+ s +:+ "")); [|apply trim_around; [constructor|constructor|done]].
  f_equal. apply chars_inj. rewrite !chars_app. change (chars "") with (@nil ascii). by rewrite app_nil_r.
Qed.

(** The three ways to write a value. *)
Inductive quoting (token : string) : string -> Prop :=
  | Bare : trimmed token -> unquote token = token -> quoting token token
  | Double : quoting token (quote +:+ token +:+ quote)
  | Single : quoting token ("'" +:+ token +:+ "'").

Lemma unquote_wrapped q token : q = chr 34 \/ q = chr 39 -> unquote (str [q] +:+ token +:+ str [q]) = token.
Proof.
  intros Hq. set (v := str [q] +:+ token +:+ str [q]).
  assert (Hv : chars v = q :: chars token ++ [q]) by (unfold v; by rewrite !chars_app, !chars_str).
  unfold unquote, quoted_by, front, back, str_length. rewrite Hv. cbn [head length]. rewrite app_comm_cons, last_snoc.
  rewrite length_app. cbn [length].
  rewrite (proj2 (Nat.leb_le 2 _)) by lia.
  assert (E : bool_decide (Some q = Some (chr 34)) && bool_decide (Some q = Some (chr 34))
    || bool_decide (Some q = Some (chr 39)) && bool_decide (Some q = Some (chr 39)) = true)
    by (destruct Hq as [-> | ->]; reflexivity).
  rewrite E. cbn [andb]. unfold substr, str_take, str_drop. rewrite chars_str, Hv. cbn [drop]. rewrite drop_0.
  rewrite take_app_length' by lia. apply str_chars.
Qed.

Lemma quoted_trimmed q token : in_set whitespace q = false -> trimmed (str [q] +:+ token +:+ str [q]).
Proof.
  intros Hq. unfold trimmed, front, back. rewrite !chars_app, !chars_str. cbn [app head].
  rewrite app_comm_cons, last_snoc. split; by intros c [= <-].
Qed.

(** A value as written is read back. *)
Lemma quoting_read token written : quoting token written -> unquote written = token.
Proof.
  intros [? ?| |]; [done|..].
  - by apply (unquote_wrapped (chr 34)); left.
  - by apply (unquote_wrapped (chr 39)); right.
Qed.

Lemma written_trimmed token written : quoting token written -> trimmed written.
Proof. intros [? ?| |]; [done|by apply (quoted_trimmed (chr 34))|by apply (quoted_trimmed (chr 39))]. Qed.

(** A printable start does not disturb the end. *)
Lemma prefixed_trimmed p s : trimmed p -> p <> "" -> trimmed s -> trimmed (p +:+ s).
Proof.
  intros [Hp1 Hp2] Hne [Hs1 Hs2]. unfold trimmed, front, back in *. rewrite chars_app.
  destruct (chars p) as [|c l] eqn:E; [by destruct Hne; apply chars_inj|]. split; [exact Hp1|].
  rewrite last_app. destruct (last (chars s)); auto.
Qed.

Lemma drop_prefix p s : substr (p +:+ s) (str_length p) None = s.
Proof. unfold substr, str_drop, str_length. by rewrite chars_app, drop_app_length, str_chars. Qed.

Lemma has_prefix p s : starts_with p (p +:+ s) = true.
Proof. unfold starts_with. apply bool_decide_eq_true. by rewrite chars_app, take_app_length. Qed.

Lemma line_read (export : bool) a b token written : blank a -> blank b -> quoting token written ->
  token_of_line (a +:+ ((if export then "export " else "") +:+ "WHIP_TOKEN=" +:+ written) +:+ b) = Some token.
Proof.
  intros Ha Hb Hq. pose proof (written_trimmed _ _ Hq) as Hw.
  assert (Hk : trimmed "WHIP_TOKEN=") by (split; intros c [= <-]; reflexivity).
  assert (Hkw : trimmed ("WHIP_TOKEN=" +:+ written)) by (by apply prefixed_trimmed).
  assert (Hread : (if starts_with "WHIP_TOKEN=" ("WHIP_TOKEN=" +:+ written)
    then Some (unquote (trim (substr ("WHIP_TOKEN=" +:+ written) 11 None))) else None) = Some token).
  { rewrite has_prefix, (drop_prefix "WHIP_TOKEN="), trim_id by done. f_equal. by apply quoting_read. }
  unfold token_of_line. destruct export.
  - rewrite trim_around; [|done|done|]. 2:{ split; [intros c [= <-]; reflexivity|].
      unfold back. rewrite chars_app, last_app. intros c. destruct Hkw as [_ Hkw]. unfold back in Hkw.
      rewrite chars_app in Hkw |- *. destruct (last (chars "WHIP_TOKEN=" ++ chars written)) eqn:E; [by intros [= <-]; apply Hkw|].
      apply last_None in E. done. }
    rewrite has_prefix, (drop_prefix "export "), trim_id by done. exact Hread.
  - rewrite trim_around by done. change ("" +:+ ?x) with x. exact Hread.
Qed.

(** The access token is read back from the environment file however it is written: bare, in double
    or in single quotes, after [export] or not, with blanks around the line; lines before that do
    not set it are skipped, later ones are ignored, and a value in the process environment takes
    precedence. *)
Theorem token_read_back export a b token written before after env :
  blank a -> blank b -> quoting token written -> omap token_of_line before = [] ->
  load_token None (before ++ [a +:+ ((if export : bool then "export " else "") +:+ "WHIP_TOKEN=" +:+ written) +:+ b] ++ after) = token /\
  (env <> "" -> load_token (Some env) (before ++ after) = env).
Proof.
  intros Ha Hb Hq Hn. unfold load_token. split; [|intros He; by rewrite bool_decide_false].
  rewrite !omap_app, Hn. cbn [omap list_omap app]. by rewrite (line_read export a b token written).
Qed.

Lemma token_read_back_witness :
  load_token None (["# secrets"; "export WHIP_TOKEN='a b'"; "WHIP_TOKEN=c"]) = "a b" /\
  (True -> load_token (Some "env") ["# secrets"] = "env").
Proof.
  destruct (token_read_back true "" "" "a b" ("'" +:+ "a b" +:+ "'") ["# secrets"] ["WHIP_TOKEN=c"] "env") as [H1 _];
    [constructor|constructor|constructor|vm_compute; reflexivity|].
  destruct (token_read_back true "" "" "a b" ("'" +:+ "a b" +:+ "'") ["# secrets"] [] "env") as [_ H2];
    [constructor|constructor|constructor|vm_compute; reflexivity|].
  split; [exact H1|intros _; apply H2; discriminate].
Defined.
End Token.

Module Http.

Record HttpResponse := mkResponse {
  status : Z;
  body : string;
  location : string;
}.

Definition no_response : HttpResponse := mkResponse 0 "" "".

(** The write callback of curl: the bytes it accepts, 0 to stop the transfer. *)
Definition receive_body (data body : string) : nat * string :=
  if 128 * 1024 <? Z.of_nat (str_length body + str_length data) then (0%nat, body) else (str_length data, body +:+ data).

(** The header callback: the last [Location] counts. *)
Definition receive_header (header : string) (response : HttpResponse) : HttpResponse :=
  match find_char ":" header 0 with
  | None => response
  | Some separator =>
    let name := str (Offer.to_lower <$> chars (substr header 0 (Some separator))) in
    if bool_decide (name = "location")
    then mkResponse (status response) (body response) (Token.trim (substr header (S separator) None))
    else response
  end.

(** The options of [request] that depend on the method, in milliseconds. *)
Definition timeout_ms (method : string) : Z := if bool_decide (method = "DELETE") then 2000 else 10000.
Definition connect_timeout_ms (method : string) : Z := Z.min 5000 (timeout_ms method).
Definition headers (method token : string) : list string :=
  (if bool_decide (method = "POST") || bool_decide (method = "DELETE") then ["Authorization: Bearer " +:+ token] else []) ++
  (if bool_decide (method = "POST") then ["Content-Type: application/sdp"] else []).

(** [request]: what curl delivers, in order, and how the transfer ends. *)
Inductive Delivery := Header (text : string) | Chunk (data : string).

Fixpoint receive (ds : list Delivery) (r : HttpResponse) : option HttpResponse :=
  match ds with
  | [] => Some r
  | Header text :: rest => receive rest (receive_header text r)
  | Chunk data :: rest =>
    let '(n, b) := receive_body data (body r) in
    if (n =? str_length data)%nat then receive rest (mkResponse (status r) b (location r)) else None
  end.

(** [ending]: the response code, or curl's error text; a callback that refuses
    data ends the transfer with the write error. *)
Definition request (ds : list Delivery) (ending : throws Z) (write_error : string) : throws HttpResponse :=
  match receive ds no_response with
  | None => throw ("WHIP HTTP request failed: " +:+ write_error)
  | Some r =>
    match ending with
    | inl e => throw ("WHIP HTTP request failed: " +:+ e)
    | inr code => inr (mkResponse code (body r) (location r))
    end
  end.

Lemma receive_bound ds r r' : Z.of_nat (str_length (body r)) <= 128 * 1024 -> receive ds r = Some r' ->
  Z.of_nat (str_length (body r')) <= 128 * 1024.
Proof.
  revert r. induction ds as [|[text|data] ds IH]; intros r Hr; cbn [receive]; [by intros [= <-]|..].
  - apply IH. unfold receive_header. by repeat case_match.
  - unfold receive_body. destruct (128 * 1024 <? _) eqn:E; bools.
    + destruct (0 =? str_length data)%nat eqn:E0; [|done]. by apply IH.
    + rewrite Nat.eqb_refl. apply IH. cbn [body]. unfold str_length in *.
      by rewrite chars_app, length_app.
Qed.
End Http.

(** ** The module *)

Module Publisher.
Import Media Selector.

(** [ConnectionMetrics] is the part behind the metrics mutex. *)
Record ConnectionMetrics := mkConnection {
  peer_state : string;
  ice_state : string;
  last_error : string;
}.

Record WhipPublisher := mkPublisher {
  config_ : Cfg.WhipConfig;
  token_ : string;
  last_error_ : string;
  media_queue_ : Queue.BoundedQueue EncodedAccessUnit;
  detection_queue_ : Queue.BoundedQueue SeiSourceResult;
  stopping_ : bool;
  access_units_sent_ : Z;
  connection_metrics_ : ConnectionMetrics;
  worker_ : bool;
}.

Definition make_publisher : WhipPublisher :=
  mkPublisher (Cfg.mkWhip false "") "" "" (Queue.mkQueue 8 [] Queue.stats_zero false)
    (Queue.mkQueue 32 [] Queue.stats_zero false) false 0 (mkConnection "disabled" "disabled" "") false.

Definition peer_state_name (st : Session.PeerState) : string :=
  match st with
  | Session.New => "new" | Session.Connecting => "connecting" | Session.Connected => "connected"
  | Session.Disconnected => "disconnected" | Session.Failed => "failed" | Session.Closed => "closed"
  end.
Definition ice_state_name (st : Session.IceState) : string :=
  match st with
  | Session.IceNew => "new" | Session.IceChecking => "checking" | Session.IceConnected => "connected"
  | Session.IceCompleted => "completed" | Session.IceFailed => "failed" | Session.IceDisconnected => "disconnected"
  | Session.IceClosed => "closed"
  end.

Definition with_metrics (c : ConnectionMetrics) (p : WhipPublisher) : WhipPublisher :=
  mkPublisher (config_ p) (token_ p) (last_error_ p) (media_queue_ p) (detection_queue_ p) (stopping_ p)
    (access_units_sent_ p) c (worker_ p).
Definition with_token (t error : string) (p : WhipPublisher) : WhipPublisher :=
  mkPublisher (config_ p) t error (media_queue_ p) (detection_queue_ p) (stopping_ p)
    (access_units_sent_ p) (connection_metrics_ p) (worker_ p).
Definition with_queues (m : Queue.BoundedQueue EncodedAccessUnit) (d : Queue.BoundedQueue SeiSourceResult) (stopping : bool)
    (p : WhipPublisher) : WhipPublisher :=
  mkPublisher (config_ p) (token_ p) (last_error_ p) m d stopping (access_units_sent_ p) (connection_metrics_ p) (worker_ p).
Definition with_worker (b : bool) (p : WhipPublisher) : WhipPublisher :=
  mkPublisher (config_ p) (token_ p) (last_error_ p) (media_queue_ p) (detection_queue_ p) (stopping_ p)
    (access_units_sent_ p) (connection_metrics_ p) b.

(** [token] is what [load_token] returns, [curl_ok] whether the HTTP client
    could be initialized. *)
Definition initialize (config : Cfg.WhipConfig) (token : string) (curl_ok : bool) (p : WhipPublisher) : bool * WhipPublisher :=
  let st := if Cfg.whip_enabled config then "new" else "disabled" in
  let p := mkPublisher config "" "" (Queue.reset (media_queue_ p)) (Queue.reset (detection_queue_ p)) false 0
             (mkConnection st st "") (worker_ p) in
  if negb (Cfg.whip_enabled config) then (true, p)
  else if bool_decide (token = "") then (false, with_token "" "WHIP_TOKEN is required when whip.enabled is true" p)
  else if negb curl_ok then (false, with_token token "could not initialize WHIP HTTP client" p)
  else (true, with_token token "" p).

(** [thread_error]: what starting the thread throws. *)
Definition start (thread_error : option string) (p : WhipPublisher) : bool * WhipPublisher :=
  if negb (Cfg.whip_enabled (config_ p)) then (true, p)
  else match thread_error with
       | None => (true, with_worker true p)
       | Some e => (false, with_token (token_ p) e p)
       end.

Definition stop (p : WhipPublisher) : WhipPublisher :=
  with_queues (Queue.shutdown (media_queue_ p)) (Queue.shutdown (detection_queue_ p)) true p.

(** The worker has ended when [join] returns. *)
Definition wait (p : WhipPublisher) : WhipPublisher := with_worker false (with_token "" (last_error_ p) p).

Definition metrics (p : WhipPublisher) : Metrics.WhipMetrics :=
  let c := connection_metrics_ p in let q := Queue.stats (media_queue_ p) in
  Metrics.mkWhipMetrics (Cfg.whip_enabled (config_ p)) (peer_state c) (ice_state c) (last_error c) (access_units_sent_ p)
    (Queue.dropped q) (Queue.discarded q).

Definition publish_access_unit (u : EncodedAccessUnit) (p : WhipPublisher) : WhipPublisher :=
  if negb (Cfg.whip_enabled (config_ p)) || stopping_ p then p
  else with_queues (Queue.push u (media_queue_ p)).2 (detection_queue_ p) (stopping_ p) p.
Definition publish_detections (r : SeiSourceResult) (p : WhipPublisher) : WhipPublisher :=
  if negb (Cfg.whip_enabled (config_ p)) || stopping_ p then p
  else with_queues (media_queue_ p) (Queue.push r (detection_queue_ p)).2 (stopping_ p) p.

(** *** An attempt and its callbacks *)

(** The start of [publish_once]; [false]: the token is missing, which throws. *)
Definition begin_attempt (token : string) (p : WhipPublisher) : bool * WhipPublisher :=
  let p := with_token token (last_error_ p) p in
  if bool_decide (token = "") then (false, p) else (true, with_metrics (mkConnection "new" "new" "") p).

(** The callbacks of the peer connection, on the metrics and on the state they
    share with the publishing thread. *)
Definition on_gathering_state (complete : bool) (s : PeerState.WhipPeerState) : PeerState.WhipPeerState :=
  if complete then PeerState.gathered s else s.
Definition on_peer_state (st : Session.PeerState) (now : Z) (c : ConnectionMetrics) (s : PeerState.WhipPeerState)
    : ConnectionMetrics * PeerState.WhipPeerState :=
  (mkConnection (peer_state_name st) (ice_state c) (last_error c),
   match st with
   | Session.Connected => PeerState.connected s
   | Session.Disconnected => PeerState.disconnected now s
   | Session.Failed | Session.Closed => PeerState.failed s
   | Session.New | Session.Connecting => s
   end).
Definition on_ice_state (st : Session.IceState) (c : ConnectionMetrics) : ConnectionMetrics :=
  mkConnection (peer_state c) (ice_state_name st) (last_error c).

(** *** The retry loop *)

(** How an attempt ends. *)
Inductive Ending := Returned | Unrecoverable (what : string) | Threw (what : string) | ThrewUnknown.

(** The rest of the loop's body after [publish_once]; [true]: another attempt
    follows.  [stopping_] is read as it is then. *)
Definition after_attempt (e : Ending) (p : WhipPublisher) : bool * WhipPublisher :=
  let c := connection_metrics_ p in
  let stopping := stopping_ p in
  let failed what := if stopping then c else mkConnection (peer_state c) (ice_state c) what in
  let retry c :=
    let p := with_metrics (mkConnection (if stopping then "stopped" else "retrying")
                             (if stopping then "closed" else "disconnected") (last_error c)) p in
    if stopping then (false, p)
    else (true, with_queues (Queue.discard_all (media_queue_ p)).2 (detection_queue_ p) (stopping_ p) p) in
  match e with
  | Unrecoverable what =>
    (false, with_metrics (mkConnection (if stopping then "stopped" else "failed") "closed"
                            (if stopping then last_error c else what)) p)
  | Returned => retry c
  | Threw what => retry (failed what)
  | ThrewUnknown => retry (failed "unknown publisher error")
  end.

(** [run]: each attempt comes with what happened to the module meanwhile. *)
Fixpoint run (attempts : list (Ending * (WhipPublisher -> WhipPublisher))) (p : WhipPublisher) : nat * WhipPublisher :=
  match attempts with
  | [] => (0%nat, p)
  | (e, meanwhile) :: rest =>
    if stopping_ p then (0%nat, p)
    else
      let '(continue, p) := after_attempt e (meanwhile p) in
      if continue then let '(n, p) := run rest p in (S n, p) else (1%nat, p)
  end.
End Publisher.

(** ** The media loop of one session *)

Module Uplink.
Import Media Feed Selector.

Definition seconds (n : Z) : Z := n * 1000000000.

(** The RTP clock and the detections that wait for a unit. *)
Definition Aux : Type := RtpClock.WhipRtpClock * SeiResultSelector.

Definition add_result (r : SeiSourceResult) (a : Aux) : Aux := (a.1, add r a.2).

(** The timestamp and the bytes of a unit that is sent. *)
Definition prepare (u : EncodedAccessUnit) (a : Aux) : (Z * list Z) * Aux :=
  let '(ts, clock) := RtpClock.timestamp (Media.source_generation u) (has_pts u) (pts_ns u) a.1 in
  if has_pts u then
    let '(sei, detections) := take_for (pts_ns u) (Media.source_generation u) a.2 in
    (ts, if bool_decide (sei = []) then Media.bytes u else (Insert.insert_before_first_vcl (Media.bytes u) sei).2, (clock, detections))
  else (ts, Media.bytes u, (clock, a.2)).

(** The other variables of the loop; [run] holds the queue, the unit in hand,
    [waiting_for_keyframe], [observed_drops] and [awaiting_resume]. *)
Record Link := mkLink {
  feed : Run (A := Aux) (B := Z * list Z);
  media_opened : bool;
  track_closed_at : option Z;
}.

Inductive action :=
  | Published (u : EncodedAccessUnit)
  | Detected (r : SeiSourceResult)
  | Head (now : Z) (peer : PeerState.WhipPeerState) (track_open : bool)
  | Sends (accepted : bool).

Definition fstep : Run (A := Aux) (B := Z * list Z) -> event -> Run := step add_result (fun _ a => a) prepare.

(** From the top of the loop to the taking of a unit: whether it pauses. *)
Definition pauses (peer : PeerState.WhipPeerState) (track_open : bool) : bool :=
  PeerState.is_disconnected peer || negb track_open.

Definition head (deadline now : Z) (peer : PeerState.WhipPeerState) (track_open : bool) (l : Link) : throws Link :=
  if PeerState.should_reconnect now (seconds 10) peer then
    throw "WHIP ICE connection failed or remained disconnected"
  else if pauses peer track_open then
    if negb (media_opened l) && (deadline <=? now) then throw "WHIP media track did not open"
    else
      let closed_at := if media_opened l && negb track_open then Some (default now (track_closed_at l)) else track_closed_at l in
      if media_opened l && negb track_open && (seconds 10 <=? now - default now closed_at) then
        throw "WHIP media track remained closed"
      else inr (mkLink (fstep (feed l) Pause) (media_opened l) closed_at)
  else inr (mkLink (fstep (feed l) Pop) true None).

(** A step of the loop or of the threads that feed it; the loop is at its top
    when it has no unit in hand. *)
Definition link_step (deadline : Z) (a : action) (l : Link) : throws Link :=
  match a with
  | Published u => inr (mkLink (fstep (feed l) (Push u)) (media_opened l) (track_closed_at l))
  | Detected r => inr (mkLink (fstep (feed l) (Update r)) (media_opened l) (track_closed_at l))
  | Head now peer track_open =>
    if bool_decide (hand (feed l) = None) then head deadline now peer track_open l else inr l
  | Sends accepted =>
    let r := fstep (feed l) (Look (if accepted then Sent else Fatal)) in
    if running r then inr (mkLink r (media_opened l) (track_closed_at l))
    else throw "WHIP media track rejected an access unit"
  end.

Fixpoint link_run (deadline : Z) (actions : list action) (l : Link) : throws Link :=
  match actions with
  | [] => inr l
  | a :: rest => (l <- link_step deadline a l ;; link_run deadline rest l)%skai
  end.

(** A session about to send: the queue as it is, a new clock and no detections. *)
Definition opened_link (q : Queue.BoundedQueue (nat * EncodedAccessUnit)) (start : Z) : Link :=
  mkLink (begin q (RtpClock.make_clock start, make_selector 64)) false None.

(** *** What is sent can be decoded *)

(** The same history as steps of the feed. *)
Definition feed_event (a : action) (l : Link) : list (event (X := SeiSourceResult)) :=
  match a with
  | Published u => [Push u]
  | Detected r => [Update r]
  | Head now peer track_open =>
    if bool_decide (hand (feed l) = None) then [if pauses peer track_open then Pause else Pop] else []
  | Sends accepted => [Look (if accepted then Sent else Fatal)]
  end.

Fixpoint feed_events (deadline : Z) (actions : list action) (l : Link) : list event :=
  match actions with
  | [] => []
  | a :: rest =>
    feed_event a l ++ match link_step deadline a l with inr l' => feed_events deadline rest l' | inl _ => [] end
  end.

Definition frun : list event -> Run -> Run := run add_result (fun _ a => a) prepare.

Lemma link_feed deadline a l l' : link_step deadline a l = inr l' -> feed l' = frun (feed_event a l) (feed l).
Proof.
  destruct a as [u|r|now peer o|ok]; cbn [link_step feed_event]; [by intros [= <-]|by intros [= <-]|..].
  - case_bool_decide; [|by intros [= <-]]. unfold head. destruct (PeerState.should_reconnect _ _ _); [done|].
    destruct (pauses peer o); [|by intros [= <-]].
    repeat case_match; try done; by intros [= <-].
  - case_match; [|done]. by intros [= <-].
Qed.

Lemma links_feed deadline actions l l' : link_run deadline actions l = inr l' ->
  feed l' = frun (feed_events deadline actions l) (feed l).
Proof.
  revert l. induction actions as [|a actions IH]; intros l; cbn [link_run feed_events]; [by intros [= <-]|].
  destruct (link_step deadline a l) as [e|l1] eqn:E; cbn [tbind]; [done|]. intros H.
  unfold frun, run. rewrite foldl_app. fold (run add_result (fun _ a => a) prepare (feed_event a l)).
  change (foldl _ (feed l) (feed_event a l)) with (frun (feed_event a l) (feed l)).
  rewrite <- (link_feed _ _ _ _ E). by apply IH.
Qed.

Lemma events_short deadline actions l : (length (feed_events deadline actions l) <= length actions)%nat.
Proof.
  revert l. induction actions as [|a actions IH]; intros l; cbn [feed_events length]; [lia|]. rewrite length_app.
  assert (length (feed_event a l) <= 1)%nat by (destruct a; cbn; [lia|lia|by case_bool_decide; cbn; lia|lia]).
  destruct (link_step deadline a l) as [|l']; [simpl; lia|]. specialize (IH l'). lia.
Qed.

Lemma never_unopened deadline actions l : stays_closed false (feed_events deadline actions l).
Proof.
  revert l. induction actions as [|a actions IH]; intros l; cbn [feed_events]; [done|].
  assert (H : stays_closed false (match link_step deadline a l with inr l' => feed_events deadline actions l' | inl _ => [] end))
    by (by destruct (link_step deadline a l)).
  destruct a as [u|r|now peer o|[]]; cbn [feed_event app stays_closed]; try done.
  case_bool_decide; [destruct (pauses peer o)|]; done.
Qed.

(** C11.   What is published to the WHIP endpoint can be decoded: for every interleaving of the media
    source and the detector with the publishing loop, through connection losses and pauses of any
    length, the first unit sent is a keyframe and every later one is a keyframe or the very next
    unit of the source, with nothing dropped, discarded or discontinuous in between - provided the
    queue drops nothing between the moment a keyframe is taken and the moment the drop counter is
    read. *)
Theorem whip_delivery_gap_free deadline actions q start l :
  0 <= Queue.dropped (Queue.stats q) -> Queue.dropped (Queue.stats q) + Z.of_nat (length actions) <= u64_max ->
  (fst <$> Queue.queue_ q) = seq 0 (length (Queue.queue_ q)) ->
  quiet add_result (fun _ a => a) prepare (feed_events deadline actions (opened_link q start)) (feed (opened_link q start)) ->
  link_run deadline actions (opened_link q start) = inr l ->
  gap_free None (sent (feed l)).
Proof.
  intros H0 Hn Hs Hq Hr. rewrite (links_feed _ _ _ _ Hr). apply (inv_run _ _ _ _ false); [|done|apply never_unopened].
  apply inv_begin; [done| |done]. pose proof (events_short deadline actions (opened_link q start)). lia.
Qed.

Lemma whip_delivery_gap_free_witness :
  let q := Queue.mkQueue 8 [(0%nat, Whep.sample_unit 0 false)] Queue.stats_zero false in
  let up := PeerState.peer_init in
  let lost := PeerState.disconnected 100 up in
  let actions := [Head 0 up false; Published (Whep.sample_unit 1 true); Published (Whep.sample_unit 2 false); Head 1 up true;
    Sends true; Detected (mkSource 5 1 []); Head 2 up true; Sends true; Published (Whep.sample_unit 3 false);
    Head 200 lost true; Published (Whep.sample_unit 4 false); Published (Whep.sample_unit 5 true); Head 300 up true;
    Sends true; Head 301 up true; Sends true] in
  exists l, link_run 15 actions (opened_link q 9) = inr l /\ gap_free None (sent (feed l)) /\
    (fun x => x.1.1) <$> sent (feed l) = [1; 2; 5]%nat.
Proof.
  intros q up lost actions.
  destruct (link_run 15 actions (opened_link q 9)) as [e|l] eqn:E; [vm_compute in E; discriminate|].
  exists l. split; [reflexivity|].
  split; [|vm_compute in E; injection E as <-; vm_compute; reflexivity].
  refine (whip_delivery_gap_free 15 actions q 9 l _ _ _ _ E);
    [vm_compute; discriminate|vm_compute; discriminate|vm_compute; reflexivity|].
  vm_compute. repeat split; intros; try reflexivity; discriminate.
Defined.

(** *** Outages end the session *)

Definition heads (a : action) : option (Z * PeerState.WhipPeerState * bool) :=
  match a with Head now peer o => Some (now, peer, o) | _ => None end.

(** While the track stays closed, the time it closed is kept. *)
Lemma closed_since deadline actions l l' t : media_opened l = true -> track_closed_at l = Some t -> hand (feed l) = None ->
  Forall (fun a => match a with Head _ _ o => o = false | Sends _ => False | _ => True end) actions ->
  link_run deadline actions l = inr l' ->
  media_opened l' = true /\ track_closed_at l' = Some t /\
  Forall (fun a => match a with Head now _ _ => now - t < seconds 10 | _ => True end) actions.
Proof.
  intros Ho Ht Hh Hf. revert l Ho Ht Hh. induction Hf as [|a actions Ha Hf IH]; intros l Ho Ht Hh; cbn [link_run].
  { intros [= <-]. done. }
  destruct (link_step deadline a l) as [e|l1] eqn:E; cbn [tbind]; [done|]. intros Hr.
  assert (H1 : media_opened l1 = true /\ track_closed_at l1 = Some t /\ hand (feed l1) = None /\
    match a with Head now _ _ => now - t < seconds 10 | _ => True end).
  { destruct a as [u|r|now peer o|ok]; cbn [link_step] in E; [..|done].
    - injection E as <-. cbn. rewrite Ho, Ht. by destruct (Queue.push _ _).
    - injection E as <-. done.
    - subst o. rewrite bool_decide_true in E by done. unfold head, pauses in E. cbn [negb] in E.
      rewrite orb_true_r, Ho, Ht in E. cbn in E. destruct (PeerState.should_reconnect _ _ _); [done|].
      destruct (seconds 10 <=? now - t) eqn:E10; [done|]. injection E as <-. bools. split_and!; try done.
      cbn. unfold fstep. cbn. by case_match. }
  destruct H1 as (H1 & H2 & H3 & H4). destruct (IH l1 H1 H2 H3 Hr) as (H5 & H6 & H7). by split_and!; [| |constructor].
Qed.

(** A WHIP session cannot hang on a track that went away: once media has flowed, if the loop finds
    the track closed at some time and still closed on every later turn, it has given the session up
    for a new one by the time 10 seconds have passed. *)
Theorem closed_track_ends_session deadline l t peer rest l' :
  media_opened l = true -> track_closed_at l = None -> hand (feed l) = None ->
  Forall (fun a => match a with Head _ _ o => o = false | Sends _ => False | _ => True end) rest ->
  link_run deadline (Head t peer false :: rest) l = inr l' ->
  Forall (fun a => match a with Head now _ _ => now - t < seconds 10 | _ => True end) rest.
Proof.
  intros Ho Ht Hh Hf. cbn [link_run]. destruct (link_step _ _ l) as [e|l1] eqn:E; cbn [tbind]; [done|]. intros Hr.
  cbn [link_step] in E. rewrite bool_decide_true in E by done. unfold head, pauses in E. cbn [negb] in E.
  rewrite orb_true_r, Ho, Ht in E. cbn in E. destruct (PeerState.should_reconnect _ _ _); [done|].
  destruct (seconds 10 <=? t - t) eqn:E0; [done|]. injection E as <-.
  eapply closed_since; [..|exact Hr]; [done|done| |done]. cbn. unfold fstep. cbn. by case_match.
Qed.

Lemma closed_track_ends_session_witness :
  let q := Queue.mkQueue 8 [(0%nat, Whep.sample_unit 0 true)] Queue.stats_zero false in
  let up := PeerState.peer_init in
  exists l, link_run 15 [Head 1 up true; Sends true] (opened_link q 9) = inr l /\
    (exists l', link_run 15 [Head 5 up false; Head 9000000000 up false] l = inr l' /\ 9000000000 - 5 < seconds 10) /\
    (exists e, link_run 15 [Head 5 up false; Head 11000000000 up false] l = inl e).
Proof.
  intros q up. destruct (link_run 15 [Head 1 up true; Sends true] (opened_link q 9)) as [e|l] eqn:E; [vm_compute in E; discriminate|].
  exists l. split; [reflexivity|].
  destruct (link_run 15 [Head 5 up false; Head 9000000000 up false] l) as [e|l'] eqn:E'.
  { vm_compute in E. injection E as <-. vm_compute in E'. discriminate. }
  split.
  - exists l'. split; [reflexivity|].
    assert (H : Forall (fun a => match a with Head now _ _ => now - 5 < seconds 10 | _ => True end) [Head 9000000000 up false]).
    { refine (closed_track_ends_session 15 l 5 up [Head 9000000000 up false] l' _ _ _ _ E');
        [vm_compute in E; injection E as <-; vm_compute; reflexivity..|by repeat constructor]. }
    by inversion H.
  - eexists. vm_compute in E. injection E as <-. vm_compute. reflexivity.
Defined.
End Uplink.

(** ** One attempt ([publish_once]) *)

Module Attempt.
Import Publisher Uplink.

(** A request that was made: method, address and token. *)
Record Request := mkRequest {
  method : string;
  address : string;
  bearer : string;
}.

(** What the attempt meets: the token, what creating the connection and its
    track throws, how gathering ends and whether the module
    is stopping then, the offer, the answers to the two requests, what
    [setRemoteDescription] throws, the history of the media loop and the
    deadline for the track to open, and the token when the session is closed. *)
Record AttemptWorld := mkAttempt {
  token : string;
  setup_error : option string;
  gathering : bool;
  stops_early : bool;
  offer : option string;
  post : throws Http.HttpResponse;
  remote_error : option string;
  queue : Queue.BoundedQueue (nat * Media.EncodedAccessUnit);
  start_timestamp : Z;
  deadline : Z;
  history : list action;
  delete_ : throws Http.HttpResponse;
  token_at_close : string;
}.

(** [close_resource]: nothing without a location; what the server answers to
    the request is only logged. *)
Definition close_resource (location token current_token : string) : list Request :=
  if bool_decide (location = "") then []
  else [mkRequest "DELETE" location (if bool_decide (current_token = "") then token else current_token)].

Definition status_text (code : Z) : string := "WHIP POST returned HTTP " +:+ to_string code.

(** The requests made and how the attempt ends.  The media loop ends by an
    exception, or because the module stops. *)
Definition publish_once (url : string) (w : AttemptWorld) : list Request * Ending :=
  let fails what := ([], Threw what) in
  let posted := mkRequest "POST" url (token w) in
  if bool_decide (token w = "") then fails "WHIP_TOKEN is unavailable"
  else if setup_error w is Some e then fails e
  else if negb (gathering w) then
    if stops_early w then ([], Returned) else fails "WHIP ICE gathering did not complete"
  else if stops_early w then ([], Returned)
  else match offer w with
       | None => fails "WHIP SDP offer was not generated"
       | Some _ =>
         match post w with
         | inl e => ([posted], Threw e)
         | inr response =>
           if negb (Http.status response =? 201) then ([posted], Threw (status_text (Http.status response)))
           else match ResourceUrl.whip_resource_url url (Http.location response) with
                | inl e => ([posted], Unrecoverable e)
                | inr location =>
                  let closing := close_resource location (token w) (token_at_close w) in
                  match remote_error w with
                  | Some e => (posted :: closing, Threw e)
                  | None =>
                    match link_run (deadline w) (history w) (opened_link (queue w) (start_timestamp w)) with
                    | inl e => (posted :: closing, Threw e)
                    | inr _ => (posted :: closing, Returned)
                    end
                  end
                end
         end
       end.

Definition created (url : string) (w : AttemptWorld) (location : string) : Prop :=
  exists r, post w = inr r /\ Http.status r = 201 /\ ResourceUrl.whip_resource_url url (Http.location r) = inr location.

Lemma resolved_nonempty url location resolved : ResourceUrl.whip_resource_url url location = inr resolved -> resolved <> "".
Proof.
  unfold ResourceUrl.whip_resource_url. case_bool_decide as Hl; [done|].
  assert (Happ : forall o, o +:+ location <> "").
  { intros o E. apply (f_equal (fun s => chars s)) in E. rewrite chars_app in E. apply app_eq_nil in E as [_ E].
    apply Hl. by apply chars_inj. }
  repeat case_match; intros [= <-]; try apply Happ; done.
Qed.

(** C24.   A session created on the server is always released: whenever the POST was answered with
    201 and a location on the same server, the attempt ends - by an error of the answer, of the
    media loop, or because the module stops - with exactly one DELETE of that location, carrying a
    token; without such an answer no DELETE is sent, and a 201 whose location is unusable ends
    publishing instead of being retried. *)
Theorem whip_session_released url w :
  let '(requests, ending) := publish_once url w in
  (forall location, created url w location -> requests <> [] ->
     exists bearer, bearer <> "" /\ requests = [mkRequest "POST" url (token w); mkRequest "DELETE" location bearer]) /\
  ((forall location, ~ created url w location) -> requests = [] \/ requests = [mkRequest "POST" url (token w)]) /\
  (forall what, ending = Unrecoverable what -> exists r, post w = inr r /\ Http.status r = 201 /\
     ResourceUrl.whip_resource_url url (Http.location r) = inl what) /\
  (forall what r, requests <> [] -> post w = inr r -> Http.status r = 201 ->
     ResourceUrl.whip_resource_url url (Http.location r) = inl what -> ending = Unrecoverable what).
Proof.
  unfold publish_once. case_bool_decide as Htok; [by split_and!; intros; (done || by left)|].
  destruct (setup_error w); [by split_and!; intros; (done || by left)|].
  destruct (gathering w), (stops_early w); cbn [negb]; try (by split_and!; intros; (done || by left)).
  destruct (offer w); [|by split_and!; intros; (done || by left)].
  destruct (post w) as [e|r] eqn:Ep.
  { split_and!; try done; [|by right]. intros location (r & Hr & _). congruence. }
  destruct (Http.status r =? 201) eqn:Es; cbn [negb]; bools.
  2:{ split_and!; try done; [|by right|]; [intros location (r' & Hr & Hs & _)|intros what r' _ Hr Hs]; simplify_eq; congruence. }
  destruct (ResourceUrl.whip_resource_url url (Http.location r)) as [e|location] eqn:El.
  { split_and!; [|by right| |]; [intros location (r' & Hr & Hs & Hl)|intros what [= <-]|intros what r' _ [= <-] _]; try congruence.
    eauto. }
  assert (Hc : created url w location) by (exists r; done).
  assert (Hreq : close_resource location (token w) (token_at_close w) =
    [mkRequest "DELETE" location (if bool_decide (token_at_close w = "") then token w else token_at_close w)]).
  { unfold close_resource. rewrite bool_decide_false; [done|]. by eapply resolved_nonempty. }
  rewrite Hreq. assert (Hall : forall location', created url w location' -> location' = location).
  { intros location' (r' & Hr & Hs & Hl). congruence. }
  destruct (remote_error w); [|destruct (link_run _ _ _)]; split_and!; try (intros; congruence);
    try (intros Hno; by destruct (Hno location)); intros location' Hl _; rewrite (Hall location' Hl);
    eexists; (split; [|reflexivity]); by case_bool_decide.
Qed.

Lemma whip_session_released_witness :
  let url := "https://live.example/whip/cam" in
  let w answer := mkAttempt "t0k" None true false (Some "v=0") (inr answer) (Some "bad answer")
    (Queue.mkQueue 8 [] Queue.stats_zero false) 1 15 [] (inl "unused") "" in
  let good := Http.mkResponse 201 "v=0" "/session/7" in
  let bad := Http.mkResponse 201 "v=0" "" in
  (publish_once url (w good)).1 = [mkRequest "POST" url "t0k"; mkRequest "DELETE" "https://live.example/session/7" "t0k"] /\
  exists what, (publish_once url (w bad)).2 = Unrecoverable what.
Proof.
  intros url w good bad.
  pose proof (whip_session_released url (w good)) as H. pose proof (whip_session_released url (w bad)) as H'.
  destruct (publish_once url (w good)) as [rs e] eqn:E. destruct (publish_once url (w bad)) as [rs' e'] eqn:E'.
  destruct H as [H _], H' as (_ & _ & _ & H'). cbn [fst snd]. split.
  - destruct (H "https://live.example/session/7") as (b & _ & ->).
    + exists good. split_and!; vm_compute; reflexivity.
    + vm_compute in E. injection E as <- _. discriminate.
    + vm_compute in E. injection E as E1 _. rewrite <- E1. reflexivity.
  - exists "WHIP 201 omitted Location; automatic retry stopped". apply (H' _ bad).
    + vm_compute in E'. injection E' as <- _. discriminate.
    + reflexivity.
    + reflexivity.
    + vm_compute. reflexivity.
Defined.

(** Publishing is not retried after an unrecoverable answer, nor after the module was told to stop:
    the loop makes no attempt after one that ended unrecoverably or during which the module was
    stopped. *)
Theorem no_retry_after_final (before : list (Ending * (WhipPublisher -> WhipPublisher))) e meanwhile after p :
  (exists what, e = Unrecoverable what) \/ (forall p, stopping_ (meanwhile p) = true) ->
  ((run (before ++ (e, meanwhile) :: after) p).1 <= S (length before))%nat.
Proof.
  intros He. revert p. induction before as [|[e' m'] before IH]; intros p; cbn [app run length].
  - destruct (stopping_ p); [simpl; lia|]. destruct (after_attempt e (meanwhile p)) as [c p'] eqn:E.
    assert (c = false) as ->; [|simpl; lia]. unfold after_attempt in E. destruct He as [[what ->]|Hs]; [congruence|].
    rewrite Hs in E. destruct e; congruence.
  - destruct (stopping_ p); [simpl; lia|]. destruct (after_attempt e' (m' p)) as [[] p']; [|simpl; lia].
    specialize (IH p'). destruct (run _ p'). simpl in *. lia.
Qed.

Lemma no_retry_after_final_witness :
  ((run ([(Threw "timeout", fun p => p)] ++ (Unrecoverable "no location", fun p => p) :: [(Returned, fun p => p); (Returned, fun p => p)])
     make_publisher).1 <= 2)%nat.
Proof. apply (no_retry_after_final [(Threw "timeout", fun p => p)]). left. by eexists. Defined.
End Attempt.
