(* ===== verification/Config.v ===== *)
(** * Configuration loading ([src/config.cpp])

    A document is a tree of YAML nodes.  yaml-cpp is a parameter of the model:
    how it reads a text into a tree and how it converts a scalar to a number, a
    truth value or a string; so are [inet_pton] for the two address families.
    Everything else, from the key checks to the range checks and the order in
    which they report, is the source's. *)

From S2P Require Import Prelude Strings Floats ConfigData Paths Recording.

Module Yaml.

Inductive Node :=
  | Null
  | Scalar (text : string)
  | Sequence (items : list Node)
  | Map (entries : list (Node * Node)).

Definition is_map (n : Node) : bool := match n with Map _ => true | _ => false end.

(** [node[key]] for a string key: the first entry with that scalar key. *)
Definition lookup (n : Node) (key : string) : option Node :=
  match n with
  | Map entries =>
    snd <$> List.find (fun e => match e.1 with Scalar k => bool_decide (k = key) | _ => false end) entries
  | _ => None
  end.
End Yaml.

Module Config.
Import Cfg Yaml.
#[local] Open Scope skai_scope.

(** ** Keys *)

Fixpoint check_entries (path : string) (allowed : list string) (seen : list string)
    (entries : list (Node * Node)) : throws unit :=
  match entries with
  | [] => inr tt
  | (Scalar key, _) :: rest =>
    let field := if bool_decide (path = "") then key else path +:+ "." +:+ key in
    if bool_decide (key ∈ seen) then throw (field +:+ " is duplicated")
    else if negb (bool_decide (key ∈ allowed)) then throw ("unknown configuration key: " +:+ field)
    else check_entries path allowed (key :: seen) rest
  | _ :: _ => throw (path +:+ " has a non-string key")
  end.

Definition check_keys (n : Node) (path : string) (allowed : list string) : throws unit :=
  match n with
  | Map entries => check_entries path allowed [] entries
  | _ => throw (path +:+ " must be a mapping")
  end.

(** [read_scalar]: the value in place is kept when the key is absent. *)
Definition read_scalar {A} (convert : string -> option A) (section : Node) (key path : string) (value : A)
    : throws A :=
  match lookup section key with
  | None => inr value
  | Some (Scalar text) =>
    match convert text with
    | Some v => inr v
    | None => throw (path +:+ "." +:+ key +:+ " has an invalid value")
    end
  | Some _ => throw (path +:+ "." +:+ key +:+ " must be a scalar")
  end.

Definition check_range (valid : bool) (field requirement : string) : throws unit :=
  if valid then inr tt else throw (field +:+ " " +:+ requirement).

(** ** URLs *)

(** [std::from_chars] for an unsigned number that is the whole text. *)
Definition valid_port (text : string) : bool :=
  negb (bool_decide (text = "")) &&
  match read_dec (chars text) 0 with
  | Some port => (1 <=? port) && (port <=? 65535)
  | None => false
  end.

Definition loopback_http_endpoint (url : string) : bool :=
  let prefix := "http://127.0.0.1:" in
  starts_with prefix url &&
  match find_char Path.slash url (str_length prefix) with
  | Some path => valid_port (substr url (str_length prefix) (Some (path - str_length prefix)%nat))
  | None => false
  end.

Definition is_alnum (c : ascii) : bool :=
  let b := byte_of c in
  ((48 <=? b) && (b <=? 57)) || ((65 <=? b) && (b <=? 90)) || ((97 <=? b) && (b <=? 122)).

Definition host_dot : ascii := ".".
Definition hyphen : ascii := "-".

(** One label of a host name, given by its characters. *)
Definition valid_label (l : list ascii) : bool :=
  negb (length l =? 0)%nat && (length l <=? 63)%nat &&
  match head l, last l with Some a, Some b => is_alnum a && is_alnum b | _, _ => false end &&
  forallb (fun c => is_alnum c || Ascii.eqb c hyphen) l.

(** The loop of [valid_hostname] over the labels, from index [start]. *)
Fixpoint hostname_loop (fuel : nat) (host : string) (start : nat) : bool :=
  match fuel with
  | O => false
  | S fuel =>
    if (start <? str_length host)%nat then
      let stop := find_char host_dot host start in
      let len := (default (str_length host) stop - start)%nat in
      if negb (valid_label (take len (drop start (chars host)))) then false
      else match stop with
           | None => true
           | Some e => hostname_loop fuel host (e + 1)
           end
    else false
  end.

Section Parameters.
(** [inet_pton(AF_INET, ...) == 1] and [inet_pton(AF_INET6, ...) == 1]. *)
Context (ipv4 ipv6 : string -> bool).

Definition valid_hostname (host : string) : bool :=
  if bool_decide (host = "") || (253 <? str_length host)%nat then false
  else if contains_char host_dot host && negb (bool_decide (is_Some (find_first_not_of "0123456789." host 0))) then
    ipv4 host
  else hostname_loop (S (str_length host)) host 0.

Definition at_sign : ascii := "@".
Definition colon : ascii := ":".
Definition open_bracket : ascii := "[".
Definition close_bracket : ascii := "]".

(** [valid_port] of what follows, with the check that it starts with a colon. *)
Definition port_suffix (s : string) (pos : nat) : bool :=
  bool_decide (char_at s pos = Some colon) && valid_port (substr s (pos + 1) None).

Definition valid_rtsp_authority (authority : string) : bool :=
  let at_ := rfind_char at_sign authority in
  let misplaced := match at_ with
                   | Some p => (p =? 0)%nat || negb (bool_decide (find_char at_sign authority 0 = Some p))
                   | None => false
                   end in
  if misplaced then false
  else
    let host_port := substr authority (match at_ with Some p => p + 1 | None => 0 end)%nat None in
    if bool_decide (host_port = "") then false
    else if bool_decide (front host_port = Some open_bracket) then
      match find_char close_bracket host_port 0 with
      | None => false
      | Some close =>
        if negb (ipv6 (substr host_port 1 (Some (close - 1)%nat))) then false
        else if (close + 1 =? str_length host_port)%nat then true
        else port_suffix host_port (close + 1)
      end
    else
      match find_char colon host_port 0 with
      | None => valid_hostname host_port
      | Some c => valid_hostname (str_take c host_port) && valid_port (substr host_port (c + 1) None)
      end.

Definition whitespace : string := str [chr 32; chr 9; chr 13; chr 10].
Definition no_char_of (set s : string) : bool := negb (bool_decide (is_Some (find_first_of set s 0))).

(** The text between the scheme and the first of [/], [?], [#]. *)
Definition rtsp_authority (url : string) : string :=
  if (7 <=? str_length url)%nat then
    substr url 7 (match find_first_of "/?#" url 7 with Some e => Some (e - 7)%nat | None => None end)
  else "".

Definition valid_rtsp_url (url : string) : bool :=
  starts_with "rtsp://" url && valid_rtsp_authority (rtsp_authority url) && no_char_of whitespace url.

(** ** Validation *)

Definition within (lo x hi : Z) : bool := (lo <=? x) && (x <=? hi).

Definition validate_video (v : VideoConfig) : throws unit :=
  check_range (valid_rtsp_url (rtsp_url v))
    "video.rtsp_url" "must be a rtsp:// URL with a valid host and optional port" ;;;
  check_range (bool_decide (transport v = "tcp") || bool_decide (transport v = "udp"))
    "video.transport" "must be tcp or udp" ;;;
  check_range (bool_decide (password v = "") || negb (bool_decide (username v = "")))
    "video.username" "must be set when video.password is set" ;;;
  check_range (within 0 (latency_ms v) 10000) "video.latency_ms" "must be between 0 and 10000" ;;;
  check_range (within 1 (reconnect_delay_ms v) 60000)
    "video.reconnect_delay_ms" "must be between 1 and 60000" ;;;
  check_range (within (reconnect_delay_ms v) (max_reconnect_delay_ms v) 60000)
    "video.max_reconnect_delay_ms" "must be between video.reconnect_delay_ms and 60000" ;;;
  check_range (within 1 (stall_timeout_ms v) 60000) "video.stall_timeout_ms" "must be between 1 and 60000" ;;;
  check_range (within 100 (first_frame_timeout_ms v) 120000)
    "video.first_frame_timeout_ms" "must be between 100 and 120000".

(** A finite double between zero and one. *)
Definition unit_interval (x : float64) : bool := isfinite x && fle f64_zero x && fle x f64_one.

Definition validate_rule (index : nat) (r : AlertRuleConfig) : throws unit :=
  let field := "alerts[" +:+ to_string (Z.of_nat index) +:+ "]" in
  check_range (negb (bool_decide (rule_class r = ""))) (field +:+ ".class") "must not be empty" ;;;
  check_range (unit_interval (rule_confidence r)) (field +:+ ".confidence") "must be between 0 and 1" ;;;
  check_range (1 <=? consecutive_frames r) (field +:+ ".consecutive_frames") "must be positive" ;;;
  check_range (0 <=? cooldown_seconds r) (field +:+ ".cooldown_seconds") "must not be negative" ;;;
  match rule_roi r with
  | None => inr tt
  | Some roi =>
    check_range (isfinite (roi_x1 roi) && isfinite (roi_y1 roi) && isfinite (roi_x2 roi) && isfinite (roi_y2 roi) &&
                 fle f64_zero (roi_x1 roi) && fle f64_zero (roi_y1 roi) &&
                 fle (roi_x2 roi) f64_one && fle (roi_y2 roi) f64_one)
      (field +:+ ".roi") "coordinates must be between 0 and 1" ;;;
    check_range (flt (roi_x1 roi) (roi_x2 roi) && flt (roi_y1 roi) (roi_y2 roi))
      (field +:+ ".roi") "must have x1 < x2 and y1 < y2"
  end.

Fixpoint validate_rules (index : nat) (rules : list AlertRuleConfig) : throws unit :=
  match rules with
  | [] => inr tt
  | r :: rest => validate_rule index r ;;; validate_rules (S index) rest
  end.

Fixpoint validate_interfaces (names : list string) : throws unit :=
  match names with
  | [] => inr tt
  | n :: rest =>
    check_range (negb (bool_decide (n = "")) && no_char_of ("/" +:+ whitespace) n)
      "webrtc.host_interfaces" "must contain interface names without spaces or slashes" ;;;
    validate_interfaces rest
  end.

Definition abs_at_most (x : float64) (n : Z) : bool := isfinite x && fle (SFabs x) (f64_of_Z n).

Definition https : string := "https://".

Definition validate (c : Config) : throws unit :=
  validate_video (video c) ;;;
  check_range (negb (bool_decide (engine (detector c) = ""))) "detector.engine" "must not be empty" ;;;
  check_range (unit_interval (det_confidence (detector c))) "detector.confidence" "must be between 0 and 1" ;;;
  check_range (unit_interval (nms (detector c))) "detector.nms" "must be between 0 and 1" ;;;
  check_range (negb (bool_decide (bind (web c) = ""))) "web.bind" "must not be empty" ;;;
  check_range (within 0 (port (web c)) 65535)
    "web.port" "must be between 0 and 65535 (0 selects an ephemeral port)" ;;;
  check_range (negb (bool_decide (root (web c) = ""))) "web.root" "must not be empty" ;;;
  check_range (negb (bool_decide (directory (recording c) = ""))) "recording.directory" "must not be empty" ;;;
  check_range (1 <=? segment_seconds (recording c)) "recording.segment_seconds" "must be positive" ;;;
  check_range (1 <=? max_storage_mb (recording c)) "recording.max_storage_mb" "must be positive" ;;;
  check_range (min_free_space_mb (recording c) <=? max_storage_mb (recording c))
    "recording.min_free_space_mb" "must not exceed recording.max_storage_mb" ;;;
  check_range (negb (bool_decide (database_path (storage c) = ""))) "storage.database_path" "must not be empty" ;;;
  check_range (negb (bool_decide (alert_directory (storage c) = ""))) "storage.alert_directory" "must not be empty" ;;;
  validate_rules 0 (alerts c) ;;;
  check_range (bool_decide (gps_source (gps c) = "fixed")) "gps.source" "must be fixed" ;;;
  check_range (abs_at_most (latitude (gps c)) 90) "gps.latitude" "must be between -90 and 90" ;;;
  check_range (abs_at_most (longitude (gps c)) 180) "gps.longitude" "must be between -180 and 180" ;;;
  check_range (isfinite (altitude_m (gps c))) "gps.altitude_m" "must be finite" ;;;
  check_range (within 1 (max_peers (webrtc c)) 100) "webrtc.max_peers" "must be between 1 and 100" ;;;
  check_range (within 1000 (connection_timeout_ms (webrtc c)) 300000)
    "webrtc.connection_timeout_ms" "must be between 1000 and 300000" ;;;
  check_range (within 1 (media_queue_capacity (webrtc c)) 120)
    "webrtc.media_queue_capacity" "must be between 1 and 120" ;;;
  check_range (within 0 (ice_log_verbosity (webrtc c)) 5) "webrtc.ice_log_verbosity" "must be between 0 and 5" ;;;
  check_range (negb (rtc_enabled (webrtc c)) || negb (bool_decide (host_interfaces (webrtc c) = [])))
    "webrtc.host_interfaces" "must not be empty when webrtc.enabled is true" ;;;
  validate_interfaces (host_interfaces (webrtc c)) ;;;
  check_range (negb (whip_enabled (whip c)) || starts_with https (url (whip c)) ||
               loopback_http_endpoint (url (whip c)))
    "whip.url" "must use https or http://127.0.0.1:<port>/<path> when enabled" ;;;
  check_range (negb (whip_enabled (whip c)) ||
               ((8 <? str_length (url (whip c)))%nat && no_char_of ("#" +:+ whitespace) (url (whip c))))
    "whip.url" "must be a valid endpoint without whitespace or fragments".

(** ** Parsing *)

(** [as<int>], [as<std::uint64_t>], [as<double>] and [as<bool>]; [as<std::string>]
    of a scalar is its text. *)
Context (as_int as_u64 : string -> option Z) (as_double : string -> option float64)
  (as_bool : string -> option bool).

Definition as_string (text : string) : option string := Some text.

Definition parse_video (s : Node) : throws VideoConfig :=
  let d := default_video in
  check_keys s "video" ["rtsp_url"; "username"; "password"; "transport"; "latency_ms"; "reconnect_delay_ms";
                        "max_reconnect_delay_ms"; "stall_timeout_ms"; "first_frame_timeout_ms"] ;;;
  a <- read_scalar as_string s "rtsp_url" "video" (rtsp_url d) ;;
  b <- read_scalar as_string s "username" "video" (username d) ;;
  c <- read_scalar as_string s "password" "video" (password d) ;;
  e <- read_scalar as_string s "transport" "video" (transport d) ;;
  f <- read_scalar as_int s "latency_ms" "video" (latency_ms d) ;;
  g <- read_scalar as_int s "reconnect_delay_ms" "video" (reconnect_delay_ms d) ;;
  h <- read_scalar as_int s "max_reconnect_delay_ms" "video" (max_reconnect_delay_ms d) ;;
  i <- read_scalar as_int s "stall_timeout_ms" "video" (stall_timeout_ms d) ;;
  j <- read_scalar as_int s "first_frame_timeout_ms" "video" (first_frame_timeout_ms d) ;;
  inr (mkVideo a b c e f g h i j).

(** [if (const auto section = root[key])] *)
Definition optional {A} (root : Node) (key : string) (value : A) (read : Node -> throws A) : throws A :=
  match lookup root key with None => inr value | Some s => read s end.

Definition parse_detector (s : Node) : throws DetectorConfig :=
  let d := default_detector in
  check_keys s "detector" ["engine"; "confidence"; "nms"; "annotate"] ;;;
  a <- read_scalar as_string s "engine" "detector" (engine d) ;;
  b <- read_scalar as_double s "confidence" "detector" (det_confidence d) ;;
  c <- read_scalar as_double s "nms" "detector" (nms d) ;;
  e <- read_scalar as_bool s "annotate" "detector" (annotate d) ;;
  inr (mkDetector a b c e).

Definition parse_web (s : Node) : throws WebConfig :=
  let d := default_web in
  check_keys s "web" ["bind"; "port"; "root"] ;;;
  a <- read_scalar as_string s "bind" "web" (bind d) ;;
  b <- read_scalar as_int s "port" "web" (port d) ;;
  c <- read_scalar as_string s "root" "web" (root d) ;;
  inr (mkWeb a b c).

Definition parse_recording (s : Node) : throws RecordingConfig :=
  let d := default_recording in
  check_keys s "recording" ["enabled"; "directory"; "segment_seconds"; "max_storage_mb"; "min_free_space_mb"] ;;;
  a <- read_scalar as_bool s "enabled" "recording" (rec_enabled d) ;;
  b <- read_scalar as_string s "directory" "recording" (directory d) ;;
  c <- read_scalar as_int s "segment_seconds" "recording" (segment_seconds d) ;;
  e <- read_scalar as_u64 s "max_storage_mb" "recording" (max_storage_mb d) ;;
  f <- read_scalar as_u64 s "min_free_space_mb" "recording" (min_free_space_mb d) ;;
  inr (mkRecording a b c e f).

Definition parse_storage (s : Node) : throws StorageConfig :=
  let d := default_storage in
  check_keys s "storage" ["database_path"; "alert_directory"] ;;;
  a <- read_scalar as_string s "database_path" "storage" (database_path d) ;;
  b <- read_scalar as_string s "alert_directory" "storage" (alert_directory d) ;;
  inr (mkStorage a b).

Definition coordinates : list string := ["x1"; "y1"; "x2"; "y2"].

Fixpoint require_coordinates (roi : Node) (path : string) (cs : list string) : throws unit :=
  match cs with
  | [] => inr tt
  | c :: rest =>
    match lookup roi c with
    | None => throw (path +:+ ".roi." +:+ c +:+ " is required")
    | Some _ => require_coordinates roi path rest
    end
  end.

Definition parse_roi (path : string) (roi : Node) : throws (option AlertRoi) :=
  check_keys roi (path +:+ ".roi") coordinates ;;;
  require_coordinates roi path coordinates ;;;
  a <- read_scalar as_double roi "x1" (path +:+ ".roi") f64_zero ;;
  b <- read_scalar as_double roi "y1" (path +:+ ".roi") f64_zero ;;
  c <- read_scalar as_double roi "x2" (path +:+ ".roi") f64_one ;;
  d <- read_scalar as_double roi "y2" (path +:+ ".roi") f64_one ;;
  inr (Some (mkRoi a b c d)).

Definition parse_rule (index : nat) (item : Node) : throws AlertRuleConfig :=
  let d := default_rule in
  let path := "alerts[" +:+ to_string (Z.of_nat index) +:+ "]" in
  check_keys item path ["class"; "confidence"; "consecutive_frames"; "cooldown_seconds"; "roi"] ;;;
  a <- read_scalar as_string item "class" path (rule_class d) ;;
  b <- read_scalar as_double item "confidence" path (rule_confidence d) ;;
  c <- read_scalar as_int item "consecutive_frames" path (consecutive_frames d) ;;
  e <- read_scalar as_int item "cooldown_seconds" path (cooldown_seconds d) ;;
  f <- optional item "roi" (rule_roi d) (parse_roi path) ;;
  inr (mkRule a b c e f).

Fixpoint parse_rules (index : nat) (items : list Node) : throws (list AlertRuleConfig) :=
  match items with
  | [] => inr []
  | i :: rest =>
    r <- parse_rule index i ;;
    rs <- parse_rules (S index) rest ;;
    inr (r :: rs)
  end.

Definition parse_alerts (s : Node) : throws (list AlertRuleConfig) :=
  match s with
  | Sequence items => parse_rules 0 items
  | _ => throw "alerts must be a sequence"
  end.

Definition parse_gps (s : Node) : throws GpsConfig :=
  let d := default_gps in
  check_keys s "gps" ["enabled"; "source"; "latitude"; "longitude"; "altitude_m"] ;;;
  a <- read_scalar as_bool s "enabled" "gps" (gps_enabled d) ;;
  b <- read_scalar as_string s "source" "gps" (gps_source d) ;;
  c <- read_scalar as_double s "latitude" "gps" (latitude d) ;;
  e <- read_scalar as_double s "longitude" "gps" (longitude d) ;;
  f <- read_scalar as_double s "altitude_m" "gps" (altitude_m d) ;;
  inr (mkGps a b c e f).

Fixpoint parse_interfaces (items : list Node) : throws (list string) :=
  match items with
  | [] => inr []
  | Scalar text :: rest => ns <- parse_interfaces rest ;; inr (text :: ns)
  | _ :: _ => throw "webrtc.host_interfaces must contain strings"
  end.

Definition parse_webrtc (s : Node) : throws WebrtcConfig :=
  let d := default_webrtc in
  check_keys s "webrtc" ["enabled"; "max_peers"; "connection_timeout_ms"; "media_queue_capacity";
                         "host_interfaces"; "ice_log_verbosity"] ;;;
  a <- read_scalar as_bool s "enabled" "webrtc" (rtc_enabled d) ;;
  b <- read_scalar as_int s "max_peers" "webrtc" (max_peers d) ;;
  c <- read_scalar as_int s "connection_timeout_ms" "webrtc" (connection_timeout_ms d) ;;
  e <- read_scalar as_int s "media_queue_capacity" "webrtc" (media_queue_capacity d) ;;
  f <- read_scalar as_int s "ice_log_verbosity" "webrtc" (ice_log_verbosity d) ;;
  g <- optional s "host_interfaces" (host_interfaces d) (fun n =>
    match n with
    | Sequence items => parse_interfaces items
    | _ => throw "webrtc.host_interfaces must be a sequence"
    end) ;;
  inr (mkWebrtc a b c e g f).

Definition parse_whip (s : Node) : throws WhipConfig :=
  let d := default_whip in
  check_keys s "whip" ["enabled"; "url"] ;;;
  a <- read_scalar as_bool s "enabled" "whip" (whip_enabled d) ;;
  b <- read_scalar as_string s "url" "whip" (url d) ;;
  inr (mkWhip a b).

Definition parse_logging (s : Node) : throws LogLevel :=
  check_keys s "logging" ["level"] ;;;
  level <- read_scalar as_string s "level" "logging" "info" ;;
  if bool_decide (level = "trace") then inr Trace
  else if bool_decide (level = "debug") then inr Debug
  else if bool_decide (level = "info") then inr Info
  else if bool_decide (level = "warning") then inr Warning
  else if bool_decide (level = "error") then inr Error
  else throw "logging.level must be trace, debug, info, warning, or error".

Definition sections : list string :=
  ["video"; "detector"; "web"; "recording"; "storage"; "alerts"; "gps"; "webrtc"; "whip"; "logging"].

Definition parse (root : Node) : throws Config :=
  let d := default_config in
  check_keys root "" sections ;;;
  match lookup root "video" with
  | Some v =>
    if negb (is_map v) || bool_decide (lookup v "rtsp_url" = None) then throw "video.rtsp_url is required"
    else
      a <- parse_video v ;;
      b <- optional root "detector" (detector d) parse_detector ;;
      c <- optional root "web" (web d) parse_web ;;
      e <- optional root "recording" (recording d) parse_recording ;;
      f <- optional root "storage" (storage d) parse_storage ;;
      g <- optional root "alerts" (alerts d) parse_alerts ;;
      h <- optional root "gps" (gps d) parse_gps ;;
      i <- optional root "webrtc" (webrtc d) parse_webrtc ;;
      j <- optional root "whip" (whip d) parse_whip ;;
      k <- optional root "logging" (logging d) parse_logging ;;
      let config := mkConfig a b c e f g h i j k in
      validate config ;;;
      inr config
  | None => throw "video.rtsp_url is required"
  end.

(** [parse_config] and [load_config]: [load] is [YAML::Load], which may throw;
    [contents] what reading the file gave. *)
Definition parse_config (load : string -> throws Node) (text : string) : throws Config :=
  n <- load text ;; parse n.

Definition load_config (load : string -> throws Node) (path : string) (contents : option string)
    (read_failed : bool) : throws Config :=
  match contents with
  | None => throw ("could not open configuration file: " +:+ path)
  | Some text =>
    if read_failed then throw ("could not read configuration file: " +:+ path)
    else match parse_config load text with
         | inl e => throw (path +:+ ": " +:+ e)
         | inr c => inr c
         end
  end.

Definition validate_video_config (v : VideoConfig) : throws unit := validate_video v.
End Parameters.

(** ** Keys: the specification *)

(** The keys of a mapping are distinct scalars among [allowed]. *)
Definition keys_among (allowed : list string) (entries : list (Node * Node)) : Prop :=
  exists keys, entries.*1 = Scalar <$> keys /\ NoDup keys /\ keys ⊆ allowed.

Lemma check_entries_spec path allowed seen entries :
  check_entries path allowed seen entries = inr tt <->
  exists keys, entries.*1 = Scalar <$> keys /\ NoDup keys /\ keys ⊆ allowed /\ (forall k, k ∈ keys -> k ∉ seen).
Proof.
  revert seen. induction entries as [|[[| key | |] v] entries IH]; intros seen; simpl;
    try (split; [discriminate|intros ([|k ks] & H & _); simplify_eq/=]).
  { split; [|done]. intros _. exists []. split_and!; [done|constructor|set_solver|set_solver]. }
  destruct (bool_decide (key ∈ seen)) eqn:Es; bools.
  { split; [discriminate|]. intros ([|k ks] & H & _ & _ & Hs); simplify_eq/=.
    destruct (Hs k); [set_solver|done]. }
  destruct (bool_decide (key ∈ allowed)) eqn:Ea; bools; simpl.
  2: { split; [discriminate|]. intros ([|k ks] & H & _ & Ha & _); simplify_eq/=. destruct Ea. set_solver. }
  rewrite IH. split.
  - intros (ks & E & Hn & Ha & Hs). exists (key :: ks). split_and!.
    + cbn. f_equal. exact E.
    + constructor; [|done]. intros Hk. apply (Hs _ Hk). set_solver.
    + set_solver.
    + intros k [->|Hk]%elem_of_cons; [done|]. intros Hin. apply (Hs k Hk). set_solver.
  - intros ([|k ks] & E & Hn & Ha & Hs); simplify_eq/=. apply NoDup_cons in Hn as [Hk Hn].
    exists ks. split_and!; [done|done|set_solver|]. intros j Hj [->|Hin]%elem_of_cons; [done|].
    apply (Hs j); [set_solver|done].
Qed.

(** [check_keys] accepts exactly the mappings whose keys are distinct scalars, each one of the
    allowed keys; anything else throws. *)
Theorem check_keys_spec n path allowed :
  check_keys n path allowed = inr tt <-> exists entries, n = Map entries /\ keys_among allowed entries.
Proof.
  destruct n as [| | |entries]; simpl; try (split; [discriminate|intros (e & H & _); discriminate]).
  rewrite check_entries_spec. unfold keys_among. split.
  - intros (ks & ? & ? & ? & _). eauto 6.
  - intros (e & [= <-] & ks & ? & ? & ?). exists ks. split_and!; auto. set_solver.
Qed.

(** ** Host names: the specification *)

(** The pieces of a list between the separators [sep]. *)
Fixpoint split_on (sep : ascii) (l : list ascii) : list (list ascii) :=
  match l with
  | [] => [[]]
  | c :: rest =>
    if Ascii.eqb sep c then [] :: split_on sep rest
    else match split_on sep rest with
         | piece :: more => (c :: piece) :: more
         | [] => [[c]]
         end
  end.

Lemma split_on_no_sep sep l : sep ∉ l -> split_on sep l = [l].
Proof.
  induction l as [|c l IH]; intros H; simpl; [done|].
  destruct (Ascii.eqb_spec sep c) as [->|Hne]; [set_solver|]. rewrite IH; [done|set_solver].
Qed.

Lemma split_on_app sep l k : sep ∉ l -> split_on sep (l ++ sep :: k) = l :: split_on sep k.
Proof.
  induction l as [|c l IH]; intros H; simpl; [by rewrite Ascii.eqb_refl|].
  destruct (Ascii.eqb_spec sep c) as [->|Hne]; [set_solver|]. rewrite IH; [done|set_solver].
Qed.

Lemma hostname_loop_spec fuel host start :
  (str_length host - start < fuel)%nat -> (start <= str_length host)%nat ->
  hostname_loop fuel host start = forallb valid_label (split_on host_dot (drop start (chars host))).
Proof.
  revert start. induction fuel as [|fuel IH]; intros start Hf Hs; [lia|]. cbn [hostname_loop].
  unfold str_length in *. destruct (Nat.ltb_spec start (length (chars host))) as [Hlt|Hge].
  2: { rewrite drop_ge by lia. done. }
  destruct (find_char host_dot host start) as [e|] eqn:E; cbn [default].
  - apply find_char_Some in E as (He & Hc & Hno). apply lookup_lt_Some in Hc as Hl.
    assert (Hsplit : drop start (chars host) =
      take (e - start) (drop start (chars host)) ++ host_dot :: drop (e + 1) (chars host)).
    { rewrite <- (take_drop (e - start) (drop start (chars host))) at 1. f_equal.
      rewrite drop_drop. replace (start + (e - start))%nat with e by lia.
      rewrite (drop_S _ _ _ Hc). by rewrite Nat.add_1_r. }
    rewrite Hsplit at 2. rewrite split_on_app.
    + cbn [forallb id]. destruct (valid_label _); simpl; [|done]. rewrite IH by lia. done.
    + rewrite list_elem_of_lookup. intros [i Hi]. apply lookup_take_Some in Hi as [Hi Hlt'].
      rewrite lookup_drop in Hi. apply (Hno (start + i)%nat); [lia|done].
  - cbn [id]. pose proof (proj1 (find_char_None _ _ _) E) as Hno.
    rewrite take_ge by (rewrite length_drop; lia). rewrite split_on_no_sep.
    + cbn [forallb]. by destruct (valid_label _).
    + rewrite list_elem_of_lookup. intros [i Hi]. rewrite lookup_drop in Hi. apply (Hno (start + i)%nat); [lia|done].
Qed.

Lemma valid_label_spec l :
  valid_label l = true <->
  (1 <= length l <= 63)%nat /\ Forall (fun c => is_alnum c = true \/ c = hyphen) l /\
  (forall c, head l = Some c \/ last l = Some c -> is_alnum c = true).
Proof.
  unfold valid_label. generalize is_alnum as alnum. intros alnum.
  rewrite !andb_true_iff, negb_true_iff, Nat.eqb_neq, Nat.leb_le, forallb_forall, Forall_forall.
  setoid_rewrite <- list_elem_of_In. setoid_rewrite orb_true_iff. setoid_rewrite Ascii.eqb_eq.
  destruct l as [|a l]; [simpl; split; [intros [[[? ?] ?] ?]; done|intros [[? _] _]; lia]|].
  assert (is_Some (last (a :: l))) as [b Hb] by (apply last_is_Some; done).
  rewrite Hb. cbn [head]. rewrite andb_true_iff. cbn [length]. split.
  - intros (((_ & ?) & ? & ?) & ?). split; [lia|]. split; [done|]. intros c [E|E]; congruence.
  - intros ([_ ?] & ? & ?). split_and!; auto.
Qed.

(** A text of digits and dots with at least one dot. *)
Definition dotted_numeric (host : string) : bool :=
  contains_char host_dot host && forallb (in_set "0123456789.") (chars host).

Lemma find_first_not_of_none set host :
  bool_decide (is_Some (find_first_not_of set host 0)) = negb (forallb (in_set set) (chars host)).
Proof.
  apply eq_true_iff_eq. rewrite bool_decide_eq_true, negb_true_iff, <- not_true_iff_false, forallb_forall.
  unfold find_first_not_of. destruct (find_if _ host 0) as [i|] eqn:E.
  - apply find_if_Some in E as (_ & (c & Hc & Hn) & _). split; [|by eauto]. intros _ H.
    rewrite H in Hn; [done|]. apply list_elem_of_In, list_elem_of_lookup. eauto.
  - rewrite find_if_None in E. split; [by intros []|]. intros []. intros c Hc.
    apply list_elem_of_In, list_elem_of_lookup in Hc as [i Hi].
    specialize (E i c ltac:(lia) Hi). by apply negb_false_iff.
Qed.

(** A host name is accepted exactly when it has 1 to 253 characters and either is dotted-numeric and
    an IPv4 address, or is not dotted-numeric and every piece between its dots is a label of 1 to 63
    letters, digits and hyphens that neither starts nor ends with a hyphen. *)
Theorem valid_hostname_spec ipv4 host :
  valid_hostname ipv4 host = true <->
  (1 <= str_length host <= 253)%nat /\
  if dotted_numeric host then ipv4 host = true
  else Forall (fun l => (1 <= length l <= 63)%nat /\
                        Forall (fun c => is_alnum c = true \/ c = hyphen) l /\
                        (forall c, head l = Some c \/ last l = Some c -> is_alnum c = true))
         (split_on host_dot (chars host)).
Proof.
  unfold valid_hostname. destruct (bool_decide (host = "")) eqn:E0; bools; cbn [orb].
  { subst. split; [done|]. intros [[H _] _]. exfalso. vm_compute in H. lia. }
  assert (1 <= str_length host)%nat.
  { unfold str_length. destruct (chars host) eqn:E; [|simpl; lia]. by apply chars_nil in E. }
  destruct (Nat.ltb_spec 253 (str_length host)) as [Hl|Hl]; [split; [done|]; intros [? _]; lia|].
  unfold dotted_numeric. rewrite find_first_not_of_none, negb_involutive.
  destruct (contains_char host_dot host && _); [intuition|].
  rewrite hostname_loop_spec by lia. rewrite drop_0, forallb_forall, Forall_forall.
  setoid_rewrite <- list_elem_of_In.
  setoid_rewrite valid_label_spec. split; [intros H1; split; [lia|]; apply H1|intros [_ H1]; exact H1].
Qed.

(** ** What an accepted configuration satisfies *)

Definition nonempty (s : string) : Prop := s <> "".

Record video_ok (ipv4 ipv6 : string -> bool) (v : VideoConfig) : Prop := {
  ok_url : valid_rtsp_url ipv4 ipv6 (rtsp_url v) = true;
  ok_transport : transport v = "tcp" \/ transport v = "udp";
  ok_credentials : nonempty (password v) -> nonempty (username v);
  ok_latency : 0 <= latency_ms v <= 10000;
  ok_delay : 1 <= reconnect_delay_ms v <= max_reconnect_delay_ms v;
  ok_max_delay : max_reconnect_delay_ms v <= 60000;
  ok_stall : 1 <= stall_timeout_ms v <= 60000;
  ok_first_frame : 100 <= first_frame_timeout_ms v <= 120000;
}.

Record roi_ok (r : AlertRoi) : Prop := {
  ok_finite : Forall (fun x => isfinite x = true) [roi_x1 r; roi_y1 r; roi_x2 r; roi_y2 r];
  ok_low : fle f64_zero (roi_x1 r) = true /\ fle f64_zero (roi_y1 r) = true;
  ok_high : fle (roi_x2 r) f64_one = true /\ fle (roi_y2 r) f64_one = true;
  ok_ordered : flt (roi_x1 r) (roi_x2 r) = true /\ flt (roi_y1 r) (roi_y2 r) = true;
}.

Record rule_ok (r : AlertRuleConfig) : Prop := {
  ok_class : nonempty (rule_class r);
  ok_confidence : unit_interval (rule_confidence r) = true;
  ok_frames : 1 <= consecutive_frames r;
  ok_cooldown : 0 <= cooldown_seconds r;
  ok_roi : forall roi, rule_roi r = Some roi -> roi_ok roi;
}.

Record Accepted (ipv4 ipv6 : string -> bool) (c : Config) : Prop := {
  ok_video : video_ok ipv4 ipv6 (video c);
  ok_detector : nonempty (engine (detector c)) /\ unit_interval (det_confidence (detector c)) = true /\
    unit_interval (nms (detector c)) = true;
  ok_web : nonempty (bind (web c)) /\ 0 <= port (web c) <= 65535 /\ nonempty (root (web c));
  ok_recording : nonempty (directory (recording c)) /\ 1 <= segment_seconds (recording c) /\
    1 <= max_storage_mb (recording c) /\ min_free_space_mb (recording c) <= max_storage_mb (recording c);
  ok_storage : nonempty (database_path (storage c)) /\ nonempty (alert_directory (storage c));
  ok_alerts : Forall rule_ok (alerts c);
  ok_gps : gps_source (gps c) = "fixed" /\ abs_at_most (latitude (gps c)) 90 = true /\
    abs_at_most (longitude (gps c)) 180 = true /\ isfinite (altitude_m (gps c)) = true;
  ok_webrtc : 1 <= max_peers (webrtc c) <= 100 /\ 1000 <= connection_timeout_ms (webrtc c) <= 300000 /\
    1 <= media_queue_capacity (webrtc c) <= 120 /\ 0 <= ice_log_verbosity (webrtc c) <= 5;
  ok_interfaces : (rtc_enabled (webrtc c) = true -> host_interfaces (webrtc c) <> []) /\
    Forall (fun n => nonempty n /\ no_char_of ("/" +:+ whitespace) n = true) (host_interfaces (webrtc c));
  ok_whip : whip_enabled (whip c) = true ->
    (starts_with https (url (whip c)) = true \/ loopback_http_endpoint (url (whip c)) = true) /\
    (8 < str_length (url (whip c)))%nat /\ no_char_of ("#" +:+ whitespace) (url (whip c)) = true;
}.

Lemma check_range_ok b field requirement : check_range b field requirement = inr tt <-> b = true.
Proof. unfold check_range, throw. destruct b; naive_solver. Qed.

Lemma seq_ok {B} (m : throws unit) (k : throws B) b : tbind m (fun _ => k) = inr b <-> m = inr tt /\ k = inr b.
Proof. destruct m as [|[]]; simpl; naive_solver. Qed.

Lemma within_spec lo x hi : within lo x hi = true <-> lo <= x <= hi.
Proof. unfold within. rewrite andb_true_iff, !Z.leb_le. done. Qed.

Lemma nonempty_spec s : negb (bool_decide (s = "")) = true <-> nonempty s.
Proof. by rewrite negb_true_iff, bool_decide_eq_false. Qed.

Lemma implies_spec b P : (negb b || P = true) <-> (b = true -> P = true).
Proof. destruct b, P; naive_solver. Qed.

Ltac checks := rewrite ?seq_ok, ?check_range_ok, ?within_spec, ?nonempty_spec, ?Z.leb_le.

Lemma validate_video_spec ipv4 ipv6 v : validate_video ipv4 ipv6 v = inr tt <-> video_ok ipv4 ipv6 v.
Proof.
  unfold validate_video. checks. rewrite !orb_true_iff, !bool_decide_eq_true, nonempty_spec. unfold nonempty.
  split.
  - intros (? & ? & Hp & ? & ? & ? & ? & ?). constructor; auto; try lia. intros Hn. by destruct Hp.
  - intros []. split_and!; auto; try lia. destruct (decide (password v = "")); [by left|right; by apply ok_credentials0].
Qed.

Lemma validate_rule_spec i r : validate_rule i r = inr tt <-> rule_ok r.
Proof.
  unfold validate_rule. checks. destruct (rule_roi r) as [roi|] eqn:E.
  - checks. rewrite !andb_true_iff. split.
    + intros (? & ? & ? & ? & (((((((? & ?) & ?) & ?) & ?) & ?) & ?) & ?) & ? & ?).
      constructor; auto. intros ? [= <-]%(eq_trans (eq_sym E)). constructor; auto.
    + intros []. destruct (ok_roi0 _ E). rewrite !Forall_cons in ok_finite0. naive_solver.
  - split.
    + intros (? & ? & ? & ? & _). constructor; auto. congruence.
    + intros []. naive_solver.
Qed.

Lemma validate_rules_spec i rules : validate_rules i rules = inr tt <-> Forall rule_ok rules.
Proof.
  revert i. induction rules as [|r rules IH]; intros i; simpl; [by split; [constructor|]|].
  by rewrite seq_ok, validate_rule_spec, IH, Forall_cons.
Qed.

Lemma validate_interfaces_spec names :
  validate_interfaces names = inr tt <->
  Forall (fun n => nonempty n /\ no_char_of ("/" +:+ whitespace) n = true) names.
Proof.
  induction names as [|n names IH]; [by split; [constructor|]|]. cbn [validate_interfaces].
  rewrite Forall_cons, seq_ok, check_range_ok, andb_true_iff, nonempty_spec, IH. done.
Qed.

Lemma validate_spec ipv4 ipv6 c : validate ipv4 ipv6 c = inr tt <-> Accepted ipv4 ipv6 c.
Proof.
  unfold validate. checks.
  rewrite validate_video_spec, validate_rules_spec, validate_interfaces_spec, bool_decide_eq_true.
  rewrite <- orb_assoc, !implies_spec, negb_true_iff, bool_decide_eq_false, andb_true_iff, Nat.ltb_lt, orb_true_iff.
  split.
  - intros H. destruct_and! H. constructor; auto.
  - intros []. destruct_and?. split_and!; auto; naive_solver.
Qed.

Section Parsed.
Context (ipv4 ipv6 : string -> bool) (as_int as_u64 : string -> option Z)
  (as_double : string -> option float64) (as_bool : string -> option bool).
Abbreviation read := (parse ipv4 ipv6 as_int as_u64 as_double as_bool).

(** C40.   Whatever the document and however yaml-cpp converts its scalars, a configuration that
    [parse] returns satisfies every documented range. *)
Theorem parse_accepted document c : read document = inr c -> Accepted ipv4 ipv6 c.
Proof.
  unfold parse. rewrite seq_ok. intros [_ H]. case_match; [|done]. case_match; [done|].
  do 10 (apply tbind_ok in H as (? & _ & H)).
  apply seq_ok in H as [H [= <-]]. by apply validate_spec.
Qed.

(** ** Rendering a configuration as a document *)

Context (show_int show_u64 : Z -> string) (show_double : float64 -> string) (show_bool : bool -> string).

Definition entry (key text : string) : Node * Node := (Scalar key, Scalar text).

Definition render_video (v : VideoConfig) : Node := Map
  [ entry "rtsp_url" (rtsp_url v); entry "username" (username v); entry "password" (password v);
    entry "transport" (transport v); entry "latency_ms" (show_int (latency_ms v));
    entry "reconnect_delay_ms" (show_int (reconnect_delay_ms v));
    entry "max_reconnect_delay_ms" (show_int (max_reconnect_delay_ms v));
    entry "stall_timeout_ms" (show_int (stall_timeout_ms v));
    entry "first_frame_timeout_ms" (show_int (first_frame_timeout_ms v)) ].

Definition render_detector (d : DetectorConfig) : Node := Map
  [ entry "engine" (engine d); entry "confidence" (show_double (det_confidence d));
    entry "nms" (show_double (nms d)); entry "annotate" (show_bool (annotate d)) ].

Definition render_web (w : WebConfig) : Node := Map
  [ entry "bind" (bind w); entry "port" (show_int (port w)); entry "root" (root w) ].

Definition render_recording (r : RecordingConfig) : Node := Map
  [ entry "enabled" (show_bool (rec_enabled r)); entry "directory" (directory r);
    entry "segment_seconds" (show_int (segment_seconds r)); entry "max_storage_mb" (show_u64 (max_storage_mb r));
    entry "min_free_space_mb" (show_u64 (min_free_space_mb r)) ].

Definition render_storage (s : StorageConfig) : Node := Map
  [ entry "database_path" (database_path s); entry "alert_directory" (alert_directory s) ].

Definition render_roi (r : AlertRoi) : Node := Map
  [ entry "x1" (show_double (roi_x1 r)); entry "y1" (show_double (roi_y1 r));
    entry "x2" (show_double (roi_x2 r)); entry "y2" (show_double (roi_y2 r)) ].

Definition render_rule (r : AlertRuleConfig) : Node := Map
  ([ entry "class" (rule_class r); entry "confidence" (show_double (rule_confidence r));
     entry "consecutive_frames" (show_int (consecutive_frames r));
     entry "cooldown_seconds" (show_int (cooldown_seconds r)) ] ++
   match rule_roi r with Some roi => [(Scalar "roi", render_roi roi)] | None => [] end).

Definition render_gps (g : GpsConfig) : Node := Map
  [ entry "enabled" (show_bool (gps_enabled g)); entry "source" (gps_source g);
    entry "latitude" (show_double (latitude g)); entry "longitude" (show_double (longitude g));
    entry "altitude_m" (show_double (altitude_m g)) ].

Definition render_webrtc (w : WebrtcConfig) : Node := Map
  [ entry "enabled" (show_bool (rtc_enabled w)); entry "max_peers" (show_int (max_peers w));
    entry "connection_timeout_ms" (show_int (connection_timeout_ms w));
    entry "media_queue_capacity" (show_int (media_queue_capacity w));
    entry "ice_log_verbosity" (show_int (ice_log_verbosity w));
    (Scalar "host_interfaces", Sequence (Scalar <$> host_interfaces w)) ].

Definition render_whip (w : WhipConfig) : Node := Map
  [ entry "enabled" (show_bool (whip_enabled w)); entry "url" (url w) ].

Definition level_name (l : LogLevel) : string :=
  match l with
  | Trace => "trace" | Debug => "debug" | Info => "info" | Warning => "warning" | Error => "error"
  end.

Definition render (c : Config) : Node := Map
  [ (Scalar "video", render_video (video c)); (Scalar "detector", render_detector (detector c));
    (Scalar "web", render_web (web c)); (Scalar "recording", render_recording (recording c));
    (Scalar "storage", render_storage (storage c)); (Scalar "alerts", Sequence (render_rule <$> alerts c));
    (Scalar "gps", render_gps (gps c)); (Scalar "webrtc", render_webrtc (webrtc c));
    (Scalar "whip", render_whip (whip c)); (Scalar "logging", Map [entry "level" (level_name (logging c))]) ].

(** The numbers of a configuration. *)
Definition rule_doubles (r : AlertRuleConfig) : list float64 :=
  rule_confidence r ::
  match rule_roi r with Some a => [roi_x1 a; roi_y1 a; roi_x2 a; roi_y2 a] | None => [] end.

Definition doubles (c : Config) : list float64 :=
  [det_confidence (detector c); nms (detector c); latitude (gps c); longitude (gps c); altitude_m (gps c)] ++
  flat_map rule_doubles (alerts c).

Definition rule_ints (r : AlertRuleConfig) : list Z := [consecutive_frames r; cooldown_seconds r].

Definition ints (c : Config) : list Z :=
  let v := video c in let w := webrtc c in
  [latency_ms v; reconnect_delay_ms v; max_reconnect_delay_ms v; stall_timeout_ms v; first_frame_timeout_ms v;
   port (web c); segment_seconds (recording c); max_peers w; connection_timeout_ms w; media_queue_capacity w;
   ice_log_verbosity w] ++
  flat_map rule_ints (alerts c).

Definition u64s (c : Config) : list Z := [max_storage_mb (recording c); min_free_space_mb (recording c)].

(** [convert] reads back what [show] writes for these values. *)
Definition reads_back {A} (convert : string -> option A) (show : A -> string) (xs : list A) : Prop :=
  Forall (fun x => convert (show x) = Some x) xs.

Lemma read_scalar_at {A} (convert : string -> option A) n key path d text v :
  lookup n key = Some (Scalar text) -> convert text = Some v -> read_scalar convert n key path d = inr v.
Proof. unfold read_scalar. intros -> Hc. by rewrite Hc. Qed.

Lemma keys_ok n path allowed : check_keys n path allowed = inr tt -> forall B (k : throws B),
  tbind (check_keys n path allowed) (fun _ => k) = k.
Proof. by intros ->. Qed.

(** Discharge the key check and the reads of a rendered section. *)
Ltac section_reads :=
  rewrite keys_ok by reflexivity;
  repeat (erewrite read_scalar_at; [cbn [tbind]|reflexivity|first [reflexivity|eassumption]]);
  try reflexivity.

Hypothesis bools_read : forall b, as_bool (show_bool b) = Some b.

Lemma video_reads v : reads_back as_int show_int [latency_ms v; reconnect_delay_ms v; max_reconnect_delay_ms v;
    stall_timeout_ms v; first_frame_timeout_ms v] ->
  parse_video as_int (render_video v) = inr v.
Proof.
  unfold reads_back. rewrite !Forall_cons. intros (? & ? & ? & ? & ? & _). unfold parse_video.
  section_reads. by destruct v.
Qed.

Lemma detector_reads d : reads_back as_double show_double [det_confidence d; nms d] ->
  parse_detector as_double as_bool (render_detector d) = inr d.
Proof.
  unfold reads_back. rewrite !Forall_cons. intros (? & ? & _). pose proof (bools_read (annotate d)).
  unfold parse_detector. section_reads. by destruct d.
Qed.

Lemma web_reads w : as_int (show_int (port w)) = Some (port w) -> parse_web as_int (render_web w) = inr w.
Proof. intros. unfold parse_web. section_reads. by destruct w. Qed.

Lemma recording_reads r : as_int (show_int (segment_seconds r)) = Some (segment_seconds r) ->
  reads_back as_u64 show_u64 [max_storage_mb r; min_free_space_mb r] ->
  parse_recording as_int as_u64 as_bool (render_recording r) = inr r.
Proof.
  unfold reads_back. rewrite !Forall_cons. intros ? (? & ? & _). pose proof (bools_read (rec_enabled r)).
  unfold parse_recording. section_reads. by destruct r.
Qed.

Lemma storage_reads s : parse_storage (render_storage s) = inr s.
Proof. unfold parse_storage. section_reads. by destruct s. Qed.

Lemma gps_reads g : reads_back as_double show_double [latitude g; longitude g; altitude_m g] ->
  parse_gps as_double as_bool (render_gps g) = inr g.
Proof.
  unfold reads_back. rewrite !Forall_cons. intros (? & ? & ? & _). pose proof (bools_read (gps_enabled g)).
  unfold parse_gps. section_reads. by destruct g.
Qed.

Lemma interfaces_read names : parse_interfaces (Scalar <$> names) = inr names.
Proof. induction names as [|n names IH]; [done|]. cbn. by rewrite IH. Qed.

Lemma webrtc_reads w : reads_back as_int show_int [max_peers w; connection_timeout_ms w; media_queue_capacity w;
    ice_log_verbosity w] ->
  parse_webrtc as_int as_bool (render_webrtc w) = inr w.
Proof.
  unfold reads_back. rewrite !Forall_cons. intros (? & ? & ? & ? & _). pose proof (bools_read (rtc_enabled w)).
  unfold parse_webrtc. section_reads. unfold optional.
  replace (lookup (render_webrtc w) "host_interfaces") with (Some (Sequence (Scalar <$> host_interfaces w)))
    by reflexivity.
  rewrite interfaces_read. by destruct w.
Qed.

Lemma whip_reads w : parse_whip as_bool (render_whip w) = inr w.
Proof. pose proof (bools_read (whip_enabled w)). unfold parse_whip. section_reads. by destruct w. Qed.

Lemma logging_reads l : parse_logging (Map [entry "level" (level_name l)]) = inr l.
Proof. by destruct l. Qed.

Lemma roi_reads path r : reads_back as_double show_double [roi_x1 r; roi_y1 r; roi_x2 r; roi_y2 r] ->
  parse_roi as_double path (render_roi r) = inr (Some r).
Proof.
  unfold reads_back. rewrite !Forall_cons. intros (? & ? & ? & ? & _). unfold parse_roi.
  rewrite keys_ok by reflexivity.
  replace (require_coordinates (render_roi r) path coordinates) with (inr tt : throws unit) by reflexivity.
  cbn [tbind]. repeat (erewrite read_scalar_at; [cbn [tbind]|reflexivity|eassumption]). by destruct r.
Qed.

Lemma rule_reads i r : reads_back as_double show_double (rule_doubles r) ->
  reads_back as_int show_int (rule_ints r) ->
  parse_rule as_int as_double i (render_rule r) = inr r.
Proof.
  destruct r as [cls conf frames cool [roi|]]; unfold rule_doubles, rule_ints, reads_back;
    cbn [rule_class rule_confidence consecutive_frames cooldown_seconds rule_roi];
    rewrite !Forall_cons; intros (? & Hroi) (? & ? & _); unfold parse_rule; section_reads.
  unfold optional, render_rule. cbn [rule_roi].
  match goal with |- context [lookup ?n "roi"] =>
    replace (lookup n "roi") with (Some (render_roi roi)) by reflexivity end.
  rewrite roi_reads; [done|]. unfold reads_back. by rewrite !Forall_cons.
Qed.

Lemma rules_read i rules : reads_back as_double show_double (flat_map rule_doubles rules) ->
  reads_back as_int show_int (flat_map rule_ints rules) ->
  parse_rules as_int as_double i (render_rule <$> rules) = inr rules.
Proof.
  revert i. induction rules as [|r rules IH]; intros i Hd Hi; [done|]. unfold reads_back in *.
  apply Forall_app in Hd as [? ?], Hi as [? ?]. rewrite fmap_cons.
  cbn [parse_rules]. rewrite rule_reads by done. cbn [tbind]. by rewrite IH by done.
Qed.

Lemma optional_at {A} n key (d : A) parse_section s v :
  lookup n key = Some s -> parse_section s = inr v -> optional n key d parse_section = inr v.
Proof. unfold optional. by intros ->. Qed.

(** C33.   Parsing is complete and reads every field from its own key: for any configuration within
    the documented ranges, the document that spells out all its fields parses back to exactly that
    configuration, provided yaml-cpp reads back the texts of its numbers and of the two truth
    values. *)
Theorem render_parses c : Accepted ipv4 ipv6 c -> reads_back as_int show_int (ints c) ->
  reads_back as_u64 show_u64 (u64s c) -> reads_back as_double show_double (doubles c) ->
  read (render c) = inr c.
Proof.
  intros Ha Hi Hu Hd. unfold parse. rewrite keys_ok by reflexivity.
  replace (lookup (render c) "video") with (Some (render_video (video c))) by reflexivity.
  replace (negb (is_map (render_video (video c))) || bool_decide (lookup (render_video (video c)) "rtsp_url" = None))
    with false by reflexivity.
  unfold ints in Hi. apply Forall_app in Hi as [Hi Hri]. rewrite !Forall_cons in Hi.
  unfold doubles in Hd. apply Forall_app in Hd as [Hd Hrd]. rewrite !Forall_cons in Hd.
  unfold u64s, reads_back in Hu. rewrite !Forall_cons in Hu. destruct_and!.
  rewrite video_reads by (unfold reads_back; rewrite !Forall_cons; done). cbn [tbind].
  repeat (erewrite optional_at; [cbn [tbind]|reflexivity|
    first [apply detector_reads | apply web_reads | apply recording_reads | apply storage_reads
          | apply rules_read | apply gps_reads | apply webrtc_reads | apply whip_reads | apply logging_reads];
    unfold reads_back; rewrite ?Forall_cons; done]).
  replace (mkConfig _ _ _ _ _ _ _ _ _ _) with c by by destruct c.
  by rewrite (proj2 (validate_spec _ _ _) Ha).
Qed.

Definition with_url (u : string) (v : VideoConfig) : VideoConfig :=
  mkVideo u (username v) (password v) (transport v) (latency_ms v) (reconnect_delay_ms v)
    (max_reconnect_delay_ms v) (stall_timeout_ms v) (first_frame_timeout_ms v).

Definition with_video (v : VideoConfig) (r : RecordingConfig) (c : Config) : Config :=
  mkConfig v (detector c) (web c) r (storage c) (alerts c) (gps c) (webrtc c) (whip c) (logging c).

Definition default_with (u : string) (r : RecordingConfig) : Config :=
  with_video (with_url u default_video) r default_config.

Lemma default_accepted u r : valid_rtsp_url ipv4 ipv6 u = true ->
  nonempty (directory r) /\ 1 <= segment_seconds r /\ 1 <= max_storage_mb r /\
    min_free_space_mb r <= max_storage_mb r ->
  Accepted ipv4 ipv6 (default_with u r).
Proof.
  intros Hu Hr. constructor; cbn -[unit_interval abs_at_most isfinite no_char_of]; unfold nonempty.
  - constructor; cbn; unfold nonempty; auto; try lia; naive_solver.
  - split_and!; [done|reflexivity|reflexivity].
  - split_and!; [done|lia|lia|done].
  - exact Hr.
  - done.
  - constructor.
  - split_and!; [done|reflexivity|reflexivity|reflexivity].
  - lia.
  - split; [done|]. repeat constructor; done.
  - done.
Qed.

(** A document that only names the stream is enough: every other setting takes its default, and
    those defaults pass validation. *)
Theorem minimal_document u : valid_rtsp_url ipv4 ipv6 u = true ->
  read (Map [(Scalar "video", Map [entry "rtsp_url" u])]) = inr (default_with u default_recording).
Proof.
  intros Hu. assert (Ha : Accepted ipv4 ipv6 (default_with u default_recording)).
  { apply default_accepted; [done|]. cbn. unfold nonempty. split_and!; [done|lia..]. }
  apply validate_spec in Ha. set (c := default_with u default_recording) in *.
  change (tbind (validate ipv4 ipv6 c) (fun _ => inr c) = inr c). by rewrite Ha.
Qed.
End Parsed.

(** Nothing bounds [recording.max_storage_mb] from above: 2^44 MiB passes validation, and the quota
    in bytes then wraps to zero, so that enforcing it deletes every segment. *)
Theorem storage_quota_wraps ipv4 ipv6 f :
  Quota.removable f = true -> 0 < Quota.size f <= u64_max ->
  let c := default_with "rtsp://camera/stream" (mkRecording true "recordings" 60 (2 ^ 44) 100) in
  validate ipv4 ipv6 c = inr tt /\ max_storage_mb (recording c) <= u64_max /\
  Quota.quota_bytes (max_storage_mb (recording c)) = 0 /\
  Quota.enforce_quota (max_storage_mb (recording c)) [f] = [f].
Proof.
  intros Hr Hs c. assert (Hq : Quota.quota_bytes (max_storage_mb (recording c)) = 0) by reflexivity.
  split; [|split; [done|split; [done|]]].
  - apply validate_spec, default_accepted; [reflexivity|]. cbn. unfold nonempty. split_and!; [done|lia..].
  - unfold Quota.enforce_quota. rewrite Hq. cbn. rewrite Z.add_0_r, u64_small by lia.
    destruct (Z.leb_spec (Quota.size f) 0); [lia|done].
Qed.

Lemma storage_quota_wraps_witness :
  Quota.enforce_quota (2 ^ 44) [Quota.mkFile "recording_1.mp4" 1000 5 true] = [Quota.mkFile "recording_1.mp4" 1000 5 true].
Proof.
  apply (storage_quota_wraps (fun _ => false) (fun _ => false) (Quota.mkFile "recording_1.mp4" 1000 5 true));
    [done|cbn; lia].
Defined.

(** ** A concrete instance of the conversions *)

Definition read_number (text : string) : option Z :=
  if bool_decide (text = "") then None else read_dec (chars text) 0.

(** Texts of the doubles of a configuration, as a table. *)
Definition double_texts : list (string * float64) :=
  [("0.35", lit 35 2); ("0.45", lit 45 2); ("25.033964", lit 25033964 6); ("121.564468", lit 121564468 6);
   ("10", lit 10 0); ("0.7", lit 7 1); ("0", f64_zero); ("0.5", lit 5 1); ("1", f64_one)].

Definition text_of (x : float64) : string :=
  default "" (fst <$> List.find (fun p => feq p.2 x) double_texts).

Definition double_of (text : string) : option float64 :=
  snd <$> List.find (fun p => bool_decide (p.1 = text)) double_texts.

Definition bool_of (text : string) : option bool :=
  if bool_decide (text = "true") then Some true else if bool_decide (text = "false") then Some false else None.

Definition text_of_bool (b : bool) : string := if b then "true" else "false".

Definition sample_config : Config :=
  let c := default_with "rtsp://camera:554/stream" default_recording in
  mkConfig (video c) (detector c) (web c) (recording c) (storage c)
    [mkRule "person" (lit 7 1) 3 10 (Some (mkRoi f64_zero f64_zero (lit 5 1) f64_one))]
    (gps c) (webrtc c) (mkWhip true "https://media.example/whip") Debug.

Definition no_address (_ : string) : bool := false.

Lemma sample_accepted : Accepted no_address no_address sample_config.
Proof. apply validate_spec. vm_compute. reflexivity. Qed.

Lemma render_parses_witness :
  parse no_address no_address read_number read_number double_of bool_of
    (render to_string to_string text_of text_of_bool sample_config) = inr sample_config.
Proof.
  apply (render_parses no_address no_address read_number read_number double_of bool_of
    to_string to_string text_of text_of_bool); [by intros []|exact sample_accepted|..];
    unfold reads_back; repeat constructor.
Defined.

Lemma parse_accepted_witness : Accepted no_address no_address sample_config.
Proof.
  apply (parse_accepted no_address no_address read_number read_number double_of bool_of
    (render to_string to_string text_of text_of_bool sample_config)).
  vm_compute. reflexivity.
Defined.

Lemma minimal_document_witness :
  parse no_address no_address read_number read_number double_of bool_of
    (Map [(Scalar "video", Map [entry "rtsp_url" "rtsp://camera"])]) =
  inr (default_with "rtsp://camera" default_recording).
Proof.
  apply (minimal_document no_address no_address read_number read_number double_of bool_of "rtsp://camera").
  reflexivity.
Defined.

End Config.
