(* ===== verification/VideoModules.v ===== *)
(** * Lifecycle adapters ([src/video/rtsp_video_module.cpp], [src/video/h264_encoder_module.cpp], [src/webrtc/ice_runtime_module.cpp])

    The modules that make a component fit [LifecycleModule].  A module owns its
    component from [initialize] to [wait]; meanwhile the queues and the status board it
    refers to are the ones inside the component. *)

From S2P Require Import Prelude Strings ConfigData BoundedQueue RtspRecovery Diagnostics Health Annotator WebRtcSession RtspSource Encoder.

Module VideoModule.
Import Source.

(** [frames_], [encoded_access_units_] and [status_] while there is no source;
    [joinable]: the source has a thread. *)
Record RtspVideoModule := mkVideo {
  frames_ : Queue.BoundedQueue Annotator.Frame;
  encoded_access_units_ : Queue.BoundedQueue Media.EncodedAccessUnit;
  status_ : Status.RuntimeStatus;
  config_ : Cfg.VideoConfig;
  source_ : option RtspSource;
  joinable : bool;
  log : list string;
}.

Definition make_module (frames : Queue.BoundedQueue Annotator.Frame) (encoded : Queue.BoundedQueue Media.EncodedAccessUnit)
    (status : Status.RuntimeStatus) : RtspVideoModule := mkVideo frames encoded status Cfg.default_video None false [].

(** Both queues, both sinks and the status board are given, as [Runtime] gives them. *)
Definition setup : Setup := mkSetup Auto true true true true true.

Definition initialize (c : Cfg.Config) (m : RtspVideoModule) : bool * RtspVideoModule :=
  match source_ m with
  | Some _ => (false, m)
  | None =>
    (true, mkVideo (frames_ m) (encoded_access_units_ m) (status_ m) (Cfg.video c)
             (Some (make_source (Queue.reset (frames_ m)) (Queue.reset (encoded_access_units_ m)) (status_ m))) false (log m))
  end.

Definition with_source (s : RtspSource) (j : bool) (line : list string) (m : RtspVideoModule) : RtspVideoModule :=
  mkVideo (frames_ m) (encoded_access_units_ m) (status_ m) (config_ m) (Some s) j (log m ++ line).

(** [thread]: what creating the thread throws. *)
Definition start (valid : throws unit) (gst_ready : bool) (failure thread : option string) (m : RtspVideoModule)
    : bool * RtspVideoModule :=
  match source_ m with
  | None => (false, m)
  | Some s =>
    match Source.start setup valid gst_ready (joinable m) failure (config_ m) s with
    | inl error => (false, with_source s (joinable m) [error] m)
    | inr s' =>
      match thread with
      | Some error => (false, with_source s' false [error] m)
      | None => (true, with_source s' true ["RTSP source started; connecting"] m)
      end
    end
  end.

(** What the capture thread does. *)
Definition captures (ops : list op) (m : RtspVideoModule) : RtspVideoModule :=
  match source_ m with
  | Some s => if joinable m then with_source (run_ops setup ops s) true [] m else m
  | None => m
  end.

(** The thread ends with [finish] before it is joined. *)
Definition wait (r : Recovery.RtspRecovery) (m : RtspVideoModule) : RtspVideoModule :=
  let '(frames, encoded, status) :=
    match source_ m with
    | Some s =>
      let s := Source.stop setup (if joinable m then (Capture.finish setup r s).2 else s) in
      (Source.frames_ s, Source.encoded_access_units_ s, Source.status_ s)
    | None => (frames_ m, encoded_access_units_ m, status_ m)
    end in
  mkVideo (Queue.shutdown frames) (Queue.shutdown encoded) (Status.apply status Status.ClearVideo) (config_ m) None false (log m).

Definition diagnostics (now : Z) (m : RtspVideoModule) : option Rtsp.RtspDiagnostics := Source.diagnostics now <$> source_ m.

(** Any use of the module. *)
Inductive use :=
  | Initializes (c : Cfg.Config)
  | Starts (valid : throws unit) (gst_ready : bool) (failure thread : option string)
  | Captures (ops : list op)
  | Waits (r : Recovery.RtspRecovery).

Definition apply_use (m : RtspVideoModule) (u : use) : RtspVideoModule :=
  match u with
  | Initializes c => (initialize c m).2
  | Starts valid gst_ready failure thread => (start valid gst_ready failure thread m).2
  | Captures ops => captures ops m
  | Waits r => wait r m
  end.
Definition uses (us : list use) (m : RtspVideoModule) : RtspVideoModule := foldl apply_use m us.

Lemma wait_gone r m : source_ (wait r m) = None /\ joinable (wait r m) = false.
Proof. unfold wait. by destruct (match source_ m with Some _ => _ | None => _ end) as [[? ?] ?]. Qed.

Lemma wait_shut r m : Queue.shutdown_ (frames_ (wait r m)) = true /\
  Queue.shutdown_ (encoded_access_units_ (wait r m)) = true /\ Status.video_available_ (status_ (wait r m)) = false.
Proof.
  unfold wait. destruct (match source_ m with Some _ => _ | None => _ end) as [[? ?] st]. cbn. split_and!; [done|done|]. by destruct st.
Qed.

(** Joining the module after any use leaves no source and no thread: both queues are shut down, so
    that every consumer blocked on them returns, and the status board shows no video. The module can
    then be used again: the next [initialize] succeeds, with empty open queues and a source that has
    published nothing, numbers from the start and waits for its first pipeline. *)
Theorem video_module_restarts us frames encoded status r c :
  let m := wait r (uses us (make_module frames encoded status)) in
  source_ m = None /\ joinable m = false /\ Queue.shutdown_ (frames_ m) = true /\
  Queue.shutdown_ (encoded_access_units_ m) = true /\ Status.video_available_ (status_ m) = false /\
  exists s, initialize c m = (true, mkVideo (frames_ m) (encoded_access_units_ m) (status_ m) (Cfg.video c) (Some s) false (log m)) /\
    fresh s /\ pipeline_generation_ s = 0 /\ Queue.queue_ (Source.frames_ s) = [] /\ Queue.shutdown_ (Source.frames_ s) = false /\
    Queue.queue_ (Source.encoded_access_units_ s) = [] /\ Queue.shutdown_ (Source.encoded_access_units_ s) = false.
Proof.
  intros m. destruct (wait_gone r (uses us (make_module frames encoded status))) as [H1 H2].
  destruct (wait_shut r (uses us (make_module frames encoded status))) as (H3 & H4 & H5). fold m in H1, H2, H3, H4, H5.
  split_and!; try done. unfold initialize. rewrite H1. eexists. split; [reflexivity|]. by split_and!.
Qed.
End VideoModule.

Module EncoderModule.
Import Encoder.

Record H264EncoderModule := mkModule {
  annotated_frames_ : Queue.BoundedQueue Annotator.Frame;
  encoded_access_units_ : Queue.BoundedQueue Media.EncodedAccessUnit;
  status_ : Status.RuntimeStatus;
  encoder_ : option H264Encoder;
  joinable : bool;
  last_error_ : string;
  log : list string;
}.

Definition clear (setup : Setup) (s : Status.RuntimeStatus) : Status.RuntimeStatus :=
  if has_status setup then Status.apply s Status.ClearEncoder else s.

Definition make_encoder (input : Queue.BoundedQueue Annotator.Frame) (output : Queue.BoundedQueue Media.EncodedAccessUnit)
    (status : Status.RuntimeStatus) : H264Encoder :=
  mkEncoder default_config input output status false 0 0 Timeline.no_input Timeline.no_output true no_metrics None 0 [] [] [].

Definition initialize (setup : Setup) (m : H264EncoderModule) : bool * H264EncoderModule :=
  match encoder_ m with
  | Some _ => (false, m)
  | None =>
    let encoded := Queue.reset (encoded_access_units_ m) in
    let status := clear setup (status_ m) in
    (true, mkModule (annotated_frames_ m) encoded status (Some (make_encoder (annotated_frames_ m) encoded status)) false ""
             (log m))
  end.

(** [thread]: what creating the thread throws. *)
Definition start (setup : Setup) (gst_ready plugins : bool) (thread : option string) (now : Z) (m : H264EncoderModule)
    : bool * H264EncoderModule :=
  match encoder_ m with
  | None => (false, m)
  | Some e =>
    let fails e error :=
      (false, mkModule (annotated_frames_ m) (encoded_access_units_ m) (status_ m) (Some e) (joinable m) error (log m ++ [error])) in
    match Encoder.start setup (joinable m) gst_ready plugins now default_config e, thread with
    | inl error, _ => fails e error
    | inr e', Some error => fails e' error
    | inr e', None =>
      (true, mkModule (annotated_frames_ m) (encoded_access_units_ m) (status_ m) (Some e') true "" (log m))
    end
  end.

(** [Encoder.stop] has the end of the thread in it; without a thread only the queue
    and the metrics are left. *)
Definition wait (setup : Setup) (now : Z) (m : H264EncoderModule) : H264EncoderModule :=
  let '(frames, encoded, status) :=
    match encoder_ m with
    | Some e =>
      let e := if joinable m then Encoder.stop setup now e
               else publish_metrics setup now (set_io (input_ e) (Queue.shutdown (output_ e)) (units e) e) in
      (input_ e, output_ e, Encoder.status_ e)
    | None => (annotated_frames_ m, encoded_access_units_ m, status_ m)
    end in
  mkModule frames encoded (clear setup status) None false (last_error_ m) (log m).
End EncoderModule.

Module Ice.

(** The process-wide settings of the ICE library, and its log sink. *)
Record IceRuntimeModule := mkIce {
  host_interfaces : list string;
  verbosity : Z;
  log_sink : bool;
  last_error_ : string;
  log : list string;
}.

Fixpoint commas (names : list string) : string :=
  match names with [] => "" | [n] => n | n :: rest => n +:+ "," +:+ commas rest end.

(** [present]: whether [if_nametoindex] finds an interface. *)
Definition initialize (present : string -> bool) (c : Cfg.WebrtcConfig) (m : IceRuntimeModule) : bool * IceRuntimeModule :=
  let names := Cfg.host_interfaces c in
  if Cfg.rtc_enabled c && negb (existsb present names) then
    (false, mkIce (host_interfaces m) (verbosity m) (log_sink m)
              ("webrtc.host_interfaces has no interface present on this host: [" +:+ commas names +:+ "]") (log m))
  else
    (true, mkIce names (Cfg.ice_log_verbosity c) true ""
             (log m ++ [(if Cfg.rtc_enabled c then "configured" else "disabled") +:+ " mode=lan-only host interfaces=[" +:+
                        commas names +:+ "] ice_log_verbosity=" +:+ to_string (Cfg.ice_log_verbosity c)])).

Definition stop (m : IceRuntimeModule) : IceRuntimeModule :=
  mkIce (host_interfaces m) (verbosity m) false (last_error_ m) (log m).

(** How a line of the library is logged. *)
Definition level_of (detail : Z) (message : string) : LogLevel :=
  let mentions (word : string) := bool_decide (is_Some (String.index 0 word message)) in
  if mentions "FAILED" || mentions "failed" || mentions "error" then Error
  else if 1 <? detail then Debug else Info.
End Ice.
