(* ===== verification/Modules.v ===== *)
(** * The modules under the application ([include/skai/application.hpp], [src/runtime.cpp])

    [LifecycleModule] is the interface of the same name as a type class: the operations,
    and the contract its comment states as laws.  The modules of the service are its
    instances.  [Driven] runs the application's calls ([Lifecycle]) on modules seen only
    through the class, and [Assembly] is the set of modules [Runtime] is built with. *)

From S2P Require Import Prelude Strings ConfigData BoundedQueue Logging Application AlertSnapshots AlertRules Database Recording RecordingModule Health ApiState Annotator WebRtcSession RtspRecovery RtspSource Inference Router StaticFiles HttpServer WebServer WhipPublisher VideoModules.

(** [World]: what a module meets outside of the program during its calls.  [work]: what
    its threads may do between them.  [wait] is [None] when it would block for ever. *)
Class LifecycleModule (M World : Type) := {
  initialize : World -> Cfg.Config -> M -> bool * M;
  start : World -> M -> bool * M;
  stop : World -> M -> M;
  wait : World -> M -> option M;
  last_error : M -> string;
  work : M -> M -> Prop;
  resting : M -> Prop;
  (** "If initialize fails or throws, the module cleans up its own partial state." *)
  initialize_fails w c m m' : resting m -> initialize w c m = (false, m') -> resting m';
  (** "stop requests shutdown without blocking and wait joins workers and releases
      resources. Both must be safe even if start later fails." *)
  released w w' m m' : rtc work (stop w m) m' -> exists m'', wait w' m' = Some m'' /\ resting m'';
}.

(** ** The modules of the service *)

Module Instances.

(** *** Storage *)
Lemma open_failed x d e d' : Storage.connection_ d = None -> Storage.open_locked x d = (inl e, d') -> Storage.connection_ d' = None.
Proof.
  intros H. unfold Storage.open_locked. rewrite H. case_bool_decide; [by intros [= <- <-]|].
  destruct (if _ && _ then _ else _); [by intros [= <- <-]|]. destruct (Storage.opened x); [by intros [= <- <-]|].
  destruct (Sqlite.execute _ _) as [[]]; [by intros [= <- <-]|]. destruct (if Storage.in_memory _ then _ else _) as [error w'].
  destruct (negb _); [by intros [= <- <-]|]. destruct (Storage.migrate_locked w') as [[]]; [by intros [= <- <-]|done].
Qed.

#[export, refine] Instance database_module : LifecycleModule Storage.Database Storage.Env := {|
  initialize x c d := Storage.initialize c x d;
  start _ d := (Storage.start d, d);
  stop _ d := d;
  wait _ d := Some (Storage.wait d);
  last_error d := Storage.last_error_ d;
  work d d' := Storage.is_open d' = Storage.is_open d;
  resting d := Storage.is_open d = false;
|}.
Proof.
  - intros x c d d' H. unfold Storage.is_open in *. apply bool_decide_eq_false, eq_None_not_Some in H. unfold Storage.initialize. rewrite H.
    destruct (Storage.open_locked x _) as [[e|u] d1] eqn:E1; [|done]. intros [= <-].
    apply bool_decide_eq_false, eq_None_not_Some. by apply open_failed in E1.
  - intros _ _ _ d _. eexists. split; [done|]. apply bool_decide_eq_false, eq_None_not_Some. unfold Storage.wait, Storage.close.
    by destruct (Storage.connection_ d) eqn:E.
Defined.

(** *** ICE *)
#[export, refine] Instance ice_module : LifecycleModule Ice.IceRuntimeModule (string -> bool) := {|
  initialize present c m := Ice.initialize present (Cfg.webrtc c) m;
  start _ m := (true, m);
  stop _ m := Ice.stop m;
  wait _ m := Some m;
  last_error m := Ice.last_error_ m;
  work m m' := Ice.log_sink m' = Ice.log_sink m;
  resting m := Ice.log_sink m = false;
|}.
Proof.
  - intros present c m m' H. unfold Ice.initialize. destruct (_ && _); [by intros [= <-]|done].
  - intros _ _ m m' Hr. exists m'. split; [done|]. assert (He : Ice.log_sink (Ice.stop m) = false) by done. revert He.
    induction Hr as [|m1 m2 m3 E _ IH]; [done|]. intros He. apply IH. congruence.
Defined.

(** *** WHIP *)

(** The token, whether the HTTP client initializes, and what starting the thread throws. *)
Record WhipWorld := mkWhipWorld { token : string; curl_ok : bool; thread_error : option string }.

#[export, refine] Instance whip_module : LifecycleModule Publisher.WhipPublisher WhipWorld := {|
  initialize w c p := Publisher.initialize (Cfg.whip c) (token w) (curl_ok w) p;
  start w p := Publisher.start (thread_error w) p;
  stop _ p := Publisher.stop p;
  wait _ p := Some (Publisher.wait p);
  last_error p := Publisher.last_error_ p;
  work p p' := True;
  resting p := Publisher.worker_ p = false;
|}.
Proof.
  - intros w c p p' H. unfold Publisher.initialize. destruct (negb _); [done|]. case_bool_decide; [by intros [= <-]|].
    destruct (negb _); [by intros [= <-]|done].
  - intros _ _ m m' _. eexists. split; [done|]. by repeat split.
Defined.

(** The contract asks for more than rest: "the module cleans up its own partial state". When the HTTP
    client cannot be initialized, the publisher keeps the token it has read, and since a module that
    failed to initialize is neither stopped nor joined, nothing clears it. *)
Theorem failed_whip_keeps_token w c p (He : Cfg.whip_enabled (Cfg.whip c) = true) (Ht : token w <> "") (Hc : curl_ok w = false) :
  let '(ok, p') := initialize w c p in ok = false /\ Publisher.token_ p' = token w.
Proof. cbn. unfold Publisher.initialize. rewrite He, Hc, bool_decide_false by done. done. Qed.

(** *** Web *)
Section Web.
Context {manager : Type} (configure_manager : Cfg.WebrtcConfig -> manager -> manager) (shutdown_manager : manager -> manager).

(** The assets, the address and port, the time of the start, whether posting throws. *)
Record WebWorld := mkWebWorld {
  files : StaticFiles.StaticFileHandler;
  address : bool;
  listen : Z -> throws Z;
  started_at : Z;
  post_throws : bool;
}.

(** The handlers the event loop runs before it returns. *)
Definition joined (h : Server.HttpServer manager) : option (Server.HttpServer manager) :=
  let next a h := default h (Server.step configure_manager shutdown_manager a h) in
  Server.wait (next Server.LoopReturns (next Server.LoopTimer (next Server.LoopStop h))).

(** The event loop's own handlers. *)
Definition on_loop (a : Server.action) : bool :=
  match a with Server.LoopClient _ | Server.LoopStop | Server.LoopTimer | Server.LoopReturns => true | _ => false end.

(** There is a reason for the loop to return. *)
Definition ending (h : Server.HttpServer manager) : bool :=
  match Server.state_ h with
  | None => true
  | Some st => negb (Server.joinable st) || Server.finished st || Server.stopped st || (0 <? Server.stop_posted st)%nat ||
               Server.timer_pending st
  end.

Lemma ending_stop throws h : ending (Server.stop shutdown_manager throws h) = true.
Proof.
  destruct h as [b [st|] sv l]; [|done]. destruct st as [p n a stopped j f posted timer t r]. unfold ending, Server.stop.
  destruct j, throws, stopped, f; cbn; done.
Qed.

Lemma ending_loop a h h' : on_loop a = true -> Server.step configure_manager shutdown_manager a h = Some h' -> ending h = true -> ending h' = true.
Proof.
  intros Ha Hs He. destruct h as [b [st|] sv l]; [|by destruct a]. unfold ending in He. cbn [Server.state_] in He.
  destruct st as [p n acc stopped j f posted timer t r]. destruct a; try done; cbn -[Registry.stop_clients Nat.ltb] in Hs, He; unfold Server.looping, Server.on_stop in Hs; cbn -[Registry.stop_clients Nat.ltb] in Hs.
  all: destruct j, f, stopped; try done; cbn -[Registry.stop_clients Nat.ltb] in *.
  - apply bind_Some in Hs as (st' & Hb & [= <-]). apply bind_Some in Hb as (r' & _ & [= <-]). exact He.
  - destruct (0 <? posted)%nat; [|done]. destruct (Registry.stop_clients r) as [[] r']; cbn in Hs; injection Hs as <-; unfold ending; cbn; by rewrite ?orb_true_r.
  - destruct timer; [|done]. by injection Hs as <-.
  - by injection Hs as <-.
Qed.

Lemma joined_ending h : ending h = true -> exists h', joined h = Some h' /\ Server.state_ h' = None.
Proof.
  intros He. destruct h as [b [st|] sv l]; [|by eexists]. unfold ending in He. cbn [Server.state_] in He. unfold joined.
  destruct st as [p n a stopped j f posted timer t r]. destruct j; [|by eexists].
  destruct f; [by eexists|]. destruct stopped; [by eexists|].
  cbn -[Registry.stop_clients Nat.ltb] in He |- *. unfold Server.looping, Server.on_stop. cbn -[Registry.stop_clients Nat.ltb].
  destruct (0 <? posted)%nat; cbn -[Registry.stop_clients].
  - destruct (Registry.stop_clients r) as [[] r']; cbn; [by eexists|by destruct timer; (eexists; split; [reflexivity|])].
  - cbn in He. rewrite He. cbn. by eexists.
Qed.

#[export, refine] Instance web_module : LifecycleModule (Server.HttpServer manager) WebWorld := {|
  initialize w c h := Server.initialize configure_manager c (files w) (address w) (listen w) h;
  start w h := Server.start (started_at w) h;
  stop w h := Server.stop shutdown_manager (post_throws w) h;
  wait _ h := joined h;
  last_error h := "";
  work h h' := exists a, on_loop a = true /\ Server.step configure_manager shutdown_manager a h = Some h';
  resting h := Server.state_ h = None;
|}.
Proof.
  - intros w c h h' H E. pose proof (Server.initialize_exact configure_manager c (files w) (address w) (listen w) h) as Hx.
    rewrite E in Hx. destruct Hx as [_ Hx]. destruct (Hx eq_refl) as [-> _]. exact H.
  - intros w _ h h' Hr. apply joined_ending. pose proof (ending_stop (post_throws w) h) as He. revert He.
    induction Hr as [|h1 h2 h3 (a & Ha & Hs) _ IH]; [done|]. intros He. apply IH. by eapply ending_loop.
Defined.
End Web.

(** *** Detector *)

(** Whether there is an alert repository, and what the backend factory gives. *)
Record DetectorWorld := mkDetectorWorld { has_repository : bool; backend : option (throws unit) }.

Definition detector_resting (m : Detector.YoloInferenceModule) : Prop :=
  Detector.detector_ m = false /\ Detector.worker_joinable m = false /\ Detector.alert_joinable m = false.

#[export, refine] Instance detector_module : LifecycleModule (Detector.YoloInferenceModule * Snapshots.World) DetectorWorld := {|
  initialize w c m := let '(ok, d, s) := Detector.initialize c (has_repository w) (backend w) m.1 m.2 in (ok, (d, s));
  start _ m := let '(ok, d) := Detector.start m.1 in (ok, (d, m.2));
  stop _ m := (Detector.stop m.1, m.2);
  wait _ m := Some (Detector.wait m.1, m.2);
  last_error m := "";
  work m m' := True;
  resting m := detector_resting m.1;
|}.
Proof.
  - intros w c [m x] m' (H1 & H2 & H3). cbn [fst snd] in *. unfold Detector.initialize. rewrite H1, H2. cbn [orb].
    destruct (if Inference.has_alerts _ then _ else _) as [[alerts x'] errors]. destruct (backend w) as [[e|u]|]; try done; intros [= <-]; by split_and!.
  - intros _ _ m m' _. eexists. split; [done|]. by repeat split.
Defined.

(** *** Recorder *)

(** GStreamer, the drop counter at the start, what the thread did and what closing met. *)
Record RecorderWorld := mkRecorderWorld { recorder_gst : bool; drops : Z; its : list Worker.Iteration; closing : Worker.Iteration }.

#[export, refine] Instance recorder_module : LifecycleModule Recorder.RecordingModule RecorderWorld := {|
  initialize _ c m := Recorder.initialize (Cfg.recording c) m;
  start w m := Recorder.start (recorder_gst w) (drops w) m;
  stop _ m := m;
  wait w m := Some (Recorder.wait (its w) (closing w) m).2;
  last_error m := Recorder.last_error_ m;
  work m m' := True;
  resting m := Recorder.joinable m = false /\ Worker.pipeline_ (Recorder.worker m) = false;
|}.
Proof.
  - intros w c m m' [H1 H2]. unfold Recorder.initialize. by rewrite H1.
  - intros w w' _ m _. destruct (Recorder.recording_ends (its w') (closing w') m) as (H1 & H2 & _). eauto.
Defined.

(** *** Video *)

(** The configuration's check, GStreamer, what the status sink and the thread throw, and
    the recovery state the thread ended in. *)
Record VideoWorld := mkVideoWorld {
  video_config : throws unit;
  video_gst : bool;
  sink_throws : option string;
  thread_throws : option string;
  ended_in : Recovery.RtspRecovery;
}.

#[export, refine] Instance video_module : LifecycleModule VideoModule.RtspVideoModule VideoWorld := {|
  initialize _ c m := VideoModule.initialize c m;
  start w m := VideoModule.start (video_config w) (video_gst w) (sink_throws w) (thread_throws w) m;
  stop _ m := m;
  wait w m := Some (VideoModule.wait (ended_in w) m);
  last_error m := "";
  work m m' := True;
  resting m := VideoModule.source_ m = None /\ VideoModule.joinable m = false;
|}.
Proof.
  - intros w c m m' [H1 H2]. unfold VideoModule.initialize. by rewrite H1.
  - intros w w' _ m _. eexists. split; [done|]. apply VideoModule.wait_gone.
Defined.

(** *** GPS *)
#[export, refine] Instance gps_module : LifecycleModule Gps.GpsModule unit := {|
  initialize _ c m := Gps.initialize (Cfg.gps c) m;
  start _ m := (Gps.start m, m);
  stop _ m := m;
  wait _ m := Some (Gps.wait m);
  last_error m := "";
  work m m' := True;
  resting m := m = Gps.make_module;
|}.
Proof.
  - by intros w c m m' ->.
  - intros _ _ m m' _. eexists. split; [done|]. by repeat split.
Defined.
End Instances.
