(* ===== verification/Runtime.v ===== *)
(** * The module graph ([src/runtime.cpp])

    [Graph] connects the RTSP source to its consumers the way the constructor of
    [Runtime] does: its media status goes to the recording controller and the WebRTC
    manager, its access units to the manager and the WHIP publisher, detections to the
    publisher.  The sinks are called without a lock, so the calls of one operation are
    [pending] until the capture thread makes them, and other threads act in between. *)

From S2P Require Import Prelude Strings Floats ConfigData BoundedQueue RtspRecovery Diagnostics Health Annotator ApiState Recording DetectionSei SeiSelector WebRtcSession WebRtcManager WhipPublisher RtspSource.

Module Graph.
Import Source.

Definition waiting : string := "waiting for a browser-compatible H.264 source".

(** The RTSP source as [RtspVideoModule] makes it. *)
Definition production : Setup := mkSetup Auto true true true true true.

Inductive sink_call :=
  | RecorderStatus (available : bool) (reason : string)
  | ViewersStatus (available : bool) (reason : string)
  | ViewersUnit (u : Media.EncodedAccessUnit)
  | UplinkUnit (u : Media.EncodedAccessUnit).

(** The two sinks of the video module. *)
Definition on_media_status (status : bool * string) : list sink_call :=
  [RecorderStatus status.1 status.2; ViewersStatus status.1 status.2].
Definition on_access_unit (u : Media.EncodedAccessUnit) : list sink_call := [ViewersUnit u; UplinkUnit u].

(** The sink of the detector. *)
Definition on_detections (f : Annotator.Frame) (detections : list Api.DetectionDto) : Selector.SeiSourceResult :=
  Selector.mkSource (Annotator.pts_ns f) (Annotator.source_generation f)
    ((fun d => Codec.normalize_sei_box (Api.x1 d) (Api.y1 d) (Api.x2 d) (Api.y2 d) (Annotator.width f) (Annotator.height f)
                 (Api.class_name d) (Api.confidence d)) <$> detections).

(** [running]: the capture thread exists. *)
Record Graph := mkGraph {
  source : RtspSource;
  running : bool;
  pending : list sink_call;
  recorder : Control.RecordingController;
  viewers : World.World;
  uplink : Publisher.WhipPublisher;
}.

Definition with_recorder (r : Control.RecordingController) (g : Graph) : Graph :=
  mkGraph (source g) (running g) (pending g) r (viewers g) (uplink g).
Definition with_viewers (v : World.World) (g : Graph) : Graph :=
  mkGraph (source g) (running g) (pending g) (recorder g) v (uplink g).
Definition with_uplink (p : Publisher.WhipPublisher) (g : Graph) : Graph :=
  mkGraph (source g) (running g) (pending g) (recorder g) (viewers g) p.

(** One call of a sink. *)
Definition call_sink (c : sink_call) (g : Graph) : Graph :=
  match c with
  | RecorderStatus a r => with_recorder (Control.set_media_available a r (recorder g)) g
  | ViewersStatus a r => with_viewers (default (viewers g) (World.perform (World.SetMedia a r) (viewers g))) g
  | ViewersUnit u => with_viewers (default (viewers g) (World.perform (World.Publish u) (viewers g))) g
  | UplinkUnit u => with_uplink (Publisher.publish_access_unit u (uplink g)) g
  end.

(** The queues have room for 2 frames and 120 access units; before the source says
    anything, both consumers are told that there is no media. *)
Definition make_graph : Graph :=
  let g := mkGraph (make_source (Queue.mkQueue 2 [] Queue.stats_zero false) (Queue.mkQueue 120 [] Queue.stats_zero false)
               Status.make_status) false []
             Control.make_controller (World.initial 0) Publisher.make_publisher in
  call_sink (ViewersStatus false waiting) (call_sink (RecorderStatus false waiting) g).

(** What an operation of the source said, as calls of the sinks. *)
Definition announces (s s' : RtspSource) : list sink_call :=
  (drop (length (told s)) (told s') ≫= on_media_status) ++ (drop (length (units s)) (units s') ≫= on_access_unit).

(** No sink throws, as the consumers' methods do not. *)
Definition calm (o : op) : bool :=
  match o with
  | Opens failure _ _ _ | Pad _ _ _ _ failure => bool_decide (failure = None)
  | Unit failure refused _ => bool_decide (failure = None) && bool_decide (refused = None)
  | _ => true
  end.

Definition moves (s' : RtspSource) (r : bool) (g : Graph) : Graph :=
  mkGraph s' r (announces (source g) s') (recorder g) (viewers g) (uplink g).

(** Only the source reports its media. *)
Definition own_command (k : Control.command) : bool := match k with Control.SetMediaAvailable _ _ => false | _ => true end.
Definition own_action (a : World.Action) : bool := match a with World.Publish _ | World.SetMedia _ _ => false | _ => true end.

(** [UplinkActs] is anything the publisher's own thread and lifecycle do to it. *)
Inductive action :=
  | StartSource (valid : throws unit) (gst_ready : bool) (c : Cfg.VideoConfig)
  | Capture (o : op)
  | CallSink
  | RecorderActs (k : Control.command)
  | ViewersAct (a : World.Action)
  | UplinkActs (f : Publisher.WhipPublisher -> Publisher.WhipPublisher)
  | Detects (f : Annotator.Frame) (detections : list Api.DetectionDto).

(** The source goes on when its sinks have returned; the others at any time. *)
Definition step (a : action) (g : Graph) : option Graph :=
  match a with
  | StartSource valid gst_ready c =>
    match pending g, start production valid gst_ready (running g) None c (source g) with
    | [], inr s' => Some (moves s' true g)
    | [], inl _ => Some g
    | _, _ => None
    end
  | Capture o =>
    match pending g with
    | [] => if running g && calm o then Some (moves (apply_op production (source g) o) true g) else None
    | _ => None
    end
  | CallSink =>
    match pending g with
    | [] => None
    | c :: rest =>
      let g := call_sink c g in
      Some (mkGraph (source g) (running g) rest (recorder g) (viewers g) (uplink g))
    end
  | RecorderActs k => if own_command k then Some (with_recorder (Control.apply (recorder g) k) g) else None
  | ViewersAct a => if own_action a then (fun v => with_viewers v g) <$> World.perform a (viewers g) else None
  | UplinkActs f => Some (with_uplink (f (uplink g)) g)
  | Detects f ds => Some (with_uplink (Publisher.publish_detections (on_detections f ds) (uplink g)) g)
  end.

Fixpoint execute (actions : list action) (g : Graph) : option Graph :=
  match actions with
  | [] => Some g
  | a :: rest => g' ← step a g; execute rest g'
  end.

(** ** What one operation of the source announces *)

(** At most one status, which is the new one; units only of the current pipeline and
    while media is available; and a new pipeline only with media unavailable. *)
Definition emits (s s' : RtspSource) : Prop := exists sts us,
  told s' = told s ++ sts /\ units s' = units s ++ us /\
  (sts = [] /\ media_status_ s' = media_status_ s \/ exists st, sts = [st] /\ media_status_ s' = Some st) /\
  (us = [] \/ media_status_ s' = Some (true, "")) /\
  Forall (fun u => Media.source_generation u = pipeline_generation_ s') us /\
  (pipeline_generation_ s' = pipeline_generation_ s \/ exists r, media_status_ s' = Some (false, r)).

Definition trace (s : RtspSource) := (told s, units s, media_status_ s, pipeline_generation_ s).

Lemma trace_of s s' : ledger s' = ledger s -> media s' = media s -> trace s' = trace s.
Proof. unfold ledger, media, trace. intros [= E1 E2 E3 E4 E5 E6] [= E7 E8]. by rewrite E1, E5, E7, E8. Qed.

Lemma emits_trace s s1 s' : trace s' = trace s1 -> emits s s1 -> emits s s'.
Proof. unfold trace, emits. by intros [= -> -> -> ->]. Qed.

Lemma emits_quiet s s' : trace s' = trace s -> emits s s'.
Proof.
  intros E. apply (emits_trace s s); [done|]. exists [], []. rewrite !app_nil_r. split_and!; try done; [by left|by left|by left].
Qed.

(** A status of the pipeline that is there already, or unavailability. *)
Lemma emits_status b r s s0 : told s = told s0 -> units s = units s0 -> media_status_ s = media_status_ s0 ->
  (pipeline_generation_ s = pipeline_generation_ s0 \/ b = false) -> emits s0 (publish_media_status production None b r s).
Proof.
  intros E1 E2 E3 Hg. unfold publish_media_status. case_bool_decide as Em.
  - exists [], []. rewrite !app_nil_r, E1, E2, E3. split_and!; try done; [by left|by left|].
    destruct Hg as [->| ->]; [by left|]. right. exists r. congruence.
  - exists [(b, r)], []. cbn. rewrite E1, E2, app_nil_r. split_and!; try done; [right; by eexists|by left|].
    destruct Hg as [->| ->]; [by left|]. right. by eexists.
Qed.

Lemma emits_opens created made started s : emits s (open_pipeline production None created made started s).2.
Proof.
  unfold open_pipeline. match goal with |- context [publish_media_status production None false ?m ?x] =>
    pose proof (emits_status false m x s eq_refl eq_refl eq_refl (or_intror eq_refl)) as H;
    set (s2 := publish_media_status production None false m x) in * end.
  clearbody s2. destruct created, made, started; exact H.
Qed.

Lemma emits_pad caps available chain_linked pad_linked s :
  emits s (connect_rtp_pad production caps available chain_linked pad_linked None s).
Proof.
  assert (He : forall e, emits s (set_error production e s)).
  { intros e. apply emits_quiet, trace_of; [apply ledger_error|apply media_error]. }
  unfold connect_rtp_pad. destruct caps as [[name encoding]|]; [|by apply emits_quiet]. cbn zeta.
  destruct (_ || sink_ s); [by apply emits_quiet|]. destruct (negb (forallb _ _)); [apply He|].
  destruct (negb chain_linked); [apply He|]. destruct (negb pad_linked); [apply He|].
  case_bool_decide; [by apply emits_quiet|]. apply emits_status; try done. by left.
Qed.

Lemma emits_unit u s : emits s (capture_access_unit production None None u s).2.
Proof.
  unfold capture_access_unit. set (c := browser_compatible_h264_caps (unit_caps u)).
  pose proof (emits_status (succeeded c) (reason_of c) s s eq_refl eq_refl eq_refl (or_introl eq_refl)) as H.
  set (s1 := publish_media_status production None (succeeded c) (reason_of c) s) in *.
  assert (Hm : media_status_ s1 = Some (succeeded c, reason_of c)).
  { unfold s1, publish_media_status. by case_bool_decide. }
  clearbody s1. destruct c as [e|[]]; [done|]. destruct (unit_buffer u) as [[[[[pts dts] delta] discont] bytes]|]; [|done].
  cbn zeta. case_bool_decide; [by apply (emits_trace s s1)|]. destruct H as (sts & us & H1 & H2 & H3 & H4 & H5 & H6).
  eexists sts, (us ++ [_]). cbn. rewrite H2, <- app_assoc. split_and!; try done; [by right|].
  apply Forall_app. split; [done|]. by apply Forall_singleton.
Qed.

Lemma emits_op o s : calm o = true -> emits s (apply_op production s o).
Proof.
  destruct o; cbn [calm apply_op]; intros Hc; bools; subst; try (by apply emits_quiet);
    try (apply emits_quiet, trace_of; auto using ledger_error, media_error, ledger_recovery, media_recovery; fail).
  - apply emits_opens.
  - apply emits_pad.
  - unfold read_jitter_stats. destruct (if jitterbuffer_ s then stats else None) as [[[lost late] jitter]|]; [|by apply emits_quiet].
    destruct (Rtsp.observe lost _), (Rtsp.observe late _). cbn [snd].
    destruct (bool_decide _); [|by apply emits_quiet]. apply emits_quiet, trace_of; [by rewrite ledger_recovery|by rewrite media_recovery].
  - apply emits_quiet. unfold capture_sample. destruct sample as [v|]; [|done]. destruct (_ && _ && _); [|done].
    destruct (Metrics.observe_frame now (ingest_rate_ s)) as [fps rate]. cbn [snd].
    assert (R : forall r s0, trace (publish_recovery production r s0) = trace s0)
      by (intros; apply trace_of; [apply ledger_recovery|apply media_recovery]).
    rewrite R. cbn [enqueue_frames_ production]. destruct (flt _ _); by destruct fps.
  - apply emits_unit.
Qed.

Lemma emits_start valid gst_ready joinable c s s' :
  start production valid gst_ready joinable None c s = inr s' -> emits s s'.
Proof.
  unfold start. destruct joinable; [done|]. destruct valid as [e|]; [done|]. destruct gst_ready; cbn [negb]; [|done].
  cbn zeta. set (s0 := mkSource c _ _ _ _ _ _ _ _ _ _ _ _ _ _ _ _ _ _ _ _).
  assert (T : trace (update_status production Status.ClearVideo s0) = trace s) by done.
  set (s1 := update_status production Status.ClearVideo s0) in *. clearbody s1. unfold trace in T. injection T as E1 E2 E3 E4.
  pose proof (emits_status false waiting s1 s E1 E2 E3 (or_introl E4)) as H. unfold waiting in H. intros [= <-]. exact H.
Qed.

(** ** The consumers between two announcements *)

Definition media_of (w : World.World) : bool * string :=
  let m := Manager.source (World.manager w) in (Manager.media_available_ m, Manager.media_unavailable_reason_ m).
Definition cached (w : World.World) : option Media.EncodedAccessUnit := Manager.latest_keyframe_ (Manager.source (World.manager w)).
Definition recorder_media (c : Control.RecordingController) : bool * string :=
  (Control.media_available_ c, Control.media_unavailable_reason_ c).

(** A reason is kept only with unavailable media. *)
Definition shown (status : bool * string) : bool * string := (status.1, if status.1 then "" else status.2).

Lemma recorder_keeps k c : own_command k = true -> recorder_media (Control.apply c k) = recorder_media c.
Proof.
  destruct k; try done; intros _; cbn [Control.apply]; unfold Control.start, Control.stop, Control.set_stopped;
    repeat case_match; done.
Qed.

Lemma take_one_source id m : Manager.source (Manager.take_one id m).2 = Manager.source m.
Proof. unfold Manager.take_one. by case_match. Qed.
Lemma drop_failed_source id m : Manager.source (Manager.drop_failed id m).2 = Manager.source m.
Proof. unfold Manager.drop_failed. by case_match. Qed.
Lemma take_stale_source reason order : forall m, Manager.source (Manager.take_stale reason order m).2 = Manager.source m.
Proof.
  induction order as [|[id i] order IH]; intros m; [done|]. cbn [Manager.take_stale]. case_bool_decide; [apply IH|].
  specialize (IH (Manager.count_closed 1 (reason i) (Manager.with_sessions (delete id (Manager.sessions_ m)) m))).
  destruct (Manager.take_stale reason order _) as [l m']. exact IH.
Qed.
Lemma take_stale_sessions reason order : forall m, Manager.sessions_ m = ∅ -> Manager.sessions_ (Manager.take_stale reason order m).2 = ∅.
Proof.
  induction order as [|[id i] order IH]; intros m Hm; [done|]. cbn [Manager.take_stale]. case_bool_decide; [by apply IH|].
  specialize (IH (Manager.count_closed 1 (reason i) (Manager.with_sessions (delete id (Manager.sessions_ m)) m))).
  destruct (Manager.take_stale reason order _) as [l m']. apply IH. cbn. by rewrite Hm, delete_empty.
Qed.

(** What the manager's other callers leave alone. *)
Definition keeps (m m' : Manager.WebRtcManager) : Prop :=
  Manager.media_available_ (Manager.source m') = Manager.media_available_ (Manager.source m) /\
  Manager.media_unavailable_reason_ (Manager.source m') = Manager.media_unavailable_reason_ (Manager.source m) /\
  (Manager.latest_keyframe_ (Manager.source m') = Manager.latest_keyframe_ (Manager.source m) \/
   Manager.latest_keyframe_ (Manager.source m') = None) /\
  (Manager.media_available_ (Manager.source m) = false -> Manager.sessions_ m = ∅ -> Manager.sessions_ m' = ∅).

Lemma keeps_source m m' : Manager.source m' = Manager.source m ->
  (Manager.media_available_ (Manager.source m) = false -> Manager.sessions_ m = ∅ -> Manager.sessions_ m' = ∅) -> keeps m m'.
Proof. intros E H. unfold keeps. rewrite E. split_and!; auto. Qed.

Lemma keeps_take_one id m : keeps m (Manager.take_one id m).2.
Proof. apply keeps_source; [apply take_one_source|]. intros _ H. unfold Manager.take_one. case_match; [|done]. cbn. by rewrite H, delete_empty. Qed.
Lemma keeps_drop_failed id m : keeps m (Manager.drop_failed id m).2.
Proof. apply keeps_source; [apply drop_failed_source|]. intros _ H. unfold Manager.drop_failed. case_match; [|done]. cbn. by rewrite H, delete_empty. Qed.

Lemma keeps_shutdown m : keeps m (Manager.end_shutdown m).2.
Proof.
  unfold Manager.end_shutdown, Manager.take_all. cbn. case_bool_decide; cbn; split_and!; auto.
Qed.

Lemma keeps_reserve id object created m : keeps m (Manager.reserve id object created m).2.
Proof.
  unfold Manager.reserve. destruct (Manager.refuse m) eqn:Er; [by apply keeps_source|]. destruct created; [|by apply keeps_source].
  apply keeps_source; [done|]. intros Ha _. unfold Manager.refuse in Er. rewrite Ha in Er. cbn in Er. by case_match.
Qed.

Lemma viewers_keep a w w' : own_action a = true -> World.perform a w = Some w' -> keeps (World.manager w) (World.manager w').
Proof.

  destruct a; try done; intros _; cbn [World.perform].
  - destruct (Manager.refuse _); [intros [= <-]; by apply keeps_source|]. destruct (Manager.pick_id _ _) as [id|]; cbn [mbind option_bind]; [|done].
    destruct (Session.make_session _ _ _); [|destruct created]; intros [= <-]; apply keeps_reserve.
  - World.at_task Hk Hs.
    destruct (Session.offer_phase _ _); intros [= <-]; by apply keeps_source.
  - World.at_task Hk Hs.
    destruct (negb _); [done|]. destruct (_ || _); intros [= <-]; by apply keeps_source.
  - World.at_task Hk Hs.
    destruct (Session.answerable _); [done|]. intros [= <-]; by apply keeps_source.
  - World.at_task Hk Hs.
    destruct (Session.answer_phase _ _). intros [= <-]; by apply keeps_source.
  - World.at_task Hk Hs.
    destruct (Manager.succeeded r); [destruct (Manager.finalize _ _ _); intros [= <-]; by apply keeps_source|].
    pose proof (keeps_drop_failed (Session.id_ s) (World.manager w)) as H. destruct (Manager.drop_failed _ _) as [[j|] m'].
    + destruct (World.object j w); cbn [mbind option_bind]; [|done]. intros [= <-]. exact H.
    + intros [= <-]. exact H.
  - World.at_task Hk Hs.
    destruct (Session.activate_media _ _ _) as [[] s']; [intros [= <-]; by apply keeps_source|].
    pose proof (keeps_take_one (Session.id_ s) (World.manager w)) as H. destruct (Manager.take_one _ _). intros [= <-]. exact H.
  - pose proof (keeps_take_one id (World.manager w)) as H. destruct (Manager.take_one _ _). intros [= <-]. exact H.
  - set (order := map_to_list _). pose proof (take_stale_source (World.reason_at now w) order (World.manager w)) as H.
    pose proof (take_stale_sessions (World.reason_at now w) order (World.manager w)) as H'.
    destruct (Manager.take_stale _ _ _) as [l m']. intros [= <-]. by apply keeps_source; [|auto].
  - World.at_task Hk Hs. intros [= <-]; by apply keeps_source.
  - World.at_task Hk Hs. intros [= <-]; by apply keeps_source.
  - World.at_task Hk Hs. intros [= <-]; by apply keeps_source.
  - destruct (World.object o w); cbn [mbind option_bind]; [|done]. destruct (World.spontaneous e); [|done]. intros [= <-]; by apply keeps_source.
  - intros [= <-]. by apply keeps_source.
  - destruct (World.control w); try done. pose proof (keeps_shutdown (World.manager w)) as H.
    destruct (Manager.end_shutdown _). intros [= <-]. exact H.
  - destruct (World.control w); try done. intros [= <-]. by apply keeps_source.
Qed.

(** ** The invariant *)

(** What a consumer will show once the pending calls are made. *)
Definition to_recorder (m : bool * string) (c : sink_call) : bool * string :=
  match c with RecorderStatus a r => shown (a, r) | _ => m end.
Definition to_viewers (m : bool * string) (c : sink_call) : bool * string :=
  match c with ViewersStatus a r => shown (a, r) | _ => m end.

Definition reported (g : Graph) : bool * string := default (false, waiting) (media_status_ (source g)).

Record inv (g : Graph) : Prop := {
  recorder_told : foldl to_recorder (recorder_media (recorder g)) (pending g) = shown (reported g);
  viewers_told : foldl to_viewers (media_of (viewers g)) (pending g) = shown (reported g);
  cached_current : forall u, cached (viewers g) = Some u ->
    Media.source_generation u = pipeline_generation_ (source g) \/ exists r, ViewersStatus false r ∈ pending g;
  none_unavailable : (media_of (viewers g)).1 = false -> Manager.sessions_ (World.manager (viewers g)) = ∅;
  viewers_inv : World.inv (viewers g);
  units_current : forall u, ViewersUnit u ∈ pending g -> Media.source_generation u = pipeline_generation_ (source g);
}.

Lemma units_tell us m : foldl to_recorder m (us ≫= on_access_unit) = m /\ foldl to_viewers m (us ≫= on_access_unit) = m.
Proof. induction us as [|u us IH]; [done|]. exact IH. Qed.

Lemma cached_available w u : World.inv w -> cached w = Some u -> (media_of w).1 = true.
Proof. intros ((_ & _ & _ & H) & _) Hu. by destruct (H u Hu). Qed.

Lemma inv_moves g s' r : inv g -> pending g = [] -> emits (source g) s' -> inv (moves s' r g).
Proof.
  intros [I1 I2 I3 I4 I5 I6] Hp (sts & us & H1 & H2 & H3 & H4 & H5 & H6). rewrite Hp in *. cbn in I1, I2.
  assert (Ha : announces (source g) s' = (sts ≫= on_media_status) ++ (us ≫= on_access_unit)).
  { unfold announces. by rewrite H1, H2, !drop_app_length. }
  destruct (units_tell us (shown (default (false, waiting) (media_status_ s')))) as [U1 U2].
  constructor; cbn [moves pending source recorder viewers]; rewrite ?Ha; [| | |done|done|].
  - rewrite foldl_app, I1. unfold reported in *. cbn [source moves].
    destruct H3 as [[-> <-]|(st & -> & Hst)]; [exact U1|]. rewrite Hst in U1 |- *. by destruct st.
  - rewrite foldl_app, I2. unfold reported in *. cbn [source moves].
    destruct H3 as [[-> <-]|(st & -> & Hst)]; [exact U2|]. rewrite Hst in U2 |- *. by destruct st.
  - intros u Hu. destruct (I3 u Hu) as [E|(r' & Hr)]; [|by apply not_elem_of_nil in Hr].
    destruct H6 as [->|(r' & Hr)]; [by left|]. destruct H3 as [[-> Es]|(st & -> & Hst)].
    + pose proof (cached_available _ u I5 Hu) as Hav. rewrite I2 in Hav. unfold reported in Hav. by rewrite <- Es, Hr in Hav.
    + right. exists r'. rewrite Hr in Hst. injection Hst as <-. set_solver.
  - intros u [Hu|Hu]%elem_of_app.
    + apply list_elem_of_bind in Hu as (st & Hu & _). set_solver.
    + apply list_elem_of_bind in Hu as (v & Hu & Hv). rewrite Forall_forall in H5. assert (u = v) as -> by set_solver. by apply H5.
Qed.

(** The two critical sections of the manager that the source enters. *)
Lemma set_media_shows a r w : exists w', World.perform (World.SetMedia a r) w = Some w' /\ media_of w' = shown (a, r) /\
  (a = true -> cached w' = cached w) /\ (a = false -> (media_of w).1 = false -> Manager.sessions_ (World.manager w) = ∅ ->
    Manager.sessions_ (World.manager w') = ∅) /\
  (a = false -> (media_of w).1 = true -> Manager.sessions_ (World.manager w') = ∅).
Proof.
  cbn [World.perform]. unfold Manager.set_media_available, media_of, cached. set (m := World.manager w).
  destruct (Manager.media_available_ (Manager.source m)) eqn:Ea, a;
    (destruct (bool_decide (Manager.media_unavailable_reason_ (Manager.source m) = _)) eqn:Er;
     [rewrite bool_decide_eq_true in Er|]); cbn; eexists; (split; [reflexivity|]); cbn; unfold shown; cbn; fold m;
    try rewrite Ea; try rewrite Er; try (split_and!; done).
  all: clear Er; case_bool_decide; by split_and!.
Qed.

Lemma publish_shows u w : exists w', World.perform (World.Publish u) w = Some w' /\ media_of w' = media_of w /\
  Manager.sessions_ (World.manager w') = Manager.sessions_ (World.manager w) /\
  (forall v, cached w' = Some v -> v = u \/ cached w = Some v).
Proof.
  cbn [World.perform]. unfold Manager.publish_locked, cached, media_of.
  destruct (_ || _ || _) eqn:E; cbn; (eexists; split; [reflexivity|]); cbn; [by split_and!; auto|].
  split_and!; [done|done|]. intros v. destruct (Media.keyframe u); [intros [= <-]; by left|].
  destruct (Media.discontinuity u); [done|by right].
Qed.

Definition rest_of (rest : list sink_call) (g : Graph) : Graph :=
  mkGraph (source g) (running g) rest (recorder g) (viewers g) (uplink g).

Lemma inv_status_call a r rest g : inv g -> pending g = ViewersStatus a r :: rest ->
  inv (rest_of rest (call_sink (ViewersStatus a r) g)).
Proof.
  intros [I1 I2 I3 I4 I5 I6] Hp. rewrite Hp in *. unfold rest_of. cbn [call_sink].
  destruct (set_media_shows a r (viewers g)) as (w' & Ew & S1 & S2 & S3 & S4). rewrite Ew.
  pose proof (World.inv_perform _ _ _ I5 Ew) as I5'.
  constructor; cbn [default from_option id source running pending recorder viewers uplink with_viewers]; [done| | | |done|].
  - rewrite S1. exact I2.
  - intros u Hu. destruct a.
    + rewrite S2 in Hu by done. destruct (I3 u Hu) as [?|(r' & Hr)]; [by left|]. right. exists r'. set_solver.
    + pose proof (cached_available _ _ I5' Hu) as Hav. by rewrite S1 in Hav.
  - rewrite S1. cbn. intros ->. destruct (media_of (viewers g)).1 eqn:Em; auto.
  - intros u Hu. apply I6. by right.
Qed.

Lemma inv_unit_call u rest g : inv g -> pending g = ViewersUnit u :: rest -> inv (rest_of rest (call_sink (ViewersUnit u) g)).
Proof.
  intros [I1 I2 I3 I4 I5 I6] Hp. rewrite Hp in *. unfold rest_of. cbn [call_sink].
  destruct (publish_shows u (viewers g)) as (w' & Ew & P1 & P2 & P3). rewrite Ew.
  pose proof (World.inv_perform _ _ _ I5 Ew) as I5'.
  constructor; cbn [default from_option id source running pending recorder viewers uplink with_viewers]; [done| | | |done|].
  - rewrite P1. exact I2.
  - intros v Hv. destruct (P3 v Hv) as [->|Hv']; [left; apply I6; by left|].
    destruct (I3 v Hv') as [?|(r' & Hr)]; [by left|]. right. exists r'. set_solver.
  - rewrite P1, P2. done.
  - intros v Hv. apply I6. by right.
Qed.

Lemma graph_inv_step a g g' : inv g -> step a g = Some g' -> inv g'.
Proof.
  intros Hi. destruct a as [valid gst_ready c|o| |k|a|f|f ds]; cbn [step].
  - destruct (pending g) eqn:Hp; [|done].
    destruct (start production valid gst_ready (running g) None c (source g)) as [e|s'] eqn:Es; intros [= <-]; [done|].
    apply inv_moves; [done|done|by eapply emits_start].
  - destruct (pending g) eqn:Hp; [|done]. destruct (running g && calm o) eqn:Ec; [|done]. bools. intros [= <-].
    apply inv_moves; [done|done|by apply emits_op].
  - destruct (pending g) as [|[a r|a r|u|u] rest] eqn:Hp; [done|..]; intros [= <-].
    + destruct Hi as [I1 I2 I3 I4 I5 I6]. rewrite Hp in *. constructor; try done.
      * intros u Hu. destruct (I3 u Hu) as [?|(r' & Hr)]; [by left|]. right. exists r'. set_solver.
      * intros u Hu. apply I6. by right.
    + by apply inv_status_call.
    + by apply inv_unit_call.
    + destruct Hi as [I1 I2 I3 I4 I5 I6]. rewrite Hp in *. constructor; try done.
      * intros v Hv. destruct (I3 v Hv) as [?|(r' & Hr)]; [by left|]. right. exists r'. set_solver.
      * intros v Hv. apply I6. by right.
  - destruct (own_command k) eqn:Ek; [|done]. intros [= <-]. destruct Hi as [I1 I2 I3 I4 I5 I6].
    constructor; try done. cbn [recorder with_recorder pending]. by rewrite recorder_keeps.
  - destruct (own_action a) eqn:Ea; [|done]. destruct (World.perform a (viewers g)) as [w'|] eqn:Ew; [|done]. intros [= <-].
    destruct Hi as [I1 I2 I3 I4 I5 I6]. destruct (viewers_keep _ _ _ Ea Ew) as (K1 & K2 & K3 & K4).
    assert (Em : media_of w' = media_of (viewers g)) by (unfold media_of; by rewrite K1, K2).
    constructor; cbn [source running pending recorder viewers uplink with_viewers]; rewrite ?Em; try done.
    + intros u Hu. apply I3. unfold cached in *. destruct K3 as [K3|K3]; [congruence|]. by rewrite K3 in Hu.
    + intros Hm. apply K4; [exact Hm|by apply I4].
    + by eapply World.inv_perform.
  - intros [= <-]. by destruct Hi.
  - intros [= <-]. by destruct Hi.
Qed.

Lemma inv_make : inv make_graph.
Proof.
  constructor; [vm_compute; reflexivity|vm_compute; reflexivity|intros u Hu; by vm_compute in Hu|by intros _| |].
  - eapply (World.inv_perform (World.SetMedia false waiting) (World.initial 0)); [apply World.inv_initial|reflexivity].
  - intros u Hu. by apply not_elem_of_nil in Hu.
Qed.

Lemma inv_graph actions g : execute actions make_graph = Some g -> inv g.
Proof.
  generalize inv_make. generalize make_graph. induction actions as [|a actions IH]; intros g0 Hi; cbn [execute]; [by intros [= <-]|].
  destruct (step a g0) as [g1|] eqn:E; cbn [mbind option_bind]; [|done]. apply IH. by eapply graph_inv_step.
Qed.


(** *** A reconnecting source *)

Definition unit_op (delta : bool) : op :=
  Unit None None (mkUnitSample (Some (Some "constrained-baseline", Some "3.1")) (Some (Some 7, None, delta, false, [0; 0; 1]))).
Definition opened : op := Opens None (inr tt) (inr tt) (inr tt).
Definition sample_actions : list action :=
  [StartSource (inr tt) true Cfg.default_video; CallSink; CallSink;
   ViewersAct (World.Configure Cfg.default_webrtc); Capture opened; CallSink; CallSink;
   Capture (unit_op false); CallSink; CallSink; CallSink; CallSink; Capture (unit_op true); CallSink; CallSink].


(** Before the reconnection the keyframe of the running pipeline is cached. *)
Example keyframe_cached : (fun g => Media.source_generation <$> cached (viewers g)) <$> execute sample_actions make_graph = Some (Some 1).
Proof. vm_compute. reflexivity. Qed.
End Graph.
