(* ===== verification/Service.v ===== *)
(** * The service and its entry point ([src/runtime.cpp], [src/main.cpp])

    [Service] has the lifecycle of [Runtime], its metrics and the probes of the health
    watchdog; [Main] is [main]: command line, signals, the RTSP test mode and the
    service.  What the operating system and GStreamer answer are inputs. *)

From S2P Require Import Prelude Strings Floats ConfigData BoundedQueue Events Logging Application Database Recording Diagnostics Health Annotator ApiState Cli WebRtcSession GstPipeline RtspRecovery RtspSource WhipPublisher Config VideoModules.

Module Service.
Import Health Watchdog.

(** The components the probes and the metrics look at. *)
Record Components := mkComponents {
  video : VideoModule.RtspVideoModule;
  api : Api.ApiState;
  status : Status.RuntimeStatus;
  viewers : WebRtc.WebRtcDiagnostics;
  recorder : Control.RecordingController;
  gps : option Gps.GpsFix;
  serving : bool;
  whip : Publisher.WhipPublisher;
  database : Storage.Database;
  inference_frames : Queue.BoundedQueue Annotator.Frame;
  encoded_access_units : Queue.BoundedQueue Media.EncodedAccessUnit;
}.

Definition runtime_metrics (now : Z) (x : Components) : Metrics.MetricsSnapshot :=
  let d := Metrics.default_metrics in
  Metrics.mkMetrics (Metrics.system d) (VideoModule.diagnostics now (video x))
    (Queue.stats (inference_frames x)) (Queue.size (inference_frames x))
    (Queue.stats (encoded_access_units x)) (Queue.size (encoded_access_units x))
    (Metrics.websocket_clients d) (Publisher.metrics (whip x)) (Metrics.alert_count d) (Metrics.encoder_fps d)
    (Metrics.recent_errors d).

(** [c] is the configuration at the time of [initialize]. *)
Definition probe (c : Cfg.Config) (now : Z) (x : Components) (k : HealthComponent) : ComponentHealth :=
  match k with
  | VideoSource => video_health (VideoModule.diagnostics now (video x)) (Cfg.stall_timeout_ms (Cfg.video c))
  | Detector => detector_health (Api.detector_supported (api x)) (Api.detector_enabled (api x)) (Status.snapshot now (status x))
  | Encoder =>
    encoder_health (Status.snapshot now (status x)) (WebRtc.media_available (viewers x))
      (Cfg.rec_enabled (Cfg.recording c) || Cfg.rtc_enabled (Cfg.webrtc c) || Cfg.whip_enabled (Cfg.whip c))
  | Recorder =>
    recorder_health (Control.status_ (recorder x)) (Control.requested (recorder x)) (Cfg.rec_enabled (Cfg.recording c))
  | Gps => gps_health (Cfg.gps_enabled (Cfg.gps c)) (gps x)
  | Web => web_health (serving x)
  | WebRtc => webrtc_health (viewers x) (Publisher.metrics (whip x))
  | Database => database_health (Storage.health_error (database x))
  end.

Definition set_probes (w : HealthWatchdog) : HealthWatchdog :=
  foldl (fun w p => set_probe p.1 p.2 w) w
    [(VideoSource, false); (Detector, false); (Encoder, false); (Recorder, false); (Gps, false); (Web, true);
     (WebRtc, false); (Database, true)].

Record Runtime := mkRuntime {
  app : Lifecycle.Application;
  runtime_status : Status.RuntimeStatus;
  watchdog : HealthWatchdog;
}.

Definition make_runtime : Runtime := mkRuntime Lifecycle.make_app Status.make_status make_watchdog.

Definition initialize (env : Lifecycle.Env) (r : Runtime) : bool * Runtime :=
  let '(ok, a) := Lifecycle.initialize env (app r) in
  (ok, mkRuntime a (runtime_status r) (if ok then set_probes (watchdog r) else watchdog r)).

(** [c], [now] and [x]: what the first poll of the watchdog sees. *)
Definition start (env : Lifecycle.Env) (c : Cfg.Config) (now : Z) (x : Components) (r : Runtime) : bool * Runtime :=
  let '(ok, a) := Lifecycle.start env (app r) in
  if ok then
    (true, mkRuntime a (Status.apply (runtime_status r) (Status.SetRunning true))
             (Watchdog.start now (fun k => Answers (probe c now x k)) (watchdog r)))
  else (false, mkRuntime a (runtime_status r) (watchdog r)).

Definition stop (r : Runtime) : Runtime :=
  mkRuntime (Lifecycle.stop (app r)) (Status.apply (runtime_status r) (Status.SetRunning false)) (Watchdog.stop (watchdog r)).

(** [None]: blocks. *)
Definition wait (r : Runtime) : option Runtime :=
  (fun a => mkRuntime a (runtime_status r) (watchdog r)) <$> Lifecycle.wait (app r).

(** [~Runtime]. *)
Definition destroy (r : Runtime) : option Runtime := wait (stop r).

(** ** Health of a running service *)

(** Polls of the watchdog, each of what the components are then. *)
Definition polls (c : Cfg.Config) (seen : list (Z * Components)) (w : HealthWatchdog) : HealthWatchdog :=
  foldl (fun w p => tick p.1 (fun k => Answers (probe c p.1 p.2 k)) w) w seen.

Definition essential (k : HealthComponent) : bool := match k with Web | Database => true | _ => false end.

Definition watched (w : HealthWatchdog) : Prop :=
  lifecycle_ w = Running /\ forall k, registered (entries_ w k) = true /\ critical (entries_ w k) = essential k.

Lemma watched_polls c seen : forall w, watched w -> watched (polls c seen w).
Proof. induction seen as [|p seen IH]; intros w H; [done|]. apply IH. exact H. Qed.

Lemma polls_snoc c seen now x w :
  polls c (seen ++ [(now, x)]) w = tick now (fun k => Answers (probe c now x k)) (polls c seen w).
Proof. unfold polls. by rewrite foldl_app. Qed.

Lemma watched_start now p : watched (Watchdog.start now p (set_probes make_watchdog)).
Proof. split; [done|]. by intros []. Qed.


(** ** The lifecycle, run by one caller *)

Definition at_rest (a : Lifecycle.Application) : Prop := Concurrent.inv (a, Concurrent.Idle).

Lemma rest_stop a : at_rest a -> at_rest (Lifecycle.stop a) /\
  (Lifecycle.state_ (Lifecycle.stop a) = Lifecycle.New \/ Lifecycle.state_ (Lifecycle.stop a) = Lifecycle.Stopped).
Proof.
  intros H. unfold Lifecycle.stop. destruct (Lifecycle.state_ a) eqn:E; repeat case_bool_decide; try done; cbn [orb];
    rewrite ?E; auto; unfold at_rest, Concurrent.inv in *; rewrite E in H; try done; cbn.
  all: destruct H as (l0 & l & Hc & Hs & Ha & Hl); split; [|by right]; exists l0, l; split_and!; try done; by rewrite Hl, <- !app_assoc.
Qed.

Lemma rest_wait a : at_rest a -> (Lifecycle.state_ a = Lifecycle.New \/ Lifecycle.state_ a = Lifecycle.Stopped) ->
  exists a', Lifecycle.wait a = Some a' /\ at_rest a' /\ Lifecycle.state_ a' = Lifecycle.New.
Proof.
  unfold at_rest, Concurrent.inv, Lifecycle.wait. intros H [E|E]; rewrite E in *; [exists a; by rewrite E|].
  destruct H as (l0 & l & H1 & H2 & H3 & H4). eexists. split; [reflexivity|]. cbn. split; [|done]. split; [done|].
  rewrite H4, <- !app_assoc. apply Lifecycle.cycles_snoc; [done|]. by apply Lifecycle.cycle_full.
Qed.

Lemma rest_initialize env a : at_rest a -> at_rest (Lifecycle.initialize env a).2.
Proof. apply Concurrent.inv_initialize. Qed.

Lemma rest_start env a : at_rest a -> at_rest (Lifecycle.start env a).2.
Proof.
  intros H. unfold Lifecycle.start. pose proof (Concurrent.inv_start env a _ H) as Hs.
  destruct (Lifecycle.start_locked env a) as [ok a']. cbn [snd] in Hs. destruct (_ || _); [exact Hs|]. cbn [snd].
  destruct (rest_stop a' Hs) as [Hr Hst]. destruct (rest_wait _ Hr Hst) as (a2 & -> & H2 & _). exact H2.
Qed.

(** A runtime at rest is destroyed without blocking, with everything joined. *)
Definition gone (r : Runtime) : Prop :=
  Lifecycle.state_ (app r) = Lifecycle.New /\ Lifecycle.active_ (app r) = [] /\ Lifecycle.cycles (Lifecycle.log (app r)) /\
  Status.running_ (runtime_status r) = false.

Lemma runtime_destroyed r : at_rest (app r) -> exists r', destroy r = Some r' /\ gone r'.
Proof.
  intros H. destruct (rest_stop _ H) as [Hr Hs]. destruct (rest_wait _ Hr Hs) as (a' & Ha & Hi & Hn).
  unfold destroy, wait, stop. cbn [app]. rewrite Ha. eexists. split; [reflexivity|]. unfold gone. cbn.
  unfold at_rest, Concurrent.inv in Hi. rewrite Hn in Hi. destruct Hi as [H1 H2]. split_and!; try done. by destruct (runtime_status r).
Qed.
End Service.

Module Main.
Import Service Source.

Inductive stream := Cout | Cerr.

(** What the process writes; [Logged] is a call of a logger on that stream. *)
Inductive output :=
  | Text (to : stream) (text : string)
  | Logged (to : stream) (level : LogLevel) (module message : string).

(** [sigtimedwait]: SIGINT or SIGTERM, nothing yet ([EAGAIN], [EINTR]), or an error. *)
Inductive waited := Signalled | Again | Broken.

(** What the process meets.  [load]: [load_config] of a path; [source_thread]: what
    starting the capture thread throws; [turns]: for each turn of the test mode what the
    source did, the clock and the answer of the wait; [env]: the modules; [seen]: the
    first poll of the watchdog; [signal]: whether [sigwait] returned a signal. *)
Record Outside := mkOutside {
  version : string;
  arguments : list string;
  blocked : bool;
  gst : option string + unit;
  load : string -> throws Cfg.Config;
  source_thread : option string;
  turns : list (list op * Z * waited);
  env : Lifecycle.Env;
  seen : Z * Components;
  signal : bool;
}.

Record Exit := mkExit {
  code : Z;
  outputs : list output;
  tested : option RtspSource;
  served : option Runtime;
}.

(** Without a path the built-in defaults. *)
Definition configuration (o : Outside) (path : string) : throws Cfg.Config :=
  if bool_decide (path = "") then inr Cfg.default_config else load o path.

(** [Application::initialize] loads the same configuration. *)
Definition env_of (o : Outside) (path : string) : Lifecycle.Env :=
  let e := env o in
  Lifecycle.mkEnv (Lifecycle.present e) (match configuration o path with inl m => Some m | inr _ => None end)
    (Lifecycle.init_result e) (Lifecycle.start_result e) (Lifecycle.module_error e).

Section Process.
(** How a stream prints a [double], and which addresses are valid. *)
Context (show : float64 -> string) (ipv4 ipv6 : string -> bool).

(** *** The test mode *)

(** A source that only counts its frames. *)
Definition test_setup : Setup := mkSetup Auto false false false false false.

Definition wait_failed : string := "failed to wait for shutdown signal".

(** [None]: still running. *)
Fixpoint test_loop (ts : list (list op * Z * waited)) (out : list output) (s : RtspSource)
    : option Exit :=
  match ts with
  | [] => None
  | (ops, now, answer) :: rest =>
    let s := run_ops test_setup ops s in
    let out := out ++ [Text Cout (serialize_rtsp_metrics show (Source.diagnostics now s) +:+ Cli.newline)] in
    match answer with
    | Signalled => Some (mkExit 0 (out ++ [Logged Cerr Info "video" "rtsp-test stopped"]) (Some (Source.stop test_setup s)) None)
    | Broken => Some (mkExit 1 (out ++ [Logged Cerr Error "core" wait_failed]) (Some (Source.stop test_setup s)) None)
    | Again => test_loop rest out s
    end
  end.

Definition rtsp_test (o : Outside) (path : string) : option Exit :=
  match configuration o path with
  | inl e => Some (mkExit 2 [Logged Cerr Error "config" e] None None)
  | inr c =>
    let frames := Queue.mkQueue 2 [] Queue.stats_zero false in
    let s := make_source frames (Queue.mkQueue 1 [] Queue.stats_zero false) Status.make_status in
    let started := Source.start test_setup (Config.validate_video_config ipv4 ipv6 (Cfg.video c)) true false None (Cfg.video c) s in
    match started, source_thread o with
    | inl e, _ => Some (mkExit 2 [Logged Cerr Error "video" e] (Some (Source.stop test_setup s)) None)
    | inr s, Some e => Some (mkExit 2 [Logged Cerr Error "video" e] (Some (Source.stop test_setup s)) None)
    | inr s, None => test_loop (turns o) [Logged Cerr Info "video" "rtsp-test ready"] s
    end
  end.

(** *** The service *)

(** Every way out destroys the runtime; [None]: blocked in it. *)
Definition leave (code : Z) (out : list output) (r : Runtime) : option Exit :=
  (fun r => mkExit code out None (Some r)) <$> destroy r.

Definition reports (r : Runtime) : output :=
  Logged Cerr Error (Lifecycle.last_error_module_ (app r)) (Lifecycle.last_error_ (app r)).

Definition serve (o : Outside) (path : string) : option Exit :=
  let e := env_of o path in
  let c := match configuration o path with inr c => c | inl _ => Cfg.default_config end in
  match initialize e make_runtime with
  | (false, r) => leave 2 [reports r] r
  | (true, r) =>
    match Service.start e c (seen o).1 (seen o).2 r with
    | (false, r) => leave 1 [reports r] r
    | (true, r) =>
      let ready := Logged Cout Info "core" "skai-edge ready" in
      r ← wait (Service.stop r);
      if signal o then leave 0 [ready; Logged Cout Info "core" "skai-edge stopped"] r
      else leave 1 [ready; Logged Cout Error "core" wait_failed] r
    end
  end.

Definition main (o : Outside) : option Exit :=
  let cli := Cli.parse_command_line (version o) (arguments o) in
  match Cli.action cli with
  | Cli.Exit =>
    Some (mkExit (Cli.exit_code cli) [Text (if Cli.exit_code cli =? 0 then Cout else Cerr) (Cli.message cli)] None None)
  | Cli.Run =>
    if negb (blocked o) then
      Some (mkExit 1 [Logged (if Cli.rtsp_test cli then Cerr else Cout) Error "core" "failed to configure shutdown signals"] None None)
    else match (Gst.initialize_once (gst o) None).1 with
    | inl e => Some (mkExit 1 [Logged Cerr Error "gstreamer" e] None None)
    | inr _ => if Cli.rtsp_test cli then rtsp_test o (Cli.config_path cli) else serve o (Cli.config_path cli)
    end
  end.

(** *** Leaving *)

Lemma leave_ok n out r : at_rest (app r) -> exists x r', leave n out r = Some x /\ code x = n /\ served x = Some r' /\ gone r'.
Proof. intros H. destruct (runtime_destroyed r H) as (r' & E & Hg). unfold leave. rewrite E. by eexists _, r'. Qed.

Lemma rest_make : at_rest Lifecycle.make_app.
Proof. split; [done|constructor]. Qed.

Lemma gone_rest r : gone r -> at_rest (app r).
Proof. intros (H1 & H2 & H3 & _). unfold at_rest, Concurrent.inv. by rewrite H1. Qed.

(** C25.   However the service ends, [main] returns, and nothing is left running: the status board
    says so, no module is active, and every module that was initialized has been stopped once and
    joined once, in reverse order. The exit status is 2 exactly when the configuration or a module
    could not be initialized, 0 exactly when every module was initialized and started and a signal
    ended the service, and otherwise 1. *)
Theorem service_always_cleans_up o path (Hc : Cli.is_run (Cli.parse_command_line (version o) (arguments o)) path false)
    (Hb : blocked o = true) (Hg : gst o = inr tt) :
  exists x r, main o = Some x /\ served x = Some r /\ gone r /\
    let '(initialized, a) := Lifecycle.initialize (env_of o path) Lifecycle.make_app in
    (code x = 2 <-> initialized = false) /\
    (code x = 0 <-> initialized = true /\ (Lifecycle.start (env_of o path) a).1 = true /\ signal o = true) /\
    0 <= code x <= 2.
Proof.
  unfold main. rewrite Hc. cbn [Cli.action Cli.rtsp_test Cli.config_path]. rewrite Hb, Hg. cbn [negb Gst.initialize_once fst].
  unfold serve, initialize, Service.start. set (e := env_of o path).
  pose proof (rest_initialize e _ rest_make) as Hi. cbn [app make_runtime].
  destruct (Lifecycle.initialize e Lifecycle.make_app) as [[|] a]; cbn [snd] in Hi.
  - pose proof (rest_start e a Hi) as Hs. cbn [app]. destruct (Lifecycle.start e a) as [[|] a']; cbn [snd fst] in *.
    + set (r := mkRuntime a' _ _). destruct (runtime_destroyed r Hs) as (r1 & E1 & G1). unfold destroy in E1. rewrite E1. cbn [mbind option_bind].
      destruct (signal o); match goal with |- context [leave ?n ?l r1] =>
        destruct (leave_ok n l r1 (gone_rest r1 G1)) as (x & r' & E & C & S & G) end;
        exists x, r'; rewrite C; split_and!; try done; naive_solver.
    + match goal with |- context [leave ?n ?l ?r] => destruct (leave_ok n l r Hs) as (x & r' & E & C & S & G) end.
      exists x, r'. rewrite C. split_and!; try done; naive_solver.
  - match goal with |- context [leave ?n ?l ?r] => destruct (leave_ok n l r Hi) as (x & r' & E & C & S & G) end.
    exists x, r'. rewrite C. split_and!; try done; naive_solver.
Qed.

(** *** The test mode until a signal *)

Definition answer_of (t : list op * Z * waited) : waited := t.2.
Definition is_again (t : list op * Z * waited) : bool := match answer_of t with Again => true | _ => false end.
Definition is_text (x : output) : bool := match x with Text _ _ => true | Logged _ _ _ _ => false end.
Definition prints (out : list output) : nat := length (List.filter is_text out).

Lemma stopped_health s : Rtsp.health (diagnostics_ (Source.stop test_setup s)) = Recovery.Stopped.
Proof. done. Qed.

Lemma test_loop_waits before : forall out s, forallb is_again before = true -> test_loop before out s = None.
Proof.
  induction before as [|[[ops now] a] before IH]; intros out s H; [done|]. cbn in H. destruct a; try done. by apply IH.
Qed.

Lemma test_loop_ends before ops now a rest : forall out s, forallb is_again before = true -> a <> Again ->
  exists x s', test_loop (before ++ (ops, now, a) :: rest) out s = Some x /\
    code x = match a with Signalled => 0 | _ => 1 end /\ prints (outputs x) = (prints out + S (length before))%nat /\
    tested x = Some s' /\ Rtsp.health (diagnostics_ s') = Recovery.Stopped.
Proof.
  assert (P : forall out t, prints (out ++ [Text Cout t]) = S (prints out)).
  { intros out t. unfold prints. rewrite List.filter_app, length_app. cbn. lia. }
  induction before as [|[[ops' now'] b] before IH]; intros out s H Ha.
  - cbn [app test_loop]. destruct a; try done; eexists _, _; (split; [reflexivity|]); cbn [code outputs tested].
    all: split_and!; try done; unfold prints in *; rewrite List.filter_app, length_app, P; cbn; lia.
  - cbn in H. destruct b; try done. cbn [app test_loop]. set (s1 := run_ops test_setup ops' s).
    destruct (IH (out ++ [Text Cout (serialize_rtsp_metrics show (Source.diagnostics now' s1) +:+ Cli.newline)]) s1 H Ha)
      as (x & s' & E & C & O & T1 & T2). exists x, s'. split_and!; try done. rewrite O, P. cbn. lia.
Qed.

(** The test mode goes on as long as no signal comes, prints the metrics of the source once a turn,
    and ends with the source stopped: with status 0 on a signal, 1 when waiting itself fails. *)
Theorem test_mode_until_signal o path c before ops now a rest
    (Hc : Cli.is_run (Cli.parse_command_line (version o) (arguments o)) path true) (Hb : blocked o = true) (Hg : gst o = inr tt)
    (Hl : configuration o path = inr c) (Hv : Config.validate_video_config ipv4 ipv6 (Cfg.video c) = inr tt)
    (Ht : source_thread o = None) (Hw : forallb is_again before = true) :
  (turns o = before -> main o = None) /\
  (turns o = before ++ (ops, now, a) :: rest -> a <> Again ->
   exists x s, main o = Some x /\ code x = match a with Signalled => 0 | _ => 1 end /\
     prints (outputs x) = S (length before) /\ tested x = Some s /\ Rtsp.health (diagnostics_ s) = Recovery.Stopped).
Proof.
  assert (exists s0, main o = test_loop (turns o) [Logged Cerr Info "video" "rtsp-test ready"] s0) as [s0 ->].
  { unfold main. rewrite Hc. cbn [Cli.action Cli.rtsp_test Cli.config_path]. rewrite Hb, Hg. cbn [negb Gst.initialize_once fst].
    unfold rtsp_test. rewrite Hl, Ht, Hv. unfold Source.start. cbn [negb]. by eexists. }
  split.
  - intros ->. by apply test_loop_waits.
  - intros -> Ha. destruct (test_loop_ends before ops now a rest [Logged Cerr Info "video" "rtsp-test ready"] s0 Hw Ha)
      as (x & s' & E & C & O & T1 & T2). exists x, s'. by split_and!.
Qed.
End Process.

(** *** Examples *)

Definition idle : Components :=
  mkComponents (VideoModule.make_module (Queue.mkQueue 2 [] Queue.stats_zero false) (Queue.mkQueue 120 [] Queue.stats_zero false)
                  Status.make_status)
    (Api.make_api None None) Status.make_status WebRtc.no_diagnostics Control.make_controller None true Publisher.make_publisher
    (Storage.make_database "alerts.db" (Sqlite.mkWorld Sqlite.empty_file None [] []))
    (Queue.mkQueue 2 [] Queue.stats_zero false) (Queue.mkQueue 120 [] Queue.stats_zero false).


(** Three modules, of which the web server does not start. *)
Definition small : Lifecycle.Env :=
  Lifecycle.mkEnv (fun m => bool_decide (m ∈ ["storage"; "web"; "video"])) None (fun _ => true)
    (fun m => negb (bool_decide (m = "web"))) (fun _ => "").
Definition outside : Outside :=
  mkOutside "1.0" [] true (inr tt) (fun _ => throw "no such file") None [([], 5, Again); ([], 9, Signalled)] small (1, idle) true.

Lemma service_always_cleans_up_witness :
  exists x r, main (fun _ => "") (fun _ => true) (fun _ => true) outside = Some x /\ served x = Some r /\ gone r /\ code x = 1.
Proof.
  destruct (service_always_cleans_up (fun _ => "") (fun _ => true) (fun _ => true) outside "") as (x & r & H1 & H2 & H3 & _);
    [reflexivity|reflexivity|reflexivity|]. exists x, r. split_and!; [exact H1|exact H2|exact H3|].
  vm_compute in H1. by injection H1 as <-.
Defined.
End Main.
