(* ===== verification/Driven.v ===== *)
(** * The application and the modules it drives ([src/application.cpp], [src/runtime.cpp])

    [Driven] runs the calls of [Lifecycle] on modules that are only known through
    [LifecycleModule], together with the configuration and the logger the application
    keeps.  [Assembly] has the modules [Runtime] is built with. *)

From S2P Require Import Prelude Strings Json Floats Paths ConfigData BoundedQueue Events Logging Application Annotator YoloDetector AlertSnapshots AlertRules Database Recording RecordingModule Health ApiState Inference Router StaticFiles HttpServer WebServer WebRtcManager WhipPublisher VideoModules RtspRecovery Modules Service.

Module Driven.
Import Lifecycle.

(** A module behind a pointer to its interface. *)
Record slot := mkSlot {
  Value : Type;
  Outer : Type;
  ops : LifecycleModule Value Outer;
  value : Value;
  outer : Outer;
}.
#[local] Existing Instance ops.

Definition with_value (s : slot) (v : Value s) : slot := mkSlot (Value s) (Outer s) (ops s) v (outer s).

Definition slot_rests (s : slot) : Prop := resting (value s).

(** Stopped, and since then at work at most. *)
Definition halted (s : slot) : Prop := exists w m, rtc work (Modules.stop w m) (value s).

(** One call of the application on a module, if the module answers as recorded. *)
Definition call_slot (c : Cfg.Config) (k : call) (s : slot) : option slot :=
  match k with
  | Init _ ok => let '(r, v) := Modules.initialize (outer s) c (value s) in if Bool.eqb r ok then Some (with_value s v) else None
  | Start _ ok => let '(r, v) := Modules.start (outer s) (value s) in if Bool.eqb r ok then Some (with_value s v) else None
  | Stop _ => Some (with_value s (Modules.stop (outer s) (value s)))
  | Wait _ => with_value s <$> Modules.wait (outer s) (value s)
  end.

Definition callee (k : call) : string := match k with Init m _ | Start m _ | Stop m | Wait m => m end.

Definition Slots : Type := string -> option slot.
Definition put (n : string) (s : slot) (ms : Slots) : Slots := fun m => if bool_decide (m = n) then Some s else ms m.

Fixpoint replay (c : Cfg.Config) (calls : list call) (ms : Slots) : option Slots :=
  match calls with
  | [] => Some ms
  | k :: rest => s ← ms (callee k); s' ← call_slot c k s; replay c rest (put (callee k) s' ms)
  end.

(** What the modules answer. *)
Definition env_of (loaded : throws Cfg.Config) (c : Cfg.Config) (ms : Slots) : Env :=
  mkEnv (fun n => bool_decide (is_Some (ms n))) (match loaded with inl e => Some e | inr _ => None end)
    (fun n => match ms n with Some s => (Modules.initialize (outer s) c (value s)).1 | None => false end)
    (fun n => match ms n with Some s => (Modules.start (outer s) (value s)).1 | None => false end)
    (fun n => match ms n with Some s => Modules.last_error (Modules.initialize (outer s) c (value s)).2 | None => "" end).

Record Application := mkApplication {
  config_path_ : string;
  config_ : Cfg.Config;
  logger_ : Logging.Logger;
  core : Lifecycle.Application;
  modules_ : Slots;
}.

Definition make_application (path : string) (logger : Logging.Logger) (modules : Slots) : Application :=
  mkApplication path Cfg.default_config logger make_app modules.

(** The application after [core] became [a], with its new calls made. *)
Definition follow (c : Cfg.Config) (logger : Logging.Logger) (a : Lifecycle.Application) (x : Application) : option Application :=
  (fun ms => mkApplication (config_path_ x) c logger a ms) <$> replay c (drop (length (log (core x))) (log a)) (modules_ x).

(** [load]: [load_config]. *)
Definition initialize (now_ms : Z) (load : string -> throws Cfg.Config) (x : Application) : option (bool * Application) :=
  let loaded := if bool_decide (config_path_ x = "") then inr Cfg.default_config else load (config_path_ x) in
  let reads := bool_decide (state_ (core x) = New) in
  let c := match loaded with inr c => if reads then c else config_ x | inl _ => config_ x end in
  let logger := match loaded with
    | inr _ => if reads
        then (Logging.log now_ms Info "config"
                (if bool_decide (config_path_ x = "") then "using built-in defaults" else "configuration validated")
                (Logging.set_minimum_level (Cfg.logging c) (logger_ x))).2
        else logger_ x
    | inl _ => logger_ x
    end in
  let '(ok, a) := Lifecycle.initialize (env_of loaded c (modules_ x)) (core x) in
  (fun x => (ok, x)) <$> follow c logger a x.

Definition start (x : Application) : option (bool * Application) :=
  let '(ok, a) := Lifecycle.start (env_of (inr (config_ x)) (config_ x) (modules_ x)) (core x) in
  (fun x => (ok, x)) <$> follow (config_ x) (logger_ x) a x.

Definition stop (x : Application) : option Application := follow (config_ x) (logger_ x) (Lifecycle.stop (core x)) x.

(** [None]: blocks. *)
Definition wait (x : Application) : option Application :=
  a ← Lifecycle.wait (core x); follow (config_ x) (logger_ x) a x.

Definition destroy (x : Application) : option Application := stop x ≫= wait.

Definition config (x : Application) : Cfg.Config := config_ x.
Definition last_error (x : Application) : string := last_error_ (core x).
Definition last_error_module (x : Application) : string := last_error_module_ (core x).

(** ** Replaying calls *)

Lemma put_eq n s ms : put n s ms n = Some s.
Proof. unfold put. by rewrite bool_decide_true. Qed.
Lemma put_ne n s ms m : m <> n -> put n s ms m = ms m.
Proof. intros. unfold put. by rewrite bool_decide_false. Qed.

Lemma replay_app c k1 k2 ms : replay c (k1 ++ k2) ms = replay c k1 ms ≫= replay c k2.
Proof.
  revert ms. induction k1 as [|k k1 IH]; intros ms; [done|]. cbn [app replay]. destruct (ms (callee k)) as [s|]; [|done]. cbn.
  destruct (call_slot c k s) as [s'|]; [|done]. cbn. apply IH.
Qed.

(** Only the named modules may be away from rest, and those exist. *)
Definition calm (active : list string) (ms : Slots) : Prop :=
  (forall n s, ms n = Some s -> n ∈ active \/ slot_rests s) /\ (forall n, n ∈ active -> is_Some (ms n)).

Lemma calm_put_active active ms n s : calm active ms -> n ∈ active -> calm active (put n s ms).
Proof.
  intros [H1 H2] Hn. split; intros m; destruct (decide (m = n)) as [->|Hne]; rewrite ?put_eq, ?put_ne by done; eauto.
Qed.
Lemma calm_put_new active ms n s : calm active ms -> calm (active ++ [n]) (put n s ms).
Proof.
  intros [H1 H2]. split; intros m; destruct (decide (m = n)) as [->|Hne]; rewrite ?put_eq, ?put_ne by done; eauto.
  - left. set_solver.
  - intros s' Hs'. destruct (H1 m s' Hs'); [left; set_solver|by right].
  - intros [Hm|Hm%list_elem_of_singleton]%elem_of_app; [eauto|done].
Qed.
Lemma calm_put_rests active ms n s : calm active ms -> slot_rests s -> calm active (put n s ms).
Proof.
  intros [H1 H2] Hs. split; intros m; destruct (decide (m = n)) as [->|Hne]; rewrite ?put_eq, ?put_ne by done; eauto.
  intros s' [= <-]. by right.
Qed.

Lemma init_replay loaded c ms0 names : forall active calls ms, NoDup (active ++ names) -> calm active ms ->
  (forall n, n ∈ names -> ms n = ms0 n) ->
  let '(_, active', calls') := init_loop (env_of loaded c ms0) names active calls in
  exists k ms', calls' = calls ++ k /\ replay c k ms = Some ms' /\ calm active' ms' /\ NoDup active'.
Proof.
  induction names as [|n names IH]; intros active calls ms Hd Hc Hs; cbn [init_loop].
  { exists [], ms. rewrite !app_nil_r in *. done. }
  pose proof (Hs n ltac:(by left)) as Hn. assert (Hx : n ∉ active /\ n ∉ names /\ NoDup (active ++ names)).
  { apply NoDup_app in Hd as (D1 & D2 & D3). apply NoDup_cons in D3 as [D3 D4]. split_and!; [|done|].
    - intros Hi. apply (D2 n Hi). by left.
    - apply NoDup_app. split_and!; [done| |done]. intros m Hm Hm'. apply (D2 m Hm). by right. }
  destruct Hx as (X1 & X2 & X3). cbn [present env_of init_result]. destruct (ms0 n) as [s|] eqn:E; cbn [bool_decide].
  2:{ rewrite bool_decide_false by (by intros [? ?]). cbn [negb]. apply (IH active calls ms); [done|done|]. intros m Hm. apply Hs. by right. }
  rewrite bool_decide_true by done. cbn [negb]. destruct (Modules.initialize (outer s) c (value s)) as [r v] eqn:Ei. cbn [fst]. destruct r.
  - specialize (IH (active ++ [n]) (calls ++ [Init n true]) (put n (with_value s v) ms)).
    destruct (init_loop _ _ _ _) as [[res active'] calls'] eqn:El. destruct IH as (k & ms' & -> & H1 & H2 & H3).
    + rewrite <- app_assoc. cbn [app]. done.
    + by apply calm_put_new.
    + intros m Hm. rewrite put_ne by (intros ->; done). apply Hs. by right.
    + exists (Init n true :: k), ms'. rewrite <- app_assoc. split_and!; try done. cbn [replay callee]. rewrite Hn. cbn. by rewrite Ei.
  - exists [Init n false], (put n (with_value s v) ms). split_and!; [done| | |].
    + cbn [replay callee]. rewrite Hn. cbn. by rewrite Ei.
    + apply calm_put_rests; [done|]. destruct (proj1 Hc n s Hn) as [Hi|Hr]; [done|]. exact (initialize_fails _ _ _ _ Hr Ei).
    + by apply NoDup_app in X3 as [? _].
Qed.

Lemma start_replay loaded c ms0 rest : forall active calls ms, NoDup rest -> rest ⊆ active -> calm active ms ->
  (forall n, n ∈ rest -> ms n = ms0 n) ->
  let '(_, calls') := start_loop (env_of loaded c ms0) rest calls in
  exists k ms', calls' = calls ++ k /\ replay c k ms = Some ms' /\ calm active ms'.
Proof.
  induction rest as [|n rest IH]; intros active calls ms Hd Hi Hc Hs; cbn [start_loop]; [exists [], ms; by rewrite app_nil_r|].
  apply NoDup_cons in Hd as [D1 D2]. assert (Hn : n ∈ active) by set_solver. destruct (proj2 Hc n Hn) as [s E].
  pose proof (Hs n ltac:(by left)) as E0. rewrite E in E0. cbn [env_of start_result]. rewrite <- E0.
  destruct (Modules.start (outer s) (value s)) as [r v] eqn:Es. cbn [fst]. destruct r.
  - specialize (IH active (calls ++ [Start n true]) (put n (with_value s v) ms)).
    destruct (start_loop _ _ _) as [res calls']. destruct IH as (k & ms' & -> & H1 & H2); [done|set_solver|by apply calm_put_active| |].
    + intros m Hm. rewrite put_ne by (intros ->; done). apply Hs. by right.
    + exists (Start n true :: k), ms'. rewrite <- app_assoc. split_and!; try done. cbn [replay callee]. rewrite E. cbn. by rewrite Es.
  - exists [Start n false], (put n (with_value s v) ms). split_and!; [done| |by apply calm_put_active].
    cbn [replay callee]. rewrite E. cbn. by rewrite Es.
Qed.

(** Everything named is halted, the rest as before. *)
Lemma stops_replay c l : forall ms, NoDup l -> (forall n, n ∈ l -> is_Some (ms n)) ->
  exists ms', replay c (Stop <$> l) ms = Some ms' /\ (forall n, n ∉ l -> ms' n = ms n) /\
    (forall n, n ∈ l -> exists s, ms' n = Some s /\ halted s).
Proof.
  induction l as [|n l IH]; intros ms Hd Hs; [exists ms; split_and!; try done; by intros n ?%elem_of_nil|].
  apply NoDup_cons in Hd as [D1 D2]. destruct (Hs n ltac:(by left)) as [s E].
  destruct (IH (put n (with_value s (Modules.stop (outer s) (value s))) ms) D2) as (ms' & H1 & H2 & H3).
  { intros m Hm. rewrite put_ne by (intros ->; done). apply Hs. by right. }
  exists ms'. split_and!.
  - cbn [fmap list_fmap replay callee]. rewrite E. cbn. exact H1.
  - intros m Hm. apply not_elem_of_cons in Hm as [Hne Hm]. by rewrite H2, put_ne.
  - intros m [->|Hm]%elem_of_cons; [|by apply H3]. rewrite H2, put_eq by done. eexists. split; [done|]. by exists (outer s), (value s).
Qed.

Lemma waits_replay c l : forall ms, NoDup l -> (forall n, n ∈ l -> exists s, ms n = Some s /\ halted s) ->
  exists ms', replay c (Wait <$> l) ms = Some ms' /\ (forall n, n ∉ l -> ms' n = ms n) /\
    (forall n, n ∈ l -> exists s, ms' n = Some s /\ slot_rests s).
Proof.
  induction l as [|n l IH]; intros ms Hd Hs; [exists ms; split_and!; try done; by intros n ?%elem_of_nil|].
  apply NoDup_cons in Hd as [D1 D2]. destruct (Hs n ltac:(by left)) as (s & E & w & m0 & Hw).
  destruct (released w (outer s) m0 (value s) Hw) as (v & Ev & Hr).
  destruct (IH (put n (with_value s v) ms) D2) as (ms' & H1 & H2 & H3).
  { intros m Hm. rewrite put_ne by (intros ->; done). apply Hs. by right. }
  exists ms'. split_and!.
  - cbn [fmap list_fmap replay callee]. rewrite E. cbn. rewrite Ev. exact H1.
  - intros m Hm. apply not_elem_of_cons in Hm as [Hne Hm]. by rewrite H2, put_ne.
  - intros m [->|Hm]%elem_of_cons; [|by apply H3]. rewrite H2, put_eq by done. by eexists.
Qed.

Definition all_rest (ms : Slots) : Prop := forall n s, ms n = Some s -> slot_rests s.

Lemma release_replay c active ms : NoDup active -> calm active ms ->
  exists ms', replay c (stop_calls active ++ wait_calls active) ms = Some ms' /\ all_rest ms'.
Proof.
  intros Hd [H1 H2]. assert (Hr : NoDup (reverse active)) by (by rewrite reverse_Permutation).
  destruct (stops_replay c (reverse active) ms Hr) as (ms1 & R1 & S1 & S2); [intros n Hn; apply H2; by rewrite elem_of_reverse in Hn|].
  destruct (waits_replay c (reverse active) ms1 Hr S2) as (ms2 & R2 & T1 & T2).
  exists ms2. rewrite replay_app. unfold stop_calls, wait_calls. rewrite R1. cbn. split; [done|]. intros n s E.
  destruct (decide (n ∈ reverse active)) as [Hn|Hn]; [destruct (T2 n Hn) as (s' & E' & ?); congruence|].
  rewrite T1, S1 in E by done. destruct (H1 n s E) as [Hi|]; [|done]. by rewrite elem_of_reverse in Hn.
Qed.

(** ** The application keeps track of its modules *)

Definition inv (x : Application) : Prop :=
  Service.at_rest (core x) /\
  match state_ (core x) with
  | New => all_rest (modules_ x)
  | Initialized | Running => calm (active_ (core x)) (modules_ x)
  | Stopped => calm (active_ (core x)) (modules_ x) /\
      forall n, n ∈ active_ (core x) -> exists s, modules_ x n = Some s /\ halted s
  | Stopping | Joining => False
  end.

Lemma ordered_NoDup : NoDup ordered.
Proof. by apply (bool_decide_unpack _); vm_compute. Qed.

Lemma active_NoDup a : Service.at_rest a -> NoDup (active_ a).
Proof.
  unfold Service.at_rest, Concurrent.inv. destruct (state_ a); try done.
  { intros [-> _]. constructor. }
  all: intros (l0 & l & _ & H & _); exact (sublist_NoDup _ _ ordered_NoDup H).
Qed.

Lemma follow_ok c logger a x k ms : log a = log (core x) ++ k -> replay c k (modules_ x) = Some ms ->
  follow c logger a x = Some (mkApplication (config_path_ x) c logger a ms).
Proof. intros E H. unfold follow. by rewrite E, drop_app_length, H. Qed.

Lemma follow_none c logger a x : log a = log (core x) ->
  follow c logger a x = Some (mkApplication (config_path_ x) c logger a (modules_ x)).
Proof. intros E. apply (follow_ok c logger a x []); [by rewrite app_nil_r|done]. Qed.

Lemma follow_config c logger a x x' : follow c logger a x = Some x' -> config_ x' = c /\ config_path_ x' = config_path_ x.
Proof. unfold follow. destruct (replay _ _ _); cbn; [by intros [= <-]|done]. Qed.

Lemma calm_nil ms : calm [] ms <-> all_rest ms.
Proof.
  unfold calm, all_rest. split; [intros [H _] n s E; by destruct (H n s E) as [?%elem_of_nil|]|].
  intros H. split; [eauto|]. by intros n ?%elem_of_nil.
Qed.

(** [initialize], for any configuration and logger it comes to. *)
Lemma initialize_follows loaded c logger x : inv x ->
  let '(ok, a) := Lifecycle.initialize (env_of loaded c (modules_ x)) (core x) in
  exists x', follow c logger a x = Some x' /\ inv x' /\ config_ x' = c /\ core x' = a.
Proof.
  intros [Hr Hi]. pose proof (Service.rest_initialize (env_of loaded c (modules_ x)) _ Hr) as Hr'. unfold Lifecycle.initialize in *.
  case_bool_decide as Es; cbn [negb] in *.
  2:{ rewrite follow_none by done. by eexists. }
  destruct (config_error _); [rewrite follow_none by done; by eexists|].
  rewrite Es in Hi. unfold Service.at_rest, Concurrent.inv in Hr. rewrite Es in Hr. destruct Hr as [Ha _]. rewrite Ha in *.
  pose proof (init_replay loaded c (modules_ x) ordered [] (log (core x)) (modules_ x) ordered_NoDup (proj2 (calm_nil _) Hi) (fun _ _ => eq_refl)) as H.
  destruct (init_loop _ _ _ _) as [[[m|u] active] calls]; destruct H as (k & ms & -> & H1 & H2 & H3).
  - destruct (release_replay c active ms H3 H2) as (ms' & H4 & H5).
    erewrite (follow_ok _ _ _ _ (k ++ stop_calls active ++ wait_calls active) ms').
    + eexists. split; [done|]. split; [|done]. split; [exact Hr'|exact H5].
    + cbn [log]. by rewrite <- app_assoc.
    + rewrite replay_app, H1. exact H4.
  - erewrite (follow_ok _ _ _ _ k ms); [|done|exact H1]. eexists. split; [done|]. split; [|done]. split; [exact Hr'|exact H2].
Qed.

Lemma stop_follows x : inv x -> exists x', stop x = Some x' /\ inv x' /\ (state_ (core x') = New \/ state_ (core x') = Stopped).
Proof.
  intros [Hr Hi]. pose proof (active_NoDup _ Hr) as Hd. destruct (Service.rest_stop _ Hr) as [Hr' Hst]. unfold stop.
  unfold Lifecycle.stop in *. destruct (bool_decide _ || bool_decide _) eqn:Eb.
  2:{ rewrite follow_none by done. eexists. split; [done|]. split; [by split|done]. }
  assert (Hc : calm (active_ (core x)) (modules_ x)).
  { destruct (state_ (core x)); try done; by apply orb_true_iff in Eb as [Eb|Eb]; apply bool_decide_eq_true in Eb. }
  destruct (stops_replay (config_ x) (reverse (active_ (core x))) (modules_ x)) as (ms & H1 & H2 & H3).
  { by rewrite reverse_Permutation. }
  { intros n Hn. rewrite elem_of_reverse in Hn. by apply Hc. }
  erewrite follow_ok; [|done|exact H1]. eexists. split; [done|]. split; [|done]. split; [exact Hr'|]. cbn [core state_ modules_ active_].
  assert (H4 : forall n, n ∈ active_ (core x) -> exists s, ms n = Some s /\ halted s) by (intros n Hn; apply H3; by rewrite elem_of_reverse).
  split; [|exact H4]. split; [|intros n Hn; destruct (H4 n Hn) as (s & -> & _); by eexists].
  intros n s E. destruct (decide (n ∈ active_ (core x))); [by left|]. rewrite H2 in E by (by rewrite elem_of_reverse). by apply Hc.
Qed.

Lemma wait_follows x : inv x -> (state_ (core x) = New \/ state_ (core x) = Stopped) ->
  exists x', wait x = Some x' /\ inv x' /\ state_ (core x') = New.
Proof.
  intros [Hr Hi] Hs. pose proof (active_NoDup _ Hr) as Hd. destruct (Service.rest_wait _ Hr Hs) as (a & Ha & Hr' & Hn).
  unfold wait. rewrite Ha. cbn [mbind option_bind]. unfold Lifecycle.wait in Ha. destruct Hs as [Hs|Hs]; rewrite Hs in Ha, Hi.
  - injection Ha as <-. rewrite follow_none by done. eexists. split; [done|]. split; [split; [done|cbn; by rewrite Hs]|done].
  - destruct Hi as [Hc Hh]. destruct (waits_replay (config_ x) (reverse (active_ (core x))) (modules_ x)) as (ms & H1 & H2 & H3).
    { by rewrite reverse_Permutation. }
    { intros n Hm. apply Hh. by rewrite elem_of_reverse in Hm. }
    injection Ha as <-. erewrite follow_ok; [|done|exact H1]. eexists. split; [done|]. split; [|done]. split; [done|]. cbn.
    intros n s E. destruct (decide (n ∈ active_ (core x))) as [Hm|Hm].
    + destruct (H3 n) as (s' & E' & ?); [by rewrite elem_of_reverse|]. congruence.
    + rewrite H2 in E by (by rewrite elem_of_reverse). by destruct (proj1 Hc n s E).
Qed.

Lemma start_follows x : inv x -> exists ok x', start x = Some (ok, x') /\ inv x' /\ config_ x' = config_ x /\
  (ok = false -> state_ (core x) = Initialized -> state_ (core x') = New).
Proof.
  intros [Hr Hi]. pose proof (active_NoDup _ Hr) as Hd. unfold start. set (env := env_of _ _ _).
  pose proof (Service.rest_start env _ Hr) as Hr'. unfold Lifecycle.start, start_locked in *. case_bool_decide as Es; cbn [negb orb] in *.
  2:{ rewrite follow_none by done. eexists _, _. split; [done|]. split; [by split|done]. }
  rewrite Es in Hi. pose proof (start_replay (inr (config_ x)) (config_ x) (modules_ x) (active_ (core x)) (active_ (core x)) (log (core x))
    (modules_ x) Hd ltac:(done) Hi (fun _ _ => eq_refl)) as H. fold env in H.
  destruct (start_loop env (active_ (core x)) (log (core x))) as [[m|u] calls]; destruct H as (k & ms & -> & H1 & H2); cbn [orb snd] in *.
  - destruct (release_replay (config_ x) _ ms Hd H2) as (ms' & H4 & H5). rewrite Es in *.
    unfold Lifecycle.stop in *. cbn [state_ active_ last_error_ last_error_module_ log] in *.
    repeat (rewrite bool_decide_true in * by done || rewrite bool_decide_false in * by done). cbn [orb Lifecycle.wait state_ default] in *.
    erewrite (follow_ok _ _ _ _ (k ++ stop_calls (active_ (core x)) ++ wait_calls (active_ (core x))) ms').
    + eexists _, _. split; [done|]. split; [split; [exact Hr'|exact H5]|done].
    + cbn [log]. by rewrite <- !app_assoc.
    + rewrite replay_app, H1. exact H4.
  - erewrite (follow_ok _ _ _ _ k ms); [|done|exact H1]. eexists _, _. split; [done|]. split; [split; [exact Hr'|exact H2]|done].
Qed.

Lemma destroy_follows x : inv x -> exists x', destroy x = Some x' /\ inv x' /\ state_ (core x') = New.
Proof.
  intros H. destruct (stop_follows x H) as (x1 & E1 & H1 & Hs). destruct (wait_follows x1 H1 Hs) as (x2 & E2 & H2 & Hn).
  exists x2. unfold destroy. by rewrite E1.
Qed.

Section Reachable.
Context (load : string -> throws Cfg.Config).

Definition set_module (n : string) (s : slot) (x : Application) : Application :=
  mkApplication (config_path_ x) (config_ x) (logger_ x) (core x) (put n s (modules_ x)).

(** The calls of one owner, the threads of active modules, and a world that changes. *)
Inductive step : Application -> Application -> Prop :=
  | Initializes now_ms x ok x' : initialize now_ms load x = Some (ok, x') -> step x x'
  | Starts x ok x' : start x = Some (ok, x') -> step x x'
  | Stops x x' : stop x = Some x' -> step x x'
  | Waits x x' : wait x = Some x' -> step x x'
  | Works n s v x : modules_ x n = Some s -> n ∈ active_ (core x) -> work (value s) v -> step x (set_module n (with_value s v) x)
  | Meets n s o x : modules_ x n = Some s -> step x (set_module n (mkSlot (Value s) (Outer s) (ops s) (value s) o) x).

(** The built-in configuration, or what the application's file has. *)
Definition configured (x : Application) : Prop := config_ x = Cfg.default_config \/ load (config_path_ x) = inr (config_ x).

Lemma initialize_total now_ms x : inv x -> exists ok x', initialize now_ms load x = Some (ok, x') /\ inv x' /\
  (configured x -> configured x') /\ (ok = false -> state_ (core x') = state_ (core x)).
Proof.
  intros H. unfold initialize. set (loaded := if bool_decide (config_path_ x = "") then _ else _).
  set (reads := bool_decide (state_ (core x) = New)).
  set (c := match loaded with inr c => if reads then c else config_ x | inl _ => config_ x end).
  set (logger := match loaded with inr _ => _ | inl _ => logger_ x end).
  pose proof (initialize_follows loaded c logger x H) as Hf. destruct (Lifecycle.initialize _ _) as [ok a] eqn:El.
  destruct Hf as (x' & E & Hi & Hc & Ha). rewrite E. exists ok, x'. split; [done|]. split; [done|]. split.
  - unfold configured. rewrite Hc. assert (Hp : config_path_ x' = config_path_ x) by (by destruct (follow_config _ _ _ _ _ E)).
    rewrite Hp. unfold c, loaded. case_bool_decide; [destruct reads; auto|]. destruct (load _) eqn:Eload; [done|]. destruct reads; auto.
  - intros ->. rewrite Ha. unfold Lifecycle.initialize in El. case_bool_decide as Es; cbn [negb] in El; [|by injection El as <-].
    rewrite Es. destruct (config_error _); [by injection El as <-|]. destruct (init_loop _ _ _ _) as [[[m|u] active] calls]; [by injection El as <-|done].
Qed.

Lemma inv_module n s s' x : inv x -> modules_ x n = Some s -> (slot_rests s -> slot_rests s') -> (halted s -> halted s') ->
  inv (set_module n s' x).
Proof.
  intros [Hr Hi] E H1 H2. split; [done|]. cbn [set_module core modules_].
  assert (Hc : forall active, calm active (modules_ x) -> calm active (put n s' (modules_ x))).
  { intros active [C1 C2]. split; intros m; destruct (decide (m = n)) as [->|Hne]; rewrite ?put_eq, ?put_ne by done; eauto.
    intros s1 [= <-]. destruct (C1 n s E); auto. }
  destruct (state_ (core x)); try done; [|by apply Hc|by apply Hc|].
  - apply calm_nil, Hc, calm_nil, Hi.
  - destruct Hi as [C1 C2]. split; [by apply Hc|]. intros m Hm. destruct (decide (m = n)) as [->|Hne].
    + rewrite put_eq. exists s'. split; [done|]. destruct (C2 n Hm) as (s0 & E0 & Hh). apply H2. congruence.
    + rewrite put_ne by done. by apply C2.
Qed.

Lemma inv_works n s v x : inv x -> modules_ x n = Some s -> n ∈ active_ (core x) -> work (value s) v -> inv (set_module n (with_value s v) x).
Proof.
  intros [Hr Hi] E Hn Hw. split; [done|]. cbn [set_module core modules_]. destruct (state_ (core x)) eqn:Es; try done.
  - unfold Service.at_rest, Concurrent.inv in Hr. rewrite Es in Hr. destruct Hr as [Ha _]. rewrite Ha in Hn. by apply elem_of_nil in Hn.
  - by apply calm_put_active.
  - by apply calm_put_active.
  - destruct Hi as [C1 C2]. split; [by apply calm_put_active|]. intros m Hm. destruct (decide (m = n)) as [->|Hne].
    + rewrite put_eq. eexists. split; [done|]. destruct (C2 n Hm) as (s0 & E0 & w & m0 & Hh). assert (s0 = s) as -> by congruence.
      exists w, m0. by eapply rtc_r.
    + rewrite put_ne by done. by apply C2.
Qed.

Lemma driven_step x x' : step x x' -> inv x -> inv x' /\ (configured x -> configured x').
Proof.
  intros Hs Hi. destruct Hs as [now x ok x' E|x ok x' E|x x' E|x x' E|n s v x E Hn Hw|n s o x E].
  - destruct (initialize_total now x Hi) as (ok1 & x1 & E1 & H1 & H2 & _). rewrite E in E1. by simplify_eq.
  - destruct (start_follows x Hi) as (ok1 & x1 & E1 & H1 & H2 & _). rewrite E in E1. simplify_eq. split; [done|].
    unfold start in E. destruct (Lifecycle.start _ _) as [ok a]. destruct (follow _ _ _ _) eqn:Ef; [|done]. cbn in E. simplify_eq.
    destruct (follow_config _ _ _ _ _ Ef) as [E3 E4]. unfold configured. by rewrite E3, E4.
  - destruct (stop_follows x Hi) as (x1 & E1 & H1 & _). rewrite E in E1. simplify_eq. split; [done|].
    destruct (follow_config _ _ _ _ _ E) as [E3 E4]. unfold configured. by rewrite E3, E4.
  - unfold wait in E. destruct (Lifecycle.wait (core x)) as [a|] eqn:Ea; [|done]. cbn in E.
    assert (Hst : state_ (core x) = New \/ state_ (core x) = Stopped) by (unfold Lifecycle.wait in Ea; destruct (state_ (core x)); auto; done).
    destruct (wait_follows x Hi Hst) as (x1 & E1 & H1 & _). unfold wait in E1. rewrite Ea in E1. cbn in E1. rewrite E in E1. simplify_eq. split; [done|].
    destruct (follow_config _ _ _ _ _ E) as [E3 E4]. unfold configured. by rewrite E3, E4.
  - split; [by eapply inv_works|done].
  - split; [by eapply inv_module|done].
Qed.

Lemma driven_reach x x' : rtc step x x' -> inv x -> configured x -> inv x' /\ configured x'.
Proof. induction 1 as [|x1 x2 x3 Hs _ IH]; [done|]. intros H1 H2. destruct (driven_step _ _ Hs H1). auto. Qed.

(** C20.   The application drives any modules that keep the interface's contract, through any
    sequence of its calls with the modules' threads at work in between, without ever making a call
    that the module does not return from: initialization and start always return, and leave every
    module at rest when they fail; destroying the application returns from every state, and every
    module is then at rest; no module is away from rest while the application is new; and the
    configuration it reports is the built-in one or the one in its file. *)
Theorem application_drives_modules path logger modules x (Hm : all_rest modules)
    (Hr : rtc step (make_application path logger modules) x) :
  configured x /\ (state_ (core x) = New -> all_rest (modules_ x)) /\
  (forall now_ms, exists ok x', initialize now_ms load x = Some (ok, x') /\
     (ok = false -> state_ (core x) = New -> all_rest (modules_ x'))) /\
  (exists ok x', start x = Some (ok, x') /\ (ok = false -> state_ (core x) = Initialized -> all_rest (modules_ x'))) /\
  (exists x', destroy x = Some x' /\ all_rest (modules_ x')).
Proof.
  destruct (driven_reach _ _ Hr) as [Hi Hc]; [split; [apply Main.rest_make|done]|by left|].
  assert (N : forall y, inv y -> state_ (core y) = New -> all_rest (modules_ y)) by (intros y [_ Hy] E; by rewrite E in Hy).
  split; [done|]. split; [by apply N|]. split_and!.
  - intros now. destruct (initialize_total now x Hi) as (ok & x' & E & H1 & _ & H2). exists ok, x'. split; [done|].
    intros Hok Hn. apply N; [done|]. by rewrite H2.
  - destruct (start_follows x Hi) as (ok & x' & E & H1 & _ & H2). exists ok, x'. split; [done|]. auto.
  - destruct (destroy_follows x Hi) as (x' & E & H1 & H2). eauto.
Qed.
End Reachable.
End Driven.

(** ** The modules of the service *)

Module Assembly.
Import Driven Instances.

Definition waiting : string := "waiting for a browser-compatible H.264 source".

(** [configure] and [shutdown] of the WebRTC manager, once its thread has been joined. *)
Definition shutdown (m : Manager.WebRtcManager) : Manager.WebRtcManager := (Manager.end_shutdown (Manager.begin_shutdown m)).2.

(** What is outside of the process when it is built: the file of the database and the
    disk of the alerts, and the worlds of the modules. *)
Record Outside := mkOutside {
  sqlite : Sqlite.World;
  disk : Snapshots.World;
  storage_world : Storage.Env;
  interfaces : string -> bool;
  whip_world : WhipWorld;
  web_world : WebWorld;
  detector_world : DetectorWorld;
  recorder_world : RecorderWorld;
  video_world : VideoWorld;
}.

(** The modules as the constructor makes them. *)
Record Parts := mkParts {
  database : Storage.Database;
  ice : Ice.IceRuntimeModule;
  whip : Publisher.WhipPublisher;
  web : Server.HttpServer Manager.WebRtcManager;
  detector : option Detector.YoloInferenceModule;
  recorder : Recorder.RecordingModule;
  video : VideoModule.RtspVideoModule;
  gps : Gps.GpsModule;
}.

(** The constructor of [YoloInferenceModule] without an output queue. *)
Definition make_inference (frames : Queue.BoundedQueue Annotator.Frame) (api : Api.ApiState) (status : Status.RuntimeStatus)
    : Detector.YoloInferenceModule :=
  Detector.mkModule
    (Inference.mkWorker frames None (Some api) true status true true true (Queue.mkQueue 2 [] Queue.stats_zero false)
       Annotator.default_options false None [] [] [] []) Alerts.make_manager false false false.

(** [factory]: a backend factory was given; [built]: the build has one. *)
Definition construct (factory built : bool) (w : Sqlite.World) : Parts :=
  let backend := factory || YoloDetector.Detector.inference_backend_available built in
  let frames := Queue.mkQueue 2 [] Queue.stats_zero false in
  let encoded := Queue.mkQueue 120 [] Queue.stats_zero false in
  let status := Status.make_status in
  let api := Api.make_api (Some status) None in
  let database := Storage.make_database "" w in
  let control := Control.set_media_available false waiting Control.make_controller in
  let manager := (Manager.set_media_available false waiting (Manager.make_manager 0)).2 in
  let server := Server.make_server (Router.mkBackends api (Some (Storage.repository [] database)) (Some control) (Some manager)) status in
  let api := Router.api (Server.backends_ server) in
  let api := if backend then api else Api.set_detector_supported false api in
  mkParts database (Ice.mkIce [] 0 false "" []) Publisher.make_publisher
    (Server.mkServer (Router.set_api api (Server.backends_ server)) (Server.state_ server) (Server.serving_ server) (Server.log server))
    (if backend then Some (make_inference frames api status) else None)
    (Recorder.mkModule Cfg.default_recording (Worker.first_state 0 control) false "")
    (VideoModule.make_module frames encoded status) Gps.make_module.

#[local] Existing Instance web_module.

(** [Application::Modules]; there is no encoder. *)
Definition modules (o : Outside) (p : Parts) : Slots := fun n =>
  if bool_decide (n = "storage") then Some (mkSlot _ _ database_module (database p) (storage_world o))
  else if bool_decide (n = "webrtc") then Some (mkSlot _ _ ice_module (ice p) (interfaces o))
  else if bool_decide (n = "whip") then Some (mkSlot _ _ whip_module (whip p) (whip_world o))
  else if bool_decide (n = "web") then Some (mkSlot _ _ (web_module Manager.apply_config shutdown) (web p) (web_world o))
  else if bool_decide (n = "detector") then
    (fun d => mkSlot _ _ detector_module (d, disk o) (detector_world o)) <$> detector p
  else if bool_decide (n = "recording") then Some (mkSlot _ _ recorder_module (recorder p) (recorder_world o))
  else if bool_decide (n = "video") then Some (mkSlot _ _ video_module (video p) (video_world o))
  else if bool_decide (n = "gps") then Some (mkSlot _ _ gps_module (gps p) tt)
  else None.

(** The service as [create_runtime] leaves it. *)
Definition create (path : string) (logger : Logging.Logger) (factory built : bool) (o : Outside) : Application :=
  make_application path logger (modules o (construct factory built (sqlite o))).

Lemma construct_rests factory built o : all_rest (modules o (construct factory built (sqlite o))).
Proof.
  intros n s. unfold modules. repeat case_bool_decide; try done.
  5:{ cbn. destruct (factory || _); [|done]. intros [= <-]. by split_and!. }
  all: intros [= <-]; unfold slot_rests; cbn; try done.
Qed.

(** *** A service whose port is taken *)

Definition quiet_iteration : Worker.Iteration := Worker.mkIteration [] None 0 0 false Worker.NoEvent None Worker.Pushed true.
Definition port_taken : Outside :=
  mkOutside (Sqlite.mkWorld Sqlite.empty_file None [] []) (Snapshots.first_world [] [] [])
    Storage.healthy (fun _ => true) (mkWhipWorld "" true None)
    (mkWebWorld Signaling.no_files true (fun _ => throw "address already in use") 0 false)
    (mkDetectorWorld true (Some (inr tt))) (mkRecorderWorld true 0 [] quiet_iteration)
    (mkVideoWorld (inr tt) true None None (Recovery.make_recovery 0 0 0)).

Definition no_load (path : string) : throws Cfg.Config := throw "no such file".
Definition fresh_service : Application := create "" Logging.make_logger false true port_taken.

Lemma application_drives_modules_witness : exists x',
  Driven.initialize 0 no_load fresh_service = Some (false, x') /\ all_rest (modules_ x') /\
  Driven.last_error x' = "web.initialize failed" /\
  Lifecycle.log (core x') = [Lifecycle.Init "storage" true; Lifecycle.Init "webrtc" true; Lifecycle.Init "whip" true;
    Lifecycle.Init "web" false; Lifecycle.Stop "whip"; Lifecycle.Stop "webrtc"; Lifecycle.Stop "storage";
    Lifecycle.Wait "whip"; Lifecycle.Wait "webrtc"; Lifecycle.Wait "storage"].
Proof.
  destruct (application_drives_modules no_load "" Logging.make_logger (modules port_taken (construct false true (sqlite port_taken))) fresh_service)
    as (_ & _ & H & _); [apply construct_rests|apply rtc_refl|].
  destruct (H 0) as (ok & x' & E & Hr). assert (Hok : fst <$> Driven.initialize 0 no_load fresh_service = Some false) by (by vm_compute).
  rewrite E in Hok. cbn in Hok. injection Hok as ->. exists x'. split; [done|]. split; [by apply Hr|].
  assert (H1 : (fun p => Driven.last_error p.2) <$> Driven.initialize 0 no_load fresh_service = Some "web.initialize failed") by (by vm_compute).
  assert (H2 : (fun p => Lifecycle.log (core p.2)) <$> Driven.initialize 0 no_load fresh_service =
    Some [Lifecycle.Init "storage" true; Lifecycle.Init "webrtc" true; Lifecycle.Init "whip" true;
    Lifecycle.Init "web" false; Lifecycle.Stop "whip"; Lifecycle.Stop "webrtc"; Lifecycle.Stop "storage";
    Lifecycle.Wait "whip"; Lifecycle.Wait "webrtc"; Lifecycle.Wait "storage"]) by (by vm_compute).
  rewrite E in H1, H2. split; [exact (Some_inj _ _ H1)|exact (Some_inj _ _ H2)].
Defined.
End Assembly.
